(* ===== verification/_CoqProject ===== *)
-Q . S2P
Prelude.v
PyFloat.v
Rounding.v
Bytes.v
Metrics.v
Writer.v
Sampler.v
ChaosHarness.v
IndexGate.v
QdrantHarness.v
QdrantCluster.v
QdrantRun.v
Forensics.v
Sift.v
Analyze.v
Aggregate.v
Dissociation.v
NanoRun.v
ForensicsRun.v
Text.v
CheckResearch.v
CheckIndex.v
Detector.v
Reproduction.v
KillStudies.v
SweepDriver.v
Json.v
WeaviateTopology.v
WeaviateProbe.v
WeaviateChecks.v
Dispersion.v
Fisher.v
RepairWindow.v
RepairClock.v
RepairTrajectory.v
DissociationDriver.v
DissociationAnalysis.v
GatedAnalysis.v
HealingAnalysis.v
CorrectedStudy.v
QdrantSweep.v
VerifyCorpus.v
QdrantClient.v
QdrantCorpus.v
QdrantRecord.v
PyText.v
Csv.v
SampleFile.v
AnalyzeReport.v
NanoRecord.v
NanoClient.v
ProbeStubs.v
ForensicsTable.v
QdrantFiles.v
EventReaders.v
ThreadRng.v
RepairDriver.v
GatedReport.v
