(* ===== verification/Prelude.v ===== *)
(** * Replica-Recall-Divergence: a verification library

    The repository measures whether the replicas of a replicated approximate
    nearest-neighbour index drift apart when nodes are killed. It drives three systems
    (nano-db, Qdrant, Weaviate) with Python harnesses that write vectors, kill nodes,
    probe every replica directly, score the answers against exact search, and analyse
    the samples. A wrong number there looks like a finding, so what is verified here is
    the measuring apparatus itself.

    ** Parts, and where they are modelled

    - [Prelude]: exceptions as values ([result]), Python's stable [sorted], dictionaries
      in insertion order, grouping, and the tactics and hint databases.
    - [PyFloat]: finite floats as exact rationals with a separate [nan]; rounding to [n]
      decimals, means, medians and percentiles.
    - [Bytes]: little-endian words and fixed-size records of a byte list.
    - [Text]: [str] as code points, its methods, and the lines a pattern sees. [PyText]:
      decimal text of numbers ([f"{x:.6f}"], [repr], [float], [int], alignment). [Csv]: the
      writer and the reader of the [csv] module in the default dialect, as state machines.
    - [Metrics] ([replica_recall/metrics.py]): the corpus snapshot, exact search,
      [recall_at_k], completeness, pairwise and leave-one-out agreement, [score_replica].
    - [Writer] ([replica_recall/run_experiment.py], [RetainingWriter]): the writer threads
      of nano-db over one shared growable array, as a step function on an explicit heap
      of arrays, so that a snapshot and the live corpus share storage as in the code.
      [ThreadRng]: the per-thread generators of both writers.
    - [Sampler] ([probe.py]; [sample_once], [sampler_loop]): probing and one sweep.
      [ProbeStubs] ([probe.py], [qdrant_probe.py]): the generated stubs, bound once, and the
      channel that is reopened after an error.
    - [ChaosHarness] ([chaos_harness.py]): topology, managed processes, readiness waits,
      the writers and the validator interleaved, the kill loop, [main]. [NanoClient]: its
      HTTP client, the leader wait and the validator on the JSON that is sent.
    - [IndexGate] ([cross_system_replication/qdrant_index_gate.py]): the decision that a
      Qdrant corpus is indexed, and the loop that waits for it.
    - [QdrantHarness] ([qdrant_docker_harness.py]): kill schedules, both kill loops, the
      split-brain check.
    - [QdrantCluster] ([qdrant_topology.py], [qdrant_probe.py]): compose file, waits,
      point ids, paginated listing, batch search.
    - [QdrantRun] ([qdrant_run_experiment.py]): batching writers with pauses, a sweep,
      the comparison at the gate, the stages of a run and its exit status.
    - [Sift] ([replica_recall/sift.py]): the fvecs parser, the cached download, scaling.
    - [NanoRun] ([run_experiment.py]): the pinned and held-out query sets, the sampler's
      rounds over them, [main]. [SampleFile]: [samples.csv] as it writes it and as
      [analyze.load] reads it. [NanoRecord]: [events.json] and [run_meta.json].
    - [Forensics] ([replica_recall/graph_forensics.py]): the binary HNSW file and the
      structural report on its graph. [ForensicsRun]: [link_quality], its [main], and
      [forensics_experiment.py] with its report; [ForensicsTable]: the tables both print.
    - [Analyze] ([replica_recall/analyze.py]) and [Aggregate]
      ([replica_recall/aggregate.py]): the reductions of one run and of a sweep.
      [AnalyzeReport]: the sections that [analyze.py] prints, and its [main].
    - [QdrantCorpus] ([qdrant_run_experiment.py]): what the batching writers do to the
      dictionaries and the growing array, the settled set, snapshots and queries, as an
      implementation of the list of numbers [QdrantRun] has. [QdrantClient]
      ([qdrant_topology.py], [qdrant_probe.py]): the waits and the collection request on the
      JSON that servers send. [QdrantRecord]: the samples, the telemetry and the
      [run_meta.json] of a run, as their readers see them. [QdrantFiles]: its two CSV files as
      text. [EventReaders] ([qdrant_kill_scheduler/derive_catchup_time.py],
      [qdrant_index_gate/analyze_gate.py]): the readers of [events.json].
    - [Json]: JSON values with Python's operations on them, which can raise.
    - [WeaviateTopology], [WeaviateProbe] and [WeaviateChecks]
      ([weaviate_probe/weaviate_topology.py], [feasibility_check.py], [divergence_check.py];
      [weaviate_nonperturbing_probe/internal_api.py]; [weaviate_probe_per_id/per_id.py]): the
      compose writer, the class and its verification, the requests of the internal API down
      to base64, the decoder of their answers with its validation, and both checks.
    - [Dissociation] ([weaviate_dissociation/dissociation.py]): one Weaviate run.
      [DissociationDriver]: its resets and [main], and
      [weaviate_dissociation_180s/run_180s.py]. [DissociationAnalysis]
      ([analyze_dissociation.py]): the report, with every place where it can raise.
    - [Dispersion] and [RealDispersion]: variance, variation, correlation and the fitted line
      of the repair studies, executable, and what they are over the reals.
    - [RepairWindow] ([weaviate_repair_window/characterize.py], [order_vs_phase.py],
      [path_selection.py], [analyze_path_selection.py]), [RepairClock]
      ([weaviate_repair_clock/repair_clock.py], [analyze_clock.py]) and [RepairTrajectory]
      ([weaviate_repair_trajectory/analyze_trajectory.py]): the repair studies.
      [RepairDriver]: the mains of [characterize.py] and [repair_clock.py].
    - [GatedAnalysis] ([qdrant_gated_index_recall/analyze_gated.py],
      [qdrant_index_gate/analyze_gate.py], [qdrant_optimizer_masking/analyze_indexing_lag.py]),
      [HealingAnalysis] ([qdrant_index_recall_healing/analyze_healing.py],
      [cross_system_replication/analyze_healing_variance.py]) and [CorrectedStudy]
      ([kill_spacing_corrected/analyze_corrected.py],
      [loo_agreement_nonpinned_queries/compare_conditions.py]): the Qdrant studies.
      [GatedReport]: the mains of [analyze_gated.py] and [analyze_gate.py].
    - [QdrantSweep] ([qdrant_sweep.py], the two studies' [sweep.py],
      [qdrant_index_gate/sweep_gate.py]) and [VerifyCorpus]
      ([layer1_reproduction/verify_corpus.py]): their drivers and the corpus check.
    - [SweepDriver] ([replica_recall/sweep.py]) and [Reproduction]
      ([layer1_reproduction/run_reproduction.py]): resumable sweeps, the second with its
      stages and a detached cell polled through a marker file.
    - [Detector] ([loo_agreement_qdrant/score_qdrant_detector.py]) and [KillStudies]
      ([qdrant_kill_scheduler/check_realized_schedule.py], [derive_catchup_time.py]):
      studies over recorded runs.
    - [CheckResearch] and [CheckIndex] ([research/check_research.py], [check_index.py]):
      the checks on the research record and on its index.

    A run composes them: the writer's settled ids and snapshot ([Writer], [QdrantRun]) are
    inputs of a sweep ([Sampler]), whose rows are scored by [Metrics]; the rows are the
    input of [Analyze], and the summaries that of [Aggregate]. [QdrantRun] calls
    [IndexGate] before sampling and [QdrantHarness] for its schedule. [NanoRun] uses the
    processes and the kill loop of [ChaosHarness] and its metadata is judged by
    [Analyze.heal_stats]; [ForensicsRun] counts kills from the events of [ChaosHarness];
    [KillStudies] reads the events of [QdrantHarness]; [Detector] scores with
    [Analyze.detection_stats]; the names [SweepDriver] files under are those [Aggregate]
    parses. The clients of one run meet in [QdrantRecord]: the gate pilot and the sweep of
    [QdrantSweep] on one side and the windows of [GatedAnalysis] on the other read what
    [QdrantRun] leaves. [DissociationAnalysis] reads what [Dissociation] and its driver
    record, [RepairTrajectory] what [RepairWindow] records, and [QdrantSweep] is proved
    against the plan and the filing of [SweepDriver]. Between a run and its analysis lies
    text: [SampleFile] and [NanoRecord] join [Sampler] to [AnalyzeReport], and [QdrantFiles]
    joins [QdrantRun] to [GatedReport]. [EventReaders] reads what [QdrantHarness] records.

    ** What the theorems show

    - Ground truth and metrics: exact search returns the true nearest rows in order for
      any tie order; scoring is total and in range; exact answers score 1; leave-one-out
      agreement puts a diverged replica strictly below agreeing peers.
    - Concurrency: under every interleaving the writers keep ids distinct and counters
      balanced; a snapshot is unaffected by later writes although it shares the array;
      the validator raises no false alarm because it reads its bound first; a pause
      bounds what can still enter the corpus.
    - Gates and guards: the waiting loop decides on all polls though it keeps few; a gated
      run samples only an indexed corpus; a Weaviate run measures only behind its guards
      and leaves no node down; how each program can exit.
    - Schedules: a kill schedule is exactly spaced or refused, and every scheduled kill
      leaves one event, whatever Docker does.
    - Files and graphs: reading an index file inverts its layout; the search terminates
      and sees exactly the reachable nodes; the report's fields are consistent.
    - Statistics: the exact Mann-Whitney test counts the observed split and is symmetric,
      and its two implementations agree; healing is judged on missing ids and not on a
      diluted ratio; link quality is the share of exact nearest neighbours stored; a
      catch-up time ends at the first level round before the next kill.
    - Queries and corpus: agreement is scored on queries held out of the pinned set; the
      fvecs parser accepts exactly well-formed files; scaling keeps every ranking; a
      failed download leaves the cache as it was.
    - Drivers: a sweep files each run's own samples and resumes; repeated attempts
      converge; the host waits for a detached cell and no longer; a reproduction that
      returns 0 is complete.
    - Probes: a request decodes to the identifiers asked for; an identifier is reported
      exactly when its bytes are in the answer; a validation that passes has compared the
      decoder with constructed expectations; the checks leave no node down and say "works"
      only for an equal answer.
    - Repair studies: what a repair time and a realized outage are; Fisher's test is a
      p-value; the executable comparisons of dispersion are those of the real coefficients;
      when the calibration of the clock test is right; that the deciding ratio of the
      trajectory study is n/(n-1) on even polls.
    - Dissociation: exactly when its report returns, and that the driver's file is one that
      it can read.
    - Gated studies: the join with the telemetry, that conditioning never makes a value
      worse, that the recorded times select the samples they are meant to, the time-weighted
      mean and the episodes, and when a seed counts as healed.
    - Implementations: the store of the Qdrant writers implements the list of confirmed
      numbers and a sweep reads it consistently; waits on documents are waits on what they
      say; the Qdrant sweep refines the other system's; the gate pilot reports a cell as the
      program it starts ended.
    - Files as text: what a run samples loads back value for value, whatever keys the sampler
      emits; a finished run reaches its report; the statistics of a gated sweep are those of
      the rows its runs sampled, through the files and the directory names.
    - Documents: the validator on JSON is the abstract validator on what the JSON says, and
      exactly which replies end its thread; which events of a chaos loop their readers refuse.
    - Generators: no vector is drawn for two ids under any interleaving of the writers.
    - Mains of the repair studies: one record per planned run, the victim left up, the control
      recorded but not enforced; the clock study and its analysis decide alike.
    - The record: what a clean report of the checkers guarantees about every study, every
      retired claim and every link.

    ** Idealisations

    Finite floating-point arithmetic is exact rational arithmetic; rounding appears where
    the source rounds. [np.argpartition] and [np.argsort] are the class [Numpy] with
    their documented properties as [NumpyLaws], and an instance that sorts, so nothing
    depends on how ties fall. Cosine distance and the normal tail are parameters. Standard
    deviations and coefficients are compared through their signed squares, which
    [RealDispersion] relates to the reals. A CSV cell is missing, blank, unreadable or a
    finite number; names of distances are ASCII; of argparse the options that the drivers
    pass are modelled. Random draws, HTTP and RPC replies, Docker outcomes, clock readings,
    stop signals and thread schedules are inputs over which the theorems quantify. A
    lock-protected block is one step; code between two locks is several.

    Loops that wait take the list of rounds they will see and return [None] when it runs
    out before they decide; the theorems say that they do decide once the clock passes
    the deadline. The graph search has [n + 1] rounds of fuel for [n] nodes, which is
    enough because every round but the last adds a node. All other recursion is
    structural.

    ** Not modelled

    The C++ database itself, which is another language's code; the code that protoc
    generates; the text of JSON files, which are the values they hold (of [run_meta.json] the
    fields that are read back); text printed by the other programs than [analyze.py] and the
    forensics tables, and the standard deviations in the headline of the latter; parsing of
    command lines beyond the options that drivers pass; [shard_status] of the Weaviate internal
    API, a bare request; an interrupt from the keyboard; reading directories, whose contents
    are arguments. What is left of each file is argument declarations, import paths and
    progress messages. The test files are not modelled. Unicode case and word tables beyond
    ASCII are a parameter ([Unicode]).

    ** Order of the work

    First the measuring core ([Metrics], [Writer], [Sampler]), then the fault injection
    and its checks ([ChaosHarness], [QdrantHarness], [IndexGate], [QdrantRun]), then what
    reads the results ([Forensics], [Analyze], [Aggregate]), then the Weaviate run, then
    corpus, queries and whole runs ([Sift], [NanoRun], [ForensicsRun]), the drivers, the
    studies over recorded runs and the checkers, then the Weaviate probes and repair studies,
    the analysers and drivers of the Qdrant studies, then what joins a run to its readers
    ([QdrantClient], [QdrantCorpus], [QdrantRecord]), and last the text of the files and the
    reports, JSON clients, generators, and the mains of the studies. *)

From stdpp Require Import base list gmap strings pretty sorting.
From Stdlib Require Import ZArith Lia.

(** ** Tactics and hint databases *)

Create HintDb pydict.
Create HintDb pysort.
Create Rewrite HintDb pyrw.

(** Case analysis on the scrutinee of the first [match] or [if] of the goal. *)
Ltac case_match_goal :=
  match goal with
  | |- context [match ?x with _ => _ end] => destruct x eqn:?
  end.

(** Turn boolean comparisons in the context into propositions. *)
Ltac breflect :=
  repeat match goal with
  | H : (_ && _)%bool = true |- _ => apply andb_true_iff in H; destruct H
  | H : (_ || _)%bool = false |- _ => apply orb_false_iff in H; destruct H
  | H : negb _ = true |- _ => apply negb_true_iff in H
  | H : negb _ = false |- _ => apply negb_false_iff in H
  | H : Nat.leb _ _ = true |- _ => apply Nat.leb_le in H
  | H : Nat.leb _ _ = false |- _ => apply Nat.leb_gt in H
  | H : Nat.ltb _ _ = true |- _ => apply Nat.ltb_lt in H
  | H : Nat.ltb _ _ = false |- _ => apply Nat.ltb_ge in H
  | H : Nat.eqb _ _ = true |- _ => apply Nat.eqb_eq in H
  | H : Nat.eqb _ _ = false |- _ => apply Nat.eqb_neq in H
  | H : Z.leb _ _ = true |- _ => apply Z.leb_le in H
  | H : Z.leb _ _ = false |- _ => apply Z.leb_gt in H
  | H : Z.ltb _ _ = true |- _ => apply Z.ltb_lt in H
  | H : Z.ltb _ _ = false |- _ => apply Z.ltb_ge in H
  | H : Z.eqb _ _ = true |- _ => apply Z.eqb_eq in H
  | H : Z.eqb _ _ = false |- _ => apply Z.eqb_neq in H
  | H : bool_decide _ = true |- _ => apply bool_decide_eq_true in H
  | H : bool_decide _ = false |- _ => apply bool_decide_eq_false in H
  end.

(** Settle a closed decidable proposition by evaluation. *)
Ltac decide_now := apply (bool_decide_unpack _); vm_compute; exact I.

(** ** Lists of optional values *)

Lemma omap_nil {A B} (f : A -> option B) l : omap f l = [] <-> forall x, x ∈ l -> f x = None.
Proof.
  induction l as [|y l IH]; [split; [by intros _ x ?%not_elem_of_nil|done]|]. cbn. split.
  - intros H z Hz. destruct (f y) eqn:E; [done|]. apply elem_of_cons in Hz as [->|Hz]; [done|by apply IH].
  - intros H. rewrite (H y) by left. apply IH. intros z Hz. apply H. by right.
Qed.

Lemma length_omap_le {A B} (f : A -> option B) l : length (omap f l) <= length l.
Proof. induction l as [|x l IH]; csimpl; [done|]. destruct (f x); cbn; lia. Qed.

(** ** Exceptions

    Code that can raise returns a [result]; the message text of an exception is
    not modelled, its class is. *)

Inductive exn : Type :=
| ValueError
| RuntimeError
| IndexError
| KeyError
| TypeError
| ZeroDivisionError
| OtherError (e : string).

#[export] Instance exn_eq_dec : EqDecision exn.
Proof. solve_decision. Defined.

Inductive result (A : Type) : Type :=
| Ok (a : A)
| Raise (e : exn).
Arguments Ok {A} a.
Arguments Raise {A} e.

Lemma Ok_inj {A} (x y : A) : Ok x = Ok y -> x = y.
Proof. congruence. Qed.

#[export] Instance result_ret : MRet result := fun A a => Ok a.
#[export] Instance result_bind : MBind result := fun A B f m =>
  match m with Ok a => f a | Raise e => Raise e end.
#[export] Instance result_fmap : FMap result := fun A B f m =>
  match m with Ok a => Ok (f a) | Raise e => Raise e end.

(** Follow a chain of bindings that ended well. *)
Ltac bind_inv H :=
  repeat match type of H with
  | (?m ≫= _) = Ok _ => destruct m eqn:?; cbn [mbind result_bind] in H; [|discriminate H]
  end.

(** A list comprehension whose body can raise. *)
Fixpoint rmapM {A B} (f : A -> result B) (l : list A) : result (list B) :=
  match l with
  | [] => Ok []
  | x :: l' => y ← f x; ys ← rmapM f l'; Ok (y :: ys)
  end.

(** [xs[i]] for a nonnegative index. *)
Definition py_index {A} (l : list A) (i : nat) : result A :=
  match l !! i with Some x => Ok x | None => Raise IndexError end.

Lemma rmapM_Ok {A B} (f : A -> result B) l ys :
  rmapM f l = Ok ys <-> Forall2 (fun x y => f x = Ok y) l ys.
Proof.
  split.
  - revert ys. induction l as [|x l IH]; simpl; intros ys H; [by simplify_eq|].
    destruct (f x) as [y|] eqn:Ef; simpl in H; [|done].
    destruct (rmapM f l) as [ys'|] eqn:El; simpl in H; [|done].
    simplify_eq. constructor; auto.
  - induction 1 as [|x y l ys Hxy _ IH]; simpl; [done|]. by rewrite Hxy, IH.
Qed.

Lemma rmapM_Raise {A B} (f : A -> result B) l x e :
  x ∈ l -> f x = Raise e -> exists e', rmapM f l = Raise e'.
Proof.
  intros Hx Hf. induction Hx as [l|x y l Hx IH]; cbn [rmapM].
  - rewrite Hf. by eexists.
  - destruct (IH Hf) as [e' ->]. destruct (f y); by eexists.
Qed.

Lemma rmapM_total {A B} (f : A -> result B) l :
  (forall x, x ∈ l -> exists y, f x = Ok y) -> exists ys, rmapM f l = Ok ys.
Proof.
  induction l as [|x l IH]; intros H; simpl; [eauto|].
  destruct (H x) as [y Hy]; [by left|]. rewrite Hy. simpl.
  destruct IH as [ys ->]; [intros x' ?; apply H; by right|]. simpl. eauto.
Qed.

Lemma rmapM_pure {A B} (f : A -> result B) (g : A -> B) l :
  (forall x, x ∈ l -> f x = Ok (g x)) -> rmapM f l = Ok (g <$> l).
Proof.
  induction l as [|x l IH]; intros H; simpl; [done|].
  rewrite (H x) by (by left). simpl.
  rewrite IH; [done|]. intros x' ?; apply H; by right.
Qed.

(** ** Python's [sorted]: a stable sort

    CPython's [sorted] and [list.sort] are stable, so for a total preorder the
    result is determined by the input: insertion sort that never moves an element
    past an equal one computes the same list. *)

Section StableSort.
Context {A : Type} (leb : A -> A -> bool).

Fixpoint sinsert (x : A) (l : list A) : list A :=
  match l with
  | [] => [x]
  | y :: l' => if leb x y then x :: y :: l' else y :: sinsert x l'
  end.

Fixpoint sorted (l : list A) : list A :=
  match l with
  | [] => []
  | x :: l' => sinsert x (sorted l')
  end.

Lemma sinsert_perm x l : sinsert x l ≡ₚ x :: l.
Proof.
  induction l as [|y l IH]; simpl; [done|].
  destruct (leb x y); [done|]. rewrite IH. by constructor.
Qed.

Lemma sorted_perm l : sorted l ≡ₚ l.
Proof.
  induction l as [|x l IH]; simpl; [done|].
  rewrite sinsert_perm. by constructor.
Qed.

Lemma sorted_length l : length (sorted l) = length l.
Proof. by rewrite sorted_perm. Qed.

Lemma sorted_nil l : sorted l = [] <-> l = [].
Proof.
  split; [|by intros ->]. intros H%(f_equal length). rewrite sorted_length in H. by destruct l.
Qed.

Lemma elem_of_sorted x l : x ∈ sorted l <-> x ∈ l.
Proof. by rewrite sorted_perm. Qed.

Lemma sorted_NoDup l : NoDup (sorted l) <-> NoDup l.
Proof. by rewrite sorted_perm. Qed.

Definition le_of (x y : A) : Prop := leb x y = true.

Context (leb_total : forall x y, leb x y = true \/ leb y x = true).

Lemma sinsert_Sorted x l : Sorted le_of l -> Sorted le_of (sinsert x l).
Proof.
  induction 1 as [|y l Hs IH Hhd]; simpl; [by repeat constructor|].
  destruct (leb x y) eqn:E; [by repeat constructor|].
  constructor; [done|].
  destruct l as [|z l]; simpl in *.
  - constructor. destruct (leb_total x y); [congruence|done].
  - destruct (leb x z); constructor; [|by inversion Hhd].
    destruct (leb_total x y); [congruence|done].
Qed.

Lemma sorted_Sorted l : Sorted le_of (sorted l).
Proof. induction l; simpl; [constructor|by apply sinsert_Sorted]. Qed.

Context (leb_trans : forall x y z, leb x y = true -> leb y z = true -> leb x z = true).

Lemma sorted_StronglySorted l : StronglySorted le_of (sorted l).
Proof.
  apply Sorted_StronglySorted; [|apply sorted_Sorted].
  intros x y z; apply leb_trans.
Qed.

(** The head of a sorted list is a minimum of the input. *)
Lemma sorted_head_min l x l' y :
  sorted l = x :: l' -> y ∈ l -> x = y \/ leb x y = true.
Proof.
  intros Hs Hy. apply elem_of_sorted in Hy. rewrite Hs in Hy.
  pose proof (sorted_StronglySorted l) as HS. rewrite Hs in HS.
  inversion HS as [|? ? _ Hall]; subst.
  apply elem_of_cons in Hy as [->|Hy]; [by left|right].
  rewrite Forall_forall in Hall. by apply Hall.
Qed.

(** Earlier positions hold smaller elements. *)
Lemma sorted_lookup_le l i j a b :
  i <= j -> sorted l !! i = Some a -> sorted l !! j = Some b -> leb a b = true.
Proof.
  pose proof (sorted_StronglySorted l) as HS. revert i j.
  induction HS as [|x s HS IH Hall]; intros i j Hij Ha Hb; [done|].
  destruct i as [|i], j as [|j]; simpl in *; simplify_eq; try lia.
  - match goal with |- leb ?x ?x = _ => by destruct (leb_total x x) end.
  - rewrite Forall_forall in Hall. apply Hall. by eapply list_elem_of_lookup_2.
  - apply (IH i j); [lia|done..].
Qed.
End StableSort.

#[export] Hint Resolve sorted_perm sorted_Sorted : pysort.
#[export] Hint Rewrite @sorted_length : pyrw.

(** ** Python dictionaries, in insertion order

    A [dict] whose iteration order the source relies on is an association list
    with distinct keys; the list order is the insertion order. *)

Section Dict.
Context {K V : Type} `{EqDecision K}.

Fixpoint dget (k : K) (d : list (K * V)) : option V :=
  match d with
  | [] => None
  | (k', v) :: d' => if decide (k = k') then Some v else dget k d'
  end.

(** [d[k] = v]: an existing key keeps its position. *)
Fixpoint dset (k : K) (v : V) (d : list (K * V)) : list (K * V) :=
  match d with
  | [] => [(k, v)]
  | (k', v') :: d' => if decide (k = k') then (k', v) :: d' else (k', v') :: dset k v d'
  end.

Definition dkeys (d : list (K * V)) : list K := d.*1.
Definition dvalues (d : list (K * V)) : list V := d.*2.

Lemma dget_dset k v d k' :
  dget k' (dset k v d) = if decide (k' = k) then Some v else dget k' d.
Proof.
  induction d as [|[k0 v0] d IH]; simpl.
  - repeat case_decide; congruence.
  - destruct (decide (k = k0)) as [->|]; simpl; repeat case_decide; congruence.
Qed.

Lemma dkeys_dset k v d :
  dkeys (dset k v d) = if decide (k ∈ dkeys d) then dkeys d else dkeys d ++ [k].
Proof.
  induction d as [|[k0 v0] d IH]; csimpl.
  - destruct (decide (k ∈ dkeys [])) as [Hc|]; [|done]. by apply not_elem_of_nil in Hc.
  - destruct (decide (k = k0)) as [->|Hne]; unfold dkeys in *; csimpl.
    + rewrite decide_True; [done|]. by left.
    + rewrite IH. destruct (decide (k ∈ d.*1)), (decide (k ∈ k0 :: d.*1)) as [He|He];
        try done.
      * exfalso. apply He. by right.
      * exfalso. apply elem_of_cons in He as [|]; contradiction.
Qed.

Lemma dset_NoDup k v d : NoDup (dkeys d) -> NoDup (dkeys (dset k v d)).
Proof.
  intros H. rewrite dkeys_dset. case_decide; [done|].
  apply NoDup_app; split_and!; [done| |apply NoDup_singleton].
  intros x Hx Hx'. apply list_elem_of_singleton in Hx'. by subst.
Qed.

Lemma dget_Some_elem k v d : dget k d = Some v -> (k, v) ∈ d.
Proof.
  induction d as [|[k0 v0] d IH]; simpl; [done|].
  case_decide; [|right; auto]. intros [= ->]; subst. by left.
Qed.

Lemma dget_elem k v d : NoDup (dkeys d) -> (k, v) ∈ d -> dget k d = Some v.
Proof.
  induction d as [|[k0 v0] d IH]; simpl; [by intros _ ?%not_elem_of_nil|].
  intros Hnd [[= -> ->]|Hin]%elem_of_cons; [by rewrite decide_True|].
  inversion Hnd as [|? ? Hni Hnd']; subst.
  rewrite decide_False; [by apply IH|]. intros ->. apply Hni.
  apply list_elem_of_fmap. by exists (k0, v).
Qed.

Lemma dget_None k d : dget k d = None <-> k ∉ dkeys d.
Proof.
  induction d as [|[k0 v0] d IH]; simpl; [split; [intros _; apply not_elem_of_nil|done]|].
  rewrite not_elem_of_cons. case_decide; [naive_solver|]. rewrite IH. naive_solver.
Qed.
End Dict.

#[export] Hint Rewrite @dget_dset : pyrw.
#[export] Hint Resolve dset_NoDup : pydict.

(** [for x in xs: d.setdefault(key(x), []).append(val(x))] *)
Section GroupBy.
Context {A K V : Type} `{EqDecision K} (key : A -> K) (val : A -> V).

Definition dappend (k : K) (v : V) (d : list (K * list V)) : list (K * list V) :=
  dset k (default [] (dget k d) ++ [v]) d.

Definition group_by (xs : list A) : list (K * list V) :=
  foldl (fun d x => dappend (key x) (val x) d) [] xs.

Lemma group_by_snoc xs x :
  group_by (xs ++ [x]) = dappend (key x) (val x) (group_by xs).
Proof. unfold group_by. by rewrite foldl_app. Qed.

(** The group of [k] is the subsequence of the inputs whose key is [k]. *)
Lemma group_by_get xs k :
  default [] (dget k (group_by xs)) = val <$> filter (fun x => key x = k) xs.
Proof.
  induction xs as [|x xs IH] using rev_ind; [done|].
  rewrite group_by_snoc. unfold dappend. rewrite dget_dset.
  rewrite filter_app, fmap_app, filter_cons, filter_nil.
  destruct (decide (k = key x)) as [->|Hne]; simpl.
  - rewrite IH. by rewrite decide_True.
  - rewrite IH. rewrite decide_False by congruence. by rewrite app_nil_r.
Qed.

Lemma group_by_NoDup xs : NoDup (dkeys (group_by xs)).
Proof.
  induction xs as [|x xs IH] using rev_ind; [constructor|].
  rewrite group_by_snoc. by apply dset_NoDup.
Qed.

Lemma elem_of_group_by_keys xs k : k ∈ dkeys (group_by xs) <-> k ∈ key <$> xs.
Proof.
  induction xs as [|x xs IH] using rev_ind; [done|].
  rewrite group_by_snoc, fmap_app. unfold dappend. rewrite dkeys_dset.
  rewrite elem_of_app, <- IH. simpl. rewrite list_elem_of_singleton.
  case_decide as Hc; [naive_solver|].
  rewrite elem_of_app, list_elem_of_singleton. done.
Qed.

Lemma group_by_elem xs k g :
  (k, g) ∈ group_by xs -> g = val <$> filter (fun x => key x = k) xs.
Proof.
  intros H. apply dget_elem in H; [|apply group_by_NoDup].
  rewrite <- group_by_get, H. done.
Qed.
End GroupBy.

#[export] Hint Resolve group_by_NoDup : pydict.

(** Grouping and sorting related inputs gives related results. *)
Section Related.
Context {K V W : Type} `{EqDecision K} (R : V -> W -> Prop).

Definition same_groups (x : K * list V) (y : K * list W) : Prop := x.1 = y.1 /\ Forall2 R x.2 y.2.

Lemma dget_related k d d' :
  Forall2 same_groups d d' -> Forall2 R (default [] (dget k d)) (default [] (dget k d')).
Proof.
  induction 1 as [|[k1 v] [k2 w] d d' [E Hv] _ IH]; [constructor|]. cbn in E, Hv |- *. subst k2.
  by destruct (decide (k = k1)).
Qed.

Lemma dset_related k v w d d' :
  Forall2 same_groups d d' -> Forall2 R v w -> Forall2 same_groups (dset k v d) (dset k w d').
Proof.
  intros Hd Hv. induction Hd as [|[k1 v1] [k2 w1] d d' [E Hv1] Hd IH]; cbn.
  - by repeat constructor.
  - cbn in E, Hv1. subst k2. destruct (decide (k = k1)); constructor; done.
Qed.

Lemma group_by_related {A B} (key : A -> K) (val : A -> V) (key' : B -> K) (val' : B -> W) l l' :
  Forall2 (fun a b => key a = key' b /\ R (val a) (val' b)) l l' ->
  Forall2 same_groups (group_by key val l) (group_by key' val' l').
Proof.
  unfold group_by. assert (Forall2 same_groups [] []) as H0 by constructor. revert H0.
  generalize (@nil (K * list V)) (@nil (K * list W)). intros d d' Hd Hl. revert d d' Hd.
  induction Hl as [|a b l l' [Ek Hv] _ IH]; intros d d' Hd; cbn; [done|]. apply IH. unfold dappend. rewrite Ek.
  apply dset_related; [done|]. apply Forall2_app; [by apply dget_related|by repeat constructor].
Qed.
End Related.

Lemma sorted_related {A B} (le1 : A -> A -> bool) (le2 : B -> B -> bool) (R : A -> B -> Prop) l l' :
  (forall a a' b b', R a b -> R a' b' -> le1 a a' = le2 b b') ->
  Forall2 R l l' -> Forall2 R (sorted le1 l) (sorted le2 l').
Proof.
  intros Hle. induction 1 as [|x y l l' Hxy _ IH]; cbn [sorted]; [constructor|].
  induction IH as [|a b m m' Hab Hm IH2]; cbn [sinsert]; [by repeat constructor|].
  rewrite (Hle x a y b Hxy Hab). destruct (le2 y b); repeat constructor; done.
Qed.

Lemma dset_concat_perm {K V} `{EqDecision K} (k : K) (v : V) (d : list (K * list V)) :
  concat (dvalues (dappend k v d)) ≡ₚ v :: concat (dvalues d).
Proof.
  unfold dappend, dvalues. induction d as [|[k0 l0] d IH]; csimpl; [done|].
  destruct (decide (k = k0)) as [->|Hne]; csimpl.
  - rewrite <- app_assoc. simpl. by rewrite <- Permutation_middle.
  - rewrite IH. by rewrite Permutation_middle.
Qed.

(** Grouping neither loses nor duplicates a value. *)
Lemma group_by_concat {A K V} `{EqDecision K} (key : A -> K) (val : A -> V) xs :
  concat (dvalues (group_by key val xs)) ≡ₚ val <$> xs.
Proof.
  induction xs as [|x xs IH] using rev_ind; [done|].
  rewrite group_by_snoc, dset_concat_perm, IH, fmap_app. simpl.
  by rewrite Permutation_app_comm.
Qed.

(** ** Further list lemmas *)

(** [x for x in xs if p(x)] with a boolean test. *)
Lemma elem_of_bfilter {A} (p : A -> bool) (xs : list A) x :
  x ∈ List.filter p xs <-> x ∈ xs /\ p x = true.
Proof. rewrite !list_elem_of_In. apply filter_In. Qed.

Lemma filter_length_perm {A} (p : A -> bool) l l' :
  l ≡ₚ l' -> length (List.filter p l) = length (List.filter p l').
Proof.
  induction 1 as [|x l l' _ IH|x y l|]; simpl; try done.
  - destruct (p x); simpl; auto.
  - by destruct (p x), (p y).
  - congruence.
Qed.

Lemma bfilter_nil {A} (p : A -> bool) (xs : list A) :
  List.filter p xs = [] <-> forall x, x ∈ xs -> p x = false.
Proof.
  induction xs as [|y ys IH]; simpl; [by split; [intros _ x ?%not_elem_of_nil|]|].
  setoid_rewrite elem_of_cons. destruct (p y) eqn:E; [|naive_solver].
  split; [done|]. intros H. by rewrite (H y) in E by (by left).
Qed.

Lemma elem_of_concat {A} (x : A) (ls : list (list A)) :
  x ∈ concat ls <-> exists l, l ∈ ls /\ x ∈ l.
Proof.
  rewrite list_elem_of_In, in_concat. by setoid_rewrite list_elem_of_In.
Qed.

Lemma NoDup_take {A} k (l : list A) : NoDup l -> NoDup (take k l).
Proof. intros H. rewrite <- (take_drop k l) in H. by apply NoDup_app in H as [? _]. Qed.

(** String order as Python compares [str]: lexicographic by code point. *)
Definition str_leb (a b : string) : bool := String.leb a b.

Lemma str_leb_total a b : str_leb a b = true \/ str_leb b a = true.
Proof. apply String.leb_total. Qed.
