(* ===== verification/PyFloat.v ===== *)
(** * Python floats and the NumPy reductions the program uses

    A [float] is NaN or a finite value. Finite values are exact rationals: the
    library idealises rounding away, and a decimal literal of the source denotes
    its decimal value. NaN is kept, with Python's comparison rules, because the
    program uses it as its "undefined" value throughout. *)

From stdpp Require Import base list.
From Stdlib Require Import QArith Qabs Qround Qminmax Lqa ZArith Lia.
From S2P Require Import Prelude.

Local Open Scope nat_scope.

Create HintDb pyfloat.

Inductive float : Type :=
| nan
| fin (q : Q).

(** ** Comparisons: every comparison with NaN is false *)

Definition is_nan (x : float) : bool :=
  match x with nan => true | fin _ => false end.

Definition Qltb (a b : Q) : bool := negb (Qle_bool b a).

Definition fle (x y : float) : bool :=
  match x, y with fin a, fin b => Qle_bool a b | _, _ => false end.
Definition flt (x y : float) : bool :=
  match x, y with fin a, fin b => Qltb a b | _, _ => false end.
Definition feq (x y : float) : bool :=
  match x, y with fin a, fin b => Qeq_bool a b | _, _ => false end.

(** ** Arithmetic: NaN propagates. [fdiv] is used only under a nonzero guard. *)

Definition fbin (op : Q -> Q -> Q) (x y : float) : float :=
  match x, y with fin a, fin b => fin (op a b) | _, _ => nan end.
Definition fadd := fbin Qplus.
Definition fsub := fbin Qminus.
Definition fmul := fbin Qmult.
Definition fdiv := fbin Qdiv.
Definition fabs (x : float) : float :=
  match x with nan => nan | fin a => fin (Qabs a) end.

(** [int / int] with a nonzero denominator. *)
Definition qratio (a b : nat) : Q := inject_Z (Z.of_nat a) / inject_Z (Z.of_nat b).

(** The finite values of a list: [[x for x in xs if not np.isnan(x)]]. *)
Definition drop_nan (xs : list float) : list Q :=
  omap (fun x => match x with nan => None | fin q => Some q end) xs.

(** ** [np.mean], [sum], [min], [max] *)

Definition Qsum (l : list Q) : Q := foldr Qplus 0%Q l.

(** [np.mean] of a list of finite values. *)
Definition np_mean (l : list Q) : Q := (Qsum l / inject_Z (Z.of_nat (length l)))%Q.

(** [float(np.mean(xs)) if xs else float("nan")] *)
Definition mean_or_nan (l : list Q) : float :=
  match l with [] => nan | _ => fin (np_mean l) end.

Definition Qmin_list (d : Q) (l : list Q) : Q := foldl Qmin d l.
Definition Qmax_list (d : Q) (l : list Q) : Q := foldl Qmax d l.

(** [round(x, nd)] and [f"{x:.{nd}f}"]: nearest multiple of [10^-nd], ties to the
    even one. *)
Definition Qround_even (q : Q) : Z :=
  let f := Qround.Qfloor q in
  let d := (q - inject_Z f)%Q in
  if Qltb d (1 # 2) then f
  else if Qltb (1 # 2) d then (f + 1)%Z
  else if Z.even f then f else (f + 1)%Z.

Definition round_nd (nd : nat) (q : Q) : Q :=
  let s := inject_Z (10 ^ Z.of_nat nd) in (inject_Z (Qround_even (q * s)) / s)%Q.

(** ** Order lemmas *)

Lemma Qltb_lt a b : Qltb a b = true <-> (a < b)%Q.
Proof.
  unfold Qltb. rewrite negb_true_iff. split.
  - intros H. apply Qnot_le_lt. intros Hle. apply Qle_bool_iff in Hle. congruence.
  - intros H. destruct (Qle_bool b a) eqn:E; [|done].
    apply Qle_bool_iff in E. exfalso. lra.
Qed.

Lemma Qltb_ge a b : Qltb a b = false <-> (b <= a)%Q.
Proof. unfold Qltb. rewrite negb_false_iff. apply Qle_bool_iff. Qed.

Lemma Qle_bool_false a b : Qle_bool a b = false <-> (b < a)%Q.
Proof.
  split.
  - intros H. apply Qnot_le_lt. intros Hle. apply Qle_bool_iff in Hle. congruence.
  - intros H. destruct (Qle_bool a b) eqn:E; [|done].
    apply Qle_bool_iff in E. exfalso. lra.
Qed.

Lemma Qle_bool_total a b : Qle_bool a b = true \/ Qle_bool b a = true.
Proof. rewrite !Qle_bool_iff. destruct (Qlt_le_dec a b); [left|right]; lra. Qed.

Lemma Qle_bool_trans a b c :
  Qle_bool a b = true -> Qle_bool b c = true -> Qle_bool a c = true.
Proof. rewrite !Qle_bool_iff. lra. Qed.

#[export] Instance Qle_dec (a b : Q) : Decision (a <= b)%Q.
Proof.
  destruct (Qle_bool a b) eqn:E; [left; by apply Qle_bool_iff|right].
  apply Qle_bool_false in E. lra.
Defined.

#[export] Instance Qlt_dec' (a b : Q) : Decision (a < b)%Q.
Proof.
  destruct (Qltb a b) eqn:E; [left; by apply Qltb_lt|right].
  apply Qltb_ge in E. lra.
Defined.

(** Reflect boolean float tests in the context. *)
Ltac qreflect :=
  repeat match goal with
  | H : Qle_bool _ _ = true |- _ => apply Qle_bool_iff in H
  | H : Qle_bool _ _ = false |- _ => apply Qle_bool_false in H
  | H : Qltb _ _ = true |- _ => apply Qltb_lt in H
  | H : Qltb _ _ = false |- _ => apply Qltb_ge in H
  | H : Qeq_bool _ _ = true |- _ => apply Qeq_bool_iff in H
  end.

(** ** Ratios of counts *)

Lemma inject_nat_le a b : a <= b -> (inject_Z (Z.of_nat a) <= inject_Z (Z.of_nat b))%Q.
Proof. intros H. rewrite <- Zle_Qle. lia. Qed.

Lemma inject_nat_pos b : 0 < b -> (0 < inject_Z (Z.of_nat b))%Q.
Proof. intros H. change 0%Q with (inject_Z 0). rewrite <- Zlt_Qlt. lia. Qed.

Lemma qratio_nonneg a b : (0 <= qratio a b)%Q.
Proof.
  unfold qratio. destruct b as [|b].
  - unfold Qdiv. change (/ inject_Z (Z.of_nat 0))%Q with 0%Q. rewrite Qmult_0_r. lra.
  - apply Qle_shift_div_l; [apply inject_nat_pos; lia|].
    rewrite Qmult_0_l. change 0%Q with (inject_Z 0). rewrite <- Zle_Qle. lia.
Qed.

Lemma qratio_le_1 a b : 0 < b -> a <= b -> (qratio a b <= 1)%Q.
Proof.
  intros Hb Hab. unfold qratio.
  apply Qle_shift_div_r; [by apply inject_nat_pos|].
  rewrite Qmult_1_l. by apply inject_nat_le.
Qed.

Lemma qratio_pos_le_1 a b : 1 <= a -> a <= b -> (0 < qratio a b <= 1)%Q.
Proof.
  intros Ha Hb. split; [|apply qratio_le_1; lia]. unfold qratio.
  apply Qlt_shift_div_l; [apply inject_nat_pos; lia|]. rewrite Qmult_0_l. apply inject_nat_pos. lia.
Qed.

Lemma qratio_mono a a' b : 0 < b -> a <= a' -> (qratio a b <= qratio a' b)%Q.
Proof.
  intros Hb Haa. unfold qratio.
  apply Qle_shift_div_r; [by apply inject_nat_pos|].
  rewrite Qmult_comm, Qmult_div_r; [by apply inject_nat_le|].
  pose proof (inject_nat_pos b Hb). lra.
Qed.

Lemma qratio_eq_1 a b : 0 < b -> (qratio a b == 1)%Q <-> a = b.
Proof.
  intros Hb. pose proof (inject_nat_pos b Hb) as Hp. unfold qratio. split.
  - intros H. assert (inject_Z (Z.of_nat a) == inject_Z (Z.of_nat b))%Q as He.
    { rewrite <- (Qmult_div_r (inject_Z (Z.of_nat a)) (inject_Z (Z.of_nat b))) by lra.
      rewrite H. lra. }
    rewrite inject_Z_injective in He. lia.
  - intros ->. apply Qmult_inv_r. lra.
Qed.

Lemma qratio_mul a b : 0 < b -> (qratio a b * inject_Z (Z.of_nat b) == inject_Z (Z.of_nat a))%Q.
Proof.
  intros Hb. pose proof (inject_nat_pos b Hb). unfold qratio.
  rewrite Qmult_comm. apply Qmult_div_r. lra.
Qed.

#[export] Hint Resolve qratio_nonneg qratio_le_1 : pyfloat.

(** ** Sums *)

Lemma Qsum_nil : Qsum [] = 0%Q.
Proof. done. Qed.

Lemma Qsum_cons x l : Qsum (x :: l) = (x + Qsum l)%Q.
Proof. done. Qed.

Lemma Qsum_app l1 l2 : (Qsum (l1 ++ l2) == Qsum l1 + Qsum l2)%Q.
Proof.
  induction l1 as [|x l1 IH]; [rewrite Qsum_nil, app_nil_l; ring|].
  rewrite <- app_comm_cons, !Qsum_cons, IH. ring.
Qed.

Lemma Qsum_perm l1 l2 : l1 ≡ₚ l2 -> (Qsum l1 == Qsum l2)%Q.
Proof.
  induction 1 as [|x l1 l2 _ IH|x y l|l1 l2 l3 _ IH1 _ IH2]; rewrite ?Qsum_cons;
    [reflexivity|rewrite IH; reflexivity|ring|by rewrite IH1].
Qed.

(** ** Means stay inside the range of their inputs *)

Lemma Qsum_bounds lo hi l :
  Forall (fun q => lo <= q <= hi)%Q l ->
  (lo * inject_Z (Z.of_nat (length l)) <= Qsum l <= hi * inject_Z (Z.of_nat (length l)))%Q.
Proof.
  induction 1 as [|q l [H1 H2] _ [IH1 IH2]]; cbn [length Qsum foldr].
  - change (inject_Z (Z.of_nat 0)) with 0%Q. rewrite !Qmult_0_r. split; lra.
  - rewrite Nat2Z.inj_succ. unfold Z.succ. rewrite inject_Z_plus.
    change (inject_Z 1) with 1%Q. unfold Qsum in *. split; lra.
Qed.

Lemma np_mean_bounds lo hi l :
  l <> [] -> Forall (fun q => lo <= q <= hi)%Q l -> (lo <= np_mean l <= hi)%Q.
Proof.
  intros Hne H. apply Qsum_bounds in H as [H1 H2]. unfold np_mean.
  assert (0 < inject_Z (Z.of_nat (length l)))%Q as Hp.
  { apply inject_nat_pos. destruct l; [done|simpl; lia]. }
  split; [by apply Qle_shift_div_l|by apply Qle_shift_div_r].
Qed.

Lemma np_mean_const c l :
  l <> [] -> Forall (fun q => q == c)%Q l -> (np_mean l == c)%Q.
Proof.
  intros Hne H. apply Qle_antisym; apply (np_mean_bounds c c l Hne);
    eapply Forall_impl; try exact H; intros q Hq; simpl in *; lra.
Qed.

(** A value in the unit interval, or NaN: what every ratio metric returns. *)
Definition unit_or_nan (x : float) : Prop :=
  match x with nan => True | fin q => (0 <= q <= 1)%Q end.

Lemma mean_or_nan_unit l :
  Forall (fun q => 0 <= q <= 1)%Q l -> unit_or_nan (mean_or_nan l).
Proof.
  intros H. destruct l as [|q l]; [done|].
  by apply (np_mean_bounds 0 1 (q :: l)).
Qed.

#[export] Hint Resolve mean_or_nan_unit : pyfloat.

(** ** Minimum and maximum of a list *)

Lemma Qmin_list_le d l : (Qmin_list d l <= d)%Q /\ (forall q, q ∈ l -> Qmin_list d l <= q)%Q.
Proof.
  unfold Qmin_list. revert d. induction l as [|x l IH]; intros d; simpl.
  - split; [lra|]. by intros q ?%not_elem_of_nil.
  - destruct (IH (Qmin d x)) as [H1 H2].
    pose proof (Q.le_min_l d x). pose proof (Q.le_min_r d x). split; [lra|].
    intros q [->|Hq]%elem_of_cons; [lra|]. by apply H2.
Qed.

Lemma Qmax_list_ge d l : (d <= Qmax_list d l)%Q /\ (forall q, q ∈ l -> q <= Qmax_list d l)%Q.
Proof.
  unfold Qmax_list. revert d. induction l as [|x l IH]; intros d; simpl.
  - split; [lra|]. by intros q ?%not_elem_of_nil.
  - destruct (IH (Qmax d x)) as [H1 H2].
    pose proof (Q.le_max_l d x). pose proof (Q.le_max_r d x). split; [lra|].
    intros q [->|Hq]%elem_of_cons; [lra|]. by apply H2.
Qed.

Lemma Qmin_list_elem d l : (Qmin_list d l == d)%Q \/ exists q, q ∈ l /\ (Qmin_list d l == q)%Q.
Proof.
  unfold Qmin_list. revert d. induction l as [|x l IH]; intros d; cbn; [by left|].
  destruct (IH (Qmin d x)) as [E|(q & Hq & E)]; [|right; exists q; split; [by right|done]].
  destruct (Q.min_dec d x) as [M|M].
  - left. by rewrite E.
  - right. exists x. split; [by left|]. by rewrite E.
Qed.

Lemma Qmin_list_glb lo d l :
  (lo <= d)%Q -> Forall (fun q => lo <= q)%Q l -> (lo <= Qmin_list d l)%Q.
Proof.
  unfold Qmin_list. intros Hd H. revert d Hd. induction H as [|x l Hx _ IH]; intros d Hd; simpl.
  - done.
  - apply IH. by apply Q.min_glb.
Qed.

Lemma Qmax_list_lub hi d l :
  (d <= hi)%Q -> Forall (fun q => q <= hi)%Q l -> (Qmax_list d l <= hi)%Q.
Proof.
  unfold Qmax_list. intros Hd H. revert d Hd. induction H as [|x l Hx _ IH]; intros d Hd; simpl.
  - done.
  - apply IH. by apply Q.max_lub.
Qed.

Lemma elem_of_drop_nan q xs : q ∈ drop_nan xs <-> fin q ∈ xs.
Proof.
  unfold drop_nan. rewrite list_elem_of_omap. split.
  - intros ([|q'] & Hin & H); [done|]. by simplify_eq.
  - intros H. by exists (fin q).
Qed.

(** ** [np.median] and [np.percentile] (linear interpolation) *)

Definition np_percentile (p : Q) (l : list Q) : Q :=
  let s := sorted Qle_bool l in
  let top := length s - 1 in
  let pos := (p / 100 * inject_Z (Z.of_nat top))%Q in
  let lo := Z.to_nat (Qfloor pos) in
  let a := nth lo s 0%Q in
  let b := nth (Nat.min (S lo) top) s 0%Q in
  (a + (b - a) * (pos - inject_Z (Qfloor pos)))%Q.

Definition np_median (l : list Q) : Q :=
  let s := sorted Qle_bool l in
  let h := length s / 2 in
  if Nat.even (length s) then ((nth (h - 1) s 0 + nth h s 0) / 2)%Q else nth h s 0%Q.

Lemma nth_unit (l : list Q) i : Forall (fun q => 0 <= q <= 1)%Q l -> (0 <= nth i l 0 <= 1)%Q.
Proof.
  intros H. destruct (nth_in_or_default i l 0%Q) as [Hin|Hd]; [|rewrite Hd; lra].
  rewrite Forall_forall in H. by apply H, list_elem_of_In.
Qed.

(** A percentile of proportions is a proportion: it lies between two of them. *)
Lemma np_percentile_unit p l :
  Forall (fun q => 0 <= q <= 1)%Q l -> (0 <= np_percentile p l <= 1)%Q.
Proof.
  intros H. unfold np_percentile.
  assert (Forall (fun q => 0 <= q <= 1)%Q (sorted Qle_bool l)) as Hs by (by rewrite sorted_perm).
  set (pos := (p / 100 * _)%Q).
  pose proof (Qfloor_le pos) as H1. pose proof (Qlt_floor pos) as H2.
  rewrite inject_Z_plus in H2. change (inject_Z 1) with 1%Q in H2.
  set (a := nth _ _ _). set (b := nth _ _ _).
  assert (0 <= a <= 1)%Q as Ha by (by apply nth_unit).
  assert (0 <= b <= 1)%Q as Hb by (by apply nth_unit).
  set (f := (pos - inject_Z (Qfloor pos))%Q). assert (0 <= f <= 1)%Q as Hf by (unfold f; lra).
  clearbody a b f. nra.
Qed.

(** ** Rounding *)

Lemma Qround_even_spec q :
  (inject_Z (Qround_even q) - (1 # 2) <= q <= inject_Z (Qround_even q) + (1 # 2))%Q.
Proof.
  unfold Qround_even. pose proof (Qfloor_le q) as H1. pose proof (Qlt_floor q) as H2.
  rewrite inject_Z_plus in H2. change (inject_Z 1) with 1%Q in H2.
  destruct (Qltb _ (1 # 2)) eqn:E1; [|destruct (Qltb (1 # 2) _) eqn:E2; [|destruct (Z.even _)]];
    qreflect; rewrite ?inject_Z_plus; change (inject_Z 1) with 1%Q; lra.
Qed.

(** Rounding a proportion keeps it a proportion. *)
Lemma round_nd_unit nd q : (0 <= q <= 1)%Q -> (0 <= round_nd nd q <= 1)%Q.
Proof.
  intros Hq. unfold round_nd. set (s := inject_Z (10 ^ Z.of_nat nd)).
  assert (0 < s)%Q as Hs.
  { unfold s. change 0%Q with (inject_Z 0). rewrite <- Zlt_Qlt. apply Z.pow_pos_nonneg; lia. }
  pose proof (Qround_even_spec (q * s)) as [H1 H2].
  set (z := Qround_even (q * s)) in *.
  assert (0 <= q * s <= s)%Q as [H3 H4] by nra.
  assert (0 <= z)%Z as Hz.
  { assert (- (1) < inject_Z z)%Q as Hz by lra. change (- (1))%Q with (inject_Z (-1)) in Hz.
    rewrite <- Zlt_Qlt in Hz. lia. }
  assert (z <= 10 ^ Z.of_nat nd)%Z as Hz'.
  { assert (inject_Z z < s + 1)%Q as Hz' by lra. unfold s in Hz'.
    change 1%Q with (inject_Z 1) in Hz'. rewrite <- inject_Z_plus, <- Zlt_Qlt in Hz'. lia. }
  split.
  - apply Qle_shift_div_l; [done|]. rewrite Qmult_0_l. change 0%Q with (inject_Z 0).
    by rewrite <- Zle_Qle.
  - apply Qle_shift_div_r; [done|]. rewrite Qmult_1_l. unfold s. by rewrite <- Zle_Qle.
Qed.

Lemma pow10_pos nd : (0 < inject_Z (10 ^ Z.of_nat nd))%Q.
Proof. change 0%Q with (inject_Z 0). rewrite <- Zlt_Qlt. apply Z.pow_pos_nonneg; lia. Qed.

Lemma Qround_even_int q z : (q == inject_Z z)%Q -> Qround_even q = z.
Proof.
  intros H. pose proof (Qround_even_spec q) as [H1 H2].
  assert (inject_Z (Qround_even q) < inject_Z z + inject_Z 1)%Q as A by (change (inject_Z 1) with 1%Q; lra).
  assert (inject_Z z < inject_Z (Qround_even q) + inject_Z 1)%Q as B by (change (inject_Z 1) with 1%Q; lra).
  rewrite <- inject_Z_plus, <- Zlt_Qlt in A, B. lia.
Qed.

(** A value with at most [nd] decimals is its own rounding. *)
Lemma round_nd_exact nd q z :
  (q * inject_Z (10 ^ Z.of_nat nd) == inject_Z z)%Q -> (round_nd nd q == q)%Q.
Proof.
  intros H. unfold round_nd. rewrite (Qround_even_int _ _ H), <- H.
  pose proof (pow10_pos nd). field. lra.
Qed.

Lemma round_nd_idem nd q : (round_nd nd (round_nd nd q) == round_nd nd q)%Q.
Proof.
  apply (round_nd_exact nd _ (Qround_even (q * inject_Z (10 ^ Z.of_nat nd)))).
  unfold round_nd. pose proof (pow10_pos nd). field. lra.
Qed.

(** Rounding to [nd] decimals moves a value by at most half of the last one. *)
Lemma round_nd_close nd q : (Qabs (round_nd nd q - q) <= (1 # 2) / inject_Z (10 ^ Z.of_nat nd))%Q.
Proof.
  unfold round_nd. pose proof (pow10_pos nd) as Hs. set (s := inject_Z (10 ^ Z.of_nat nd)) in *.
  pose proof (Qround_even_spec (q * s)) as [H1 H2]. set (z := inject_Z (Qround_even (q * s))) in *.
  assert (z / s - q == (z - q * s) / s)%Q as -> by (field; lra).
  apply Qabs_Qle_condition. split.
  - assert (- ((1 # 2) / s) == (- (1 # 2)) / s)%Q as -> by (field; lra).
    apply Qmult_le_compat_r; [lra|]. apply Qlt_le_weak, Qinv_lt_0_compat. done.
  - apply Qmult_le_compat_r; [lra|]. apply Qlt_le_weak, Qinv_lt_0_compat. done.
Qed.

Lemma round_nd_nonneg nd q : (0 <= q)%Q -> (0 <= round_nd nd q)%Q.
Proof.
  intros Hq. unfold round_nd. pose proof (pow10_pos nd) as Hs. set (s := inject_Z (10 ^ Z.of_nat nd)) in *.
  pose proof (Qround_even_spec (q * s)) as [_ H2].
  assert (0 <= q * s)%Q as H0 by (apply Qmult_le_0_compat; lra).
  assert (- (1) < inject_Z (Qround_even (q * s)))%Q as Hz by lra. change (- (1))%Q with (inject_Z (-1)) in Hz.
  rewrite <- Zlt_Qlt in Hz. apply Qle_shift_div_l; [done|]. rewrite Qmult_0_l. change 0%Q with (inject_Z 0).
  rewrite <- Zle_Qle. lia.
Qed.

(** ** Loops that wait for a condition or a deadline *)

(** [while time.time() < deadline: ... return True if the test holds; return False] *)
Fixpoint poll_until {A} (deadline : Q) (rounds : list (Q * A)) (test : A -> bool) : option bool :=
  match rounds with
  | [] => None
  | (now, a) :: rounds' =>
      if Qltb now deadline then if test a then Some true else poll_until deadline rounds' test
      else Some false
  end.

Lemma poll_until_true {A} deadline (rounds : list (Q * A)) test :
  poll_until deadline rounds test = Some true ->
  exists now a, (now, a) ∈ rounds /\ (now < deadline)%Q /\ test a = true.
Proof.
  induction rounds as [|[now a] rounds IH]; simpl; [done|].
  destruct (Qltb now deadline) eqn:E; [|done]. destruct (test a) eqn:Et.
  - intros _. exists now, a. qreflect. split; [by left|done].
  - intros H. apply IH in H as (n & a' & ? & ?). exists n, a'. split; [by right|done].
Qed.

Lemma poll_until_total {A} deadline (rounds : list (Q * A)) test now a :
  (now, a) ∈ rounds -> (deadline <= now)%Q -> exists b, poll_until deadline rounds test = Some b.
Proof.
  induction rounds as [|[n' a'] rounds IH]; intros Hin Hd; [by apply not_elem_of_nil in Hin|].
  simpl. destruct (Qltb n' deadline) eqn:E; [|eauto]. destruct (test a'); [eauto|].
  apply elem_of_cons in Hin as [[= -> ->]|Hin]; [qreflect; lra|auto].
Qed.
