(* ===== verification/Rounding.v ===== *)
(** * Floating-point rounding

    [round_bits p emin] rounds an exact rational to the nearest binary floating-point
    number of [p] significant bits whose last bit weighs at least [2^emin], ties to
    even: [f32] is NumPy's [float32], [f64] Python's [float]. NumPy keeps the vectors,
    the queries and the distance scores in [float32]. The routines that add up a row of
    products (a row's sum of squares, a matrix product) may add in any order, pair
    partial sums in any way and fuse a product with an addition: [f32_sum] is the
    relation of all their possible results, [f32_sum_error] bounds each of them, and
    [f32_sum_exact] says when they are exact. Overflow to infinity is left out: the
    law of the NumPy routines speaks of sums whose terms stay in range. *)

From stdpp Require Import base list.
From Stdlib Require Import QArith Qabs Qround Qpower Lqa ZArith Lia.
From S2P Require Import Prelude PyFloat.

Local Open Scope nat_scope.

Definition pow2 (e : Z) : Q := Qpower 2 e.

(** The exponent of the leading bit: [2^e <= |x| < 2^(e+1)]. *)
Definition qlog2 (x : Q) : Z :=
  let e := (Z.log2 (Z.abs (Qnum x)) - Z.log2 (Z.pos (Qden x)))%Z in
  if Qle_bool (pow2 e) (Qabs x) then e else (e - 1)%Z.

(** The exponent of the last significant bit. *)
Definition last_bit (p emin : Z) (x : Q) : Z := Z.max (qlog2 x - (p - 1)) emin.

Definition round_bits (p emin : Z) (x : Q) : Q :=
  if Qeq_bool x 0 then 0%Q
  else
    let e := last_bit p emin x in
    Qred (inject_Z (Qround_even (x * pow2 (- e))) * pow2 e).

Definition f32 (x : Q) : Q := round_bits 24 (-149) x.
Definition f64 (x : Q) : Q := round_bits 53 (-1074) x.

(** Python's [sum] of floats: additions from left to right, and from Python 3.12 on with
    the rounding error of each addition collected and added at the end. *)
Fixpoint float_sum_from (compensated : bool) (s c : Q) (l : list Q) : Q :=
  match l with
  | [] => if compensated && negb (Qeq_bool c 0) then f64 (s + c) else s
  | x :: l' =>
      let t := f64 (s + x) in
      let lost := if Qle_bool (Qabs x) (Qabs s) then f64 (f64 (s - t) + x) else f64 (f64 (x - t) + s) in
      float_sum_from compensated t (f64 (c + lost)) l'
  end.

Definition float_sum (compensated : bool) (l : list Q) : Q := float_sum_from compensated 0 0 l.

(** ** Powers of two *)

Lemma pow2_add a b : (pow2 (a + b) == pow2 a * pow2 b)%Q.
Proof. unfold pow2. apply Qpower_plus. lra. Qed.

Lemma pow2_pos e : (0 < pow2 e)%Q.
Proof. unfold pow2. apply Qpower_0_lt. lra. Qed.

Lemma pow2_opp e : (pow2 e * pow2 (- e) == 1)%Q.
Proof. rewrite <- pow2_add, Z.add_opp_diag_r. reflexivity. Qed.

Lemma pow2_Z e : (0 <= e)%Z -> (pow2 e == inject_Z (2 ^ e))%Q.
Proof. intros H. unfold pow2. by rewrite Zpower_Qpower. Qed.

Lemma pow2_le a b : (a <= b)%Z -> (pow2 a <= pow2 b)%Q.
Proof.
  intros H. replace b with (a + (b - a))%Z by lia. rewrite pow2_add.
  assert (1 <= pow2 (b - a))%Q.
  { rewrite pow2_Z by lia. change 1%Q with (inject_Z 1). rewrite <- Zle_Qle.
    assert (0 < 2 ^ (b - a))%Z by lia. lia. }
  pose proof (pow2_pos a). nra.
Qed.

Lemma pow2_lt_inv a b : (pow2 a < pow2 b)%Q -> (a < b)%Z.
Proof.
  intros H. destruct (Z_lt_le_dec a b) as [|Hle]; [done|].
  apply pow2_le in Hle. lra.
Qed.

Lemma Qmult_cancel_pos a b c : (0 < c)%Q -> (a * c <= b * c)%Q -> (a <= b)%Q.
Proof. intros Hc H. by apply Qmult_le_r in H. Qed.

Lemma Qmult_le_l_weak a b c : (0 <= c)%Q -> (a <= b)%Q -> (c * a <= c * b)%Q.
Proof. intros Hc H. nra. Qed.

Lemma Qabs_zero x : (x == 0)%Q \/ (0 < Qabs x)%Q.
Proof. apply Qabs_case; intros; destruct (Qlt_le_dec 0 x), (Qlt_le_dec x 0); lra. Qed.

(** ** The leading bit *)

Lemma qlog2_bracket x :
  ~ (x == 0)%Q ->
  let e := (Z.log2 (Z.abs (Qnum x)) - Z.log2 (Z.pos (Qden x)))%Z in
  (pow2 (e - 1) <= Qabs x < pow2 (e + 1))%Q.
Proof.
  destruct x as [n d]. intros Hx e. unfold e. cbn [Qnum Qden].
  assert (0 < Z.abs n)%Z as Hn.
  { destruct (Z.eq_dec n 0) as [->|]; [|lia]. exfalso. apply Hx. reflexivity. }
  set (a := Z.log2 (Z.abs n)). set (b := Z.log2 (Z.pos d)).
  pose proof (Z.log2_spec (Z.abs n) Hn) as [Ha1 Ha2]. fold a in Ha1, Ha2.
  pose proof (Z.log2_spec (Z.pos d) ltac:(lia)) as [Hb1 Hb2]. fold b in Hb1, Hb2.
  pose proof (Z.log2_nonneg (Z.abs n)). fold a in H. pose proof (Z.log2_nonneg (Z.pos d)). fold b in H0.
  assert (Qabs (n # d) * inject_Z (Z.pos d) == inject_Z (Z.abs n))%Q as Hq.
  { unfold Qabs, Qeq, Qmult, inject_Z. simpl. lia. }
  assert (0 < inject_Z (Z.pos d))%Q as Hd by reflexivity.
  rewrite Zle_Qle in Ha1, Hb1. rewrite Zlt_Qlt in Ha2, Hb2.
  rewrite <- pow2_Z in Ha1, Ha2, Hb1, Hb2 by lia. unfold Z.succ in *.
  split.
  - apply (Qmult_cancel_pos _ _ (inject_Z (Z.pos d)) Hd). rewrite Hq.
    apply Qle_trans with (pow2 (a - b - 1) * pow2 (b + 1))%Q.
    + pose proof (pow2_pos (a - b - 1)). nra.
    + rewrite <- pow2_add. replace (a - b - 1 + (b + 1))%Z with a by lia. exact Ha1.
  - apply Qnot_le_lt. intros Hc.
    assert (pow2 (a - b + 1) * inject_Z (Z.pos d) <= inject_Z (Z.abs n))%Q as Hc'
      by (rewrite <- Hq; nra).
    assert (pow2 (a - b + 1) * pow2 b <= inject_Z (Z.abs n))%Q as Hc2
      by (pose proof (pow2_pos (a - b + 1)); nra).
    rewrite <- pow2_add in Hc2. replace (a - b + 1 + b)%Z with (a + 1)%Z in Hc2 by lia. lra.
Qed.

Lemma qlog2_spec x : ~ (x == 0)%Q -> (pow2 (qlog2 x) <= Qabs x < pow2 (qlog2 x + 1))%Q.
Proof.
  intros Hx. pose proof (qlog2_bracket x Hx) as [H1 H2]. unfold qlog2.
  set (e := (Z.log2 _ - Z.log2 _)%Z) in *. destruct (Qle_bool _ _) eqn:E.
  - apply Qle_bool_iff in E. done.
  - apply Qle_bool_false in E. split; [done|]. by replace (e - 1 + 1)%Z with e by lia.
Qed.

(** ** The rounding error *)

Lemma round_bits_ulp p emin x :
  (Qabs (round_bits p emin x - x) <= (1 # 2) * pow2 (last_bit p emin x))%Q.
Proof.
  unfold round_bits. set (e := last_bit p emin x). pose proof (pow2_pos e) as He.
  destruct (Qeq_bool x 0) eqn:E.
  - apply Qeq_bool_iff in E. apply Qabs_case; intros _; lra.
  - cbv zeta. fold e. rewrite Qred_correct. pose proof (Qround_even_spec (x * pow2 (- e))) as [H1 H2].
    set (r := inject_Z _) in *. pose proof (pow2_opp e) as Ho.
    assert (x == x * pow2 (- e) * pow2 e)%Q as Hx.
    { rewrite <- Qmult_assoc, (Qmult_comm (pow2 (- e))), Ho. ring. }
    set (y := (x * pow2 (- e))%Q) in *. clearbody y r.
    apply Qabs_case; intros _; nra.
Qed.

(** Relative error [2^-p], or absolute error half a unit of the least exponent. *)
Lemma round_bits_error p emin x :
  (Qabs (round_bits p emin x - x) <= pow2 (- p) * Qabs x + pow2 (emin - 1))%Q.
Proof.
  pose proof (round_bits_ulp p emin x) as H. pose proof (Qabs_nonneg x).
  pose proof (pow2_pos (- p)). pose proof (pow2_pos (emin - 1)).
  assert ((1 # 2) == pow2 (-1))%Q as Eh by reflexivity. rewrite Eh, <- pow2_add in H.
  unfold last_bit in H.
  destruct (Z.max_spec (qlog2 x - (p - 1)) emin) as [[? E]|[? E]]; rewrite E in H.
  - replace (-1 + emin)%Z with (emin - 1)%Z in H by lia. nra.
  - destruct (Qabs_zero x) as [E0|Hx0].
    + unfold round_bits. apply Qeq_bool_iff in E0 as E1. rewrite E1.
      assert (Qabs (0 - x) == 0)%Q as -> by (rewrite E0; reflexivity).
      assert (0 <= pow2 (- p) * Qabs x)%Q by (apply Qmult_le_0_compat; lra). lra.
    + assert (~ (x == 0)%Q) as Hx. { intros E0. rewrite E0 in Hx0. by vm_compute in Hx0. }
      destruct (qlog2_spec x Hx) as [Hl _].
      replace (-1 + (qlog2 x - (p - 1)))%Z with (- p + qlog2 x)%Z in H by lia.
      rewrite pow2_add in H. nra.
Qed.

(** Rounding depends on the number only, not on the fraction that stands for it. *)
Lemma qlog2_proper x y : ~ (x == 0)%Q -> (x == y)%Q -> qlog2 x = qlog2 y.
Proof.
  intros Hx E. assert (~ (y == 0)%Q) as Hy by (by rewrite <- E).
  destruct (qlog2_spec x Hx) as [X1 X2]. destruct (qlog2_spec y Hy) as [Y1 Y2].
  assert (Qabs x == Qabs y)%Q as Ea by (by rewrite E).
  assert (qlog2 x < qlog2 y + 1)%Z by (apply pow2_lt_inv; lra).
  assert (qlog2 y < qlog2 x + 1)%Z by (apply pow2_lt_inv; lra). lia.
Qed.

Lemma Qround_even_proper x y : (x == y)%Q -> Qround_even x = Qround_even y.
Proof.
  intros E. unfold Qround_even. rewrite (Qfloor_comp x y E). set (f := inject_Z _).
  assert (Qltb (x - f) (1 # 2) = Qltb (y - f) (1 # 2)) as -> by (apply eq_iff_eq_true; rewrite !Qltb_lt, E; done).
  assert (Qltb (1 # 2) (x - f) = Qltb (1 # 2) (y - f)) as -> by (apply eq_iff_eq_true; rewrite !Qltb_lt, E; done).
  done.
Qed.

Lemma round_bits_proper p emin x y : (x == y)%Q -> round_bits p emin x = round_bits p emin y.
Proof.
  intros E. unfold round_bits.
  assert (Qeq_bool x 0 = Qeq_bool y 0) as -> by (apply eq_iff_eq_true; rewrite !Qeq_bool_iff, E; done).
  destruct (Qeq_bool y 0) eqn:Ey; [done|]. apply Qeq_bool_neq in Ey. rewrite <- E in Ey.
  unfold last_bit. rewrite (qlog2_proper x y Ey E). cbv zeta.
  by rewrite (Qround_even_proper (x * pow2 _) (y * pow2 _)) by (by rewrite E).
Qed.

(** A number of at most [p] bits whose last bit is in range is its own rounding. *)
Lemma round_bits_exact p emin x m e :
  (0 < p)%Z -> (emin <= e)%Z -> (Z.abs m < 2 ^ p)%Z -> (x == inject_Z m * pow2 e)%Q ->
  (round_bits p emin x == x)%Q.
Proof.
  intros Hp He Hm Hx. unfold round_bits. destruct (Qeq_bool x 0) eqn:E.
  { apply Qeq_bool_iff in E. by rewrite E. }
  apply Qeq_bool_neq in E. rewrite Qred_correct. cbv zeta.
  set (l := last_bit p emin x).
  assert (l <= e)%Z as Hle.
  { unfold l, last_bit. apply Z.max_lub; [|done]. destruct (qlog2_spec x E) as [Hl _].
    assert (Qabs x < pow2 (p + e))%Q as Hu.
    { rewrite Hx, Qabs_Qmult, pow2_add. rewrite (Qabs_pos (pow2 e)) by (apply Qlt_le_weak, pow2_pos).
      pose proof (pow2_pos e). rewrite (pow2_Z p) by lia.
      assert (Qabs (inject_Z m) < inject_Z (2 ^ p))%Q by (change (Qabs (inject_Z m)) with (inject_Z (Z.abs m));
        by rewrite <- Zlt_Qlt). nra. }
    assert (qlog2 x < p + e)%Z by (apply pow2_lt_inv; lra). lia. }
  assert (x * pow2 (- l) == inject_Z (m * 2 ^ (e - l)))%Q as Hi.
  { rewrite Hx, inject_Z_mult, <- pow2_Z by lia. unfold Z.sub. rewrite pow2_add. ring. }
  rewrite (Qround_even_int _ _ Hi), <- Hi.
  rewrite <- Qmult_assoc, (Qmult_comm (pow2 (- l))), pow2_opp. ring.
Qed.

(** ** Sums of products in single precision *)

(** Every value a [float32] routine may return for the sum of the products of the
    listed pairs: products are rounded or fused into an addition, and the terms are
    added in any order and grouping. *)
Inductive f32_sum : list (Q * Q) -> Q -> Prop :=
| f32_sum_nil : f32_sum [] 0
| f32_sum_one x y : f32_sum [(x, y)] (f32 (x * y))
| f32_sum_add l1 l2 a b :
    l1 <> [] -> l2 <> [] -> f32_sum l1 a -> f32_sum l2 b -> f32_sum (l1 ++ l2) (f32 (a + b))
| f32_sum_fma x y l a : f32_sum l a -> f32_sum ((x, y) :: l) (f32 (x * y + a))
| f32_sum_perm l l' a : l ≡ₚ l' -> f32_sum l a -> f32_sum l' a.

(** One of them, executable: fused, from the last term to the first. *)
Definition f32_fold (l : list (Q * Q)) : Q := foldr (fun xy a => f32 (xy.1 * xy.2 + a)) 0%Q l.

Lemma f32_fold_sum l : f32_sum l (f32_fold l).
Proof. induction l as [|[x y] l IH]; [constructor|]. by apply f32_sum_fma. Qed.

(** The exact sum, and the sum of the magnitudes. *)
Definition prod_sum (l : list (Q * Q)) : Q := Qsum ((fun xy => xy.1 * xy.2)%Q <$> l).
Definition prod_abs (l : list (Q * Q)) : Q := Qsum ((fun xy => Qabs (xy.1 * xy.2)) <$> l).

(** The unit roundoff, and half the smallest subnormal. *)
Definition u32 : Q := pow2 (-24).
Definition eta32 : Q := pow2 (-150).

(** [(1 + u)^n]. *)
Definition grow (n : nat) : Q := Qpower (1 + u32) (Z.of_nat n).

(** The relative and the absolute part of the error of a sum of [n] products. *)
Definition sum_rel (n : nat) : Q := (grow n - 1)%Q.
Definition sum_abs (n : nat) : Q := (inject_Z (Z.of_nat (2 * n - 1)) * (eta32 * grow n))%Q.

Definition sum_err (l : list (Q * Q)) : Q :=
  (sum_rel (length l) * prod_abs l + sum_abs (length l))%Q.

Lemma u32_pos : (0 < u32)%Q.
Proof. reflexivity. Qed.

Lemma eta32_pos : (0 < eta32)%Q.
Proof. reflexivity. Qed.

Lemma f32_error x : (Qabs (f32 x - x) <= u32 * Qabs x + eta32)%Q.
Proof. exact (round_bits_error 24 (-149) x). Qed.

Lemma grow_0 : grow 0 = 1%Q.
Proof. reflexivity. Qed.

Lemma grow_S n : (grow (S n) == (1 + u32) * grow n)%Q.
Proof.
  unfold grow. rewrite Nat2Z.inj_succ. unfold Z.succ. rewrite Qpower_plus by (intros E; by compute in E).
  rewrite Qpower_1_r. ring.
Qed.

Lemma grow_ge_1 n : (1 <= grow n)%Q.
Proof.
  induction n as [|n IH]; [rewrite grow_0; lra|]. rewrite grow_S. pose proof u32_pos. nra.
Qed.

Lemma grow_le m n : m <= n -> (grow m <= grow n)%Q.
Proof.
  induction 1 as [|n _ IH]; [lra|]. rewrite grow_S. pose proof u32_pos. pose proof (grow_ge_1 n). nra.
Qed.

Lemma prod_sum_cons x y l : prod_sum ((x, y) :: l) = (x * y + prod_sum l)%Q.
Proof. done. Qed.

Lemma prod_abs_cons x y l : prod_abs ((x, y) :: l) = (Qabs (x * y) + prod_abs l)%Q.
Proof. done. Qed.

Lemma prod_sum_app l1 l2 : (prod_sum (l1 ++ l2) == prod_sum l1 + prod_sum l2)%Q.
Proof. unfold prod_sum. by rewrite fmap_app, Qsum_app. Qed.

Lemma prod_abs_app l1 l2 : (prod_abs (l1 ++ l2) == prod_abs l1 + prod_abs l2)%Q.
Proof. unfold prod_abs. by rewrite fmap_app, Qsum_app. Qed.

Lemma prod_abs_nonneg l : (0 <= prod_abs l)%Q.
Proof.
  induction l as [|[x y] l IH]; [done|]. rewrite prod_abs_cons. pose proof (Qabs_nonneg (x * y)). lra.
Qed.

Lemma prod_sum_le_abs l : (Qabs (prod_sum l) <= prod_abs l)%Q.
Proof.
  induction l as [|[x y] l IH]; [done|]. rewrite prod_sum_cons, prod_abs_cons.
  pose proof (Qabs_triangle (x * y) (prod_sum l)). lra.
Qed.

Lemma sum_rel_nonneg n : (0 <= sum_rel n)%Q.
Proof. unfold sum_rel. pose proof (grow_ge_1 n). lra. Qed.

Lemma sum_rel_le m n : m <= n -> (sum_rel m <= sum_rel n)%Q.
Proof. intros H. unfold sum_rel. pose proof (grow_le m n H). lra. Qed.

Lemma sum_rel_S n : (sum_rel (S n) == (1 + u32) * sum_rel n + u32)%Q.
Proof. unfold sum_rel. rewrite grow_S. ring. Qed.

Lemma sum_abs_nonneg n : (0 <= sum_abs n)%Q.
Proof.
  unfold sum_abs. pose proof (grow_ge_1 n). pose proof eta32_pos.
  assert (0 <= inject_Z (Z.of_nat (2 * n - 1)))%Q by (change 0%Q with (inject_Z 0); rewrite <- Zle_Qle; lia).
  apply Qmult_le_0_compat; [done|]. apply Qmult_le_0_compat; lra.
Qed.

(** Rounding once more multiplies an error by [1 + u] and adds [u] of the magnitude. *)
Lemma f32_step a s err :
  (Qabs (a - s) <= err)%Q ->
  (Qabs (f32 a - s) <= (1 + u32) * err + u32 * Qabs s + eta32)%Q.
Proof.
  intros H. pose proof (f32_error a) as He. pose proof u32_pos.
  assert (Qabs a <= Qabs s + err)%Q as Ha.
  { assert (a == s + (a - s))%Q as -> by ring. pose proof (Qabs_triangle s (a - s)). lra. }
  assert (f32 a - s == (f32 a - a) + (a - s))%Q as -> by ring.
  pose proof (Qabs_triangle (f32 a - a) (a - s)). nra.
Qed.

Lemma sum_abs_S n : ((1 + u32) * sum_abs n + eta32 <= sum_abs (S n))%Q.
Proof.
  unfold sum_abs. rewrite grow_S. set (G := ((1 + u32) * grow n)%Q).
  assert (1 <= G)%Q by (unfold G; rewrite <- grow_S; apply grow_ge_1). pose proof eta32_pos.
  assert (inject_Z (Z.of_nat (2 * n - 1)) + 1 <= inject_Z (Z.of_nat (2 * S n - 1)))%Q as Hn.
  { change 1%Q with (inject_Z 1). rewrite <- inject_Z_plus, <- Zle_Qle. lia. }
  set (c := inject_Z _) in *. set (d := inject_Z _) in *.
  apply Qle_trans with (c * (eta32 * G) + eta32 * G)%Q.
  - unfold G. assert (c * (eta32 * ((1 + u32) * grow n)) == (1 + u32) * (c * (eta32 * grow n)))%Q as -> by ring.
    fold G. nra.
  - assert (0 <= eta32 * G)%Q by nra. nra.
Qed.

Lemma sum_abs_app m n : 0 < m -> 0 < n ->
  ((1 + u32) * (sum_abs m + sum_abs n) + eta32 <= sum_abs (m + n))%Q.
Proof.
  intros Hm Hn. unfold sum_abs. pose proof eta32_pos. pose proof u32_pos.
  assert (forall k, k < m + n -> ((1 + u32) * grow k <= grow (m + n))%Q) as Hg.
  { intros k Hk. rewrite <- grow_S. apply grow_le. lia. }
  pose proof (Hg m ltac:(lia)) as Gm. pose proof (Hg n ltac:(lia)) as Gn.
  pose proof (grow_ge_1 (m + n)) as G1.
  assert (inject_Z (Z.of_nat (2 * (m + n) - 1)) ==
    inject_Z (Z.of_nat (2 * m - 1)) + inject_Z (Z.of_nat (2 * n - 1)) + 1)%Q as ->.
  { change 1%Q with (inject_Z 1). rewrite <- !inject_Z_plus. f_equiv. lia. }
  assert (forall j, 0 <= inject_Z (Z.of_nat j))%Q as Hj
    by (intros j; change 0%Q with (inject_Z 0); rewrite <- Zle_Qle; lia).
  pose proof (Hj (2 * m - 1)) as Cm. pose proof (Hj (2 * n - 1)) as Cn.
  set (c := inject_Z (Z.of_nat (2 * m - 1))) in *. set (d := inject_Z (Z.of_nat (2 * n - 1))) in *.
  set (G := grow (m + n)) in *. set (a := grow m) in *. set (b := grow n) in *.
  assert (c * eta32 * ((1 + u32) * a) <= c * eta32 * G)%Q by (apply Qmult_le_l_weak; nra).
  assert (d * eta32 * ((1 + u32) * b) <= d * eta32 * G)%Q by (apply Qmult_le_l_weak; nra).
  assert (eta32 * 1 <= eta32 * G)%Q by nra. lra.
Qed.

(** ** The error of a sum of products *)

Lemma f32_sum_fma_error x y l a :
  (Qabs (a - prod_sum l) <= sum_err l)%Q ->
  (Qabs (f32 (x * y + a) - prod_sum ((x, y) :: l)) <= sum_err ((x, y) :: l))%Q.
Proof.
  intros H. unfold sum_err in *. cbn [length].
  assert (Qabs (x * y + a - prod_sum ((x, y) :: l)) <=
    sum_rel (length l) * prod_abs l + sum_abs (length l))%Q as H1.
  { rewrite prod_sum_cons.
    assert (x * y + a - (x * y + prod_sum l) == a - prod_sum l)%Q as -> by ring. done. }
  apply f32_step in H1. pose proof (prod_sum_le_abs ((x, y) :: l)) as Hs.
  rewrite prod_abs_cons in *. pose proof (sum_abs_S (length l)). rewrite sum_rel_S.
  pose proof (prod_abs_nonneg l). pose proof (Qabs_nonneg (x * y)). pose proof u32_pos.
  pose proof (sum_rel_nonneg (length l)).
  set (R := sum_rel (length l)) in *. set (T := prod_abs l) in *. set (B := Qabs (x * y)) in *.
  assert (0 <= R * B)%Q by (apply Qmult_le_0_compat; lra).
  assert (0 <= u32 * (R * B))%Q by (apply Qmult_le_0_compat; lra).
  assert (u32 * Qabs (prod_sum ((x, y) :: l)) <= u32 * (B + T))%Q by (apply Qmult_le_l_weak; lra).
  lra.
Qed.

Lemma f32_sum_add_error l1 l2 a b :
  l1 <> [] -> l2 <> [] ->
  (Qabs (a - prod_sum l1) <= sum_err l1)%Q -> (Qabs (b - prod_sum l2) <= sum_err l2)%Q ->
  (Qabs (f32 (a + b) - prod_sum (l1 ++ l2)) <= sum_err (l1 ++ l2))%Q.
Proof.
  intros N1 N2 H1 H2. unfold sum_err in *. rewrite length_app.
  assert (Qabs (a + b - prod_sum (l1 ++ l2)) <= sum_rel (length l1) * prod_abs l1 +
    sum_abs (length l1) + (sum_rel (length l2) * prod_abs l2 + sum_abs (length l2)))%Q as H.
  { rewrite prod_sum_app.
    assert (a + b - (prod_sum l1 + prod_sum l2) == (a - prod_sum l1) + (b - prod_sum l2))%Q as -> by ring.
    pose proof (Qabs_triangle (a - prod_sum l1) (b - prod_sum l2)). lra. }
  apply f32_step in H. pose proof (prod_sum_le_abs (l1 ++ l2)) as Hs. rewrite !prod_abs_app in *.
  assert (0 < length l1 /\ 0 < length l2) as [L1 L2] by (destruct l1, l2; simpl; lia || done).
  pose proof (sum_abs_app _ _ L1 L2).
  pose proof (prod_abs_nonneg l1). pose proof (prod_abs_nonneg l2). pose proof u32_pos.
  set (n := length l1 + length l2) in *.
  assert (forall m, m < n -> ((1 + u32) * sum_rel m + u32 <= sum_rel n)%Q) as Hr.
  { intros m Hm. rewrite <- sum_rel_S. by apply sum_rel_le. }
  pose proof (Hr (length l1) ltac:(lia)) as R1. pose proof (Hr (length l2) ltac:(lia)) as R2.
  apply (Qmult_le_l_weak _ _ (prod_abs l1)) in R1; [|done].
  apply (Qmult_le_l_weak _ _ (prod_abs l2)) in R2; [|done].
  assert (u32 * Qabs (prod_sum (l1 ++ l2)) <= u32 * (prod_abs l1 + prod_abs l2))%Q
    by (apply Qmult_le_l_weak; lra).
  lra.
Qed.

Lemma sum_err_perm l l' : l ≡ₚ l' ->
  (prod_sum l == prod_sum l')%Q /\ (sum_err l == sum_err l')%Q.
Proof.
  intros H. unfold sum_err, prod_abs, prod_sum. rewrite (Permutation_length H). split.
  - apply Qsum_perm. by rewrite H.
  - f_equiv. f_equiv. apply Qsum_perm. by rewrite H.
Qed.

(** The error bound: whatever the order, the grouping and the fusing. *)
Lemma f32_sum_error l s : f32_sum l s -> (Qabs (s - prod_sum l) <= sum_err l)%Q.
Proof.
  induction 1 as [|x y|l1 l2 a b N1 N2 _ IH1 _ IH2|x y l a _ IH|l l' a Hp _ IH].
  - by vm_compute.
  - pose proof (f32_sum_fma_error x y [] 0) as H. assert (x * y + 0 == x * y)%Q as E by ring.
    pose proof (f32_error (x * y)) as He. rewrite prod_sum_cons. unfold sum_err. rewrite prod_abs_cons.
    change (prod_sum []) with 0%Q. change (prod_abs []) with 0%Q. rewrite !Qplus_0_r. simpl length.
    assert (sum_rel 1 == u32)%Q as -> by (by vm_compute).
    assert (eta32 <= sum_abs 1)%Q by (by vm_compute). lra.
  - by apply f32_sum_add_error.
  - by apply f32_sum_fma_error.
  - destruct (sum_err_perm _ _ Hp) as [E1 E2]. by rewrite <- E1, <- E2.
Qed.

(** ** Exact sums *)

(** Integer multiples of [2^e]. *)
Definition on_grid (e : Z) (x : Q) : Prop := exists m, (x == inject_Z m * pow2 e)%Q.

Lemma on_grid_add e x y : on_grid e x -> on_grid e y -> on_grid e (x + y).
Proof. intros [m Hm] [n Hn]. exists (m + n)%Z. rewrite inject_Z_plus, Hm, Hn. ring. Qed.

Lemma on_grid_mult e e' x y : on_grid e x -> on_grid e' y -> on_grid (e + e') (x * y).
Proof. intros [m Hm] [n Hn]. exists (m * n)%Z. rewrite inject_Z_mult, Hm, Hn, pow2_add. ring. Qed.

Lemma on_grid_Qeq e x y : (x == y)%Q -> on_grid e x -> on_grid e y.
Proof. intros E [m Hm]. exists m. by rewrite <- E. Qed.

Lemma on_grid_0 e : on_grid e 0.
Proof. exists 0%Z. change (inject_Z 0) with 0%Q. ring. Qed.

(** A multiple of [2^e] below [2^(24+e)] is a [float32] number. *)
Lemma f32_grid e x : (-149 <= e)%Z -> on_grid e x -> (Qabs x < pow2 (24 + e))%Q -> (f32 x == x)%Q.
Proof.
  intros He [m Hm] Hx. apply (round_bits_exact 24 (-149) x m e); [lia|done| |done].
  rewrite Hm, Qabs_Qmult, pow2_add, (Qabs_pos (pow2 e)) in Hx by (apply Qlt_le_weak, pow2_pos).
  apply Qmult_lt_r in Hx; [|apply pow2_pos]. rewrite pow2_Z in Hx by lia.
  change (Qabs (inject_Z m)) with (inject_Z (Z.abs m)) in Hx. by rewrite <- Zlt_Qlt in Hx.
Qed.

Lemma prod_sum_grid e l : Forall (fun xy => on_grid e (xy.1 * xy.2)%Q) l -> on_grid e (prod_sum l).
Proof.
  induction 1 as [|[x y] l Hx _ IH]; [apply on_grid_0|]. rewrite prod_sum_cons. by apply on_grid_add.
Qed.

Lemma prod_abs_perm l l' : l ≡ₚ l' -> (prod_abs l == prod_abs l')%Q.
Proof. intros H. unfold prod_abs. apply Qsum_perm. by rewrite H. Qed.

(** No rounding happens when the products are multiples of [2^e] and their
    magnitudes add up to less than [2^(24+e)], in whatever order they are added. *)
Lemma f32_sum_exact e l s :
  (-149 <= e)%Z -> f32_sum l s -> Forall (fun xy => on_grid e (xy.1 * xy.2)%Q) l ->
  (prod_abs l < pow2 (24 + e))%Q -> (s == prod_sum l)%Q.
Proof.
  intros He. induction 1 as [|x y|l1 l2 a b N1 N2 _ IH1 _ IH2|x y l a _ IH|l l' a Hp _ IH]; intros Hg Ha.
  - reflexivity.
  - rewrite prod_sum_cons. change (prod_sum []) with 0%Q. rewrite Qplus_0_r.
    inversion Hg as [|? ? H1 _]; subst. apply (f32_grid e); [done|done|].
    rewrite prod_abs_cons in Ha. change (prod_abs []) with 0%Q in Ha. lra.
  - apply Forall_app in Hg as [G1 G2]. rewrite prod_abs_app in Ha. rewrite prod_sum_app.
    pose proof (prod_abs_nonneg l1). pose proof (prod_abs_nonneg l2).
    assert (a + b == prod_sum l1 + prod_sum l2)%Q as E by (rewrite IH1, IH2 by (done || lra); lra).
    rewrite <- E. apply (f32_grid e); [done| |].
    + eapply on_grid_Qeq; [symmetry; exact E|]. apply on_grid_add; by apply prod_sum_grid.
    + rewrite E. pose proof (Qabs_triangle (prod_sum l1) (prod_sum l2)).
      pose proof (prod_sum_le_abs l1). pose proof (prod_sum_le_abs l2). lra.
  - inversion Hg as [|? ? G1 G2]; subst. rewrite prod_abs_cons in Ha. rewrite prod_sum_cons.
    pose proof (prod_abs_nonneg l). pose proof (Qabs_nonneg (x * y)).
    assert (x * y + a == x * y + prod_sum l)%Q as E by (rewrite IH by (done || lra); lra).
    rewrite <- E. apply (f32_grid e); [done| |].
    + eapply on_grid_Qeq; [symmetry; exact E|]. apply on_grid_add; [done|by apply prod_sum_grid].
    + rewrite E. pose proof (Qabs_triangle (x * y) (prod_sum l)). pose proof (prod_sum_le_abs l). lra.
  - destruct (sum_err_perm _ _ Hp) as [E1 _]. rewrite <- E1. apply IH; [by rewrite Hp|].
    by rewrite (prod_abs_perm _ _ Hp).
Qed.

(** ** Python's sums *)

(** The error of one operation whose result is at most 4. *)
Definition eps64 : Q := pow2 (-50).

Lemma f64_error x : (Qabs x <= 4)%Q -> (Qabs (f64 x - x) <= eps64)%Q.
Proof.
  intros H. pose proof (round_bits_error 53 (-1074) x) as E. fold (f64 x) in E.
  assert (pow2 (-53) * Qabs x <= pow2 (-53) * 4)%Q as E1 by (apply Qmult_le_l_weak; [by vm_compute|done]).
  assert (pow2 (-53) * 4 + pow2 (-1074 - 1) <= eps64)%Q as E2 by (apply Qle_bool_iff; by vm_compute).
  change (- (53))%Z with (-53)%Z in E. lra.
Qed.

Lemma Qabs_bounds x y : (Qabs x <= y)%Q <-> (- y <= x <= y)%Q.
Proof. apply Qabs_Qle_condition. Qed.

Lemma f64_near x : (- (4) <= x <= 4)%Q -> (x - eps64 <= f64 x <= x + eps64)%Q.
Proof. intros H. pose proof (f64_error x) as E. rewrite !Qabs_bounds in E. specialize (E H). lra. Qed.

(** What one step of the sum does to the partial sum and to the collected errors. *)
Lemma float_sum_step s c x :
  (- (1) <= s <= 2)%Q -> (- (1) <= c <= 1)%Q -> (- (1) <= x <= 1 + eps64)%Q ->
  let t := f64 (s + x) in
  let lost := if Qle_bool (Qabs x) (Qabs s) then f64 (f64 (s - t) + x) else f64 (f64 (x - t) + s) in
  (s + x - eps64 <= t <= s + x + eps64)%Q /\ (c - 4 * eps64 <= f64 (c + lost) <= c + 4 * eps64)%Q.
Proof.
  intros Hs Hc Hx t lost. assert (eps64 <= (1 # 1000))%Q as He by (apply Qle_bool_iff; by vm_compute).
  assert (0 < eps64)%Q as Hp by apply pow2_pos.
  assert (s + x - eps64 <= t <= s + x + eps64)%Q as Ht by (apply f64_near; lra). split; [done|].
  assert (- (3 * eps64) <= lost <= 3 * eps64)%Q as Hl.
  { unfold lost. destruct (Qle_bool _ _).
    - pose proof (f64_near (s - t) ltac:(lra)). pose proof (f64_near (f64 (s - t) + x) ltac:(lra)). lra.
    - pose proof (f64_near (x - t) ltac:(lra)). pose proof (f64_near (f64 (x - t) + s) ltac:(lra)). lra. }
  pose proof (f64_near (c + lost) ltac:(lra)). lra.
Qed.

(** The float sum of at most 40 floats, each near an exact term, the terms adding up to at
    most 1: [b] is what the [k] terms so far may have cost. *)
Lemma float_sum_from_error v l l' : forall (k : nat) S s c,
  k + length l <= 40 -> Forall2 (fun x y => 0 <= y /\ y - eps64 <= x <= y + eps64)%Q l l' ->
  let b := (inject_Z (Z.of_nat k) * eps64)%Q in
  (0 <= S)%Q -> (S + Qsum l' <= 1)%Q -> (S - 2 * b <= s <= S + 2 * b)%Q -> (- (4 * b) <= c <= 4 * b)%Q ->
  (S + Qsum l' - pow2 (-42) <= float_sum_from v s c l <= S + Qsum l' + pow2 (-42))%Q.
Proof.
  assert (0 < eps64)%Q as Hp by apply pow2_pos.
  assert (241 * eps64 <= pow2 (-42))%Q as Hb by (apply Qle_bool_iff; by vm_compute).
  assert (pow2 (-42) <= (1 # 1000))%Q as Hb' by (apply Qle_bool_iff; by vm_compute).
  assert (forall k : nat, k <= 40 -> (0 <= inject_Z (Z.of_nat k) * eps64 <= 40 * eps64)%Q) as Hk.
  { intros k Hk. pose proof (inject_nat_le k 40 Hk) as H1. pose proof (inject_nat_le 0 k ltac:(lia)) as H0.
    change (inject_Z (Z.of_nat 40)) with 40%Q in H1. change (inject_Z (Z.of_nat 0)) with 0%Q in H0. nra. }
  intros k S s c Hn HF. revert k S s c Hn.
  induction HF as [|x y l l' [Hy Hx] HF IH]; intros k S s c Hn b HS HT Hs Hc.
  - specialize (Hk k ltac:(cbn in Hn; lia)). fold b in Hk. cbn [float_sum_from Qsum foldr] in *.
    change (Qsum []) with 0%Q in *.
    destruct v; cbn [andb]; [|lra]. destruct (negb _); [|lra].
    pose proof (f64_near (s + c) ltac:(lra)). lra.
  - cbn [length] in Hn. rewrite Qsum_cons in HT |- *. cbn [float_sum_from].
    assert (0 <= Qsum l')%Q as Hq.
    { clear -HF. induction HF as [|x y l l' [Hy _] _ IH]; [cbn; lra|]. rewrite Qsum_cons. lra. }
    pose proof (Hk k ltac:(lia)) as Hkb. fold b in Hkb.
    destruct (float_sum_step s c x) as [H1 H2]; [lra..|].
    assert (S + (y + Qsum l') == S + y + Qsum l')%Q as -> by ring.
    assert (inject_Z (Z.of_nat (Datatypes.S k)) * eps64 == b + eps64)%Q as Eb.
    { unfold b. rewrite Nat2Z.inj_succ. unfold Z.succ. rewrite inject_Z_plus. ring. }
    apply (IH (Datatypes.S k)); rewrite ?Eb; lra || lia.
Qed.

Lemma float_sum_error v l l' :
  length l <= 40 -> Forall2 (fun x y => 0 <= y /\ y - eps64 <= x <= y + eps64)%Q l l' -> (Qsum l' <= 1)%Q ->
  (Qabs (float_sum v l - Qsum l') <= pow2 (-42))%Q.
Proof.
  intros Hn HF H1. apply Qabs_bounds.
  pose proof (float_sum_from_error v l l' 0 0%Q 0%Q 0%Q Hn HF) as E. cbv zeta in E.
  change (inject_Z (Z.of_nat 0)) with 0%Q in E. fold (float_sum v l) in E.
  assert (0 * eps64 == 0)%Q as E0 by ring. rewrite E0 in E. lra.
Qed.
