(* ===== verification/Bytes.v ===== *)
(** * Byte buffers

    Little-endian words and fixed-size records over a file given as the list of its
    bytes: what [np.frombuffer] and NumPy's structured types read. Shared by the index
    format and by the fvecs format. *)

From stdpp Require Import base list.
From Stdlib Require Import ZArith Lia.
From S2P Require Import Prelude.

Local Open Scope nat_scope.

(** ** Reading *)

(** [raw[off:off+len]] *)
Definition sub (off len : nat) (b : list Z) : list Z := take len (drop off b).

(** Little-endian unsigned and signed integers. *)
Fixpoint le_val (b : list Z) : Z :=
  match b with
  | [] => 0
  | x :: b' => (x + 256 * le_val b')%Z
  end.
Definition u32 (b : list Z) : Z := le_val b.
Definition i32 (b : list Z) : Z :=
  let v := le_val b in if (v <? 2 ^ 31)%Z then v else (v - 2 ^ 32)%Z.

(** [count] consecutive items of [size] bytes. *)
Fixpoint items {A} (dec : list Z -> A) (size count : nat) (b : list Z) : list A :=
  match count with
  | 0 => []
  | S c => dec (take size b) :: items dec size c (drop size b)
  end.

(** ** Writing *)

Fixpoint le_bytes (k : nat) (x : Z) : list Z :=
  match k with
  | 0 => []
  | S k' => (x mod 256)%Z :: le_bytes k' (x / 256)%Z
  end.

Definition encode_words (ws : list Z) : list Z := concat (le_bytes 4 <$> ws).

Definition is_u32 (x : Z) : Prop := (0 <= x < 2 ^ 32)%Z.
Definition is_i32 (x : Z) : Prop := (- 2 ^ 31 <= x < 2 ^ 31)%Z.

(** ** Reading what was written *)

Lemma le_bytes_length k x : length (le_bytes k x) = k.
Proof. revert x. induction k; intros; simpl; auto. Qed.

Lemma le_val_bytes k x : le_val (le_bytes k x) = (x mod 256 ^ Z.of_nat k)%Z.
Proof.
  revert x. induction k as [|k IH]; intros x; [by rewrite Z.mod_1_r|].
  simpl le_bytes. simpl le_val. rewrite IH, Nat2Z.inj_succ, Z.pow_succ_r by lia.
  rewrite Z.rem_mul_r by lia. lia.
Qed.

Lemma u32_bytes x : is_u32 x -> u32 (le_bytes 4 x) = x.
Proof. intros H. unfold u32. rewrite le_val_bytes. apply Z.mod_small. exact H. Qed.

Lemma i32_bytes x : is_i32 x -> i32 (le_bytes 4 x) = x.
Proof.
  unfold is_i32, i32. intros H. rewrite le_val_bytes.
  change (256 ^ Z.of_nat 4)%Z with (2 ^ 32)%Z.
  destruct (Z_lt_le_dec x 0) as [Hx|Hx].
  - replace (x mod 2 ^ 32)%Z with (x + 2 ^ 32)%Z
      by (apply (Z.mod_unique_pos x (2 ^ 32) (-1)%Z); lia).
    destruct (x + 2 ^ 32 <? 2 ^ 31)%Z eqn:E; breflect; lia.
  - rewrite Z.mod_small by lia. destruct (x <? 2 ^ 31)%Z eqn:E; breflect; lia.
Qed.

Lemma concat_fmap_length {A} (enc : A -> list Z) size l :
  Forall (fun x => length (enc x) = size) l -> length (concat (enc <$> l)) = length l * size.
Proof.
  induction 1 as [|x l Hx _ IH]; [done|].
  rewrite fmap_cons, List.concat_cons, length_app, IH, Hx. done.
Qed.

Lemma encode_words_length ws : length (encode_words ws) = length ws * 4.
Proof.
  apply concat_fmap_length, Forall_forall. intros. apply le_bytes_length.
Qed.

(** Decoding a sequence of items of one size gives them back. *)
Lemma items_encode {A} (dec : list Z -> A) (enc : A -> list Z) size l rest :
  Forall (fun x => length (enc x) = size /\ dec (enc x) = x) l ->
  items dec size (length l) (concat (enc <$> l) ++ rest) = l.
Proof.
  induction 1 as [|x l [Hl Hd] _ IH]; [done|].
  rewrite fmap_cons, List.concat_cons, <- app_assoc. simpl. rewrite take_app_length' by done. rewrite drop_app_length' by done.
  by rewrite Hd, IH.
Qed.

Lemma items_words dec ws rest n :
  length ws = n -> Forall (fun x => dec (le_bytes 4 x) = x) ws ->
  items dec 4 n (encode_words ws ++ rest) = ws.
Proof.
  intros <- H. apply items_encode. eapply Forall_impl; [exact H|].
  intros x Hx. split; [apply le_bytes_length|done].
Qed.

Lemma items_u32 ws rest n :
  length ws = n -> Forall is_u32 ws -> items u32 4 n (encode_words ws ++ rest) = ws.
Proof.
  intros Hl H. apply items_words; [done|]. eapply Forall_impl; [exact H|]. apply u32_bytes.
Qed.

Lemma sub_skip (a X : list Z) off len :
  length a <= off -> sub off len (a ++ X) = sub (off - length a) len X.
Proof. intros H. unfold sub. by rewrite drop_app_ge. Qed.

Lemma sub_here (a X : list Z) len : length a = len -> sub 0 len (a ++ X) = a.
Proof. intros <-. unfold sub. rewrite drop_0. apply take_app_length. Qed.

Lemma items_app {A} (dec : list Z -> A) size c c' b :
  items dec size (c + c') b = items dec size c b ++ items dec size c' (drop (c * size) b).
Proof.
  revert b. induction c as [|c IH]; intros b; simpl; [done|]. rewrite IH. by rewrite drop_drop.
Qed.

Lemma items_take {A} (dec : list Z -> A) size c m b :
  c * size <= m -> items dec size c (take m b) = items dec size c b.
Proof.
  revert m b. induction c as [|c IH]; intros m b Hm; simpl; [done|]. simpl in Hm.
  rewrite take_take, Nat.min_l by lia. f_equal.
  rewrite <- (IH (m - size) (drop size b)) by lia. by rewrite take_drop_commute, Nat.add_comm, Nat.sub_add by lia.
Qed.

Lemma items_zeros {A} (dec : list Z -> A) size c z :
  c * size <= z -> items dec size c (replicate z 0%Z) = replicate c (dec (replicate size 0%Z)).
Proof.
  revert z. induction c as [|c IH]; intros z Hz; simpl; [done|]. simpl in Hz.
  rewrite take_replicate, drop_replicate, Nat.min_l, IH by lia. done.
Qed.

(** ** Writing what was read *)

Lemma le_val_range b : Forall (fun x => 0 <= x < 256)%Z b -> (0 <= le_val b < 256 ^ Z.of_nat (length b))%Z.
Proof.
  induction 1 as [|x b Hx _ IH]; cbn [le_val length]; [lia|].
  rewrite Nat2Z.inj_succ, Z.pow_succ_r by lia. nia.
Qed.

Lemma le_bytes_val b : Forall (fun x => 0 <= x < 256)%Z b -> le_bytes (length b) (le_val b) = b.
Proof.
  induction 1 as [|x b Hx _ IH]; cbn [le_val length le_bytes]; [done|].
  rewrite (Z.mul_comm 256), Z.mod_add, Z.mod_small by lia. f_equal.
  rewrite Z.div_add, Z.div_small, Z.add_0_l by lia. done.
Qed.

(** Encoding decoded items gives the bytes back. *)
Lemma items_decode {A} (dec : list Z -> A) (enc : A -> list Z) size n b :
  length b = n * size -> Forall (fun x => 0 <= x < 256)%Z b ->
  (forall c, length c = size -> Forall (fun x => 0 <= x < 256)%Z c -> enc (dec c) = c) ->
  concat (enc <$> items dec size n b) = b.
Proof.
  intros Hl Hb Henc. revert b Hl Hb. induction n as [|n IH]; intros b Hl Hb; simpl in *.
  { by destruct b. }
  rewrite Henc; [|rewrite length_take; lia|by apply Forall_take].
  rewrite IH; [apply take_drop|rewrite length_drop; lia|by apply Forall_drop].
Qed.

Lemma items_length {A} (dec : list Z -> A) size n b : length (items dec size n b) = n.
Proof. revert b. induction n; intros; simpl; auto. Qed.

(** A property of every chunk holds of every item. *)
Lemma items_Forall {A} (dec : list Z -> A) (P : A -> Prop) size n b :
  length b = n * size -> Forall (fun x => 0 <= x < 256)%Z b ->
  (forall c, length c = size -> Forall (fun x => 0 <= x < 256)%Z c -> P (dec c)) ->
  Forall P (items dec size n b).
Proof.
  intros Hl Hb HP. revert b Hl Hb. induction n as [|n IH]; intros b Hl Hb; simpl in *; constructor.
  - apply HP; [rewrite length_take; lia|by apply Forall_take].
  - apply IH; [rewrite length_drop; lia|by apply Forall_drop].
Qed.

Lemma encode_items_u32 n b :
  length b = n * 4 -> Forall (fun x => 0 <= x < 256)%Z b -> encode_words (items u32 4 n b) = b.
Proof.
  intros Hl Hb. apply items_decode; [done..|]. intros c Hc Hcb. unfold u32.
  rewrite <- Hc. by apply le_bytes_val.
Qed.

Lemma le_bytes_mod k x : le_bytes k (x mod 256 ^ Z.of_nat k) = le_bytes k x.
Proof.
  rewrite <- (le_val_bytes k x). rewrite <- (le_bytes_length k x) at 1. apply le_bytes_val.
  revert x. induction k as [|k IH]; intros x; simpl; constructor; [apply Z.mod_pos_bound; lia|done].
Qed.

Lemma le_bytes_i32 b : length b = 4 -> Forall (fun x => 0 <= x < 256)%Z b -> le_bytes 4 (i32 b) = b.
Proof.
  intros Hl Hb. transitivity (le_bytes 4 (le_val b)); [|rewrite <- Hl; by apply le_bytes_val].
  unfold i32. destruct (_ <? _)%Z; [done|]. rewrite <- (le_bytes_mod 4), <- (le_bytes_mod 4 (le_val b)).
  f_equal. change (256 ^ Z.of_nat 4)%Z with (2 ^ 32)%Z.
  rewrite <- (Z.mod_add (le_val b) (-1) (2 ^ 32)) by lia. done.
Qed.
