(* ===== verification/Metrics.v ===== *)
(** * The measurement core

    [src/research/replica_recall/metrics.py]: the corpus view, brute-force ground
    truth, and the recall, completeness and agreement metrics. NumPy's [argpartition],
    [argsort], row sums and matrix product are parameters (the class [Numpy]) whose
    documented behaviour is the class [NumpyLaws]: how ties are ordered is left open,
    and so is the order in which a sum of [float32] products is added. *)

From stdpp Require Import base list gmap strings sorting.
From Stdlib Require Import QArith Qabs Lqa ZArith Lia.
From S2P Require Import Prelude PyFloat Rounding.

Local Open Scope nat_scope.

(** ** The NumPy routines *)

(** A row of an array of [float32]. *)
Abbreviation vec := (list Q).

Class Numpy := {
  argpartition : list Q -> nat -> list nat;
  argsort : list Q -> list nat;
  (* [(m * m).sum(axis=1)] *)
  row_sumsq : list vec -> list Q;
  (* [a @ b.T] on arrays whose rows have one length *)
  matmul_t : list vec -> list vec -> list (list Q);
}.

(** The row of a score vector; total because the callers stay in range. *)
Definition qnth (d : list Q) (i : nat) : Q := nth i d 0%Q.

(** A sum of products that cannot overflow. *)
Definition in_f32_range (l : list (Q * Q)) : Prop := (prod_abs l <= pow2 126)%Q.

Class NumpyLaws (np : Numpy) : Prop := {
  argpartition_perm : forall d kth,
    kth < length d -> argpartition d kth ≡ₚ seq 0 (length d);
  (* the element at [kth] is in its sorted place: nothing before it is larger,
     nothing after it is smaller *)
  argpartition_split : forall d kth i j a b,
    kth < length d -> i <= kth -> kth <= j ->
    argpartition d kth !! i = Some a -> argpartition d kth !! j = Some b ->
    (qnth d a <= qnth d b)%Q;
  argsort_perm : forall d, argsort d ≡ₚ seq 0 (length d);
  argsort_sorted : forall d i j a b,
    i <= j -> argsort d !! i = Some a -> argsort d !! j = Some b ->
    (qnth d a <= qnth d b)%Q;
  row_sumsq_length : forall m, length (row_sumsq m) = length m;
  row_sumsq_value : forall m i v,
    m !! i = Some v -> in_f32_range (zip v v) -> f32_sum (zip v v) (qnth (row_sumsq m) i);
  matmul_length : forall a b, length (matmul_t a b) = length a;
  matmul_row_length : forall a b i r, matmul_t a b !! i = Some r -> length r = length b;
  matmul_value : forall a b i j r q v,
    matmul_t a b !! i = Some r -> a !! i = Some q -> b !! j = Some v ->
    length q = length v -> in_f32_range (zip q v) -> f32_sum (zip q v) (qnth r j);
}.

(** ** Scores *)

(** The shapes [@] accepts: every row of either array has the same length. *)
Definition same_dim (queries vectors : list vec) : bool :=
  forallb (fun q => forallb (fun v => Nat.eqb (length q) (length v)) vectors) queries.

Definition matmul {np : Numpy} (queries vectors : list vec) : result (list (list Q)) :=
  if same_dim queries vectors then Ok (matmul_t queries vectors) else Raise ValueError.

(** One row of [d]: [(vectors * vectors).sum(axis=1) - 2.0 * (queries @ vectors.T)]
    for ["l2"], [-(queries @ vectors.T)] for ["ip"], in [float32]. *)
Definition l2_scores (sumsq prods : list Q) : list Q :=
  zip_with (fun s p => f32 (s - f32 (2 * p)))%Q sumsq prods.
Definition ip_scores (prods : list Q) : list Q := Qopp <$> prods.

(** ** What the scores stand for *)

(** The exact inner product and squared euclidean distance of vectors of one
    dimension. *)
Definition dot (u v : vec) : Q := prod_sum (zip u v).
Definition sq_dist (u v : vec) : Q := Qsum (zip_with (fun a b => (a - b) * (a - b))%Q u v).

Definition metric_score (metric : string) (q v : vec) : Q :=
  if decide (metric = "l2") then sq_dist q v else (- dot q v)%Q.

(** How far a score may be from the exact one, up to a constant of the query. *)
Definition l2_err (q v : vec) : Q :=
  (sum_rel (length v + 2) * (prod_abs (zip v v) + 2 * prod_abs (zip q v)) +
   (1 + u32) * (1 + u32) * (3 * sum_abs (length v) + 2 * eta32))%Q.
Definition metric_err (metric : string) (q v : vec) : Q :=
  if decide (metric = "l2") then l2_err q v else sum_err (zip q v).

(** ** [Corpus] *)

Record Corpus := mkCorpus {
  corpus_ids : list string;
  corpus_mat : list vec;
  corpus_row_of : gmap string nat;
  corpus_n : nat;
}.

(** [Corpus.from_dict]: rows in the dictionary's iteration order. *)
Definition from_dict (vector_of : list (string * vec)) : Corpus :=
  let names := dkeys vector_of in
  match names with
  | [] => mkCorpus [] [] ∅ 0
  | _ => mkCorpus names (dvalues vector_of)
           (list_to_map (zip names (seq 0 (length names)))) (length names)
  end.

(** [Corpus.rows_for]: [row_of.get(i, -1)] filtered to [0 <= r < n], sorted. *)
Definition row_get (c : Corpus) (i : string) : Z :=
  match corpus_row_of c !! i with Some r => Z.of_nat r | None => (-1)%Z end.

Definition in_snapshot (c : Corpus) (r : Z) : bool :=
  ((0 <=? r) && (r <? Z.of_nat (corpus_n c)))%Z.

Definition rows_for (c : Corpus) (wanted : gset string) : list nat :=
  sorted Nat.leb
    (Z.to_nat <$> List.filter (in_snapshot c) (row_get c <$> elements wanted)).

(** ** Exact search *)

Section Search.
Context {np : Numpy}.

(** The [k_eff] winners of one score row, nearest first. *)
Definition topk_row (k_eff : nat) (d : list Q) : list nat :=
  let part := take k_eff (argpartition d (k_eff - 1)) in
  let order := argsort (qnth d <$> part) in
  (fun o => nth o part 0) <$> order.

(** The array [d], one row of scores per query. *)
Definition score_rows (queries vectors : list vec) (metric : string) : result (list (list Q)) :=
  if decide (metric = "l2") then
    match matmul queries vectors with
    | Ok prods => Ok (l2_scores (row_sumsq vectors) <$> prods)
    | Raise e => Raise e
    end
  else if decide (metric = "ip") then
    match matmul queries vectors with
    | Ok prods => Ok (ip_scores <$> prods)
    | Raise e => Raise e
    end
  else Raise ValueError.

Definition exact_topk_rows (queries vectors : list vec) (k : nat) (metric : string)
    : result (list (list nat)) :=
  if decide (length vectors = 0) then Ok (replicate (length queries) [])
  else
    let k_eff := min k (length vectors) in
    match score_rows queries vectors metric with
    | Ok d => Ok (topk_row k_eff <$> d)
    | Raise e => Raise e
    end.

Definition exact_topk (queries : list vec) (ids : list string) (vectors : list vec)
    (k : nat) (metric : string) : result (list (list string)) :=
  if decide (length ids = 0) then Ok ((fun _ => []) <$> queries)
  else
    top ← exact_topk_rows queries vectors k metric;
    rmapM (rmapM (py_index ids)) top.
End Search.

(** ** Metrics *)

Definition set_of (l : list string) : gset string := list_to_set l.

Definition recall_at_k (observed truth : list string) (k : nat) : result float :=
  match truth with
  | [] => Ok nan
  | _ =>
      let t := set_of (take k truth) in
      let o := set_of (take k observed) in
      if decide (size t = 0) then Raise ZeroDivisionError
      else Ok (fin (qratio (size (o ∩ t)) (size t)))
  end.

Definition set_completeness (local intended : gset string) : float :=
  if decide (intended = ∅) then nan
  else fin (qratio (size (local ∩ intended)) (size intended)).

(** One query's overlap between two replicas; [None] when both sets are empty. *)
Definition overlap_score (k : nat) (a b : list string) : option Q :=
  let sa := set_of (take k a) in
  let sb := set_of (take k b) in
  if decide (sa = ∅ /\ sb = ∅) then None
  else Some (qratio (size (sa ∩ sb)) (max (size sa) (size sb))).

(** The scores of one pair of replicas: [for a, b in zip(a_all, b_all)]. *)
Definition pair_scores (k : nat) (a_all b_all : list (list string)) : list Q :=
  omap (fun ab => overlap_score k ab.1 ab.2) (zip a_all b_all).

Abbreviation observations := (list (string * list (list string))).

Definition obs_of (obs : observations) (name : string) : list (list string) :=
  default [] (dget name obs).

(** The [i < j] double loop over the sorted names. *)
Fixpoint all_pairs {A} (l : list A) : list (A * A) :=
  match l with
  | [] => []
  | x :: l' => ((fun y => (x, y)) <$> l') ++ all_pairs l'
  end.

Definition pairwise_agreement (obs_by_replica : observations) (k : nat) : float :=
  let names := sorted str_leb (dkeys obs_by_replica) in
  if decide (length names < 2) then nan
  else mean_or_nan (concat ((fun nm =>
         pair_scores k (obs_of obs_by_replica nm.1) (obs_of obs_by_replica nm.2))
         <$> all_pairs names)).

(** The scores replica [r] collects against its peers. *)
Definition loo_scores (obs_by_replica : observations) (k : nat) (names : list string)
    (r : string) : list Q :=
  concat ((fun m => if decide (m = r) then []
                    else pair_scores k (obs_of obs_by_replica r) (obs_of obs_by_replica m))
          <$> names).

Definition leave_one_out_agreement (obs_by_replica : observations) (k : nat)
    : list (string * float) :=
  let names := sorted str_leb (dkeys obs_by_replica) in
  if decide (length names < 3) then (fun r => (r, nan)) <$> names
  else (fun r => (r, mean_or_nan (loo_scores obs_by_replica k names r))) <$> names.

(** ** [score_replica] *)

Record scores := mkScores {
  index_recall : float;
  e2e_recall : float;
  completeness : float;
  n_local : Q;
  n_intended : Q;
}.

Section Score.
Context {np : Numpy}.

(** [corpus.mat[rows]] *)
Definition gather {A} (m : list A) (rows : list nat) : result (list A) :=
  rmapM (py_index m) rows.

(** One query of [_mean_recall]: map the winners back to ids, restrict the
    replica's answer, score the first [k]. *)
Definition query_recall (c : Corpus) (rows : list nat) (restrict : option (gset string))
    (k : nat) (o : list string) (trow : list nat) : result float :=
  t ← rmapM (fun j => r ← py_index rows j; py_index (corpus_ids c) r) trow;
  let o' := match restrict with
            | None => o
            | Some s => List.filter (fun i => bool_decide (i ∈ s)) o
            end in
  recall_at_k (take k o') t k.

Definition mean_recall (queries : list vec) (observed : list (list string)) (c : Corpus)
    (k : nat) (metric : string) (rows : list nat) (restrict : option (gset string))
    : result float :=
  if decide (length rows = 0) then Ok nan
  else
    sub ← gather (corpus_mat c) rows;
    top ← exact_topk_rows queries sub k metric;
    per_query ← rmapM (fun ot => query_recall c rows restrict k ot.1 ot.2) (zip observed top);
    Ok (mean_or_nan (drop_nan per_query)).

Definition score_replica (queries : list vec) (observed : list (list string))
    (local_ids intended_ids : gset string) (c : Corpus) (k : nat) (metric : string)
    (intended_rows : option (list nat)) : result scores :=
  let local_rows := rows_for c local_ids in
  let intended_rows := default (rows_for c intended_ids) intended_rows in
  ir ← mean_recall queries observed c k metric local_rows None;
  er ← mean_recall queries observed c k metric intended_rows (Some intended_ids);
  Ok (mkScores ir er (set_completeness local_ids intended_ids)
        (inject_Z (Z.of_nat (size local_ids)))
        (inject_Z (Z.of_nat (size intended_ids)))).
End Score.

(** ** A reference instance of the NumPy interface: sort the indices by score, add
    the products one by one *)

Definition score_leb (d : list Q) (i j : nat) : bool := Qle_bool (qnth d i) (qnth d j).

Definition ref_argsort (d : list Q) : list nat := sorted (score_leb d) (seq 0 (length d)).

#[export] Instance ref_numpy : Numpy := {
  argpartition d _ := ref_argsort d;
  argsort := ref_argsort;
  row_sumsq m := (fun v => f32_fold (zip v v)) <$> m;
  matmul_t a b := (fun q => (fun v => f32_fold (zip q v)) <$> b) <$> a;
}.

Lemma ref_argsort_sorted d i j a b :
  i <= j -> ref_argsort d !! i = Some a -> ref_argsort d !! j = Some b ->
  (qnth d a <= qnth d b)%Q.
Proof.
  intros Hij Ha Hb. apply Qle_bool_iff. eapply (sorted_lookup_le (score_leb d)); [| |done..].
  - intros x y. apply Qle_bool_total.
  - intros x y z. apply Qle_bool_trans.
Qed.

Lemma qnth_fmap_lookup {A} (f : A -> Q) (l : list A) i x : l !! i = Some x -> qnth (f <$> l) i = f x.
Proof. intros H. unfold qnth. by rewrite nth_lookup, list_lookup_fmap, H. Qed.

#[export] Instance ref_numpy_laws : NumpyLaws ref_numpy.
Proof.
  constructor; simpl.
  - intros d kth _. apply sorted_perm.
  - intros d kth i j a b _ ? ?. apply ref_argsort_sorted. lia.
  - intros d. apply sorted_perm.
  - apply ref_argsort_sorted.
  - intros m. apply length_fmap.
  - intros m i v Hv _. erewrite qnth_fmap_lookup by done. apply f32_fold_sum.
  - intros a b. apply length_fmap.
  - intros a b i r Hr. apply list_lookup_fmap_Some in Hr as (q & -> & _). apply length_fmap.
  - intros a b i j r q v Hr Hq Hv _ _. apply list_lookup_fmap_Some in Hr as (q' & -> & Hq').
    rewrite Hq in Hq'. simplify_eq. erewrite qnth_fmap_lookup by done. apply f32_fold_sum.
Qed.

(** ** Exact search returns the nearest rows *)

Lemma dot_cons a b u v : dot (a :: u) (b :: v) = (a * b + dot u v)%Q.
Proof. done. Qed.

Lemma sq_dist_expand u v :
  length u = length v ->
  (sq_dist u v == dot u u + (dot v v - 2 * dot u v))%Q.
Proof.
  unfold sq_dist. revert v. induction u as [|a u IH]; intros [|b v] Hl; simplify_eq/=.
  - reflexivity.
  - rewrite !dot_cons. cbn [Qsum foldr] in *. specialize (IH v ltac:(lia)). unfold Qsum in *.
    rewrite IH. ring.
Qed.

(** [r] lists [k] distinct rows below [m], nearest first, and no row left out is
    strictly nearer than a listed one. *)
Record is_topk (score : nat -> Q) (m k : nat) (r : list nat) : Prop := {
  topk_length : length r = k;
  topk_NoDup : NoDup r;
  topk_range : forall a, a ∈ r -> a < m;
  topk_ordered : forall i j a b,
    i <= j -> r !! i = Some a -> r !! j = Some b -> (score a <= score b)%Q;
  topk_nearest : forall a b, a ∈ r -> b < m -> b ∉ r -> (score a <= score b)%Q;
}.

Lemma is_topk_ext f g m k r :
  (forall a b, a < m -> b < m -> (f a <= f b)%Q -> (g a <= g b)%Q) ->
  is_topk f m k r -> is_topk g m k r.
Proof.
  intros Hfg [H1 H2 H3 H4 H5]. split; [done..| |].
  - intros i j a b Hij Ha Hb. apply Hfg; [| |by eapply H4].
    + apply H3. by eapply list_elem_of_lookup_2.
    + apply H3. by eapply list_elem_of_lookup_2.
  - intros a b Ha Hb Hnb. apply Hfg; auto.
Qed.

Section SearchFacts.
Context {np : Numpy} {laws : NumpyLaws np}.

Lemma nth_seq_self (l : list nat) : (fun o => nth o l 0) <$> seq 0 (length l) = l.
Proof.
  apply list_eq. intros i. rewrite list_lookup_fmap.
  destruct (nth_lookup_or_length l i 0) as [Hi|Hi].
  - rewrite lookup_seq_lt by (by eapply lookup_lt_Some). by rewrite Hi.
  - rewrite lookup_seq_ge by lia. by rewrite lookup_ge_None_2.
Qed.

Lemma qnth_map d (l : list nat) o : o < length l -> qnth (qnth d <$> l) o = qnth d (nth o l 0).
Proof.
  intros Ho. unfold qnth at 1. rewrite nth_lookup, list_lookup_fmap.
  destruct (nth_lookup_or_length l o 0) as [->|]; [done|lia].
Qed.

Lemma topk_row_perm d k :
  topk_row k d ≡ₚ take k (argpartition d (k - 1)).
Proof.
  unfold topk_row. set (part := take _ _).
  rewrite argsort_perm. rewrite length_fmap. by rewrite nth_seq_self.
Qed.

Lemma topk_row_correct d k :
  k <= length d -> is_topk (qnth d) (length d) k (topk_row k d).
Proof.
  intros Hk. destruct k as [|k].
  { pose proof (topk_row_perm d 0) as Hp. rewrite take_0 in Hp.
    apply Permutation_nil_r in Hp. rewrite Hp. split.
    - done.
    - constructor.
    - by intros a ?%not_elem_of_nil.
    - done.
    - by intros a b ?%not_elem_of_nil. }
  pose proof (argpartition_perm d k ltac:(lia)) as Hpart.
  pose proof (topk_row_perm d (S k)) as Hperm.
  replace (S k - 1) with k in Hperm by lia.
  assert (NoDup (argpartition d k)) as Hnd by (rewrite Hpart; apply NoDup_seq).
  assert (forall a, a ∈ argpartition d k <-> a < length d) as Hin.
  { intros a. rewrite Hpart, elem_of_seq. lia. }
  split.
  - rewrite Hperm, length_take, Hpart, length_seq. lia.
  - rewrite Hperm. by apply NoDup_take.
  - intros a. rewrite Hperm. intros (i & Hi & _)%elem_of_take. apply Hin.
    by eapply list_elem_of_lookup_2.
  - intros i j a b Hij Ha Hb. unfold topk_row in Ha, Hb.
    replace (S k - 1) with k in * by lia. set (part := take _ _) in *.
    rewrite list_lookup_fmap in Ha, Hb.
    destruct (argsort _ !! i) as [oi|] eqn:Ei in Ha; simplify_eq/=.
    destruct (argsort _ !! j) as [oj|] eqn:Ej in Hb; simplify_eq/=.
    assert (forall o x, argsort (qnth d <$> part) !! o = Some x -> x < length part) as Hlt.
    { intros o x Hx%list_elem_of_lookup_2. rewrite argsort_perm, length_fmap in Hx.
      apply elem_of_seq in Hx. lia. }
    pose proof (argsort_sorted _ _ _ _ _ Hij Ei Ej) as Hle.
    rewrite !qnth_map in Hle by eauto. done.
  - intros a b Ha Hb Hnb. rewrite Hperm in Ha, Hnb.
    apply elem_of_take in Ha as (i & Hi & Hik).
    apply Hin, list_elem_of_lookup in Hb as [j Hj].
    eapply (argpartition_split d k i j); [lia|lia| |done..].
    destruct (decide (k <= j)); [done|]. exfalso. apply Hnb.
    apply elem_of_take. exists j. split; [done|lia].
Qed.
End SearchFacts.

(** ** Scores approximate distances *)

Lemma f32_double_close p d err :
  (Qabs (p - d) <= err)%Q ->
  (Qabs (f32 (2 * p) - 2 * d) <= (1 + u32) * (2 * err) + u32 * (2 * Qabs d) + eta32)%Q.
Proof.
  intros H. assert (Qabs (2 * p - 2 * d) <= 2 * err)%Q as H1.
  { assert (2 * p - 2 * d == 2 * (p - d))%Q as -> by ring.
    rewrite Qabs_Qmult. change (Qabs 2) with 2%Q. lra. }
  apply f32_step in H1. rewrite Qabs_Qmult in H1. change (Qabs 2) with 2%Q in H1. done.
Qed.

Lemma l2_score_close q v ss p :
  f32_sum (zip v v) ss -> f32_sum (zip q v) p -> length q = length v ->
  (Qabs (f32 (ss - f32 (2 * p)) - (dot v v - 2 * dot q v)) <= l2_err q v)%Q.
Proof.
  intros Hs%f32_sum_error Hp%f32_sum_error Hl. fold (dot v v) in Hs. fold (dot q v) in Hp.
  unfold sum_err in Hs, Hp. rewrite !length_zip_with, Nat.min_id in Hs.
  rewrite !length_zip_with, Hl, Nat.min_id in Hp.
  unfold l2_err. replace (length v + 2) with (S (S (length v))) by lia. rewrite !sum_rel_S.
  set (R := sum_rel (length v)) in *. set (h := sum_abs (length v)) in *.
  pose proof (sum_rel_nonneg (length v)) as HR. fold R in HR.
  pose proof (sum_abs_nonneg (length v)) as Hh. fold h in Hh.
  pose proof (prod_sum_le_abs (zip q v)) as Hd. fold (dot q v) in Hd.
  pose proof (prod_sum_le_abs (zip v v)) as Hn. fold (dot v v) in Hn.
  pose proof (prod_abs_nonneg (zip v v)) as HN. pose proof (prod_abs_nonneg (zip q v)) as HD.
  set (N := prod_abs (zip v v)) in *. set (D := prod_abs (zip q v)) in *.
  pose proof u32_pos as Hu. pose proof eta32_pos as He.
  apply f32_double_close in Hp as H1.
  assert (u32 * (2 * Qabs (dot q v)) <= u32 * (2 * D))%Q as Hd2 by (apply Qmult_le_l_weak; lra).
  assert (Qabs (ss - f32 (2 * p) - (dot v v - 2 * dot q v)) <=
    R * N + h + ((1 + u32) * (2 * (R * D + h)) + u32 * (2 * D) + eta32))%Q as H2.
  { assert (ss - f32 (2 * p) - (dot v v - 2 * dot q v) ==
      (ss - dot v v) + - (f32 (2 * p) - 2 * dot q v))%Q as -> by ring.
    pose proof (Qabs_triangle (ss - dot v v) (- (f32 (2 * p) - 2 * dot q v))) as Ht.
    rewrite Qabs_opp in Ht. lra. }
  apply f32_step in H2.
  assert (Qabs (dot v v - 2 * dot q v) <= N + 2 * D)%Q as H3.
  { pose proof (Qabs_triangle (dot v v) (- (2 * dot q v))) as Ht.
    rewrite Qabs_opp, Qabs_Qmult in Ht. change (Qabs 2) with 2%Q in Ht. unfold Qminus. lra. }
  apply (Qmult_le_l_weak _ _ u32) in H3; [|lra].
  assert (0 <= R * N)%Q as P1 by (by apply Qmult_le_0_compat).
  assert (0 <= u32 * (R * N))%Q as P2 by (apply Qmult_le_0_compat; lra).
  assert (0 <= u32 * (u32 * (R * N)))%Q as P3 by (apply Qmult_le_0_compat; lra).
  assert (0 <= u32 * N)%Q as P4 by (apply Qmult_le_0_compat; lra).
  assert (0 <= u32 * (u32 * N))%Q as P5 by (apply Qmult_le_0_compat; lra).
  assert (0 <= u32 * h)%Q as P6 by (apply Qmult_le_0_compat; lra).
  assert (0 <= u32 * (u32 * h))%Q as P7 by (apply Qmult_le_0_compat; lra).
  assert (0 <= u32 * eta32)%Q as P8 by (apply Qmult_le_0_compat; lra).
  assert (0 <= u32 * (u32 * eta32))%Q as P9 by (apply Qmult_le_0_compat; lra).
  lra.
Qed.
(** The arrays exact search works on: one dimension, and no sum that could overflow. *)
Record searchable (dim : nat) (queries vectors : list vec) : Prop := {
  searchable_queries : Forall (fun q => length q = dim) queries;
  searchable_vectors : Forall (fun v => length v = dim) vectors;
  searchable_range : forall q v, q ∈ queries -> v ∈ vectors ->
    in_f32_range (zip v v) /\ in_f32_range (zip q v);
}.

Definition known_metric (metric : string) : Prop := metric = "l2" \/ metric = "ip".

(** What the scores leave out, the same for every row. *)
Definition metric_offset (metric : string) (q : vec) : Q :=
  if decide (metric = "l2") then dot q q else 0%Q.

(** A row of scores approximates the distances to the query. *)
Definition scores_close (metric : string) (vectors : list vec) (q : vec) (d : list Q) : Prop :=
  length d = length vectors /\
  forall j v, vectors !! j = Some v ->
    (Qabs (qnth d j - (metric_score metric q v - metric_offset metric q)) <= metric_err metric q v)%Q.

Lemma forallb_false {A} (f : A -> bool) l : forallb f l = false <-> exists x, x ∈ l /\ f x = false.
Proof.
  induction l as [|x l IH]; simpl; [split; [done|by intros (y & ?%not_elem_of_nil & _)]|].
  rewrite andb_false_iff, IH. setoid_rewrite elem_of_cons. naive_solver.
Qed.

Lemma same_dim_false queries vectors :
  same_dim queries vectors = false <-> exists q v, q ∈ queries /\ v ∈ vectors /\ length q <> length v.
Proof.
  unfold same_dim. rewrite forallb_false. setoid_rewrite forallb_false.
  setoid_rewrite Nat.eqb_neq. naive_solver.
Qed.

Lemma same_dim_uniform dim queries vectors :
  Forall (fun q => length q = dim) queries -> Forall (fun v => length v = dim) vectors ->
  same_dim queries vectors = true.
Proof.
  rewrite !Forall_forall. intros Hq Hv. apply not_false_iff_true. rewrite same_dim_false.
  intros (q & v & Hinq & Hinv & Hne). apply Hne. by rewrite (Hq q), (Hv v).
Qed.

Section ScoreRows.
Context {np : Numpy} {laws : NumpyLaws np}.

(** A score is computed from one result of each of the two sums. *)
Lemma l2_entry queries vectors dim i q prods j v :
  searchable dim queries vectors -> queries !! i = Some q ->
  matmul_t queries vectors !! i = Some prods -> vectors !! j = Some v ->
  length q = length v /\
  exists ss p, f32_sum (zip v v) ss /\ f32_sum (zip q v) p /\
    qnth (l2_scores (row_sumsq vectors) prods) j = f32 (ss - f32 (2 * p)).
Proof.
  intros [Hq Hv Hr] Eq Ep Ev. pose proof (matmul_row_length _ _ _ _ Ep) as Hl.
  pose proof (row_sumsq_length vectors) as Hs.
  rewrite Forall_lookup in Hq, Hv. pose proof (Hq _ _ Eq) as Lq. pose proof (Hv _ _ Ev) as Lv.
  destruct (Hr q v) as [R1 R2]; [by eapply list_elem_of_lookup_2..|].
  simpl in Lq, Lv. pose proof (row_sumsq_value _ _ _ Ev R1) as S1.
  pose proof (matmul_value _ _ _ _ _ _ _ Ep Eq Ev ltac:(congruence) R2) as S2.
  apply lookup_lt_Some in Ev as Hj.
  destruct (lookup_lt_is_Some_2 (row_sumsq vectors) j ltac:(lia)) as [ss Ess].
  destruct (lookup_lt_is_Some_2 prods j ltac:(lia)) as [p Epj].
  unfold qnth, l2_scores in *. rewrite nth_lookup, lookup_zip_with. rewrite nth_lookup, Ess in S1.
  rewrite nth_lookup, Epj in S2. rewrite Ess, Epj. split; [congruence|]. exists ss, p. done.
Qed.

Lemma l2_row_length queries vectors i prods :
  matmul_t queries vectors !! i = Some prods ->
  length (l2_scores (row_sumsq vectors) prods) = length vectors.
Proof.
  intros Ep%matmul_row_length. unfold l2_scores.
  rewrite length_zip_with, row_sumsq_length. lia.
Qed.

Lemma l2_row_close queries vectors dim i q prods :
  searchable dim queries vectors -> queries !! i = Some q ->
  matmul_t queries vectors !! i = Some prods ->
  scores_close "l2" vectors q (l2_scores (row_sumsq vectors) prods).
Proof.
  intros Hs Eq Ep. split; [by eapply l2_row_length|]. intros j v Ev.
  destruct (l2_entry _ _ _ _ _ _ _ _ Hs Eq Ep Ev) as (Hl & ss & p & S1 & S2 & ->).
  change (metric_score "l2" q v) with (sq_dist q v). change (metric_offset "l2" q) with (dot q q).
  change (metric_err "l2" q v) with (l2_err q v). rewrite sq_dist_expand by done.
  assert (dot q q + (dot v v - 2 * dot q v) - dot q q == dot v v - 2 * dot q v)%Q as -> by ring.
  by apply l2_score_close.
Qed.

Lemma ip_row_close queries vectors dim i q prods :
  searchable dim queries vectors -> queries !! i = Some q ->
  matmul_t queries vectors !! i = Some prods ->
  scores_close "ip" vectors q (ip_scores prods).
Proof.
  intros [Hq Hv Hr] Eq Ep. pose proof (matmul_row_length _ _ _ _ Ep) as Hl. unfold ip_scores. split.
  - by rewrite length_fmap.
  - intros j v Ev. rewrite Forall_lookup in Hq, Hv. pose proof (Hq _ _ Eq) as Lq. pose proof (Hv _ _ Ev) as Lv.
    destruct (Hr q v) as [_ R2]; [by eapply list_elem_of_lookup_2..|]. simpl in Lq, Lv.
    pose proof (matmul_value _ _ _ _ _ _ _ Ep Eq Ev ltac:(congruence) R2) as S2.
    apply lookup_lt_Some in Ev as Hj.
    destruct (lookup_lt_is_Some_2 prods j ltac:(lia)) as [p Epj].
    unfold qnth in *. rewrite nth_lookup, list_lookup_fmap, Epj. rewrite nth_lookup, Epj in S2. cbn in S2.
    cbn [default from_option option_fmap option_map fmap]. unfold id.
    change (metric_score "ip" q v) with (- dot q v)%Q. change (metric_offset "ip" q) with 0%Q.
    change (metric_err "ip" q v) with (sum_err (zip q v)). apply f32_sum_error in S2.
    fold (dot q v) in S2. assert (- p - (- dot q v - 0) == - (p - dot q v))%Q as -> by ring.
    by rewrite Qabs_opp.
Qed.

Lemma score_rows_close queries vectors dim metric :
  searchable dim queries vectors -> known_metric metric ->
  exists d, score_rows queries vectors metric = Ok d /\
    Forall2 (scores_close metric vectors) queries d.
Proof.
  intros Hs Hm. pose proof Hs as [Hq Hv _]. unfold score_rows, matmul.
  rewrite (same_dim_uniform dim) by done.
  destruct Hm as [->| ->]; simpl; (eexists; split; [done|]);
    apply Forall2_fmap_r, Forall2_same_length_lookup; (split; [by rewrite matmul_length|]);
    intros i q prods Eq Ep; [by eapply l2_row_close|by eapply ip_row_close].
Qed.

Lemma score_rows_shape queries vectors metric d :
  score_rows queries vectors metric = Ok d ->
  length d = length queries /\ Forall (fun r => length r = length vectors) d.
Proof.
  unfold score_rows, matmul. intros H.
  repeat case_decide; [| |done]; destruct (same_dim queries vectors); simplify_eq/=;
    rewrite length_fmap, matmul_length; (split; [done|]); apply Forall_fmap, Forall_lookup;
    intros i r Hr; simpl; apply matmul_row_length in Hr; unfold l2_scores, ip_scores;
    rewrite ?length_fmap, ?length_zip_with, ?row_sumsq_length; lia.
Qed.
End ScoreRows.

(** ** The nearest rows, up to rounding *)

(** As [is_topk], when a score [a] may be off by [err a]. *)
Record is_topk_within (score err : nat -> Q) (m k : nat) (r : list nat) : Prop := {
  within_length : length r = k;
  within_NoDup : NoDup r;
  within_range : forall a, a ∈ r -> a < m;
  within_ordered : forall i j a b,
    i <= j -> r !! i = Some a -> r !! j = Some b -> (score a <= score b + err a + err b)%Q;
  within_nearest : forall a b, a ∈ r -> b < m -> b ∉ r -> (score a <= score b + err a + err b)%Q;
}.

(** Different scores differ by more than their errors. *)
Definition separated (score err : nat -> Q) (m : nat) : Prop :=
  forall a b, a < m -> b < m -> (score a < score b)%Q -> (score a + err a + err b < score b)%Q.

Lemma is_topk_close f g err c m k r :
  (forall a, a < m -> (Qabs (f a - (g a - c)) <= err a)%Q) ->
  is_topk f m k r -> is_topk_within g err m k r.
Proof.
  intros Hfg [H1 H2 H3 H4 H5].
  assert (forall a b, a < m -> b < m -> (f a <= f b)%Q -> (g a <= g b + err a + err b)%Q) as Hle.
  { intros a b Ha%Hfg%Qabs_Qle_condition Hb%Hfg%Qabs_Qle_condition H. lra. }
  split; [done..| |].
  - intros i j a b Hij Ha Hb. apply Hle; [| |by eapply H4].
    + apply H3. by eapply list_elem_of_lookup_2.
    + apply H3. by eapply list_elem_of_lookup_2.
  - intros a b Ha Hb Hnb. apply Hle; auto.
Qed.

Lemma is_topk_separated score err m k r :
  separated score err m -> is_topk_within score err m k r -> is_topk score m k r.
Proof.
  intros Hs [H1 H2 H3 H4 H5].
  assert (forall a b, a < m -> b < m -> (score a <= score b + err a + err b)%Q -> (score a <= score b)%Q) as Hle.
  { intros a b Ha Hb H. apply Qnot_lt_le. intros Hlt. specialize (Hs b a Hb Ha Hlt). lra. }
  split; [done..| |].
  - intros i j a b Hij Ha Hb. apply Hle; [| |by eapply H4].
    + apply H3. by eapply list_elem_of_lookup_2.
    + apply H3. by eapply list_elem_of_lookup_2.
  - intros a b Ha Hb Hnb. apply Hle; auto.
Qed.

Lemma is_topk_empty score k : is_topk score 0 (min k 0) [].
Proof.
  rewrite Nat.min_0_r. split; try done; [constructor|..];
    by intros a ?%not_elem_of_nil || by intros a b ?%not_elem_of_nil.
Qed.

(** The distances from a query to the rows of an array, and their errors. *)
Definition distances (metric : string) (vectors : list vec) (q : vec) (i : nat) : Q :=
  metric_score metric q (nth i vectors []).
Definition errors (metric : string) (vectors : list vec) (q : vec) (i : nat) : Q :=
  metric_err metric q (nth i vectors []).

Lemma topk_row_within {np : Numpy} {laws : NumpyLaws np} metric vectors q d k :
  scores_close metric vectors q d -> k <= length vectors ->
  is_topk_within (distances metric vectors q) (errors metric vectors q) (length vectors) k (topk_row k d).
Proof.
  intros [Hl Hc] Hk. eapply (is_topk_close (qnth d) _ _ (metric_offset metric q)).
  - intros a Ha. destruct (lookup_lt_is_Some_2 vectors a Ha) as [v Ev].
    unfold distances, errors. rewrite (nth_lookup vectors), Ev. by apply Hc.
  - rewrite <- Hl. apply topk_row_correct. lia.
Qed.

Lemma exact_topk_rows_within (np : Numpy) queries vectors k dim metric :
  NumpyLaws np -> searchable dim queries vectors -> known_metric metric ->
  exists top, exact_topk_rows queries vectors k metric = Ok top /\
    Forall2 (fun q r => is_topk_within (distances metric vectors q) (errors metric vectors q)
                          (length vectors) (min k (length vectors)) r) queries top.
Proof.
  intros laws Hs Hm. unfold exact_topk_rows. destruct (decide (length vectors = 0)) as [H0|H0].
  - eexists. split; [done|]. rewrite H0. apply Forall2_replicate_r; [done|]. apply Forall_true.
    intros q. destruct (is_topk_empty (distances metric vectors q) k) as [E1 E2 E3 _ _].
    split; [done..|done|]. by intros a b ?%not_elem_of_nil.
  - destruct (score_rows_close queries vectors dim metric Hs Hm) as (d & -> & Hd).
    eexists. split; [done|]. apply Forall2_fmap_r. eapply Forall2_impl; [exact Hd|].
    intros q r Hq. apply topk_row_within; [done|lia].
Qed.

Lemma exact_topk_rows_raise (np : Numpy) queries vectors k metric e :
  exact_topk_rows queries vectors k metric = Raise e <->
  e = ValueError /\ vectors <> [] /\
  (~ known_metric metric \/ exists q v, q ∈ queries /\ v ∈ vectors /\ length q <> length v).
Proof.
  rewrite <- same_dim_false. unfold exact_topk_rows, score_rows, matmul, known_metric.
  destruct vectors as [|v vs]; [naive_solver|]. rewrite decide_False by done.
  destruct (decide (metric = "l2")), (decide (metric = "ip")), (same_dim queries (v :: vs)) eqn:E;
    naive_solver.
Qed.

(** ** Data on which nothing is rounded *)

(** Non-negative multiples of [2^e] whose sums of products have at most 24 bits. *)
Record on_f32_grid (e : Z) (queries vectors : list vec) : Prop := {
  grid_exp : (-149 <= e + e <= 100)%Z;
  grid_queries : Forall (Forall (fun x => on_grid e x /\ 0 <= x)%Q) queries;
  grid_vectors : Forall (Forall (fun x => on_grid e x /\ 0 <= x)%Q) vectors;
  grid_range : forall q v, q ∈ queries -> v ∈ vectors ->
    (prod_abs (zip v v) < pow2 (24 + (e + e)))%Q /\ (2 * prod_abs (zip q v) < pow2 (24 + (e + e)))%Q;
}.

Lemma zip_grid e u v :
  Forall (fun x => on_grid e x /\ 0 <= x)%Q u -> Forall (fun x => on_grid e x /\ 0 <= x)%Q v ->
  Forall (fun xy => on_grid (e + e) (xy.1 * xy.2)%Q) (zip u v) /\ (0 <= dot u v)%Q.
Proof.
  intros Hu. revert v. induction Hu as [|x u [Gx Px] _ IH]; intros v Hv; [split; [constructor|done]|].
  destruct Hv as [|y v [Gy Py] Hv]; [split; [constructor|done]|].
  destruct (IH v Hv) as [IH1 IH2]. split.
  - constructor; [by apply on_grid_mult|done].
  - rewrite dot_cons. pose proof (Qmult_le_0_compat x y Px Py). lra.
Qed.

Lemma l2_score_exact e q v ss p :
  (-149 <= e + e)%Z ->
  Forall (fun x => on_grid e x /\ 0 <= x)%Q q -> Forall (fun x => on_grid e x /\ 0 <= x)%Q v ->
  (prod_abs (zip v v) < pow2 (24 + (e + e)))%Q -> (2 * prod_abs (zip q v) < pow2 (24 + (e + e)))%Q ->
  f32_sum (zip v v) ss -> f32_sum (zip q v) p ->
  (f32 (ss - f32 (2 * p)) == dot v v - 2 * dot q v)%Q.
Proof.
  intros He Hq Hv Rv Rq Hs Hp.
  destruct (zip_grid e v v Hv Hv) as [Gv Pv]. destruct (zip_grid e q v Hq Hv) as [Gq Pq].
  pose proof (prod_sum_le_abs (zip v v)) as Av. fold (dot v v) in Av. rewrite Qabs_pos in Av by done.
  pose proof (prod_sum_le_abs (zip q v)) as Aq. fold (dot q v) in Aq. rewrite Qabs_pos in Aq by done.
  pose proof (prod_abs_nonneg (zip q v)) as Nq.
  assert (ss == dot v v)%Q as Es by (by apply (f32_sum_exact (e + e))).
  assert (p == dot q v)%Q as Ep by (apply (f32_sum_exact (e + e)); [done|done|done|lra]).
  assert (on_grid (e + e) (dot v v)) as Gs by (by apply prod_sum_grid).
  assert (on_grid (e + e) (2 * dot q v)%Q) as Gp.
  { apply (on_grid_Qeq _ (dot q v + dot q v)%Q); [ring|]. by apply on_grid_add; apply prod_sum_grid. }
  assert (f32 (2 * p) == 2 * dot q v)%Q as E2.
  { rewrite <- Ep. apply (f32_grid (e + e)); [done| |].
    - apply (on_grid_Qeq _ (2 * dot q v)%Q); [by rewrite Ep|done].
    - rewrite Ep, Qabs_pos; lra. }
  assert (ss - f32 (2 * p) == dot v v - 2 * dot q v)%Q as E3 by (rewrite Es, E2; ring).
  rewrite <- E3. apply (f32_grid (e + e)); [done| |].
  - apply (on_grid_Qeq _ (dot v v - 2 * dot q v)%Q); [by rewrite E3|]. destruct Gp as [m Hm].
    unfold Qminus. apply on_grid_add; [done|]. exists (- m)%Z. rewrite inject_Z_opp, Hm. ring.
  - rewrite E3. apply Qabs_case; intros _; lra.
Qed.

Lemma grid_searchable dim e queries vectors :
  Forall (fun q => length q = dim) queries -> Forall (fun v => length v = dim) vectors ->
  on_f32_grid e queries vectors -> searchable dim queries vectors.
Proof.
  intros Hq Hv [He _ _ Hr]. split; [done..|]. intros q v Inq Inv. destruct (Hr q v Inq Inv) as [R1 R2].
  pose proof (pow2_le (24 + (e + e)) 126 ltac:(lia)). pose proof (prod_abs_nonneg (zip q v)).
  unfold in_f32_range. split; lra.
Qed.

(** On such data exact search is exact, in whatever order the sums are added. *)
Lemma exact_topk_rows_grid (np : Numpy) queries vectors k dim e :
  NumpyLaws np ->
  Forall (fun q => length q = dim) queries -> Forall (fun v => length v = dim) vectors ->
  on_f32_grid e queries vectors ->
  exists top, exact_topk_rows queries vectors k "l2" = Ok top /\
    Forall2 (fun q r => is_topk (distances "l2" vectors q) (length vectors)
                          (min k (length vectors)) r) queries top.
Proof.
  intros laws Hq Hv Hg. pose proof (grid_searchable dim e _ _ Hq Hv Hg) as Hs.
  destruct Hg as [He Gq Gv Gr]. unfold exact_topk_rows.
  destruct (decide (length vectors = 0)) as [H0|H0].
  { eexists. split; [done|]. rewrite H0. apply Forall2_replicate_r; [done|]. apply Forall_true.
    intros q. apply is_topk_empty. }
  unfold score_rows, matmul. rewrite (same_dim_uniform dim) by done. simpl.
  eexists. split; [done|]. apply Forall2_fmap_r, Forall2_fmap_r, Forall2_same_length_lookup.
  split; [by rewrite matmul_length|]. intros i q prods Eq Ep.
  cbn beta. set (d := l2_scores (row_sumsq vectors) prods). pose proof (l2_row_length _ _ _ _ Ep) as Hl. fold d in Hl.
  apply (is_topk_separated _ (fun _ => 0%Q)); [intros a b _ _ Hlt; lra|].
  pose proof (topk_row_correct d (min k (length vectors)) ltac:(rewrite Hl; apply Nat.le_min_r)) as Ht.
  rewrite Hl in Ht. apply (is_topk_close (qnth d) _ _ (dot q q)); [|exact Ht].
  intros a Ha. destruct (lookup_lt_is_Some_2 vectors a Ha) as [v Ev].
  destruct (l2_entry _ _ _ _ _ _ _ _ Hs Eq Ep Ev) as (Hlen & ss & p & S1 & S2 & E).
  unfold distances. rewrite (nth_lookup vectors), Ev.
  change (metric_score "l2" q (default [] (Some v))) with (sq_dist q v).
  rewrite sq_dist_expand by done. unfold d. rewrite E.
  apply list_elem_of_lookup_2 in Eq, Ev. destruct (Gr q v Eq Ev) as [R1 R2].
  rewrite Forall_forall in Gq, Gv.
  rewrite (l2_score_exact e q v ss p (proj1 He) (Gq q Eq) (Gv v Ev) R1 R2 S1 S2).
  assert (forall x y : Q, x - (y + x - y) == 0)%Q as Hz by (intros; ring). rewrite Hz. done.
Qed.

(** C1. Ground truth in the code's own arithmetic. The scores [|v|^2 - 2 q.v] (or
    [-q.v]) are [float32] sums of products, which NumPy may add in any order. For
    arrays of one dimension whose sums do not overflow and either metric,
    [exact_topk_rows] returns for every query [min k n] distinct rows, ordered by the
    exact squared distance (or inner product) and with no row left out nearer than a
    returned one, up to the rounding errors of the two rows compared, [l2_err] (or
    [sum_err]) of the query and the row; and the result is exactly right when
    different distances differ by more than these errors. It raises [ValueError], and
    nothing else, exactly for a metric it does not know or a query and a row of
    different dimension. *)
Theorem exact_topk_rows_correct (np : Numpy) (queries vectors : list vec) (k : nat) (metric : string) :
  NumpyLaws np ->
  (forall dim, searchable dim queries vectors -> known_metric metric ->
    exists top, exact_topk_rows queries vectors k metric = Ok top /\
      Forall2 (fun q r =>
        is_topk_within (distances metric vectors q) (errors metric vectors q)
          (length vectors) (min k (length vectors)) r /\
        (separated (distances metric vectors q) (errors metric vectors q) (length vectors) ->
         is_topk (distances metric vectors q) (length vectors) (min k (length vectors)) r))
        queries top) /\
  (forall e, exact_topk_rows queries vectors k metric = Raise e <->
    e = ValueError /\ vectors <> [] /\
    (~ known_metric metric \/ exists q v, q ∈ queries /\ v ∈ vectors /\ length q <> length v)).
Proof.
  intros laws. split; [|intros e; apply exact_topk_rows_raise]. intros dim Hs Hm.
  destruct (exact_topk_rows_within np queries vectors k dim metric laws Hs Hm) as (top & -> & HF).
  exists top. split; [done|]. eapply Forall2_impl; [exact HF|]. intros q r Hr.
  split; [done|]. intros Hsep. by eapply is_topk_separated.
Qed.

Definition demo_vectors : list vec := [[3;4]; [1;0]; [0;2]]%Q.

Lemma demo_searchable : searchable 2 [[0;0]]%Q demo_vectors.
Proof.
  split; [repeat constructor..|]. intros q v ->%list_elem_of_singleton Hv. unfold demo_vectors in Hv.
  rewrite !elem_of_cons in Hv. destruct Hv as [->|[->|[->|Hv]]]; [by vm_compute..|by apply not_elem_of_nil in Hv].
Qed.

Lemma exact_topk_rows_correct_witness :
  exact_topk_rows [[0;0]]%Q demo_vectors 2 "l2" = Ok [[1; 2]] /\
  is_topk (distances "l2" demo_vectors [0;0]%Q) 3 2 [1; 2] /\
  exact_topk_rows [[0]]%Q demo_vectors 2 "l2" = Raise ValueError.
Proof.
  destruct (exact_topk_rows_correct ref_numpy [[0;0]]%Q demo_vectors 2 "l2" _) as [H _].
  destruct (exact_topk_rows_correct ref_numpy [[0]]%Q demo_vectors 2 "l2" _) as [_ H'].
  destruct (H 2 demo_searchable (or_introl eq_refl)) as (top & E & HF).
  assert (exact_topk_rows [[0;0]]%Q demo_vectors 2 "l2" = Ok [[1; 2]]) as E2 by (vm_compute; reflexivity).
  rewrite E2 in E. injection E as <-. split; [exact E2|]. split.
  - inversion HF as [|? ? ? ? [_ Hx] _]; subst. apply Hx.
    intros a b Ha Hb. change (length demo_vectors) with 3 in Ha, Hb.
    destruct a as [|[|[|a]]]; [| | |lia]; (destruct b as [|[|[|b]]]; [| | |lia]); by vm_compute.
  - apply H'. split; [done|]. split; [done|]. right. exists [0]%Q, [3;4]%Q. split_and!; [by left|by left|done].
Defined.

(** The errors are real: of two one-dimensional rows the strictly nearer one is left
    out, because both scores round to the same [float32] number. *)
Example near_rows_collide :
  let q := [f32 (9 # 10)] in
  let rows := [[f32 (90005 # 100000)]; [f32 (9 # 10)]] in
  exact_topk_rows [q] rows 1 "l2" = Ok [[0]] /\
  (distances "l2" rows q 1 < distances "l2" rows q 0)%Q /\
  (forall i, i < 2 -> (errors "l2" rows q i < 1 # 1000000)%Q).
Proof.
  split_and!; [vm_compute; reflexivity|by vm_compute|].
  intros [|[|i]] Hi; [by vm_compute..|lia].
Qed.

(** ** [rows_for] *)

Lemma elem_of_rows_for c wanted r :
  r ∈ rows_for c wanted <->
  exists i, i ∈ wanted /\ corpus_row_of c !! i = Some r /\ r < corpus_n c.
Proof.
  unfold rows_for. rewrite elem_of_sorted, list_elem_of_fmap. setoid_rewrite elem_of_bfilter.
  setoid_rewrite list_elem_of_fmap. setoid_rewrite elem_of_elements.
  unfold in_snapshot, row_get. split.
  - intros (z & -> & (i & -> & Hi) & Hb). exists i.
    destruct (corpus_row_of c !! i) as [r|]; breflect; [|lia].
    rewrite Nat2Z.id. split_and!; [done|done|lia].
  - intros (i & Hi & Hr & Hn). exists (Z.of_nat r). rewrite Nat2Z.id.
    split_and!; [done| |].
    + exists i. by rewrite Hr.
    + apply andb_true_iff. rewrite Z.leb_le, Z.ltb_lt. lia.
Qed.

Lemma nat_leb_total x y : Nat.leb x y = true \/ Nat.leb y x = true.
Proof. rewrite !Nat.leb_le. lia. Qed.

(** [Corpus.rows_for] returns, in ascending order, exactly the rows below the
    snapshot's [n] of the wanted ids: ids the corpus has no row for, and rows
    appended after the snapshot, are dropped. *)
Theorem rows_for_spec (c : Corpus) (wanted : gset string) :
  Sorted (le_of Nat.leb) (rows_for c wanted) /\
  (forall r, r ∈ rows_for c wanted <->
     exists i, i ∈ wanted /\ corpus_row_of c !! i = Some r /\ r < corpus_n c).
Proof.
  split; [|apply elem_of_rows_for].
  apply sorted_Sorted, nat_leb_total.
Qed.

(** ** Recall and completeness *)

Lemma size_inter_le_r (a b : gset string) : size (a ∩ b) <= size b.
Proof. apply subseteq_size. set_solver. Qed.

Lemma size_pos (a : gset string) : a <> ∅ -> 0 < size a.
Proof. intros H. destruct (decide (size a = 0)) as [E|]; [|lia].
  apply size_empty_inv in E. exfalso. apply H. by apply leibniz_equiv. Qed.

Lemma size_inter_full (a b : gset string) : size (a ∩ b) = size b <-> b ⊆ a.
Proof.
  split.
  - intros H. assert (a ∩ b = b) as <-; [|set_solver].
    apply leibniz_equiv. apply set_subseteq_size_equiv; [set_solver|]. lia.
  - intros H. f_equiv. set_solver.
Qed.

Lemma set_of_take_nonempty k (l : list string) : 0 < k -> l <> [] -> set_of (take k l) <> ∅.
Proof. destruct k, l; simpl; try lia; try done. intros _ _. unfold set_of. set_solver. Qed.

(** The value [recall_at_k] returns on a nonempty truth list. *)
Lemma recall_at_k_value o t k :
  0 < k -> t <> [] ->
  recall_at_k o t k =
    Ok (fin (qratio (size (set_of (take k o) ∩ set_of (take k t))) (size (set_of (take k t))))).
Proof.
  intros Hk Ht. unfold recall_at_k. destruct t as [|x t]; [done|].
  pose proof (size_pos _ (set_of_take_nonempty k (x :: t) Hk Ht)).
  by rewrite decide_False by lia.
Qed.

Lemma recall_at_k_unit o t k x : recall_at_k o t k = Ok x -> unit_or_nan x.
Proof.
  unfold recall_at_k. destruct t as [|y t]; [by intros [= <-]|].
  case_decide; [done|]. intros [= <-]. split; [apply qratio_nonneg|].
  apply qratio_le_1; [lia|apply size_inter_le_r].
Qed.

(** recall@k. On a nonempty truth list and [k > 0] the result is a number in
    [0, 1], and it is 1 exactly when the observed top-k contains the true top-k;
    the order of either list within the top-k is irrelevant. *)
Theorem recall_at_k_spec (observed truth : list string) (k : nat) :
  0 < k -> truth <> [] ->
  exists q, recall_at_k observed truth k = Ok (fin q) /\ (0 <= q <= 1)%Q /\
    ((q == 1)%Q <-> set_of (take k truth) ⊆ set_of (take k observed)).
Proof.
  intros Hk Ht. rewrite recall_at_k_value by done. eexists; split; [done|].
  pose proof (size_pos _ (set_of_take_nonempty k truth Hk Ht)).
  split; [split; [apply qratio_nonneg|]|].
  - apply qratio_le_1; [done|apply size_inter_le_r].
  - rewrite qratio_eq_1 by done. apply size_inter_full.
Qed.

Lemma recall_at_k_spec_witness :
  recall_at_k ["b"; "x"] ["a"; "b"] 2 = Ok (fin (1 # 2)) /\
  exists q, recall_at_k ["b"; "x"] ["a"; "b"] 2 = Ok (fin q) /\ (0 <= q <= 1)%Q /\
    ((q == 1)%Q <-> set_of (take 2 ["a"; "b"]) ⊆ set_of (take 2 ["b"; "x"])).
Proof. split; [reflexivity|]. apply recall_at_k_spec; [lia|done]. Defined.

Lemma set_completeness_facts (local intended : gset string) :
  match set_completeness local intended with
  | nan => intended = ∅
  | fin q =>
      (0 <= q <= 1)%Q /\ ((q == 1)%Q <-> intended ⊆ local) /\
      ((1 - q) * inject_Z (Z.of_nat (size intended))
         == inject_Z (Z.of_nat (size (intended ∖ local))))%Q
  end.
Proof.
  unfold set_completeness. case_decide as Hi; [done|].
  pose proof (size_pos _ Hi) as Hp. split_and!.
  - apply qratio_nonneg.
  - apply qratio_le_1; [done|apply size_inter_le_r].
  - rewrite qratio_eq_1 by done. apply size_inter_full.
  - pose proof (qratio_mul (size (local ∩ intended)) (size intended) Hp) as Hm.
    assert (size (intended ∖ local) = size intended - size (local ∩ intended)) as ->.
    { rewrite size_difference_alt. f_equal. f_equiv. set_solver. }
    pose proof (size_inter_le_r local intended).
    rewrite Nat2Z.inj_sub by done. unfold Z.sub.
    rewrite inject_Z_plus, inject_Z_opp. lra.
Qed.

(** Completeness is NaN exactly when nothing is intended; otherwise it lies in
    [0, 1], is 1 exactly when the replica holds every intended id, and
    [(1 - completeness) * |intended|] -- the quantity the healing analysis works
    with -- is the number of intended ids the replica is missing. *)
Theorem set_completeness_spec (local intended : gset string) :
  match set_completeness local intended with
  | nan => intended = ∅
  | fin q =>
      (0 <= q <= 1)%Q /\ ((q == 1)%Q <-> intended ⊆ local) /\
      ((1 - q) * inject_Z (Z.of_nat (size intended))
         == inject_Z (Z.of_nat (size (intended ∖ local))))%Q
  end.
Proof. apply set_completeness_facts. Qed.

(** ** Agreement *)

Lemma overlap_score_unit k a b q : overlap_score k a b = Some q -> (0 <= q <= 1)%Q.
Proof.
  unfold overlap_score. case_decide as Hd; [done|]. intros [= <-].
  split; [apply qratio_nonneg|].
  set (sa := set_of (take k a)) in *. set (sb := set_of (take k b)) in *.
  assert (size sa <> 0 \/ size sb <> 0) as Hs.
  { destruct (decide (sa = ∅)) as [->|Ha].
    - destruct (decide (sb = ∅)) as [->|Hb]; [tauto|]. right.
      pose proof (size_pos _ Hb). lia.
    - left. pose proof (size_pos _ Ha). lia. }
  apply qratio_le_1; [lia|]. pose proof (size_inter_le_r sa sb). lia.
Qed.

Lemma overlap_score_comm k a b : overlap_score k a b = overlap_score k b a.
Proof.
  unfold overlap_score. set (sa := set_of (take k a)). set (sb := set_of (take k b)).
  assert (sa ∩ sb = sb ∩ sa) as -> by set_solver. rewrite Nat.max_comm.
  destruct (decide _) as [Hd|Hd], (decide _) as [He|He]; try done; tauto.
Qed.

Lemma pair_scores_comm k xs ys : pair_scores k xs ys = pair_scores k ys xs.
Proof.
  unfold pair_scores. revert ys. induction xs as [|x xs IH]; intros [|y ys]; try done.
  simpl. rewrite overlap_score_comm, IH. done.
Qed.

Lemma pair_scores_unit k xs ys : Forall (fun q => 0 <= q <= 1)%Q (pair_scores k xs ys).
Proof.
  apply Forall_forall. unfold pair_scores. intros q Hq.
  apply list_elem_of_omap in Hq as (ab & _ & Hs). by apply overlap_score_unit in Hs.
Qed.

Lemma concat_unit (ls : list (list Q)) :
  Forall (Forall (fun q => 0 <= q <= 1)%Q) ls -> Forall (fun q => 0 <= q <= 1)%Q (concat ls).
Proof. induction 1; simpl; [constructor|]. by apply Forall_app. Qed.

(** The ground-truth-free observables are proportions: shard agreement and
    every replica's leave-one-out agreement lie in [0, 1] or are NaN, whatever the
    replicas returned; with fewer than two (three) replicas they are NaN. *)
Theorem agreement_range (obs : observations) (k : nat) :
  unit_or_nan (pairwise_agreement obs k) /\
  Forall (fun rx => unit_or_nan rx.2) (leave_one_out_agreement obs k) /\
  (length obs < 2 -> pairwise_agreement obs k = nan) /\
  (length obs < 3 -> Forall (fun rx => rx.2 = nan) (leave_one_out_agreement obs k)).
Proof.
  unfold pairwise_agreement, leave_one_out_agreement, dkeys.
  rewrite sorted_length, length_fmap. split_and!.
  - case_decide; [done|]. apply mean_or_nan_unit, concat_unit, Forall_fmap, Forall_true.
    intros nm. apply pair_scores_unit.
  - case_decide; apply Forall_fmap, Forall_true; intros r; [done|]. simpl.
    apply mean_or_nan_unit, concat_unit, Forall_fmap, Forall_true. intros m. simpl.
    case_decide; [constructor|apply pair_scores_unit].
  - intros H. by rewrite decide_True.
  - intros H. rewrite decide_True by done. by apply Forall_fmap, Forall_true.
Qed.

Lemma concat_fmap_perm {A B} (f : A -> list B) l1 l2 :
  l1 ≡ₚ l2 -> concat (f <$> l1) ≡ₚ concat (f <$> l2).
Proof.
  induction 1 as [|x l1 l2 _ IH|x y l|l1 l2 l3 _ IH1 _ IH2]; csimpl;
    [done|by rewrite IH| |by rewrite IH1].
  rewrite !app_assoc. by rewrite (Permutation_app_comm (f y)).
Qed.

(** Repeating one score list over several peers. *)
Lemma Qsum_concat_const {A} (f : A -> list Q) (l : list A) P :
  Forall (fun x => f x = P) l ->
  length (concat (f <$> l)) = length l * length P /\
  (Qsum (concat (f <$> l)) == inject_Z (Z.of_nat (length l)) * Qsum P)%Q.
Proof.
  induction 1 as [|x l Hx _ [IH1 IH2]].
  - split; [done|]. change (0 == 0 * Qsum P)%Q. ring.
  - csimpl. rewrite Hx. split; [rewrite length_app; lia|].
    rewrite Qsum_app, IH2, Nat2Z.inj_succ. unfold Z.succ. rewrite inject_Z_plus.
    change (inject_Z 1) with 1%Q. ring.
Qed.

Lemma overlap_self k a : set_of (take k a) <> ∅ ->
  exists q, overlap_score k a a = Some q /\ (q == 1)%Q.
Proof.
  intros Ha. unfold overlap_score. rewrite decide_False by tauto. eexists; split; [done|].
  pose proof (size_pos _ Ha). apply qratio_eq_1; [lia|].
  rewrite Nat.max_id. f_equiv. set_solver.
Qed.

(** Every query scored: [zip] of two answer lists of which one is never empty. *)
Lemma pair_scores_length k xs ys :
  length xs = length ys -> Forall (fun x => set_of (take k x) <> ∅) xs ->
  length (pair_scores k xs ys) = length xs.
Proof.
  unfold pair_scores. revert ys. induction xs as [|x xs IH]; intros [|y ys] Hl Hx; simplify_eq/=;
    [done|]. inversion Hx as [|? ? Hx1 Hx2]; subst.
  unfold overlap_score at 1. rewrite decide_False by tauto. simpl. by rewrite IH.
Qed.

Lemma pair_scores_self k xs :
  Forall (fun x => set_of (take k x) <> ∅) xs ->
  (Qsum (pair_scores k xs xs) == inject_Z (Z.of_nat (length xs)))%Q.
Proof.
  unfold pair_scores. induction 1 as [|x xs Hx _ IH]; cbn [zip omap list_omap length fst snd].
  - reflexivity.
  - simpl. destruct (overlap_self k x Hx) as (q & -> & Hq).
    rewrite Qsum_cons, IH, Hq, Nat2Z.inj_succ. unfold Z.succ. rewrite inject_Z_plus.
    change (inject_Z 1) with 1%Q. ring.
Qed.

Lemma overlap_score_lt_1 k a b q :
  set_of (take k a) <> set_of (take k b) -> overlap_score k a b = Some q -> (q < 1)%Q.
Proof.
  intros Hne Hs. pose proof (overlap_score_unit _ _ _ _ Hs) as [_ Hle].
  unfold overlap_score in Hs. set (sa := set_of (take k a)) in *. set (sb := set_of (take k b)) in *.
  destruct (decide (sa = ∅ /\ sb = ∅)) as [[? ?]|Hd]; [congruence|]. simplify_eq.
  apply Qle_lt_or_eq in Hle as [?|Heq]; [done|exfalso; apply Hne].
  assert (0 < max (size sa) (size sb)) as Hp.
  { destruct (decide (sa = ∅)) as [Ha|Ha]; [destruct (decide (sb = ∅)) as [Hb|Hb]|].
    - tauto.
    - pose proof (size_pos _ Hb). lia.
    - pose proof (size_pos _ Ha). lia. }
  apply qratio_eq_1 in Heq; [|done].
  pose proof (size_inter_le_r sa sb). pose proof (size_inter_le_r sb sa) as H2.
  replace (sb ∩ sa) with (sa ∩ sb) in H2 by set_solver.
  assert (sb ⊆ sa) by (apply size_inter_full; lia).
  assert (sa ⊆ sb).
  { apply size_inter_full. replace (sb ∩ sa) with (sa ∩ sb) by set_solver. lia. }
  set_solver.
Qed.

Lemma pair_scores_cons k x xs y ys :
  pair_scores k (x :: xs) (y :: ys) =
  match overlap_score k x y with
  | Some q => q :: pair_scores k xs ys
  | None => pair_scores k xs ys
  end.
Proof. done. Qed.

Lemma pair_scores_sum_le k xs ys :
  length xs = length ys -> Forall (fun x => set_of (take k x) <> ∅) xs ->
  (Qsum (pair_scores k xs ys) <= inject_Z (Z.of_nat (length xs)))%Q.
Proof.
  intros Hl Hx. destruct (Qsum_bounds 0 1 _ (pair_scores_unit k xs ys)) as [_ H].
  rewrite pair_scores_length in H by done. lra.
Qed.

Lemma pair_scores_sum_lt k xs ys i x y :
  length xs = length ys -> Forall (fun x => set_of (take k x) <> ∅) xs ->
  xs !! i = Some x -> ys !! i = Some y -> set_of (take k x) <> set_of (take k y) ->
  (Qsum (pair_scores k xs ys) < inject_Z (Z.of_nat (length xs)))%Q.
Proof.
  revert ys i. induction xs as [|x0 xs IH]; intros [|y0 ys] i Hl Hx Hxi Hyi Hne; simplify_eq/=.
  inversion Hx as [|? ? Hx0 Hxs]; subst.
  rewrite pair_scores_cons.
  destruct (overlap_score k x0 y0) as [q|] eqn:Es.
  2:{ unfold overlap_score in Es. case_decide; [tauto|done]. }
  rewrite Qsum_cons.
  pose proof (overlap_score_unit _ _ _ _ Es) as [_ Hq1].
  rewrite Nat2Z.inj_succ. unfold Z.succ. rewrite inject_Z_plus. change (inject_Z 1) with 1%Q.
  destruct i as [|i]; simplify_eq/=.
  - pose proof (overlap_score_lt_1 _ _ _ _ Hne Es).
    pose proof (pair_scores_sum_le k xs ys Hl Hxs). lra.
  - pose proof (IH ys i Hl Hxs Hxi Hyi Hne). lra.
Qed.

Lemma dget_fmap_keys {V} (f : string -> V) (names : list string) r :
  r ∈ names -> dget r ((fun x => (x, f x)) <$> names) = Some (f r).
Proof.
  induction names as [|x names IH]; csimpl; [by intros ?%not_elem_of_nil|].
  intros [->|H]%elem_of_cons; [by rewrite decide_True|].
  case_decide; [by subst|]. auto.
Qed.

Lemma mean_or_nan_lt l1 l2 :
  l1 <> [] -> length l1 = length l2 -> (Qsum l1 < Qsum l2)%Q ->
  exists q1 q2, mean_or_nan l1 = fin q1 /\ mean_or_nan l2 = fin q2 /\ (q1 < q2)%Q.
Proof.
  intros Hne Hl Hs. destruct l1 as [|x1 l1]; [done|]. destruct l2 as [|x2 l2]; [done|].
  do 2 eexists; split_and!; [done..|]. unfold np_mean. rewrite <- Hl.
  apply Qmult_lt_compat_r; [|done]. apply Qinv_lt_0_compat, inject_nat_pos. simpl. lia.
Qed.

(** The scores the divergent replica [r] and a peer [m] collect, over the names
    reordered as [r :: m :: others]. *)
Lemma loo_scores_sum obs k r m others (P O : list Q) :
  r <> m -> r ∉ others -> m ∉ others ->
  pair_scores k (obs_of obs r) (obs_of obs m) = P ->
  Forall (fun o => pair_scores k (obs_of obs r) (obs_of obs o) = P) others ->
  Forall (fun o => pair_scores k (obs_of obs m) (obs_of obs o) = O) others ->
  length O = length P ->
  let c := length others in
  length (loo_scores obs k (r :: m :: others) r) = length P + c * length P /\
  length (loo_scores obs k (r :: m :: others) m) = length P + c * length P /\
  (Qsum (loo_scores obs k (r :: m :: others) r) == Qsum P + inject_Z (Z.of_nat c) * Qsum P)%Q /\
  (Qsum (loo_scores obs k (r :: m :: others) m) == Qsum P + inject_Z (Z.of_nat c) * Qsum O)%Q.
Proof.
  intros Hrm Hr Hm HP HPs HOs HL c. unfold loo_scores. csimpl.
  rewrite (decide_True (P := r = r)) by done. rewrite (decide_True (P := m = m)) by done.
  rewrite (decide_False (P := m = r)) by done. rewrite (decide_False (P := r = m)) by done.
  rewrite (pair_scores_comm k (obs_of obs m)), HP, !app_nil_l, !length_app, !Qsum_app.
  destruct (Qsum_concat_const (fun x => if decide (x = r) then [] else
    pair_scores k (obs_of obs r) (obs_of obs x)) others P) as [L1 S1].
  { rewrite Forall_forall in *. intros o Ho. rewrite decide_False; [auto|congruence]. }
  destruct (Qsum_concat_const (fun x => if decide (x = m) then [] else
    pair_scores k (obs_of obs m) (obs_of obs x)) others O) as [L2 S2].
  { rewrite Forall_forall in *. intros o Ho. rewrite decide_False; [auto|congruence]. }
  rewrite L1, L2, S1, S2, HL. done.
Qed.

Lemma split_two {A} (l : list A) r m :
  NoDup l -> r ∈ l -> m ∈ l -> r <> m ->
  exists others, l ≡ₚ r :: m :: others /\ r ∉ others /\ m ∉ others.
Proof.
  intros Hnd Hr Hm Hne.
  apply elem_of_Permutation in Hr as [l1 Hl1]. rewrite Hl1 in Hm, Hnd.
  apply elem_of_cons in Hm as [?|Hm]; [congruence|].
  apply elem_of_Permutation in Hm as [l2 Hl2].
  exists l2. rewrite Hl2 in Hl1, Hnd. split; [done|].
  apply NoDup_cons in Hnd as [H1 Hnd]. apply NoDup_cons in Hnd as [H2 _]. set_solver.
Qed.

Lemma loo_scores_perm obs k names names' r :
  names ≡ₚ names' -> loo_scores obs k names r ≡ₚ loo_scores obs k names' r.
Proof. apply concat_fmap_perm. Qed.

(** C3. The detection signal singles out a diverged replica. Among at least three
    replicas of a shard, if all but [r] return the same (nonempty) answers and [r]
    returns a different top-k set for at least one query, then [r]'s leave-one-out
    agreement is strictly below every peer's: the lowest-scoring replica is the
    diverged one. *)
Theorem loo_detects_divergent (obs : observations) (k : nat) (r m : string)
    (good bad : list (list string)) (i : nat) (g b : list string) :
  NoDup (dkeys obs) -> 3 <= length obs ->
  r ∈ dkeys obs -> m ∈ dkeys obs -> m <> r ->
  obs_of obs r = bad -> (forall p, p ∈ dkeys obs -> p <> r -> obs_of obs p = good) ->
  length good = length bad -> Forall (fun x => set_of (take k x) <> ∅) good ->
  good !! i = Some g -> bad !! i = Some b -> set_of (take k g) <> set_of (take k b) ->
  exists qr qm, dget r (leave_one_out_agreement obs k) = Some (fin qr) /\
    dget m (leave_one_out_agreement obs k) = Some (fin qm) /\ (qr < qm)%Q.
Proof.
  intros Hnd H3 Hr Hm Hmr Hbad Hgood Hlen Hne Hg Hb Hgb.
  destruct (split_two _ r m Hnd Hr Hm (not_eq_sym Hmr)) as (others & Hperm & Hro & Hmo).
  assert (forall o, o ∈ others -> obs_of obs o = good) as Hoth.
  { intros o Ho. apply Hgood; [rewrite Hperm; set_solver|congruence]. }
  set (P := pair_scores k good bad). set (O := pair_scores k good good).
  assert (length P = length good) as HLP by (by apply pair_scores_length).
  assert (length O = length good) as HLO by (by apply pair_scores_length).
  assert (Qsum P < Qsum O)%Q as Hlt.
  { unfold P, O. rewrite pair_scores_self by done. by apply (pair_scores_sum_lt _ _ _ i g b). }
  destruct (loo_scores_sum obs k r m others P O) as (L1 & L2 & S1 & S2); try done.
  { rewrite Hbad, (Hgood m) by done. apply pair_scores_comm. }
  { apply Forall_forall. intros o Ho. rewrite Hbad, (Hoth o Ho). apply pair_scores_comm. }
  { apply Forall_forall. intros o Ho. by rewrite (Hoth o Ho), (Hgood m Hm Hmr). }
  { congruence. }
  assert (1 <= length others) as Hc.
  { apply Permutation_length in Hperm. unfold dkeys in Hperm. rewrite length_fmap in Hperm.
    simpl in Hperm. lia. }
  unfold leave_one_out_agreement. set (names := sorted str_leb (dkeys obs)).
  assert (names ≡ₚ r :: m :: others) as Hn by (unfold names; by rewrite sorted_perm).
  rewrite decide_False by (rewrite Hn; simpl; lia).
  rewrite !dget_fmap_keys by (rewrite Hn; set_solver).
  pose proof (loo_scores_perm obs k _ _ r Hn) as Pr.
  pose proof (loo_scores_perm obs k _ _ m Hn) as Pm.
  assert (0 < length good) by (apply lookup_lt_Some in Hg; lia).
  assert (1 <= inject_Z (Z.of_nat (length others)))%Q.
  { change 1%Q with (inject_Z (Z.of_nat 1)). by apply inject_nat_le. }
  destruct (mean_or_nan_lt (loo_scores obs k names r) (loo_scores obs k names m))
    as (qr & qm & -> & -> & Hq).
  - intros E. apply Permutation_length in Pr. rewrite E in Pr. simpl in Pr. nia.
  - rewrite Pr, Pm. lia.
  - rewrite (Qsum_perm _ _ Pr), (Qsum_perm _ _ Pm), S1, S2. nra.
  - exists qr, qm. done.
Qed.

Lemma loo_detects_divergent_witness :
  exists qr qm, dget "shard-0-1" (leave_one_out_agreement
     [("shard-0-0", [["a"; "b"]]); ("shard-0-1", [["a"; "c"]]); ("shard-0-2", [["a"; "b"]])] 2)
       = Some (fin qr) /\
    dget "shard-0-2" (leave_one_out_agreement
     [("shard-0-0", [["a"; "b"]]); ("shard-0-1", [["a"; "c"]]); ("shard-0-2", [["a"; "b"]])] 2)
       = Some (fin qm) /\ (qr < qm)%Q.
Proof.
  apply (loo_detects_divergent _ 2 "shard-0-1" "shard-0-2" [["a"; "b"]] [["a"; "c"]] 0
           ["a"; "b"] ["a"; "c"]).
  - decide_now.
  - simpl. lia.
  - decide_now.
  - decide_now.
  - done.
  - done.
  - intros p Hp Hne. unfold dkeys in Hp. simpl in Hp. rewrite !elem_of_cons in Hp.
    destruct Hp as [->|[->|[->|Hp]]]; [done|done|done|by apply not_elem_of_nil in Hp].
  - done.
  - decide_now.
  - done.
  - done.
  - decide_now.
Defined.

(** ** [score_replica] *)

(** A corpus snapshot: rows below [n] exist, and [row_of] is the inverse of [ids]
    on them. *)
Record corpus_wf (c : Corpus) : Prop := {
  wf_ids : corpus_n c <= length (corpus_ids c);
  wf_mat : corpus_n c <= length (corpus_mat c);
  wf_rows : forall i r,
    corpus_row_of c !! i = Some r -> r < corpus_n c -> corpus_ids c !! r = Some i;
}.

(** The rows of a snapshot have one dimension. *)
Definition corpus_dim (dim : nat) (c : Corpus) : Prop :=
  forall r v, r < corpus_n c -> corpus_mat c !! r = Some v -> length v = dim.

Definition queries_dim (dim : nat) (queries : list vec) : Prop := Forall (fun q => length q = dim) queries.

Lemma py_index_lt {A} (l : list A) i : i < length l -> exists x, py_index l i = Ok x /\ l !! i = Some x.
Proof.
  intros Hi. unfold py_index. destruct (lookup_lt_is_Some_2 l i Hi) as [x Hx].
  rewrite Hx. eauto.
Qed.

Lemma py_index_Some {A} (l : list A) i x : py_index l i = Ok x <-> l !! i = Some x.
Proof. unfold py_index. destruct (l !! i); naive_solver. Qed.

Lemma rows_for_lt c wanted r : r ∈ rows_for c wanted -> r < corpus_n c.
Proof. rewrite elem_of_rows_for. naive_solver. Qed.

Lemma gather_total {A} (l : list A) rows :
  (forall r, r ∈ rows -> r < length l) -> exists sub, gather l rows = Ok sub.
Proof.
  intros H. apply rmapM_total. intros r Hr.
  destruct (py_index_lt l r (H r Hr)) as (x & Hx & _). eauto.
Qed.

Lemma gather_length {A} (l : list A) rows sub : gather l rows = Ok sub -> length sub = length rows.
Proof. intros H. apply rmapM_Ok, Forall2_length in H. done. Qed.

Section ScoreFacts.
Context {np : Numpy} {laws : NumpyLaws np}.

Lemma exact_topk_rows_total queries vectors k metric :
  known_metric metric -> same_dim queries vectors = true ->
  exists top, exact_topk_rows queries vectors k metric = Ok top /\
    length top = length queries /\
    Forall (fun r => length r = min k (length vectors) /\ Forall (fun j => j < length vectors) r) top.
Proof.
  intros Hm Hd. unfold exact_topk_rows. case_decide as H0.
  { eexists. split; [done|]. rewrite length_replicate. split; [done|].
    apply Forall_replicate. simpl. split; [lia|constructor]. }
  assert (exists d, score_rows queries vectors metric = Ok d) as [d Ed].
  { unfold score_rows, matmul. rewrite Hd. destruct Hm as [->| ->]; simpl; eauto. }
  rewrite Ed. apply score_rows_shape in Ed as [Hl Hr]. eexists. split; [done|].
  rewrite length_fmap. split; [done|]. apply Forall_fmap. eapply Forall_impl; [exact Hr|].
  intros r Elr. simpl in *. destruct (topk_row_correct r (min k (length vectors)) ltac:(lia)).
  split; [done|]. apply Forall_forall. intros j Hj. rewrite <- Elr. auto.
Qed.

Lemma query_recall_total c rows restrict k o trow :
  corpus_wf c -> 0 < k -> (forall r, r ∈ rows -> r < corpus_n c) ->
  Forall (fun j => j < length rows) trow ->
  exists x, query_recall c rows restrict k o trow = Ok x /\ unit_or_nan x.
Proof.
  intros Hwf Hk Hrows Ht. unfold query_recall.
  destruct (rmapM_total (fun j => r ← py_index rows j; py_index (corpus_ids c) r) trow) as [t ->].
  { intros j Hj. rewrite Forall_forall in Ht.
    destruct (py_index_lt rows j (Ht j Hj)) as (r & -> & Hr). simpl.
    pose proof (Hrows r ltac:(by eapply list_elem_of_lookup_2)). pose proof (wf_ids c Hwf).
    destruct (py_index_lt (corpus_ids c) r ltac:(lia)) as (i & -> & _). eauto. }
  simpl. set (o' := match restrict with None => o | Some _ => _ end).
  destruct t as [|y t]; [by exists nan|].
  rewrite recall_at_k_value by done. eexists; split; [done|].
  eapply (recall_at_k_unit (take k o') (y :: t) k). by apply recall_at_k_value.
Qed.

Lemma drop_nan_unit xs : Forall unit_or_nan xs -> Forall (fun q => 0 <= q <= 1)%Q (drop_nan xs).
Proof.
  rewrite !Forall_forall. intros H q Hq. apply elem_of_drop_nan in Hq. by apply (H (fin q)).
Qed.

Lemma gather_dim dim c rows sub :
  corpus_dim dim c -> (forall r, r ∈ rows -> r < corpus_n c) -> gather (corpus_mat c) rows = Ok sub ->
  Forall (fun v => length v = dim) sub.
Proof.
  intros Hc Hr H%rmapM_Ok. apply Forall_lookup. intros i v Hv.
  destruct (Forall2_lookup_r _ _ _ _ _ H Hv) as (r & Hi & Hrow). apply py_index_Some in Hrow.
  eapply Hc; [|exact Hrow]. apply Hr. by eapply list_elem_of_lookup_2.
Qed.

Lemma mean_recall_total dim queries observed c k metric rows restrict :
  corpus_wf c -> corpus_dim dim c -> queries_dim dim queries ->
  0 < k -> known_metric metric -> (forall r, r ∈ rows -> r < corpus_n c) ->
  exists x, mean_recall queries observed c k metric rows restrict = Ok x /\ unit_or_nan x.
Proof.
  intros Hwf Hc Hqd Hk Hm Hrows. unfold mean_recall. case_decide; [by exists nan|].
  destruct (gather_total (corpus_mat c) rows) as [sub Hsub].
  { intros r Hr. pose proof (Hrows r Hr). pose proof (wf_mat c Hwf). lia. }
  rewrite Hsub. simpl. pose proof (gather_dim dim c rows sub Hc Hrows Hsub) as Hsd.
  apply gather_length in Hsub.
  destruct (exact_topk_rows_total queries sub k metric Hm) as (top & -> & _ & Htop);
    [by apply (same_dim_uniform dim)|]. simpl.
  assert (forall ot, ot ∈ zip observed top -> exists x,
    query_recall c rows restrict k ot.1 ot.2 = Ok x /\ unit_or_nan x) as Hq.
  { intros [o trow] Hin. apply elem_of_zip_r in Hin. rewrite Forall_forall in Htop.
    apply query_recall_total; try done. rewrite <- Hsub. by apply Htop. }
  destruct (rmapM_total (fun ot => query_recall c rows restrict k ot.1 ot.2) (zip observed top))
    as [per Hper]; [naive_solver|].
  rewrite Hper. simpl. eexists; split; [done|]. apply mean_or_nan_unit, drop_nan_unit.
  apply rmapM_Ok in Hper. apply Forall_forall. intros x Hx.
  apply list_elem_of_lookup in Hx as [i Hi].
  apply (Forall2_lookup_r _ _ _ _ _ Hper) in Hi as (ot & Hot & E).
  destruct (Hq ot) as (x' & E' & ?); [by eapply list_elem_of_lookup_2|]. congruence.
Qed.
End ScoreFacts.

Lemma score_replica_returns (np : Numpy) dim queries observed local intended (c : Corpus) k metric :
  NumpyLaws np -> corpus_wf c -> corpus_dim dim c -> queries_dim dim queries -> 0 < k -> known_metric metric ->
  exists s, score_replica queries observed local intended c k metric
              (Some (rows_for c intended)) = Ok s /\
    unit_or_nan (index_recall s) /\ unit_or_nan (e2e_recall s) /\
    unit_or_nan (completeness s) /\
    n_local s = inject_Z (Z.of_nat (size local)) /\
    n_intended s = inject_Z (Z.of_nat (size intended)).
Proof.
  intros laws Hwf Hc Hqd Hk Hm. unfold score_replica. simpl.
  destruct (mean_recall_total dim queries observed c k metric (rows_for c local) None)
    as (x & -> & Hx); [done..|apply rows_for_lt|]. simpl.
  destruct (mean_recall_total dim queries observed c k metric (rows_for c intended) (Some intended))
    as (y & -> & Hy); [done..|apply rows_for_lt|]. simpl.
  eexists; split; [done|]. split_and!; try done. simpl.
  pose proof (set_completeness_facts local intended) as H.
  destruct (set_completeness local intended); [done|]. by destruct H.
Qed.

(** Scoring never fails on a well-formed corpus: with rows and queries of one
    dimension, [k > 0] and a supported metric, [score_replica] returns for any replica answer, any local and intended
    sets, with all three metrics in [0, 1] or NaN and the set sizes as reported --
    ids the corpus does not know, and rows past the snapshot, included. *)
Theorem score_replica_total (np : Numpy) dim queries observed local intended (c : Corpus) k metric :
  NumpyLaws np -> corpus_wf c -> corpus_dim dim c -> queries_dim dim queries -> 0 < k -> known_metric metric ->
  exists s, score_replica queries observed local intended c k metric
              (Some (rows_for c intended)) = Ok s /\
    unit_or_nan (index_recall s) /\ unit_or_nan (e2e_recall s) /\
    unit_or_nan (completeness s) /\
    n_local s = inject_Z (Z.of_nat (size local)) /\
    n_intended s = inject_Z (Z.of_nat (size intended)).
Proof. apply score_replica_returns. Qed.

Lemma score_replica_total_witness :
  let c := mkCorpus ["a"; "b"] [[0]; [1]]%Q {["a" := 0; "b" := 1]} 2 in
  exists s, score_replica [[0]]%Q [["b"]] {["a"; "z"]} {["a"; "b"]} c 1 "l2"
              (Some (rows_for c {["a"; "b"]})) = Ok s /\
    unit_or_nan (index_recall s) /\ unit_or_nan (e2e_recall s) /\
    unit_or_nan (completeness s) /\
    n_local s = inject_Z (Z.of_nat (size ({["a"; "z"]} : gset string))) /\
    n_intended s = inject_Z (Z.of_nat (size ({["a"; "b"]} : gset string))).
Proof.
  intros c. apply (score_replica_total _ 1);
    [apply ref_numpy_laws| |by intros [|[|r]] v ? [= <-]|by repeat constructor|lia|by left].
  split; [simpl; lia..|]. unfold c. simpl. intros i r Hi _.
  rewrite lookup_insert in Hi. case_decide; simplify_eq; [done|].
  rewrite lookup_singleton in Hi. case_decide; by simplify_eq.
Defined.

(** ** Exact answers score exactly one *)

Lemma recall_self (o : list string) k : 0 < k -> o <> [] ->
  exists q, recall_at_k (take k o) o k = Ok (fin q) /\ (q == 1)%Q.
Proof.
  intros Hk Ho. rewrite recall_at_k_value by done. eexists; split; [done|].
  pose proof (size_pos _ (set_of_take_nonempty k o Hk Ho)).
  apply qratio_eq_1; [done|]. apply size_inter_full. by rewrite take_take, Nat.min_id.
Qed.

Lemma gather_lookup {A} (l : list A) rows sub j r :
  gather l rows = Ok sub -> rows !! j = Some r -> sub !! j = l !! r.
Proof.
  intros H Hj. apply rmapM_Ok in H.
  destruct (Forall2_lookup_l _ _ _ _ _ H Hj) as (x & Hx & E).
  apply py_index_Some in E. by rewrite Hx, E.
Qed.

(** Mapping winners through [rows] then [ids] is indexing the gathered id list. *)
Lemma ids_of_winners c rows own_ids trow o :
  gather (corpus_ids c) rows = Ok own_ids ->
  rmapM (py_index own_ids) trow = Ok o ->
  rmapM (fun j => r ← py_index rows j; py_index (corpus_ids c) r) trow = Ok o.
Proof.
  intros Hg Ho. apply rmapM_Ok in Ho. apply rmapM_Ok.
  eapply Forall2_impl; [exact Ho|]. intros j i Hi. simpl in Hi. apply py_index_Some in Hi.
  pose proof (gather_length _ _ _ Hg) as Hl. apply lookup_lt_Some in Hi as Hlt.
  destruct (py_index_lt rows j ltac:(lia)) as (r & -> & Hr). simpl.
  apply py_index_Some. by rewrite <- (gather_lookup _ _ _ _ _ Hg Hr).
Qed.

(** A replica that answers with exact search over the vectors it holds scores
    [index_recall] exactly 1, whatever data it is missing: index_recall isolates
    the search from the data. (The harness uses this as its instrument check.) *)
Theorem exact_answers_score_one (np : Numpy) dim queries local intended (c : Corpus) k metric
    own_ids own_vecs observed :
  NumpyLaws np -> corpus_wf c -> corpus_dim dim c -> queries_dim dim queries -> 0 < k -> known_metric metric ->
  queries <> [] -> rows_for c local <> [] ->
  gather (corpus_ids c) (rows_for c local) = Ok own_ids ->
  gather (corpus_mat c) (rows_for c local) = Ok own_vecs ->
  exact_topk queries own_ids own_vecs k metric = Ok observed ->
  exists s q, score_replica queries observed local intended c k metric None = Ok s /\
    index_recall s = fin q /\ (q == 1)%Q.
Proof.
  intros laws Hwf Hc Hqd Hk Hm Hqs Hrows Hids Hvecs Hobs.
  set (rows := rows_for c local) in *.
  assert (0 < length rows) as Hlr by (destruct rows; [done|simpl; lia]).
  pose proof (gather_length _ _ _ Hids) as Hli. pose proof (gather_length _ _ _ Hvecs) as Hlv.
  unfold exact_topk in Hobs. rewrite decide_False in Hobs by lia.
  pose proof (gather_dim dim c rows own_vecs Hc (rows_for_lt c local) Hvecs) as Hsd.
  destruct (exact_topk_rows_total queries own_vecs k metric Hm) as (top & Htop & Hlt & Hall);
    [by apply (same_dim_uniform dim)|].
  rewrite Htop in Hobs. simpl in Hobs. apply rmapM_Ok in Hobs.
  assert (exists per, rmapM (fun ot => query_recall c rows None k ot.1 ot.2) (zip observed top) = Ok per
    /\ length per = length top /\ Forall (fun x => exists q, x = fin q /\ q == 1)%Q per) as Hper.
  { clear Htop Hlt. induction Hobs as [|trow o top observed Ho _ IH]; [by exists []|].
    inversion Hall as [|? ? [Hl _] Hall']; subst.
    destruct IH as (per & E & Hlp & Hf); [done|].
    pose proof (Forall2_length _ _ _ (proj1 (rmapM_Ok _ _ _) Ho)) as Hlo.
    destruct (recall_self o k Hk) as (q & Eq & Hq).
    { intros ->. simpl in Hlo. lia. }
    assert (query_recall c rows None k o trow = Ok (fin q)) as Eqr.
    { unfold query_recall. by rewrite (ids_of_winners c rows own_ids trow o Hids Ho). }
    exists (fin q :: per). simpl. rewrite Eqr. simpl.
    rewrite E. simpl. split; [done|]. split; [by rewrite Hlp|]. constructor; [eauto|done]. }
  destruct Hper as (per & Eper & Hlp & Hf).
  assert (mean_recall queries observed c k metric rows None = Ok (mean_or_nan (drop_nan per))) as Em.
  { unfold mean_recall. rewrite decide_False by lia.
    rewrite Hvecs. simpl. rewrite Htop. simpl. by rewrite Eper. }
  unfold score_replica. fold rows. rewrite Em. simpl.
  destruct (mean_recall_total dim queries observed c k metric (rows_for c intended) (Some intended))
    as (y & -> & _); [done..|apply rows_for_lt|]. simpl.
  assert (drop_nan per <> [] /\ Forall (fun q => q == 1)%Q (drop_nan per)) as [Hne H1].
  { destruct per as [|x per].
    { exfalso. simpl in Hlp. rewrite Hlt in Hlp. by destruct queries. }
    split.
    - inversion Hf as [|? ? (q & -> & _) _]; subst. done.
    - apply Forall_forall. intros q Hq. apply elem_of_drop_nan in Hq.
      rewrite Forall_forall in Hf. destruct (Hf _ Hq) as (q' & [= ->] & ?). done. }
  eexists _, (np_mean (drop_nan per)). split; [done|]. simpl. split.
  - by destruct (drop_nan per).
  - by apply np_mean_const.
Qed.

Lemma exact_answers_score_one_witness :
  let c := mkCorpus ["a"; "b"] [[0]; [1]]%Q {["a" := 0; "b" := 1]} 2 in
  exists s q, score_replica [[0]]%Q [["b"]] {["b"]} {["a"; "b"]} c 1 "l2" None = Ok s /\
    index_recall s = fin q /\ (q == 1)%Q.
Proof.
  intros c. apply (exact_answers_score_one ref_numpy 1 _ _ _ c 1 "l2" ["b"] [[1]]%Q).
  - apply ref_numpy_laws.
  - split; [simpl; lia..|]. unfold c. simpl. intros i r Hi _.
    rewrite lookup_insert in Hi. case_decide; simplify_eq; [done|].
    rewrite lookup_singleton in Hi. case_decide; by simplify_eq.
  - by intros [|[|r]] v ? [= <-].
  - by repeat constructor.
  - lia.
  - by left.
  - done.
  - vm_compute. discriminate.
  - reflexivity.
  - reflexivity.
  - reflexivity.
Defined.

(** The module docstring says [e2e_recall] is bounded above by both
    [index_recall] and [completeness]. Neither bound holds of [score_replica]: a
    replica missing an intended id that is in no query's top-k scores e2e 1 with
    completeness 1/2, and a replica whose search misses an unsettled vector scores
    e2e 1 with index recall 0. *)
Theorem e2e_recall_not_bounded :
  (exists s, score_replica [[0]]%Q [["a"]] {["a"]} {["a"; "b"]}
       (mkCorpus ["a"; "b"] [[0]; [9]]%Q {["a" := 0; "b" := 1]} 2) 1 "l2" None = Ok s /\
     e2e_recall s = fin 1 /\ completeness s = fin (1 # 2)) /\
  (exists s, score_replica [[0]]%Q [["a"]] {["a"; "z"]} {["a"]}
       (mkCorpus ["a"; "z"] [[1]; [0]]%Q {["a" := 0; "z" := 1]} 2) 1 "l2" None = Ok s /\
     e2e_recall s = fin 1 /\ index_recall s = fin 0).
Proof. split; eexists; (split; [vm_compute; reflexivity|done]). Qed.

(** ** Two corpora that agree below their row count are interchangeable *)

Record corpus_agree (c c' : Corpus) : Prop := {
  agree_n : corpus_n c = corpus_n c';
  agree_ids : forall r, r < corpus_n c -> corpus_ids c !! r = corpus_ids c' !! r;
  agree_mat : forall r, r < corpus_n c -> corpus_mat c !! r = corpus_mat c' !! r;
  agree_row : forall i r, r < corpus_n c ->
    corpus_row_of c !! i = Some r <-> corpus_row_of c' !! i = Some r;
}.

#[export] Instance corpus_agree_equiv : Equivalence corpus_agree.
Proof.
  split.
  - intros c. by split.
  - intros c c' [H1 H2 H3 H4]. split; [done|..]; rewrite <- H1; intros.
    + symmetry. auto.
    + symmetry. auto.
    + symmetry. auto.
  - intros a b c [A1 A2 A3 A4] [B1 B2 B3 B4]. rewrite <- A1 in *. split; [done|..]; intros.
    + rewrite A2 by done. auto.
    + rewrite A3 by done. auto.
    + rewrite A4 by done. auto.
Qed.

Lemma in_snapshot_row c i r :
  row_get c i = r -> in_snapshot c r = true <->
  exists k, r = Z.of_nat k /\ corpus_row_of c !! i = Some k /\ k < corpus_n c.
Proof.
  intros <-. unfold row_get, in_snapshot. rewrite andb_true_iff, Z.leb_le, Z.ltb_lt.
  destruct (corpus_row_of c !! i) as [k|].
  - split; [intros; exists k; split_and!; try done; lia|intros (k' & ? & ? & ?); lia].
  - split; [lia|]. intros (k & ? & ? & ?). done.
Qed.

Lemma rows_for_agree c c' wanted : corpus_agree c c' -> rows_for c wanted = rows_for c' wanted.
Proof.
  intros H. unfold rows_for. f_equal. f_equal.
  induction (elements wanted) as [|i l IH]; [done|]. csimpl.
  pose proof (in_snapshot_row c i _ eq_refl) as Hc.
  pose proof (in_snapshot_row c' i _ eq_refl) as Hc'. rewrite <- (agree_n _ _ H) in Hc'.
  destruct (in_snapshot c (row_get c i)) eqn:E, (in_snapshot c' (row_get c' i)) eqn:E'.
  - f_equal; [|done]. destruct Hc as [Hc _]. destruct (Hc eq_refl) as (k & -> & Hk & Hlt).
    apply (agree_row _ _ H) in Hk; [|done]. unfold row_get. by rewrite Hk.
  - destruct Hc as [Hc _]. destruct (Hc eq_refl) as (k & _ & Hk & Hlt).
    apply (agree_row _ _ H) in Hk; [|done]. exfalso.
    assert (false = true) by (apply Hc'; exists k; unfold row_get; by rewrite Hk). done.
  - destruct Hc' as [Hc' _]. destruct (Hc' eq_refl) as (k & _ & Hk & Hlt).
    apply (agree_row _ _ H) in Hk; [|done]. exfalso.
    assert (false = true) by (apply Hc; exists k; unfold row_get; by rewrite Hk). done.
  - done.
Qed.

#[export] Instance rows_for_proper : Proper (corpus_agree ==> eq ==> eq) rows_for.
Proof. intros c c' H w w' <-. by apply rows_for_agree. Qed.

Lemma rmapM_ext {A B} (f g : A -> result B) l :
  (forall x, x ∈ l -> f x = g x) -> rmapM f l = rmapM g l.
Proof.
  induction l as [|x l IH]; intros H; simpl; [done|].
  rewrite H by (by left). rewrite IH; [done|]. intros y ?. apply H. by right.
Qed.

Section ScoreAgree.
Context {np : Numpy}.

Lemma mean_recall_agree queries observed c c' k metric rows restrict :
  corpus_agree c c' -> (forall r, r ∈ rows -> r < corpus_n c) ->
  mean_recall queries observed c k metric rows restrict =
  mean_recall queries observed c' k metric rows restrict.
Proof.
  intros H Hr. unfold mean_recall. case_decide; [done|].
  assert (gather (corpus_mat c) rows = gather (corpus_mat c') rows) as ->.
  { apply rmapM_ext. intros r Hin. unfold py_index. by rewrite (agree_mat _ _ H) by auto. }
  destruct (gather _ _) as [sub|]; simpl; [|done].
  destruct (exact_topk_rows _ _ _ _) as [top|]; simpl; [|done].
  assert (forall o trow, query_recall c rows restrict k o trow =
                         query_recall c' rows restrict k o trow) as Hq.
  { intros o trow. unfold query_recall.
    assert (rmapM (fun j => r ← py_index rows j; py_index (corpus_ids c) r) trow =
            rmapM (fun j => r ← py_index rows j; py_index (corpus_ids c') r) trow) as ->; [|done].
    apply rmapM_ext. intros j _. destruct (py_index rows j) as [r|] eqn:E; simpl; [|done].
    apply py_index_Some, list_elem_of_lookup_2 in E.
    unfold py_index. by rewrite (agree_ids _ _ H) by auto. }
  by rewrite (rmapM_ext _ (fun ot => query_recall c' rows restrict k ot.1 ot.2)).
Qed.

Lemma score_replica_agree queries observed local intended c c' k metric :
  corpus_agree c c' ->
  score_replica queries observed local intended c k metric None =
  score_replica queries observed local intended c' k metric None.
Proof.
  intros H. unfold score_replica. simpl. rewrite <- !(rows_for_agree c c') by done.
  by rewrite <- !(mean_recall_agree _ _ c c') by (done || apply rows_for_lt).
Qed.
End ScoreAgree.

(** ** [Corpus.from_dict] *)

(** A corpus built from a dictionary is well formed, and each id's row is its vector. *)
Lemma from_dict_spec vector_of :
  NoDup (dkeys vector_of) ->
  corpus_wf (from_dict vector_of) /\
  (forall i v, dget i vector_of = Some v ->
     exists r, corpus_row_of (from_dict vector_of) !! i = Some r /\
       r < corpus_n (from_dict vector_of) /\ corpus_mat (from_dict vector_of) !! r = Some v).
Proof.
  intros Hnd.
  assert (forall i r, (list_to_map (zip (dkeys vector_of) (seq 0 (length (dkeys vector_of))))
                         : gmap string nat) !! i = Some r <-> dkeys vector_of !! r = Some i) as Hrow.
  { intros i r. rewrite <- elem_of_list_to_map.
    - rewrite elem_of_lookup_zip_with. split.
      + intros (j & x & y & Hx & Hj & Hs). simplify_eq. apply lookup_seq in Hs as [-> _]. done.
      + intros Hr. exists r, i, r. split_and!; [done|done|]. apply lookup_seq. split; [done|].
        by apply lookup_lt_Some in Hr.
    - rewrite fst_zip; [done|]. by rewrite length_seq. }
  destruct vector_of as [|kv d] eqn:E; [|rewrite <- E in *].
  { split; [split; simpl; [lia..|by intros i r ?%lookup_empty_Some]|by intros]. }
  assert (from_dict vector_of = mkCorpus (dkeys vector_of) (dvalues vector_of)
    (list_to_map (zip (dkeys vector_of) (seq 0 (length (dkeys vector_of))))) (length (dkeys vector_of)))
    as -> by (by subst vector_of).
  unfold dkeys, dvalues in *. split; [split; simpl|simpl].
  - done.
  - by rewrite !length_fmap.
  - intros i r Hr _. by apply Hrow.
  - intros i v Hv. apply dget_Some_elem, list_elem_of_lookup in Hv as [r Hr]. exists r.
    rewrite Hrow, !list_lookup_fmap, Hr. split_and!; [done| |done].
    rewrite length_fmap. by eapply lookup_lt_Some.
Qed.
