(* ===== verification/Writer.v ===== *)
(** * The retaining writer

    [RetainingWriter] of [src/research/replica_recall/run_experiment.py]: several
    writer threads share one object and mutate it under its lock. The arrays a
    snapshot can still point at live in an explicit store ([w_arrays]); the id list
    and the row dictionary are single mutable objects that every snapshot aliases. *)

From stdpp Require Import base list gmap strings pretty sorting.
From Stdlib Require Import QArith Lqa ZArith Lia.
From S2P Require Import Prelude PyFloat Metrics.

Local Open Scope nat_scope.

(** ** State *)

(** Where vectors come from: a finite file walked in a seeded order, or a
    per-thread random generator, whose draws are inputs of the steps. *)
Inductive vsource : Type :=
| Sift (base : list vec) (order : list nat)
| Generated.

(** Where a writer thread is in [RetainingWriter.loop]. *)
Inductive tstate : Type :=
| Idle
| Made (vid : string) (v : vec)     (* [_make] returned *)
| Sent (vid : string) (v : vec)     (* [attempted] counted, request in flight *)
| Stopped.

Record wstate := mkW {
  w_source : vsource;
  w_next : nat;
  w_exhausted : bool;
  w_attempted : nat;
  w_failed : nat;
  w_vector_of : gmap string vec;
  w_confirmed_at : gmap string Q;
  w_ids : list string;             (* the list object _corpus_ids *)
  w_row : gmap string nat;         (* the dict object _corpus_row *)
  w_arrays : list (list vec);      (* every array ever bound to _corpus_mat *)
  w_mat : nat;                     (* which of them _corpus_mat names now *)
  w_n : nat;
  w_threads : list tstate;
}.

(** [__init__]: an empty [(0, dim)] array, empty dicts, [writers] idle threads. *)
Definition init (src : vsource) (writers : nat) : wstate :=
  mkW src 0 false 0 0 ∅ ∅ [] ∅ [[]] 0 0 (replicate writers Idle).

(** ** Operations *)

(** [f"rr-{idx}"] *)
Definition vid_of (idx : nat) : string := ("rr-" +:+ pretty idx)%string.

Definition cur_array (w : wstate) : list vec := nth (w_mat w) (w_arrays w) [].

Definition set_threads (w : wstate) (ts : list tstate) : wstate :=
  mkW (w_source w) (w_next w) (w_exhausted w) (w_attempted w) (w_failed w) (w_vector_of w)
    (w_confirmed_at w) (w_ids w) (w_row w) (w_arrays w) (w_mat w) (w_n w) ts.

(** [_make]: the id is taken under the lock even when the finite corpus turns out
    to be used up. [None] stops the writer. *)
Definition make (w : wstate) (draw : vec) : option (string * vec) * wstate :=
  let idx := w_next w in
  let vid := vid_of idx in
  let bump (e : bool) :=
    mkW (w_source w) (S idx) e (w_attempted w) (w_failed w) (w_vector_of w)
      (w_confirmed_at w) (w_ids w) (w_row w) (w_arrays w) (w_mat w) (w_n w) (w_threads w) in
  match w_source w with
  | Sift base order =>
      match order !! idx with
      | None => (None, bump true)
      | Some j => (Some (vid, nth j base []), bump (w_exhausted w))
      end
  | Generated => (Some (vid, draw), bump (w_exhausted w))
  end.

Section Growth.
(** What [np.empty] leaves in cell [i] of a fresh array: anything. *)
Context (junk : nat -> vec).

(** [grown = np.empty(...); grown[:n] = mat[:n]] *)
Definition grow (m : list vec) (cnt : nat) : list vec :=
  let new_cap := max 1024 (length m * 2) in
  take cnt m ++ (junk <$> seq cnt (new_cap - cnt)).

(** [_append_corpus] *)
Definition append_corpus (w : wstate) (vid : string) (v : vec) : wstate :=
  let '(arrays, m) :=
    if decide (w_n w = length (cur_array w))
    then (w_arrays w ++ [grow (cur_array w) (w_n w)], length (w_arrays w))
    else (w_arrays w, w_mat w) in
  mkW (w_source w) (w_next w) (w_exhausted w) (w_attempted w) (w_failed w) (w_vector_of w)
    (w_confirmed_at w) (w_ids w ++ [vid]) (<[vid := w_n w]> (w_row w))
    (<[m := <[w_n w := v]> (nth m arrays [])]> arrays) m (S (w_n w)) (w_threads w).

(** The [status == 201] branch: remember the vector, stamp it, append it. *)
Definition confirm (w : wstate) (now : Q) (vid : string) (v : vec) : wstate :=
  append_corpus
    (mkW (w_source w) (w_next w) (w_exhausted w) (w_attempted w) (w_failed w)
       (<[vid := v]> (w_vector_of w)) (<[vid := now]> (w_confirmed_at w))
       (w_ids w) (w_row w) (w_arrays w) (w_mat w) (w_n w) (w_threads w)) vid v.

(** One atomic step of thread [t]: the sections [RetainingWriter.loop] runs under
    the lock, in program order. *)
Inductive event : Type :=
| EvStop                                (* [stop_evt.is_set()] at the loop head *)
| EvMake (draw : vec)
| EvAttempt
| EvReply (now : Q) (status : option Z). (* [None]: the request raised *)

Definition step (w : wstate) (t : nat) (e : event) : option wstate :=
  match w_threads w !! t, e with
  | Some Idle, EvStop => Some (set_threads w (<[t := Stopped]> (w_threads w)))
  | Some Idle, EvMake draw =>
      match make w draw with
      | (None, w') => Some (set_threads w' (<[t := Stopped]> (w_threads w')))
      | (Some (vid, v), w') => Some (set_threads w' (<[t := Made vid v]> (w_threads w')))
      end
  | Some (Made vid v), EvAttempt =>
      Some (mkW (w_source w) (w_next w) (w_exhausted w) (S (w_attempted w)) (w_failed w)
        (w_vector_of w) (w_confirmed_at w) (w_ids w) (w_row w) (w_arrays w) (w_mat w) (w_n w)
        (<[t := Sent vid v]> (w_threads w)))
  | Some (Sent vid v), EvReply now status =>
      let w' :=
        if decide (status = Some 201%Z) then confirm w now vid v
        else mkW (w_source w) (w_next w) (w_exhausted w) (w_attempted w) (S (w_failed w))
               (w_vector_of w) (w_confirmed_at w) (w_ids w) (w_row w) (w_arrays w) (w_mat w)
               (w_n w) (w_threads w) in
      Some (set_threads w' (<[t := Idle]> (w_threads w')))
  | _, _ => None
  end.

Inductive steps : wstate -> wstate -> Prop :=
| steps_refl w : steps w w
| steps_cons w t e w1 w2 : step w t e = Some w1 -> steps w1 w2 -> steps w w2.

(** Run a schedule; events a thread cannot take are refused. *)
Fixpoint run (w : wstate) (sched : list (nat * event)) : option wstate :=
  match sched with
  | [] => Some w
  | (t, e) :: sched' => match step w t e with Some w' => run w' sched' | None => None end
  end.
End Growth.

(** [intended_set]: ids confirmed at least [settle_s] ago. *)
Definition intended_set (w : wstate) (now settle_s : Q) : gset string :=
  dom (filter (fun it : string * Q => (it.2 <= now - settle_s)%Q) (w_confirmed_at w)).

(** [snapshot_corpus]: the row count and the current array reference. The id list
    and row dictionary are captured by reference, so a reader sees later appends. *)
Record snapshot := mkSnap { snap_mat : nat; snap_n : nat }.

Definition snapshot_corpus (w : wstate) : snapshot := mkSnap (w_mat w) (w_n w).

(** The [Corpus] a reader holding [s] sees when the writer is in state [w]. *)
Definition view (w : wstate) (s : snapshot) : Corpus :=
  mkCorpus (w_ids w) (nth (snap_mat s) (w_arrays w) []) (w_row w) (snap_n s).

(** ** The invariant *)

Definition thread_vid (t : tstate) : option string :=
  match t with Made vid _ | Sent vid _ => Some vid | Idle | Stopped => None end.

Definition is_sent (t : tstate) : bool := match t with Sent _ _ => true | _ => false end.

(** Ids minted but not yet answered. *)
Definition inflight (w : wstate) : list string := omap thread_vid (w_threads w).

Definition n_sent (w : wstate) : nat := length (List.filter is_sent (w_threads w)).

Record winv (w : wstate) : Prop := {
  inv_n : w_n w = length (w_ids w);
  inv_mat : w_mat w < length (w_arrays w);
  inv_cap : w_n w <= length (cur_array w);
  inv_fresh : NoDup (w_ids w ++ inflight w);
  inv_minted : Forall (fun i => exists j, i = vid_of j /\ j < w_next w) (w_ids w ++ inflight w);
  inv_row : forall i r, w_row w !! i = Some r <-> w_ids w !! r = Some i;
  inv_dom : forall i, i ∈ w_ids w <-> is_Some (w_confirmed_at w !! i);
  inv_vec : forall i r, w_ids w !! r = Some i -> cur_array w !! r = w_vector_of w !! i;
  inv_count : w_attempted w = length (w_ids w) + w_failed w + n_sent w;
}.

Lemma vid_of_inj i j : vid_of i = vid_of j -> i = j.
Proof.
  unfold vid_of. intros H. apply (inj (String.append "rr-")) in H. by apply (inj pretty) in H.
Qed.

(** One thread's slot in the thread list. *)
Lemma thread_split {A} (ts : list A) t old :
  ts !! t = Some old ->
  exists l1 l2, ts = l1 ++ old :: l2 /\ forall new, <[t := new]> ts = l1 ++ new :: l2.
Proof.
  intros Ht. exists (take t ts), (drop (S t) ts). split.
  - symmetry. by apply take_drop_middle.
  - intros new. apply insert_take_drop. by eapply lookup_lt_Some.
Qed.

Lemma filter_app_len {A} (p : A -> bool) (l1 l2 : list A) :
  length (List.filter p (l1 ++ l2)) = length (List.filter p l1) + length (List.filter p l2).
Proof. rewrite List.filter_app. apply length_app. Qed.

(** ** [_append_corpus] *)

Section Append.
Context (junk : nat -> vec).

Lemma grow_length m cnt : cnt <= length m -> cnt < length (grow junk m cnt).
Proof. intros H. unfold grow. rewrite length_app, length_take, length_fmap, length_seq. lia. Qed.

Lemma grow_lookup m cnt r : r < cnt -> cnt <= length m -> grow junk m cnt !! r = m !! r.
Proof.
  intros Hr Hc. unfold grow. rewrite lookup_app_l by (rewrite length_take; lia).
  by apply lookup_take_lt.
Qed.

(** The array a step writes into: the current one, or the freshly grown copy. *)
Lemma append_corpus_arrays w vid v :
  w_mat w < length (w_arrays w) -> w_n w <= length (cur_array w) ->
  let w' := append_corpus junk w vid v in
  w_mat w' < length (w_arrays w') /\
  w_n w < length (cur_array w') /\
  cur_array w' !! w_n w = Some v /\
  (forall r, r < w_n w -> cur_array w' !! r = cur_array w !! r) /\
  (forall a, a < length (w_arrays w) ->
     a < length (w_arrays w') /\
  length (nth a (w_arrays w') []) = length (nth a (w_arrays w) []) /\
  forall r, r < w_n w -> nth a (w_arrays w') [] !! r = nth a (w_arrays w) [] !! r).
Proof.
  intros Hm Hc w'. unfold w', append_corpus.
  destruct (decide (w_n w = length (cur_array w))) as [E|E];
    unfold cur_array; cbn [w_mat w_arrays w_n]; fold (cur_array w).
  - pose proof (grow_length (cur_array w) (w_n w) Hc) as Hg.
    assert (nth (length (w_arrays w)) (w_arrays w ++ [grow junk (cur_array w) (w_n w)]) []
            = grow junk (cur_array w) (w_n w)) as Hn.
    { rewrite app_nth2, Nat.sub_diag by lia. done. }
    rewrite length_insert, length_app. simpl. split; [lia|].
    assert (nth (length (w_arrays w)) (<[length (w_arrays w):=<[w_n w:=v]> (nth (length (w_arrays w))
      (w_arrays w ++ [grow junk (cur_array w) (w_n w)]) [])]> (w_arrays w ++ [grow junk (cur_array w) (w_n w)])) []
      = <[w_n w := v]> (grow junk (cur_array w) (w_n w))) as Hcur.
    { rewrite Hn, nth_lookup, list_lookup_insert_eq; [done|]. rewrite length_app; simpl; lia. }
    rewrite Hcur. split_and!.
    + by rewrite length_insert.
    + by apply list_lookup_insert_eq.
    + intros r Hr. rewrite list_lookup_insert_ne by lia. by apply grow_lookup.
    + intros a Ha. split; [lia|].
      rewrite !nth_lookup, list_lookup_insert_ne, lookup_app_l by lia. done.
  - rewrite length_insert. split; [done|].
    assert (nth (w_mat w) (<[w_mat w:=<[w_n w:=v]> (cur_array w)]> (w_arrays w)) []
            = <[w_n w := v]> (cur_array w)) as Hcur.
    { rewrite nth_lookup, list_lookup_insert_eq by done. done. }
    rewrite Hcur. split_and!.
    + rewrite length_insert. lia.
    + apply list_lookup_insert_eq. lia.
    + intros r Hr. by rewrite list_lookup_insert_ne by lia.
    + intros a Ha. split; [done|]. destruct (decide (a = w_mat w)) as [->|Hne].
      * rewrite Hcur. split; [by rewrite length_insert|].
        intros r Hr. by rewrite list_lookup_insert_ne by lia.
      * rewrite !nth_lookup, list_lookup_insert_ne by done. done.
Qed.
End Append.

(** ** Every step preserves the invariant *)

Ltac thread_cases Ht :=
  let l1 := fresh "l1" in let l2 := fresh "l2" in let E := fresh "E" in let I := fresh "I" in
  destruct (thread_split _ _ _ Ht) as (l1 & l2 & E & I); rewrite ?I in *.

Lemma inflight_app w l1 l2 :
  w_threads w = l1 ++ l2 -> inflight w = omap thread_vid l1 ++ omap thread_vid l2.
Proof. intros E. unfold inflight. by rewrite E, omap_app. Qed.

Lemma minted_weaken w nx l :
  Forall (fun i => exists j, i = vid_of j /\ j < w_next w) l -> w_next w <= nx ->
  Forall (fun i => exists j, i = vid_of j /\ j < nx) l.
Proof. intros H Hle. eapply Forall_impl; [exact H|]. intros i (j & -> & ?). exists j. split; [done|lia]. Qed.

(** Everything but the thread list and the counters is untouched. *)
Lemma winv_threads w w' :
  winv w ->
  w_ids w' = w_ids w -> w_row w' = w_row w -> w_arrays w' = w_arrays w -> w_mat w' = w_mat w ->
  w_n w' = w_n w -> w_vector_of w' = w_vector_of w -> w_confirmed_at w' = w_confirmed_at w ->
  NoDup (w_ids w ++ inflight w') ->
  Forall (fun i => exists j, i = vid_of j /\ j < w_next w') (w_ids w ++ inflight w') ->
  w_attempted w' = length (w_ids w) + w_failed w' + n_sent w' ->
  winv w'.
Proof.
  intros H E1 E2 E3 E4 E5 E6 E7 F1 F2 F3.
  assert (cur_array w' = cur_array w) as Ec by (unfold cur_array; by rewrite E3, E4).
  destruct H. split; rewrite ?E1, ?E2, ?E3, ?E4, ?E5, ?E6, ?E7, ?Ec; auto.
Qed.

Section Steps.
Context (junk : nat -> vec).

Lemma init_winv src writers : winv (init src writers).
Proof.
  assert (inflight (init src writers) = []) as E.
  { unfold inflight. simpl. by induction writers. }
  split; rewrite ?E; simpl; try done; try lia; try by constructor.
  - intros i. rewrite elem_of_nil. split; [done|]. by intros [? ?].
  - unfold n_sent. simpl. clear E. induction writers; simpl; auto.
Qed.

Lemma make_winv w draw t r w1 :
  winv w -> w_threads w !! t = Some Idle -> make w draw = (r, w1) ->
  winv (set_threads w1 (<[t := match r with Some (vid, v) => Made vid v | None => Stopped end]>
                          (w_threads w1))).
Proof.
  intros H Ht Hm. pose proof H as [H1 H2 H3 H4 H5 H6 H7 H8 H9].
  assert (w_threads w1 = w_threads w /\ w_next w1 = S (w_next w) /\ w_ids w1 = w_ids w /\
    w_row w1 = w_row w /\ w_arrays w1 = w_arrays w /\ w_mat w1 = w_mat w /\ w_n w1 = w_n w /\
    w_vector_of w1 = w_vector_of w /\ w_confirmed_at w1 = w_confirmed_at w /\
    w_attempted w1 = w_attempted w /\ w_failed w1 = w_failed w /\
    match r with Some (vid, _) => vid = vid_of (w_next w) | None => True end)
    as (Et & En & Ei & Er & Ea & Em & Ec & Ev & Ef & Eat & Efl & Hr).
  { unfold make in Hm. destruct (w_source w) as [base order|]; [destruct (order !! w_next w)|];
      simplify_eq; by split_and!. }
  apply (winv_threads w); simpl; rewrite ?Et, ?En, ?Ei, ?Er, ?Ea, ?Em, ?Ec, ?Ev, ?Ef, ?Eat, ?Efl;
    try done;
    destruct (thread_split _ _ _ Ht) as (l1 & l2 & E & I);
    unfold inflight, n_sent in *; simpl; rewrite I; rewrite E in *;
    rewrite ?filter_app_len, ?omap_app in *; simpl in *.
  - destruct r as [[vid v]|]; simpl; [|done].
    rewrite <- Permutation_middle, (Permutation_app_comm (w_ids w)). simpl. apply NoDup_cons.
    rewrite (Permutation_app_comm _ (w_ids w)). split; [|done].
    intros Hin. rewrite Forall_forall in H5. destruct (H5 vid Hin) as (j & -> & Hj).
    apply vid_of_inj in Hr. lia.
  - apply (minted_weaken _ (S (w_next w))) in H5; [|lia].
    destruct r as [[vid v]|]; simpl; [|done].
    rewrite <- Permutation_middle, (Permutation_app_comm (w_ids w)). simpl. constructor.
    + exists (w_next w). split; [done|lia].
    + by rewrite (Permutation_app_comm _ (w_ids w)).
  - destruct r as [[vid v]|]; simpl; lia.
Qed.

Lemma confirm_winv w now t vid v :
  winv w -> w_threads w !! t = Some (Sent vid v) ->
  let w1 := confirm junk w now vid v in
  winv (set_threads w1 (<[t := Idle]> (w_threads w1))).
Proof.
  intros H Ht w1. destruct H as [H1 H2 H3 H4 H5 H6 H7 H8 H9].
  set (w0 := mkW (w_source w) (w_next w) (w_exhausted w) (w_attempted w) (w_failed w)
    (<[vid := v]> (w_vector_of w)) (<[vid := now]> (w_confirmed_at w))
    (w_ids w) (w_row w) (w_arrays w) (w_mat w) (w_n w) (w_threads w)).
  destruct (append_corpus_arrays junk w0 vid v) as (A1 & A2 & A3 & A4 & A5); [done|done|].
  change (append_corpus junk w0 vid v) with w1 in *.
  assert (w_ids w1 = w_ids w ++ [vid] /\ w_row w1 = <[vid := w_n w]> (w_row w) /\
    w_n w1 = S (w_n w) /\ w_threads w1 = w_threads w /\ w_next w1 = w_next w /\
    w_confirmed_at w1 = <[vid := now]> (w_confirmed_at w) /\
    w_vector_of w1 = <[vid := v]> (w_vector_of w) /\ w_attempted w1 = w_attempted w /\
    w_failed w1 = w_failed w) as (Ei & Er & En & Et & Ex & Ec & Ev & Ea & Ef).
  { unfold w1, confirm, append_corpus. simpl. case_decide; by split_and!. }
  destruct (thread_split _ _ _ Ht) as (l1 & l2 & E & I).
  assert (vid ∉ w_ids w) as Hni.
  { intros Hin. apply NoDup_app in H4 as (_ & H4 & _). apply (H4 vid Hin).
    unfold inflight. rewrite E, omap_app. simpl. set_solver. }
  assert (w_ids w ++ inflight w ≡ₚ w_ids w1 ++ omap thread_vid (l1 ++ Idle :: l2)) as Hp.
  { unfold inflight. rewrite Ei, E, !omap_app. simpl.
    rewrite <- app_assoc. apply Permutation_app_head. simpl. by rewrite Permutation_middle. }
  assert (length (w_ids w) = w_n w) as Hl by done.
  split; unfold inflight, n_sent, set_threads, cur_array; simpl; fold (cur_array w1);
    rewrite ?Et, ?I, ?Ex, ?Ea, ?Ef.
  - rewrite En, Ei, length_app. simpl. lia.
  - done.
  - rewrite En. simpl in A2. lia.
  - by rewrite <- Hp.
  - by rewrite <- Hp.
  - intros i r. rewrite Er, Ei, lookup_insert. case_decide as Hd.
    + subst i. split.
      * intros [= <-]. rewrite lookup_app_r, Hl, Nat.sub_diag by lia. done.
      * intros Hr. apply lookup_app_Some in Hr as [Hr|[? Hr]].
        { exfalso. apply Hni. by eapply list_elem_of_lookup_2. }
        apply list_lookup_singleton_Some in Hr. f_equal. lia.
    + rewrite H6, lookup_app_Some. split; [by left|]. intros [?|[? Hr]]; [done|].
      apply list_lookup_singleton_Some in Hr. naive_solver.
  - intros i. rewrite Ei, Ec, elem_of_app, list_elem_of_singleton, H7, lookup_insert.
    case_decide; [naive_solver|]. split; [intros [?|?]; congruence || done|by left].
  - intros i r Hr. rewrite Ei in Hr. rewrite Ev, lookup_insert.
    apply lookup_app_Some in Hr as [Hr|[Hge Hr]].
    + rewrite decide_False by (intros <-; apply Hni; by eapply list_elem_of_lookup_2).
      rewrite A4 by (apply lookup_lt_Some in Hr; simpl; lia). by apply H8.
    + apply list_lookup_singleton_Some in Hr as [Hr ->].
      rewrite decide_True by done. replace r with (w_n w) by lia. done.
  - rewrite Ei, length_app, H9. unfold n_sent. rewrite E, !filter_app_len. simpl. lia.
Qed.
End Steps.

Section Reach.
Context (junk : nat -> vec).

Lemma step_winv w t e w' : winv w -> step junk w t e = Some w' -> winv w'.
Proof.
  intros H. unfold step. destruct (w_threads w !! t) as [[|vid v|vid v|]|] eqn:Ht; [| | |done..].
  - destruct e as [|draw| |]; [| |done..].
    + intros [= <-]. destruct (thread_split _ _ _ Ht) as (l1 & l2 & E & I).
      pose proof H as [_ _ _ H4 H5 _ _ _ H9].
      unfold inflight, n_sent in *. rewrite E in *.
      rewrite ?omap_app, ?filter_app_len in *. simpl in *.
      apply (winv_threads w); try done; unfold inflight, n_sent; simpl; rewrite I;
        rewrite ?omap_app, ?filter_app_len; simpl; try done; lia.
    + destruct (make w draw) as [r w1] eqn:Em. intros Hs.
      pose proof (make_winv w draw t r w1 H Ht Em) as Hw.
      destruct r as [[vid v]|]; by simplify_eq.
  - destruct e; [done..| |done]. intros [= <-].
    destruct (thread_split _ _ _ Ht) as (l1 & l2 & E & I).
    pose proof H as [_ _ _ H4 H5 _ _ _ H9].
    unfold inflight, n_sent in *. rewrite E in *.
    rewrite ?omap_app, ?filter_app_len in *. simpl in *.
    apply (winv_threads w); try done; unfold inflight, n_sent; simpl; rewrite I;
      rewrite ?omap_app, ?filter_app_len; simpl; try done; lia.
  - destruct e as [| | |now status]; [done..|]. case_decide; intros [= <-].
    { by apply confirm_winv. }
    destruct (thread_split _ _ _ Ht) as (l1 & l2 & E & I).
    pose proof H as [_ _ _ H4 H5 _ _ _ H9].
    unfold inflight, n_sent in *. rewrite E in *.
    rewrite ?omap_app, ?filter_app_len in *. simpl in *.
    rewrite <- Permutation_middle in H4, H5.
    rewrite (Permutation_app_comm (w_ids w)) in H4, H5. simpl in *.
    apply NoDup_cons in H4 as [_ H4]. inversion H5 as [|? ? _ H5']; subst.
    rewrite (Permutation_app_comm _ (w_ids w)) in H4, H5'.
    apply (winv_threads w); try done; unfold inflight, n_sent; simpl; rewrite I;
      rewrite ?omap_app, ?filter_app_len; simpl; try done; lia.
Qed.

Lemma steps_winv w w' : winv w -> steps junk w w' -> winv w'.
Proof. intros H Hs. induction Hs; eauto using step_winv. Qed.

Lemma run_steps w sched w' : run junk w sched = Some w' -> steps junk w w'.
Proof.
  revert w. induction sched as [|[t e] sched IH]; simpl; intros w H; [simplify_eq; constructor|].
  destruct (step junk w t e) as [w1|] eqn:E; [|done]. econstructor; eauto.
Qed.

(** What later steps may do to a snapshot [s]: nothing a reader can see. *)
Definition snap_ok (w : wstate) (s : snapshot) : Prop :=
  snap_n s <= w_n w /\ snap_mat s < length (w_arrays w) /\
  snap_n s <= length (nth (snap_mat s) (w_arrays w) []).

Lemma snap_ok_now w : winv w -> snap_ok w (snapshot_corpus w).
Proof. intros [? ? ? _ _ _ _ _ _]. by split_and!. Qed.

(** A step either leaves ids, rows and arrays alone or appends one fresh id. *)
Lemma step_corpus w t e w' :
  winv w -> step junk w t e = Some w' ->
  (w_ids w' = w_ids w /\ w_row w' = w_row w /\ w_arrays w' = w_arrays w /\ w_n w' = w_n w /\
   w_confirmed_at w' = w_confirmed_at w) \/
  (exists vid v now, vid ∉ w_ids w /\
     w_ids w' = w_ids w ++ [vid] /\ w_row w' = <[vid := w_n w]> (w_row w) /\ w_n w' = S (w_n w) /\
     w_confirmed_at w' = <[vid := now]> (w_confirmed_at w) /\
     w_arrays w' = w_arrays (confirm junk w now vid v)).
Proof.
  intros H. unfold step. destruct (w_threads w !! t) as [[|vid v|vid v|]|] eqn:Ht; [| | |done..].
  - destruct e as [|draw| |]; [| |done..]; intros Hs; left; [by simplify_eq|].
    unfold make in Hs. destruct (w_source w); repeat case_match; by simplify_eq.
  - destruct e; [done..| |done]. intros [= <-]. by left.
  - destruct e as [| | |now status]; [done..|]. case_decide; intros [= <-]; [right|by left].
    exists vid, v, now. split.
    + pose proof H as [_ _ _ H4 _ _ _ _ _]. apply NoDup_app in H4 as (_ & H4 & _).
      intros Hin. apply (H4 vid Hin). unfold inflight.
      apply list_elem_of_omap. exists (Sent vid v). split; [by eapply list_elem_of_lookup_2|done].
    + unfold confirm, append_corpus. simpl. case_decide; by split_and!.
Qed.

Lemma step_snap w t e w' s :
  winv w -> snap_ok w s -> step junk w t e = Some w' ->
  snap_ok w' s /\ corpus_agree (view w s) (view w' s).
Proof.
  intros H (S1 & S2 & S3) Hs. unfold snap_ok, view.
  destruct (step_corpus w t e w' H Hs) as [(-> & -> & -> & -> & _)|
    (vid & v & now & Hni & Ei & Er & En & _ & Ea)]; [done|].
  pose proof H as [H1 H2 H3 _ _ H6 _ _ _].
  set (w0 := mkW (w_source w) (w_next w) (w_exhausted w) (w_attempted w) (w_failed w)
    (<[vid := v]> (w_vector_of w)) (<[vid := now]> (w_confirmed_at w))
    (w_ids w) (w_row w) (w_arrays w) (w_mat w) (w_n w) (w_threads w)).
  destruct (append_corpus_arrays junk w0 vid v) as (_ & _ & _ & _ & A5); [done|done|].
  change (append_corpus junk w0 vid v) with (confirm junk w now vid v) in A5.
  rewrite <- Ea in A5. destruct (A5 (snap_mat s) S2) as (B1 & B2 & B3). simpl in B1, B2, B3.
  rewrite En, B2. split; [split_and!; [lia|done|done]|].
  split; simpl; [done|..].
  - intros r Hr. rewrite Ei, lookup_app_l by lia. done.
  - intros r Hr. rewrite B3 by lia. done.
  - intros i r Hr. rewrite Er, lookup_insert. case_decide as Hd; [|done]. subst i. split.
    + intros Hrow. exfalso. apply Hni. apply H6 in Hrow. by eapply list_elem_of_lookup_2.
    + intros [= <-]. lia.
Qed.

Lemma steps_snap w w' s :
  winv w -> snap_ok w s -> steps junk w w' -> snap_ok w' s /\ corpus_agree (view w s) (view w' s).
Proof.
  intros H Hok Hs. induction Hs as [w|w t e w1 w2 Hstep _ IH]; [by split|].
  destruct (step_snap w t e w1 s H Hok Hstep) as [Hok1 Ha].
  destruct IH as [Hok2 Hb]; [by eapply step_winv|done|]. split; [done|]. by transitivity (view w1 s).
Qed.
End Reach.

(** ** Properties *)

(** C4. Bookkeeping invariant of the concurrent writer. In every state reachable
    from [__init__] by any interleaving of the writer threads' locked sections: all
    corpus ids are distinct, every attempt is accounted for
    (attempted = confirmed + failed + in flight), confirmed ids are exactly the
    corpus ids, and the corpus view handed to a sampler is well formed (its rows
    exist and [row_of] inverts [ids]). *)
Theorem writer_invariant (junk : nat -> vec) (src : vsource) (writers : nat) (w : wstate) :
  steps junk (init src writers) w ->
  NoDup (w_ids w) /\
  w_attempted w = length (w_ids w) + w_failed w + n_sent w /\
  (forall i, i ∈ w_ids w <-> is_Some (w_confirmed_at w !! i)) /\
  corpus_wf (view w (snapshot_corpus w)).
Proof.
  intros Hs. pose proof (steps_winv junk _ _ (init_winv src writers) Hs) as [H1 H2 H3 H4 _ H6 H7 _ H9].
  split_and!; [by apply NoDup_app in H4 as [? _]|done|done|].
  split; simpl; [lia|done|]. intros i r Hr _. by apply H6.
Qed.

Definition demo_junk (i : nat) : vec := [].
Definition demo_sched : list (nat * event) :=
  [(0, EvMake [1]%Q); (1, EvMake [2]%Q); (1, EvAttempt); (0, EvAttempt);
   (1, EvReply 5 (Some 201%Z)); (0, EvReply 6 (Some 201%Z)); (0, EvMake [3]%Q); (0, EvAttempt)].

Definition demo_state : wstate := default (init Generated 2) (run demo_junk (init Generated 2) demo_sched).

Lemma demo_reached : steps demo_junk (init Generated 2) demo_state.
Proof.
  apply (run_steps demo_junk _ demo_sched). unfold demo_state.
  destruct (run demo_junk (init Generated 2) demo_sched) as [w|] eqn:E; [done|].
  vm_compute in E. done.
Qed.

Lemma writer_invariant_witness :
  w_ids demo_state = ["rr-1"; "rr-0"] /\ w_attempted demo_state = 3 /\ n_sent demo_state = 1 /\
  NoDup (w_ids demo_state) /\
  w_attempted demo_state = length (w_ids demo_state) + w_failed demo_state + n_sent demo_state /\
  (forall i, i ∈ w_ids demo_state <-> is_Some (w_confirmed_at demo_state !! i)) /\
  corpus_wf (view demo_state (snapshot_corpus demo_state)).
Proof.
  split; [vm_compute; reflexivity|]. split; [vm_compute; reflexivity|].
  split; [vm_compute; reflexivity|].
  apply (writer_invariant demo_junk Generated 2 demo_state demo_reached).
Defined.

(** C2. Snapshots are immune to concurrent writes. A corpus snapshot captures the
    array by reference and shares the id list and row dictionary with the writers;
    still, scoring a replica against it gives the same result after any further
    writer steps -- appends, reallocation of the array included -- as at the moment
    it was taken. *)
Theorem snapshot_stable (np : Numpy) (junk : nat -> vec) (src : vsource) (writers : nat)
    (w w' : wstate) queries observed local intended k metric :
  steps junk (init src writers) w -> steps junk w w' ->
  score_replica queries observed local intended (view w' (snapshot_corpus w)) k metric None =
  score_replica queries observed local intended (view w (snapshot_corpus w)) k metric None.
Proof.
  intros H1 H2. pose proof (steps_winv junk _ _ (init_winv src writers) H1) as Hinv.
  symmetry. apply score_replica_agree. by apply (steps_snap junk w w' _ Hinv (snap_ok_now w Hinv)).
Qed.

(** The first confirmation only: a snapshot taken here has one row. *)
Definition demo_early : wstate :=
  default (init Generated 2) (run demo_junk (init Generated 2) (take 5 demo_sched)).

Lemma demo_early_reached :
  steps demo_junk (init Generated 2) demo_early /\ steps demo_junk demo_early demo_state.
Proof.
  split.
  - apply (run_steps demo_junk _ (take 5 demo_sched)). unfold demo_early.
    destruct (run demo_junk _ (take 5 demo_sched)) as [w|] eqn:E; [done|]. vm_compute in E. done.
  - apply (run_steps demo_junk _ (drop 5 demo_sched)). vm_compute. reflexivity.
Qed.

Lemma snapshot_stable_witness :
  snap_n (snapshot_corpus demo_early) = 1 /\ length (w_ids demo_state) = 2 /\
  score_replica [[2]]%Q [["rr-1"]] {["rr-1"; "rr-0"]} {["rr-1"]}
    (view demo_state (snapshot_corpus demo_early)) 1 "l2" None =
  score_replica [[2]]%Q [["rr-1"]] {["rr-1"; "rr-0"]} {["rr-1"]}
    (view demo_early (snapshot_corpus demo_early)) 1 "l2" None.
Proof.
  split; [vm_compute; reflexivity|]. split; [vm_compute; reflexivity|].
  apply (snapshot_stable ref_numpy demo_junk Generated 2 demo_early demo_state);
    apply demo_early_reached.
Defined.

(** ** The intended set *)

Lemma elem_of_intended_set w now settle i :
  i ∈ intended_set w now settle <->
  exists t, w_confirmed_at w !! i = Some t /\ (t <= now - settle)%Q.
Proof.
  unfold intended_set. rewrite elem_of_dom. split.
  - intros [t Ht]. apply map_lookup_filter_Some in Ht. eauto.
  - intros (t & Ht & Hle). exists t. by apply map_lookup_filter_Some.
Qed.

Lemma steps_ids_prefix junk w w' :
  winv w -> steps junk w w' -> forall r i, w_ids w !! r = Some i -> w_ids w' !! r = Some i.
Proof.
  intros H Hs. induction Hs as [|w t e w1 w2 Hstep _ IH]; [done|]. intros r i Hr.
  apply IH; [by eapply step_winv|].
  destruct (step_corpus junk w t e w1 H Hstep) as [(-> & _)|(vid & v & now & _ & -> & _)]; [done|].
  rewrite lookup_app_l; [done|]. by eapply lookup_lt_Some.
Qed.

Lemma rows_for_length c wanted :
  (forall i, i ∈ wanted -> exists r, corpus_row_of c !! i = Some r /\ r < corpus_n c) ->
  length (rows_for c wanted) = size wanted.
Proof.
  intros H. unfold rows_for. rewrite sorted_length, length_fmap.
  change (size wanted) with (length (elements wanted)).
  assert (Forall (fun i => exists r, corpus_row_of c !! i = Some r /\ r < corpus_n c)
            (elements wanted)) as HF by (apply Forall_forall; set_solver).
  induction HF as [|i l (r & Hr & Hlt) _ IH]; csimpl; [done|].
  assert (in_snapshot c (row_get c i) = true) as ->.
  { apply (in_snapshot_row c i); [done|]. exists r. unfold row_get. by rewrite Hr. }
  simpl. by rewrite IH.
Qed.

(** Reading order in [sample_once]: the settled set is computed first, the
    corpus snapshot is taken after. Whatever the writers do in between, every
    settled id has a row in the snapshot, so no intended id is silently dropped
    from ground truth: [rows_for] returns exactly one row per intended id. *)
Theorem intended_ids_have_rows (junk : nat -> vec) (src : vsource) (writers : nat)
    (w w' : wstate) (now settle : Q) (s : gset string) :
  steps junk (init src writers) w -> steps junk w w' -> s ⊆ intended_set w now settle ->
  length (rows_for (view w' (snapshot_corpus w')) s) = size s.
Proof.
  intros H1 H2 Hsub. pose proof (steps_winv junk _ _ (init_winv src writers) H1) as Hinv.
  pose proof (steps_winv junk _ _ Hinv H2) as [N1 _ _ _ _ R _ _ _].
  apply rows_for_length. intros i Hi.
  apply Hsub, elem_of_intended_set in Hi as (t & Ht & _).
  assert (i ∈ w_ids w) as Hin by (apply (inv_dom w Hinv); eauto).
  apply list_elem_of_lookup in Hin as [r Hr]. apply (steps_ids_prefix junk w w' Hinv H2) in Hr.
  exists r. simpl. split; [by apply R|]. rewrite N1. by eapply lookup_lt_Some.
Qed.

Lemma intended_ids_have_rows_witness :
  intended_set demo_early 9 3 = {["rr-1"]} /\
  length (rows_for (view demo_state (snapshot_corpus demo_state)) {["rr-1"]}) =
  size ({["rr-1"]} : gset string).
Proof.
  assert (intended_set demo_early 9 3 = {["rr-1"]}) as E by (vm_compute; reflexivity).
  split; [exact E|].
  apply (intended_ids_have_rows demo_junk Generated 2 demo_early demo_state 9 3);
    [apply demo_early_reached..|]. by rewrite E.
Defined.

(** ** A finite corpus is walked without repetition *)

Definition thread_vec (t : tstate) : option (string * vec) :=
  match t with Made vid v | Sent vid v => Some (vid, v) | Idle | Stopped => None end.

(** [i] carries the base row its index selects in the seeded order. *)
Definition from_sift (base : list vec) (order : list nat) (iv : string * vec) : Prop :=
  exists j b, iv.1 = vid_of j /\ order !! j = Some b /\ iv.2 = nth b base [].

Record sift_inv (base : list vec) (order : list nat) (w : wstate) : Prop := {
  sift_source : w_source w = Sift base order;
  sift_confirmed : forall i v, w_vector_of w !! i = Some v -> from_sift base order (i, v);
  sift_flight : forall t iv, t ∈ w_threads w -> thread_vec t = Some iv -> from_sift base order iv;
}.

Lemma elem_of_insert_thread {A} (ts : list A) t x y :
  y ∈ <[t := x]> ts -> y = x \/ y ∈ ts.
Proof.
  intros Hy. apply list_elem_of_lookup in Hy as [j Hj].
  destruct (decide (j = t)) as [->|Hne].
  - destruct (decide (t < length ts)).
    + rewrite list_lookup_insert_eq in Hj by done. left. congruence.
    + rewrite list_insert_ge in Hj by lia. right. by eapply list_elem_of_lookup_2.
  - rewrite list_lookup_insert_ne in Hj by done. right. by eapply list_elem_of_lookup_2.
Qed.

Lemma step_sift junk base order w t e w' :
  sift_inv base order w -> step junk w t e = Some w' -> sift_inv base order w'.
Proof.
  intros [S1 S2 S3]. unfold step.
  destruct (w_threads w !! t) as [[|vid v|vid v|]|] eqn:Ht; [| | |done..].
  - destruct e as [|draw| |]; [| |done..].
    + intros [= <-]. split; [done..|]. simpl. intros t' iv Hin.
      apply elem_of_insert_thread in Hin as [->|]; [done|eauto].
    + unfold make. rewrite S1. destruct (order !! w_next w) as [b|] eqn:Eo; intros [= <-];
        (split; [done..|]); simpl; intros t' iv Hin;
        apply elem_of_insert_thread in Hin as [->|]; eauto; simpl; intros [= <-].
      exists (w_next w), b. done.
  - destruct e; [done..| |done]. intros [= <-]. split; [done..|]. simpl.
    intros t' iv Hin. apply elem_of_insert_thread in Hin as [->|]; [|eauto]. simpl. intros [= <-].
    apply (S3 (Made vid v)); [by eapply list_elem_of_lookup_2|done].
  - destruct e as [| | |now status]; [done..|]. case_decide; intros [= <-].
    + assert (from_sift base order (vid, v)) as Hf.
      { apply (S3 (Sent vid v)); [by eapply list_elem_of_lookup_2|done]. }
      unfold confirm, append_corpus. split; simpl; case_decide; simpl; try done.
      1,2: intros i u; rewrite lookup_insert; case_decide; [intros [= <-]; by subst|auto].
      1,2: intros t' iv Hin; apply elem_of_insert_thread in Hin as [->|]; [done|eauto].
    + split; [done..|]. simpl. intros t' iv Hin.
      apply elem_of_insert_thread in Hin as [->|]; [done|eauto].
Qed.

Lemma init_sift base order writers : sift_inv base order (init (Sift base order) writers).
Proof.
  split; [done| |].
  - intros i v Hv. simpl in Hv. by rewrite lookup_empty in Hv.
  - simpl. intros t iv Hin. apply elem_of_replicate in Hin as [-> _]. done.
Qed.

(** With [--dist sift] no corpus vector is inserted under two ids. Each
    confirmed id carries the row its own index selects in the seeded permutation,
    and two different confirmed ids carry different rows of the file: running past
    the end of the file stops the writers instead of wrapping. *)
Theorem sift_rows_distinct (junk : nat -> vec) (base : list vec) (order : list nat)
    (writers : nat) (w : wstate) (i1 i2 : string) (v1 v2 : vec) :
  NoDup order -> steps junk (init (Sift base order) writers) w ->
  w_vector_of w !! i1 = Some v1 -> w_vector_of w !! i2 = Some v2 -> i1 <> i2 ->
  exists b1 b2, b1 ∈ order /\ b2 ∈ order /\ v1 = nth b1 base [] /\ v2 = nth b2 base [] /\ b1 <> b2.
Proof.
  intros Hnd Hs H1 H2 Hne.
  assert (sift_inv base order w) as [_ Hc _].
  { pose proof (init_sift base order writers) as H0. clear H1 H2.
    induction Hs; eauto using step_sift. }
  destruct (Hc _ _ H1) as (j1 & b1 & E1 & O1 & V1). destruct (Hc _ _ H2) as (j2 & b2 & E2 & O2 & V2).
  simpl in *. exists b1, b2. split_and!; try done; try by eapply list_elem_of_lookup_2.
  intros ->. apply Hne. rewrite E1, E2. f_equal. by eapply NoDup_lookup.
Qed.

Definition sift_sched : list (nat * event) :=
  [(0, EvMake []); (0, EvAttempt); (0, EvReply 1 (Some 201%Z));
   (0, EvMake []); (0, EvAttempt); (0, EvReply 2 (Some 201%Z)); (0, EvMake [])].
Definition sift_state : wstate :=
  default (init Generated 0) (run demo_junk (init (Sift [[7];[8]]%Q [1; 0]) 1) sift_sched).

Lemma sift_rows_distinct_witness :
  w_exhausted sift_state = true /\
  exists b1 b2, b1 ∈ [1; 0] /\ b2 ∈ [1; 0] /\ [8]%Q = nth b1 [[7];[8]]%Q [] /\
    [7]%Q = nth b2 [[7];[8]]%Q [] /\ b1 <> b2.
Proof.
  split; [vm_compute; reflexivity|].
  apply (sift_rows_distinct demo_junk _ _ 1 sift_state "rr-0" "rr-1").
  - decide_now.
  - apply (run_steps demo_junk _ sift_sched). unfold sift_state.
    destruct (run demo_junk _ sift_sched) as [w|] eqn:E; [done|]. vm_compute in E. done.
  - vm_compute. reflexivity.
  - vm_compute. reflexivity.
  - done.
Defined.
