(* ===== verification/Sampler.v ===== *)
(** * Probing the replicas and sampling them

    [ReplicaProbe] of [src/research/replica_recall/probe.py] and [sample_once] /
    [sampler_loop] of [run_experiment.py]. A gRPC call is an input of the model: the
    server's reply, or the exception the call raised. *)

From stdpp Require Import base list gmap strings pretty sorting.
From Stdlib Require Import QArith Lqa ZArith Lia.
From S2P Require Import Prelude PyFloat Metrics.

Local Open Scope nat_scope.

(** ** [ReplicaProbe] *)

Inductive rpc (A : Type) : Type :=
| RpcExn                          (* the stub call raised *)
| RpcResp (ok : bool) (payload : A).
Arguments RpcExn {A}.
Arguments RpcResp {A} ok payload.

Record probe := mkProbe {
  p_name : string;
  p_shard : nat;
  p_replica : nat;
  p_port : Z;
}.

(** The channel: dialled lazily, dropped by [_reset]. *)
Inductive chan : Type := Closed | Open.

(** [_stub_or_connect] followed by a call that may raise. *)
Definition call {A} (c : chan) (r : rpc A) : chan * option (bool * A) :=
  match r with
  | RpcExn => (Closed, None)
  | RpcResp ok a => (Open, Some (ok, a))
  end.

Definition list_local_ids (c : chan) (r : rpc (list string)) : chan * (bool * gset string) :=
  match call c r with
  | (c', None) => (c', (false, ∅))
  | (c', Some (ok, external_ids)) =>
      if ok then (c', (true, set_of external_ids)) else (c', (false, ∅))
  end.

Definition search (c : chan) (r : rpc (list string)) : chan * (bool * list string) :=
  match call c r with
  | (c', None) => (c', (false, []))
  | (c', Some (ok, results)) => if ok then (c', (true, results)) else (c', (false, []))
  end.

(** [search_batch]: one [Search] per query, given up at the first failure.
    [server i k] is the reply to the [i]-th query, asked for [k] results. *)
Fixpoint search_batch_from (c : chan) (server : nat -> nat -> rpc (list string)) (k i : nat)
    (queries : list vec) (out : list (list string)) : chan * (bool * list (list string)) :=
  match queries with
  | [] => (c, (true, out))
  | _ :: qs =>
      match search c (server i k) with
      | (c', (false, _)) => (c', (false, []))
      | (c', (true, res)) => search_batch_from c' server k (S i) qs (out ++ [res])
      end
  end.

Definition search_batch (c : chan) (server : nat -> nat -> rpc (list string))
    (queries : list vec) (k : nat) : chan * (bool * list (list string)) :=
  search_batch_from c server k 0 queries [].

(** [build_probes] *)
Definition probe_name (s r : nat) : string :=
  ("shard-" +:+ pretty s +:+ "-" +:+ pretty r)%string.

Definition build_probes (num_shards replicas_per_shard : nat) (port_fn : nat -> nat -> Z)
    : list probe :=
  concat ((fun s => (fun r => mkProbe (probe_name s r) s r (port_fn s r))
                    <$> seq 0 replicas_per_shard) <$> seq 0 num_shards).

(** ** [sample_once] *)

(** What one replica answers during a sweep. *)
Record replies := mkReplies {
  e_ids : rpc (list string);
  e_search : nat -> nat -> rpc (list string);
  e_loo : nat -> nat -> rpc (list string);
}.

Record rawrec := mkRaw {
  raw_probe : probe;
  raw_reachable : bool;
  raw_local : gset string;
  raw_obs : list (list string);
  raw_loo_obs : list (list string);
}.

(** [_probe_one]: ids first; the searches only if that worked, over-fetching
    [k_fetch = k * 3]; the second, non-pinned search for exactly [k] only when a
    query set for it was given. *)
Definition probe_one (p : probe) (c : chan) (e : replies) (queries : list vec) (k : nat)
    (loo_queries : option (list vec)) : rawrec :=
  let k_fetch := k * 3 in
  let '(c1, (ok_ids, local)) := list_local_ids c (e_ids e) in
  let '(c2, (ok_search, obs)) :=
    if ok_ids then search_batch c1 (e_search e) queries k_fetch else (c1, (false, [])) in
  let '(ok_loo, loo_obs) :=
    match loo_queries with
    | None => (None, [])
    | Some qs => if ok_ids then (fun r => (Some r.2.1, r.2.2)) (search_batch c2 (e_loo e) qs k)
                 else (Some false, [])
    end in
  mkRaw p (ok_ids && ok_search && match ok_loo with None => true | Some b => b end)
    local obs loo_obs.

(** A CSV row; [None] is the empty string. *)
Record row := mkRow {
  r_t : Q;
  r_shard : nat;
  r_replica : nat;
  r_name : string;
  r_reachable : bool;
  r_index_recall : option Q;
  r_e2e_recall : option Q;
  r_completeness : option Q;
  r_n_local : option Z;
  r_n_intended : Z;
  r_shard_agreement : option Q;
  r_loo_agreement : option Q;
  r_n_confirmed_settled : nat;
  r_probe_s : option Q;
  r_score_s : option Q;
}.

(** ["" if np.isnan(x) else f"{x:.6f}"] and its [round(x, 6)] twin. *)
Definition fmt6 (x : float) : option Q :=
  match x with nan => None | fin q => Some (round_nd 6 q) end.

Section SampleOnce.
Context {np : Numpy}.

(** One shard of phase 2. [score_s name] is the time spent scoring when that
    replica's row is written. *)
Definition shard_intended (raw : list (string * rawrec)) (names : list string)
    (intended_all : gset string) : gset string :=
  let live := List.filter (fun nm => match dget nm raw with
                                     | Some r => raw_reachable r | None => false end) names in
  foldl (fun u nm => match dget nm raw with Some r => u ∪ raw_local r | None => u end) ∅ live
  ∩ intended_all.

Definition shard_rows (t : Q) (intended_all : gset string) (corpus : Corpus)
    (queries : list vec) (k : nat) (metric : string) (loo_mode : bool)
    (raw : list (string * rawrec)) (probe_s : Q) (score_s : string -> Q)
    (shard_id : nat) (names : list string) : result (list row) :=
  let live := List.filter (fun nm => match dget nm raw with
                                     | Some r => raw_reachable r | None => false end) names in
  let intended_s := shard_intended raw names intended_all in
  let live_obs := omap (fun nm => match dget nm raw with
      | Some r => Some (nm, take k <$> (if loo_mode then raw_loo_obs r else raw_obs r))
      | None => None end) live in
  let agreement := if decide (2 <= length live) then pairwise_agreement live_obs k else nan in
  let loo := if decide (3 <= length live) then leave_one_out_agreement live_obs k else [] in
  let intended_rows := rows_for corpus intended_s in
  rmapM (fun nm =>
    match dget nm raw with
    | None => Raise KeyError
    | Some r =>
        let p := raw_probe r in
        if raw_reachable r then
          m ← score_replica queries (raw_obs r) (raw_local r) intended_s corpus k metric
                (Some intended_rows);
          Ok (mkRow t shard_id (p_replica p) nm true
                (fmt6 (index_recall m)) (fmt6 (e2e_recall m)) (fmt6 (completeness m))
                (Some (Qround.Qfloor (n_local m))) (Qround.Qfloor (n_intended m))
                (fmt6 agreement) (fmt6 (default nan (dget nm loo)))
                (size intended_all) (Some (round_nd 3 probe_s)) (Some (round_nd 3 (score_s nm))))
        else
          Ok (mkRow t shard_id (p_replica p) nm false None None None None
                (Z.of_nat (size intended_s)) (fmt6 agreement) None (size intended_all) None None)
    end) names.

(** [raw[name] = rec] over the probes, in probe order. *)
Definition collect (probes : list probe) (env : probe -> chan * replies)
    (queries : list vec) (k : nat) (loo_queries : option (list vec)) : list (string * rawrec) :=
  foldl (fun raw p => dset (p_name p)
           (probe_one p (env p).1 (env p).2 queries k loo_queries) raw) [] probes.

(** Phase 2: the replicas grouped by shard, the shards in order. *)
Definition score_raw (t : Q) (intended_all : gset string) (corpus : Corpus)
    (queries : list vec) (k : nat) (metric : string) (loo_mode : bool)
    (raw : list (string * rawrec)) (probe_s : Q) (score_s : string -> Q) : result (list row) :=
  let by_shard := group_by (fun nr : string * rawrec => p_shard (raw_probe nr.2)) fst raw in
  rows ← rmapM (fun sn : nat * list string =>
    shard_rows t intended_all corpus queries k metric loo_mode raw probe_s score_s sn.1 sn.2)
    (sorted (fun a b : nat * list string => Nat.leb a.1 b.1) by_shard);
  Ok (concat rows).

Definition sample_once (probes : list probe) (env : probe -> chan * replies)
    (t : Q) (intended_all : gset string) (corpus : Corpus) (queries : list vec) (k : nat)
    (metric : string) (loo_queries : option (list vec)) (probe_s : Q) (score_s : string -> Q)
    : result (list row) :=
  score_raw t intended_all corpus queries k metric
    (match loo_queries with Some _ => true | None => false end)
    (collect probes env queries k loo_queries) probe_s score_s.

(** [sampler_loop]: a round that raises is recorded and the loop goes on. *)
Definition sampler_loop (rounds : list (result (list row))) : list row * list exn :=
  foldl (fun acc o => match o with
                      | Ok rs => (acc.1 ++ rs, acc.2)
                      | Raise e => (acc.1, acc.2 ++ [e])
                      end) ([], []) rounds.
End SampleOnce.

(** ** Probing *)

Lemma search_batch_from_spec c server k i queries out :
  let '(c', (ok, res)) := search_batch_from c server k i queries out in
  if ok
  then exists answers, res = out ++ answers /\ length answers = length queries /\
         forall j a, answers !! j = Some a -> server (i + j) k = RpcResp true a
  else res = [] /\ exists j, j < length queries /\
         (server (i + j) k = RpcExn \/ exists a, server (i + j) k = RpcResp false a).
Proof.
  revert c i out. induction queries as [|q qs IH]; intros c i out; simpl.
  - exists []. rewrite app_nil_r. by split_and!.
  - unfold search, call. destruct (server i k) as [|[] a] eqn:E.
    + split; [done|]. exists 0. rewrite Nat.add_0_r. split; [lia|by left].
    + specialize (IH Open (S i) (out ++ [a])).
      destruct (search_batch_from Open server k (S i) qs (out ++ [a])) as [c' [[] res]].
      * destruct IH as (answers & -> & Hl & Ha). exists (a :: answers).
        rewrite <- app_assoc. split_and!; [done|simpl; lia|].
        intros [|j] a' Hj; simplify_eq/=; [by rewrite Nat.add_0_r|].
        rewrite Nat.add_succ_r. by apply Ha.
      * destruct IH as (-> & j & Hj & Hs). split; [done|]. exists (S j).
        rewrite Nat.add_succ_r. split; [lia|done].
    + split; [done|]. exists 0. rewrite Nat.add_0_r. split; [lia|right; eauto].
Qed.

(** A replica's batch of searches is all or nothing: success means one answer
    per query, each the server's own reply to that query; any failed query yields
    failure with no answers at all, never a partial sample. *)
Theorem search_batch_all_or_nothing (c : chan) (server : nat -> nat -> rpc (list string))
    (queries : list vec) (k : nat) :
  let '(_, (ok, res)) := search_batch c server queries k in
  if ok
  then length res = length queries /\
       forall j a, res !! j = Some a -> server j k = RpcResp true a
  else res = [] /\ exists j, j < length queries /\
       (server j k = RpcExn \/ exists a, server j k = RpcResp false a).
Proof.
  pose proof (search_batch_from_spec c server k 0 queries []) as H. unfold search_batch.
  destruct (search_batch_from c server k 0 queries []) as [c' [[] res]].
  - destruct H as (answers & -> & Hl & Ha). by split.
  - done.
Qed.

(** ** Rows *)

(** A cell is blank, or a proportion with at most six decimals. *)
Definition cell_unit (c : option Q) : Prop :=
  match c with None => True | Some q => (0 <= q <= 1)%Q /\ (round_nd 6 q == q)%Q end.

(** What every emitted row satisfies. *)
Record row_ok (r : row) : Prop := {
  row_index : cell_unit (r_index_recall r);
  row_e2e : cell_unit (r_e2e_recall r);
  row_compl : cell_unit (r_completeness r);
  row_agree : cell_unit (r_shard_agreement r);
  row_loo : cell_unit (r_loo_agreement r);
  row_blank : r_reachable r = false ->
    r_index_recall r = None /\ r_e2e_recall r = None /\ r_completeness r = None /\
    r_n_local r = None /\ r_loo_agreement r = None;
}.

Lemma fmt6_unit x : unit_or_nan x -> cell_unit (fmt6 x).
Proof. destruct x; simpl; [done|]. intros H. split; [by apply round_nd_unit|apply round_nd_idem]. Qed.

Lemma loo_cell_unit obs k nm : unit_or_nan (default nan (dget nm (leave_one_out_agreement obs k))).
Proof.
  destruct (dget nm _) as [x|] eqn:E; simpl; [|done]. apply dget_Some_elem in E.
  destruct (agreement_range obs k) as (_ & H & _). rewrite Forall_forall in H. by apply (H (nm, x)).
Qed.

Section SampleFacts.
Context {np : Numpy} {laws : NumpyLaws np}.
Context (corpus : Corpus) (queries : list vec) (dim k : nat) (metric : string).
Context (Hwf : corpus_wf corpus) (Hc : corpus_dim dim corpus) (Hqd : queries_dim dim queries).
Context (Hk : 0 < k) (Hm : known_metric metric).

Lemma shard_rows_total t intended_all loo_mode raw probe_s score_s shard_id names :
  Forall (fun nm => is_Some (dget nm raw)) names ->
  exists rows, shard_rows t intended_all corpus queries k metric loo_mode raw probe_s score_s
                 shard_id names = Ok rows /\
    r_name <$> rows = names /\ Forall row_ok rows /\
    Forall (fun r => r_shard r = shard_id) rows.
Proof.
  intros Hn. unfold shard_rows.
  set (live := List.filter _ names). set (intended_s := shard_intended raw names intended_all).
  set (live_obs := omap _ live).
  set (agreement := if decide (2 <= length live) then _ else nan).
  set (loo := if decide (3 <= length live) then _ else []).
  assert (unit_or_nan agreement) as Ha.
  { unfold agreement. case_decide; [|done]. apply agreement_range. }
  assert (forall nm, unit_or_nan (default nan (dget nm loo))) as Hl.
  { intros nm. unfold loo. case_decide; [apply loo_cell_unit|done]. }
  clearbody agreement loo intended_s. clear live live_obs.
  induction Hn as [|nm names [r Hr] _ IH]; [by exists []|].
  destruct IH as (rows & E & Hnames & Hok & Hsh). simpl. rewrite Hr.
  destruct (raw_reachable r) eqn:Er.
  - destruct (score_replica_returns np dim queries (raw_obs r) (raw_local r) intended_s corpus k metric)
      as (m & -> & H1 & H2 & H3 & _); [done..|]. simpl. rewrite E. simpl.
    eexists; split; [done|]. csimpl. rewrite Hnames. split; [done|].
    split; constructor; try done. split; simpl; try done; by apply fmt6_unit.
  - simpl. rewrite E. simpl. eexists; split; [done|]. csimpl. rewrite Hnames. split; [done|].
    split; constructor; try done. split; simpl; try done; by apply fmt6_unit.
Qed.

(** Scoring any set of replica records with distinct names. *)
Lemma score_raw_total t intended_all loo_mode raw probe_s score_s :
  NoDup (dkeys raw) ->
  exists rows, score_raw t intended_all corpus queries k metric loo_mode raw probe_s score_s = Ok rows /\
    r_name <$> rows ≡ₚ dkeys raw /\ Forall row_ok rows.
Proof.
  intros Hnd. unfold score_raw. set (by_shard := group_by _ fst raw). set (srt := sorted _ by_shard).
  assert (Forall (fun sn : nat * list string => Forall (fun nm => is_Some (dget nm raw)) sn.2) srt) as Hsrt.
  { apply Forall_forall. intros [sh ns] Hin. unfold srt in Hin. apply elem_of_sorted in Hin.
    apply group_by_elem in Hin. simpl. subst ns. apply Forall_fmap, Forall_forall.
    intros [nm r] Hr. apply list_elem_of_filter in Hr as [_ Hr]. exists r. by apply dget_elem. }
  assert (concat (srt.*2) ≡ₚ dkeys raw) as Hp.
  { unfold srt. rewrite (sorted_perm _ by_shard).
    change (by_shard.*2) with (dvalues by_shard). unfold by_shard. by rewrite group_by_concat. }
  assert (exists rows, rmapM (fun sn : nat * list string =>
      shard_rows t intended_all corpus queries k metric loo_mode raw probe_s score_s sn.1 sn.2) srt = Ok rows
      /\ r_name <$> concat rows = concat (srt.*2) /\ Forall row_ok (concat rows))
    as (rows & E & Hn & Hok).
  { clear Hp. induction Hsrt as [|[sh ns] srt Hns _ IH]; [by exists []|].
    destruct IH as (rows & E & Hn & Hok).
    destruct (shard_rows_total t intended_all loo_mode raw probe_s score_s sh ns Hns)
      as (rs & Ers & Hrs & Hoks & _).
    exists (rs :: rows). simpl in *. rewrite Ers. simpl. rewrite E. simpl.
    rewrite fmap_app, Hrs, Hn. split_and!; [done..|]. by apply Forall_app. }
  rewrite E. simpl. eexists; split; [done|]. by rewrite Hn, Hp.
Qed.
End SampleFacts.

(** [raw[name] = rec] in probe order, whatever a record is. *)
Lemma dset_probes_keys {B} (f : probe -> B) probes :
  NoDup (p_name <$> probes) ->
  dkeys (foldl (fun raw p => dset (p_name p) (f p) raw) [] probes) = p_name <$> probes.
Proof.
  induction probes as [|p probes IH] using rev_ind; [done|].
  rewrite fmap_app, foldl_app. csimpl. intros Hnd. apply NoDup_app in Hnd as (H1 & H2 & _).
  rewrite dkeys_dset, IH by done. rewrite decide_False; [done|].
  intros Hin. apply (H2 _ Hin). by apply list_elem_of_singleton.
Qed.

(** C15. One sampling sweep. With distinct replica names, a well-formed corpus
    snapshot whose rows and the queries have one dimension, [k > 0] and a supported
    metric, [sample_once] does not raise, whatever the replicas answer: it emits
    exactly one row per replica, every metric cell it writes is a proportion in
    [0, 1] with at most six decimals, and a replica that could not be reached gets
    blank metrics rather than a score. (Of different dimensions the product of the
    two arrays raises [ValueError].) *)
Theorem sample_once_total (np : Numpy) (probes : list probe) (env : probe -> chan * replies)
    (t : Q) (intended_all : gset string) (corpus : Corpus) (queries : list vec) (k : nat)
    (metric : string) (loo : option (list vec)) (probe_s : Q) (score_s : string -> Q) (dim : nat) :
  NumpyLaws np -> NoDup (p_name <$> probes) ->
  corpus_wf corpus -> corpus_dim dim corpus -> queries_dim dim queries -> 0 < k -> known_metric metric ->
  exists rows, sample_once probes env t intended_all corpus queries k metric loo probe_s score_s
                 = Ok rows /\
    r_name <$> rows ≡ₚ p_name <$> probes /\ Forall row_ok rows.
Proof.
  intros laws Hnd Hwf Hc Hqd Hk Hm. unfold sample_once, collect.
  pose proof (dset_probes_keys
    (fun p => probe_one p (env p).1 (env p).2 queries k loo) probes Hnd) as Hkeys.
  destruct (score_raw_total corpus queries dim k metric Hwf Hc Hqd Hk Hm t intended_all
    (match loo with Some _ => true | None => false end) _ probe_s score_s
    ltac:(by rewrite Hkeys)) as (rows & -> & Hn & Hok).
  exists rows. split_and!; [done| |done]. by rewrite Hn, Hkeys.
Qed.

Definition demo_probes : list probe := build_probes 1 3 (fun s r => Z.of_nat (s * 3 + r)).
Definition demo_env (p : probe) : chan * replies :=
  match p_replica p with
  | 0 => (Closed, mkReplies (RpcResp true ["a"; "b"]) (fun _ _ => RpcResp true ["a"]) (fun _ _ => RpcExn))
  | 1 => (Open, mkReplies RpcExn (fun _ _ => RpcExn) (fun _ _ => RpcExn))
  | _ => (Open, mkReplies (RpcResp true ["a"]) (fun _ _ => RpcResp true ["a"]) (fun _ _ => RpcExn))
  end.
Definition demo_corpus : Corpus := mkCorpus ["a"; "b"] [[0]; [9]]%Q {["a" := 0; "b" := 1]} 2.

Lemma demo_corpus_wf : corpus_wf demo_corpus.
Proof.
  split; [simpl; lia..|]. unfold demo_corpus. simpl. intros i r Hi _.
  rewrite lookup_insert in Hi. case_decide; simplify_eq; [done|].
  rewrite lookup_singleton in Hi. case_decide; by simplify_eq.
Qed.

Lemma sample_once_total_witness :
  exists rows, sample_once demo_probes demo_env 0 {["a"; "b"]} demo_corpus [[0]]%Q 1 "l2" None 0
                 (fun _ => 0%Q) = Ok rows /\
    r_name <$> rows ≡ₚ p_name <$> demo_probes /\ Forall row_ok rows.
Proof.
  apply (sample_once_total _ _ _ _ _ _ _ _ _ _ _ _ 1); [apply ref_numpy_laws|decide_now|apply demo_corpus_wf
    |by intros [|[|r]] v ? [= <-]|by repeat constructor|lia|by left].
Defined.

(** ** The empirical intended set *)

Lemma union_fold raw (l : list string) (u : gset string) i :
  i ∈ foldl (fun u nm => match dget nm raw with Some r => u ∪ raw_local r | None => u end) u l <->
  i ∈ u \/ exists nm r, nm ∈ l /\ dget nm raw = Some r /\ i ∈ raw_local r.
Proof.
  revert u. induction l as [|nm l IH]; intros u; simpl.
  - split; [by left|]. intros [?|(nm & r & Hn & _)]; [done|]. by apply not_elem_of_nil in Hn.
  - rewrite IH. destruct (dget nm raw) as [r|] eqn:E; [rewrite elem_of_union|];
      setoid_rewrite elem_of_cons; split; intros H; naive_solver.
Qed.

(** The intended set of a shard is derived from the replicas themselves: an id
    is held against the shard's replicas exactly when it is settled and at least
    one reachable replica of the shard holds it. Hence a shard with a single
    reachable replica always reads complete (or NaN) -- loss on every replica is
    invisible to this metric, as the module documents. *)
Theorem shard_intended_spec (raw : list (string * rawrec)) (names : list string)
    (intended_all : gset string) :
  (forall i, i ∈ shard_intended raw names intended_all <->
     i ∈ intended_all /\ exists nm r, nm ∈ names /\ dget nm raw = Some r /\
       raw_reachable r = true /\ i ∈ raw_local r) /\
  (forall nm r, List.filter (fun nm => match dget nm raw with
                  | Some r => raw_reachable r | None => false end) names = [nm] ->
     dget nm raw = Some r ->
     match set_completeness (raw_local r) (shard_intended raw names intended_all) with
     | nan => True | fin q => (q == 1)%Q end).
Proof.
  assert (forall i, i ∈ shard_intended raw names intended_all <->
     i ∈ intended_all /\ exists nm r, nm ∈ names /\ dget nm raw = Some r /\
       raw_reachable r = true /\ i ∈ raw_local r) as Hspec.
  { intros i. unfold shard_intended. rewrite elem_of_intersection, union_fold.
    setoid_rewrite elem_of_bfilter. split.
    - intros [[?%not_elem_of_empty|(nm & r & [Hn Hr] & E & Hi)] Ha]; [done|].
      rewrite E in Hr. eauto 10.
    - intros (Ha & nm & r & Hn & E & Hr & Hi). split; [|done]. right.
      exists nm, r. by rewrite E. }
  split; [done|]. intros nm r Hlive E.
  pose proof (set_completeness_facts (raw_local r) (shard_intended raw names intended_all)) as Hc.
  destruct (set_completeness _ _) as [|q]; [done|].
  destruct Hc as (_ & Hone & _). apply Hone. intros i Hi.
  apply Hspec in Hi as (_ & nm' & r' & Hn & E' & Hr & Hi).
  assert (nm' ∈ [nm]) as Hin by (rewrite <- Hlive; apply elem_of_bfilter; by rewrite E').
  apply list_elem_of_singleton in Hin. congruence.
Qed.

(** A sampler loses no sweep: its rows are those of the sweeps that returned, in order,
    and it records one error for each sweep that raised. *)
Lemma sampler_loop_spec rounds :
  (sampler_loop rounds).1 = concat (omap (fun o => match o with Ok rs => Some rs | Raise _ => None end) rounds) /\
  (sampler_loop rounds).2 = omap (fun o => match o with Ok _ => None | Raise e => Some e end) rounds.
Proof.
  unfold sampler_loop. induction rounds as [|o rounds [IH1 IH2]] using rev_ind; [done|].
  rewrite foldl_app, !omap_app, concat_app. simpl.
  destruct o; simpl; rewrite IH1, IH2, ?app_nil_r; done.
Qed.
