(* ===== verification/ChaosHarness.v ===== *)
(** * The nano-db chaos harness

    [src/chaos_harness.py]: topology, managed processes, the readiness waits, the
    write workload and its counters, the invariant validator, the kill loop and the
    final verdict. Clocks, random draws, sub-processes and HTTP replies are inputs. *)

From stdpp Require Import base list gmap strings pretty sorting.
From Stdlib Require Import QArith Lqa ZArith Lia.
From S2P Require Import Prelude PyFloat.

Local Open Scope nat_scope.

(** ** Topology *)

Definition NUM_SHARDS : nat := 2.
Definition REPLICAS_PER_SHARD : nat := 3.
Definition VECTOR_DIM : nat := 128.
Definition NUM_COORDINATORS : nat := 3.

Definition shard_port (shard_id replica_id : nat) : Z :=
  (19090 + Z.of_nat (shard_id * REPLICAS_PER_SHARD + replica_id))%Z.
Definition coord_http_port (node_id : nat) : Z := (18180 + Z.of_nat node_id)%Z.
Definition raft_port (node_id : nat) : Z := (17100 + Z.of_nat node_id)%Z.

(** ** [write_initial_configs] *)

Record shard_cfg := mkShardCfg {
  sc_shard : nat;
  sc_replica : nat;
  sc_port : Z;
  sc_primary : bool;
}.

Definition shard_configs : list shard_cfg :=
  concat ((fun s => (fun r => mkShardCfg s r (shard_port s r) (Nat.eqb r 0))
                    <$> seq 0 REPLICAS_PER_SHARD) <$> seq 0 NUM_SHARDS).

Definition raft_peers : list (nat * Z) :=
  (fun n => (n, raft_port n)) <$> seq 0 NUM_COORDINATORS.

(** ** [ManagedProcess] *)

(** [None]: never started; [Some b]: a child exists and [poll() is None] iff [b]. *)
Record mproc := mkProc {
  mp_proc : option bool;
  mp_env : list (string * string);
  mp_log : string;
  mp_restart_count : nat;
  mp_crash_count : nat;
}.

Definition new_proc (env : list (string * string)) (log : string) : mproc :=
  mkProc None env log 0 0.

(** [start]: [up] says whether the child is still running after the grace period. *)
Definition mp_start (p : mproc) (up : bool) : mproc * bool :=
  (mkProc (Some up) (mp_env p) (mp_log p) (mp_restart_count p) (mp_crash_count p), up).

Definition mp_is_alive (p : mproc) : bool :=
  match mp_proc p with Some b => b | None => false end.

(** [kill]: SIGKILL and reap; [reaped] is false when the wait timed out and the
    exception was swallowed. *)
Definition mp_kill (p : mproc) (reaped : bool) : mproc :=
  match mp_proc p with
  | Some true => mkProc (Some (negb reaped)) (mp_env p) (mp_log p)
                   (mp_restart_count p) (mp_crash_count p)
  | _ => p
  end.

Definition mp_count (p : mproc) (alive : bool) : mproc :=
  mkProc (mp_proc p) (mp_env p) (mp_log p) (S (mp_restart_count p))
    (if alive then mp_crash_count p else S (mp_crash_count p)).

(** [restart]: its counter is bumped whether or not the child survives. *)
Definition mp_restart (p : mproc) (reaped up : bool) : mproc * bool :=
  let '(p', alive) := mp_start (mp_kill p reaped) up in (mp_count p' alive, alive).

(** ** [build_processes] *)

Definition path_join (a b : string) : string := (a +:+ "/" +:+ b)%string.
Definition zstr (z : Z) : string := pretty z.

Definition shard_name (s r : nat) : string :=
  ("shard-" +:+ pretty s +:+ "-" +:+ pretty r)%string.
Definition coordinator_name (n : nat) : string := ("coordinator-" +:+ pretty n)%string.

Definition shard_proc (run_dir : string) (s r : nat) : string * mproc :=
  let name := shard_name s r in
  (name, new_proc
     [("NANODB_SHARD_ID", pretty s);
      ("NANODB_GRPC_PORT", zstr (shard_port s r));
      ("NANODB_DATA_DIR", path_join (path_join run_dir "data") name)]
     (path_join run_dir (name +:+ ".log"))).

Definition coordinator_proc (run_dir : string) (n : nat) : string * mproc :=
  let name := coordinator_name n in
  (name, new_proc
     [("NANODB_CLUSTER_CONFIG", path_join run_dir "cluster_config.json");
      ("NANODB_HTTP_PORT", zstr (coord_http_port n));
      ("NANODB_RAFT_NODE_ID", pretty n);
      ("NANODB_RAFT_PEERS_CONFIG", path_join run_dir "raft_peers.json");
      ("NANODB_RAFT_STATE_PATH", path_join run_dir (name +:+ ".raft_state.bin"));
      ("NANODB_RAFT_LOG_PATH", path_join run_dir (name +:+ ".raft_log.bin"))]
     (path_join run_dir (name +:+ ".log"))).

Definition build_processes (run_dir : string) : list (string * mproc) :=
  foldl (fun d np => dset np.1 np.2 d) []
    (concat ((fun s => shard_proc run_dir s <$> seq 0 REPLICAS_PER_SHARD) <$> seq 0 NUM_SHARDS)
     ++ (coordinator_proc run_dir <$> seq 0 NUM_COORDINATORS)).

(** ** Readiness waits *)

(** An HTTP exchange: an exception, or a status and the parsed body. *)
Inductive http (B : Type) : Type :=
| HttpExn
| HttpResp (status : Z) (body : B).
Arguments HttpExn {B}.
Arguments HttpResp {B} status body.

Definition status_ok {B} (h : http B) : bool :=
  match h with HttpResp st _ => Z.eqb st 200 | HttpExn => false end.

(** One iteration of a wait loop: the clock at the loop head, each node's reply. *)
Record wround (B : Type) := mkRound { wr_now : Q; wr_reply : nat -> http B }.
Arguments mkRound {B} wr_now wr_reply.
Arguments wr_now {B} _.
Arguments wr_reply {B} _ _.

(** [wait_for_coordinators_ready]; [None]: the given rounds ran out first. *)
Fixpoint wait_for_coordinators_ready {B} (deadline : Q) (rounds : list (wround B))
    (pending : list nat) : option bool :=
  match rounds with
  | [] => None
  | r :: rounds' =>
      if Qltb (wr_now r) deadline && negb (Nat.eqb (length pending) 0) then
        wait_for_coordinators_ready deadline rounds'
          (List.filter (fun n => negb (status_ok (wr_reply r n))) pending)
      else Some (Nat.eqb (length pending) 0)
  end.

(** [wait_for_raft_leader]: the body is the value of ["role"]. *)
Definition is_leader (h : http string) : bool :=
  match h with
  | HttpResp st role => Z.eqb st 200 && bool_decide (role = "leader")
  | HttpExn => false
  end.

Fixpoint wait_for_raft_leader (deadline : Q) (rounds : list (wround string))
    (node_ids : list nat) : option (option nat) :=
  match rounds with
  | [] => None
  | r :: rounds' =>
      if Qltb (wr_now r) deadline then
        match List.find (fun n => is_leader (wr_reply r n)) node_ids with
        | Some n => Some (Some n)
        | None => wait_for_raft_leader deadline rounds' node_ids
        end
      else Some None
  end.

(** ** [Stats] and [writer_loop] *)

Record stats := mkStats {
  st_attempted : nat;
  st_confirmed : nat;
  st_failed : nat;
  st_confirmed_ids : list string;
}.

Definition stats0 : stats := mkStats 0 0 0 [].
Definition record_attempt (s : stats) : stats :=
  mkStats (S (st_attempted s)) (st_confirmed s) (st_failed s) (st_confirmed_ids s).
Definition record_confirmed (s : stats) (vec_id : string) : stats :=
  mkStats (st_attempted s) (S (st_confirmed s)) (st_failed s) (st_confirmed_ids s ++ [vec_id]).
Definition record_failed (s : stats) : stats :=
  mkStats (st_attempted s) (st_confirmed s) (S (st_failed s)) (st_confirmed_ids s).
Definition duplicate_id_count (s : stats) : nat :=
  length (st_confirmed_ids s) - size (list_to_set (st_confirmed_ids s) : gset string).

(** Where a writer thread is. The id is read and the shared counter bumped without
    a lock, so the read, the load and the store of [id_counter[0] += 1] are separate
    steps; the [Stats] methods are atomic. *)
Inductive wpc : Type :=
| WTop
| WNamed (vec_id : string)              (* vec_id = f"chaos-{id_counter[0]}" *)
| WLoaded (vec_id : string) (c : nat)   (* id_counter[0] read for += 1 *)
| WStored (vec_id : string)             (* ... and written back *)
| WSent (vec_id : string)               (* record_attempt() done *)
| WStop.

Record wlstate := mkWL { wl_ctr : nat; wl_stats : stats; wl_threads : list wpc }.

Inductive wlevent : Type :=
| WlGo                       (* the thread's next local step *)
| WlHalt                     (* stop_evt is set at the loop head *)
| WlReply (h : http unit).

Definition chaos_id (c : nat) : string := ("chaos-" +:+ pretty c)%string.

Definition writer_step (w : wlstate) (t : nat) (e : wlevent) : option wlstate :=
  let upd pc := <[t := pc]> (wl_threads w) in
  match wl_threads w !! t, e with
  | Some WTop, WlHalt => Some (mkWL (wl_ctr w) (wl_stats w) (upd WStop))
  | Some WTop, WlGo => Some (mkWL (wl_ctr w) (wl_stats w) (upd (WNamed (chaos_id (wl_ctr w)))))
  | Some (WNamed v), WlGo => Some (mkWL (wl_ctr w) (wl_stats w) (upd (WLoaded v (wl_ctr w))))
  | Some (WLoaded v c), WlGo => Some (mkWL (S c) (wl_stats w) (upd (WStored v)))
  | Some (WStored v), WlGo =>
      Some (mkWL (wl_ctr w) (record_attempt (wl_stats w)) (upd (WSent v)))
  | Some (WSent v), WlReply h =>
      let ok := match h with HttpResp st _ => Z.eqb st 201 | HttpExn => false end in
      Some (mkWL (wl_ctr w)
              (if ok then record_confirmed (wl_stats w) v else record_failed (wl_stats w))
              (upd WTop))
  | _, _ => None
  end.

Fixpoint writer_run (w : wlstate) (sched : list (nat * wlevent)) : option wlstate :=
  match sched with
  | [] => Some w
  | (t, e) :: s => match writer_step w t e with Some w' => writer_run w' s | None => None end
  end.

Definition writer_init (writers : nat) : wlstate := mkWL 0 stats0 (replicate writers WTop).

(** ** [validator_loop] *)

Record replica_stat := mkRep { rep_shard : nat; rep_primary : bool }.
Record stats_body := mkBody {
  sb_total : option Z;              (* total_element_count *)
  sb_degraded : bool;
  sb_replicas : list replica_stat;
}.

Inductive violation : Type :=
| LOST_WRITE (node : nat) (total confirmed_before : Z)
| DOUBLE_PRIMARY (node shard n_primaries : nat).

Record vstate := mkV { v_violations : list violation; v_checks : nat; v_dips : nat }.

(** Shards of one reply that show more than one primary. *)
Definition double_primaries (node : nat) (reps : list replica_stat) : list violation :=
  omap (fun sr : nat * list replica_stat =>
          let primaries := List.filter rep_primary sr.2 in
          if decide (1 < length primaries) then Some (DOUBLE_PRIMARY node sr.1 (length primaries))
          else None)
    (group_by rep_shard id reps).

Definition validate_reply (confirmed_before : nat) (v : vstate) (nh : nat * http stats_body)
    : vstate :=
  match nh with
  | (node, HttpResp st body) =>
      if Z.eqb st 200 then
        let cb := Z.of_nat confirmed_before in
        let '(lost, dip) :=
          match sb_total body with
          | Some total =>
              if (total <? cb)%Z
              then if sb_degraded body then ([], 1) else ([LOST_WRITE node total cb], 0)
              else ([], 0)
          | None => ([], 0)
          end in
        mkV (v_violations v ++ lost ++ double_primaries node (sb_replicas body))
          (S (v_checks v)) (v_dips v + dip)
      else v
  | (_, HttpExn) => v
  end.

(** The validator thread, as steps interleaved with the writers: the confirmed
    count is read first ([HSnap]), then each coordinator is asked ([HAsk]) and its
    reply judged ([HReply]). *)
Inductive vpc : Type :=
| VTop
| VRound (confirmed_before : nat) (todo : list nat)
| VWait (confirmed_before : nat) (n : nat) (todo : list nat)
| VStop.

Record hstate := mkH { hs_w : wlstate; hs_v : vstate; hs_pc : vpc }.

Inductive hevent : Type :=
| HW (t : nat) (e : wlevent)
| HHalt
| HSnap
| HAsk
| HReply (h : http stats_body)
| HRoundEnd.

Definition hstep (node_ids : list nat) (h : hstate) (e : hevent) : option hstate :=
  match e, hs_pc h with
  | HW t we, pc =>
      match writer_step (hs_w h) t we with
      | Some w' => Some (mkH w' (hs_v h) pc)
      | None => None
      end
  | HHalt, VTop => Some (mkH (hs_w h) (hs_v h) VStop)
  | HSnap, VTop =>
      Some (mkH (hs_w h) (hs_v h) (VRound (st_confirmed (wl_stats (hs_w h))) node_ids))
  | HAsk, VRound cb (n :: todo) => Some (mkH (hs_w h) (hs_v h) (VWait cb n todo))
  | HReply r, VWait cb n todo =>
      Some (mkH (hs_w h) (validate_reply cb (hs_v h) (n, r)) (VRound cb todo))
  | HRoundEnd, VRound _ [] => Some (mkH (hs_w h) (hs_v h) VTop)
  | _, _ => None
  end.

Fixpoint hrun (node_ids : list nat) (h : hstate) (sched : list hevent) : option hstate :=
  match sched with
  | [] => Some h
  | e :: s => match hstep node_ids h e with Some h' => hrun node_ids h' s | None => None end
  end.

Definition hinit (writers : nat) : hstate := mkH (writer_init writers) (mkV [] 0 0) VTop.

(** ** [chaos_loop] *)

Record chaos_event := mkCE {
  ce_t : Q;
  ce_target : string;
  ce_alive : bool;
  ce_down_for : Q;
  ce_restart_count : nat;
}.

(** One iteration's draws and observations, in program order. *)
Record chaos_in := mkCI {
  ci_stop_head : bool;        (* the while test *)
  ci_stop_slept : bool;       (* after the interval sleep *)
  ci_target : string;
  ci_t0 : Q;
  ci_reaped : bool;
  ci_down_for : Q;
  ci_stop_down : bool;        (* after the down-time sleep *)
  ci_up : bool;               (* start() found the child running *)
}.

Fixpoint chaos_loop (ins : list chaos_in) (procs : list (string * mproc))
    (events : list chaos_event) : result (list (string * mproc) * list chaos_event) :=
  match ins with
  | [] => Ok (procs, events)
  | i :: ins' =>
      if ci_stop_head i then Ok (procs, events)
      else if ci_stop_slept i then Ok (procs, events)
      else
        match dget (ci_target i) procs with
        | None => Raise KeyError
        | Some p =>
            let p1 := mp_kill p (ci_reaped i) in
            let '(p2, alive) := mp_start p1 (ci_up i) in
            if ci_stop_down i then Ok (dset (ci_target i) p2 procs, events)
            else
              let p3 := mp_count p2 alive in
              chaos_loop ins' (dset (ci_target i) p3 procs)
                (events ++ [mkCE (ci_t0 i) (ci_target i) alive (ci_down_for i) (mp_restart_count p3)])
        end
  end.

(** ** [main] *)

(** Start in order, stopping at the first process that does not stay up. *)
Fixpoint start_all (names : list string) (up : string -> bool) (procs : list (string * mproc))
    : list (string * mproc) * bool :=
  match names with
  | [] => (procs, true)
  | n :: names' =>
      match dget n procs with
      | None => (procs, false)
      | Some p =>
          let '(p', ok) := mp_start p (up n) in
          let procs' := dset n p' procs in
          if ok then start_all names' up procs' else (procs', false)
      end
  end.

Definition kill_all (reaped : string -> bool) (procs : list (string * mproc))
    : list (string * mproc) :=
  (fun np => (np.1, mp_kill np.2 (reaped np.1))) <$> procs.

(** [for name, p in procs.items(): if not p.is_alive(): p.start()] *)
Definition revive (procs : list (string * mproc)) (up : string -> bool) : list (string * mproc) :=
  (fun np => (np.1, if mp_is_alive np.2 then np.2 else (mp_start np.2 (up np.1)).1)) <$> procs.

(** The read-back attempts, in order. *)
Fixpoint final_readback (attempts : list (http (option Z))) : bool * option Z :=
  match attempts with
  | [] => (false, None)
  | HttpResp st total :: rest => if Z.eqb st 200 then (true, total) else final_readback rest
  | HttpExn :: rest => final_readback rest
  end.

Definition exit_code (n_violations : nat) (final_ok : bool) : nat :=
  if (0 <? n_violations) || negb final_ok then 1 else 0.

(** [print(final_total >= confirmed_final)], printed only when both are known. *)
Definition final_recovery_ok (final : bool * option Z) (confirmed_final : nat) : option bool :=
  match final with
  | (true, Some total) => Some (Z.of_nat confirmed_final <=? total)%Z
  | _ => None
  end.

(** What one run of the program meets: children, clocks, replies, draws and the
    interleaving of its threads. *)
Record main_in := mkMI {
  mi_bins_exist : bool;
  mi_run_dir : string;
  mi_writers : nat;
  mi_up : string -> bool;                    (* bring-up *)
  mi_ready_deadline : Q;
  mi_ready : list (wround unit);
  mi_leader_deadline : Q;
  mi_leader : list (wround string);
  mi_sched : list hevent;                    (* writers and validator *)
  mi_chaos : list chaos_in;
  mi_up_again : string -> bool;              (* the revival after chaos *)
  mi_final : nat -> http (option Z);         (* read-back attempt *)
  mi_reaped : string -> bool;                (* tear-down *)
}.

Record main_out := mkMO {
  mo_exit : nat;
  mo_procs : list (string * mproc);
  mo_recovery : option bool;                 (* the printed final_recovery_ok *)
}.

(** [None]: the inputs are not those of a complete run. *)
Definition main (i : main_in) : option main_out :=
  if negb (mi_bins_exist i) then Some (mkMO 1 [] None)
  else
    let procs := build_processes (mi_run_dir i) in
    let shard_names := List.filter (String.prefix "shard-") (dkeys procs) in
    let coord_names := List.filter (String.prefix "coordinator-") (dkeys procs) in
    let node_ids := seq 0 NUM_COORDINATORS in
    let '(procs, ok) := start_all shard_names (mi_up i) procs in
    if negb ok then Some (mkMO 1 procs None)
    else
      let '(procs, ok) := start_all coord_names (mi_up i) procs in
      if negb ok then Some (mkMO 1 procs None)
      else
        ready ← wait_for_coordinators_ready (mi_ready_deadline i) (mi_ready i) node_ids;
        if negb ready then Some (mkMO 1 (kill_all (mi_reaped i) procs) None)
        else
          leader ← wait_for_raft_leader (mi_leader_deadline i) (mi_leader i) node_ids;
          match leader with
          | None => Some (mkMO 1 (kill_all (mi_reaped i) procs) None)
          | Some _ =>
              h ← hrun node_ids (hinit (mi_writers i)) (mi_sched i);
              match chaos_loop (mi_chaos i) procs [] with
              | Raise _ => None
              | Ok (procs, events) =>
                  let procs := revive procs (mi_up_again i) in
                  let final := final_readback (mi_final i <$> seq 0 10) in
                  let confirmed_final := st_confirmed (wl_stats (hs_w h)) in
                  Some (mkMO (exit_code (length (v_violations (hs_v h))) final.1)
                          (kill_all (mi_reaped i) procs)
                          (final_recovery_ok final confirmed_final))
              end
          end.

(** Per-target kill counts and the restarts that did not survive. *)
Definition by_target (events : list chaos_event) : list (string * nat) :=
  foldl (fun d e => dset (ce_target e) (S (default 0 (dget (ce_target e) d))) d) [] events.
Definition crash_on_restart (events : list chaos_event) : nat :=
  length (List.filter (fun e => negb (ce_alive e)) events).

(** * Properties *)

(** ** Writer accounting *)

Definition in_flight (pc : wpc) : nat := match pc with WSent _ => 1 | _ => 0 end.
Definition flights (l : list wpc) : nat := sum_list_with in_flight l.

Lemma flights_insert l t pc pc' :
  l !! t = Some pc -> flights (<[t := pc']> l) + in_flight pc = flights l + in_flight pc'.
Proof.
  unfold flights. revert t. induction l as [|x l IH]; intros [|t] H; simplify_eq/=; [lia|].
  specialize (IH _ H). lia.
Qed.

Definition stats_balanced (w : wlstate) : Prop :=
  st_attempted (wl_stats w) =
    st_confirmed (wl_stats w) + st_failed (wl_stats w) + flights (wl_threads w) /\
  length (st_confirmed_ids (wl_stats w)) = st_confirmed (wl_stats w).

Ltac writer_cases H :=
  unfold writer_step in H;
  repeat match type of H with
  | context [match ?x with _ => _ end] => destruct x eqn:?
  end; simplify_eq/=.

Lemma writer_step_balanced w t e w' :
  writer_step w t e = Some w' -> stats_balanced w -> stats_balanced w'.
Proof.
  intros H [Hb Hl]. unfold stats_balanced.
  destruct (wl_threads w !! t) as [pc|] eqn:Ht; [|unfold writer_step in H; by rewrite Ht in H].
  pose proof (fun pc' => flights_insert _ _ _ pc' Ht) as HF.
  unfold writer_step in H. rewrite Ht in H.
  destruct pc, e; simplify_eq/=;
    match goal with |- context [<[t := ?pc']> _] => specialize (HF pc') end; simpl in HF;
    try (destruct h as [|st ?]; [|destruct (st =? 201)%Z]); simpl;
    rewrite ?length_app; simpl; lia.
Qed.

Lemma writer_step_mono w t e w' :
  writer_step w t e = Some w' -> st_confirmed (wl_stats w) <= st_confirmed (wl_stats w').
Proof.
  intros H. unfold writer_step in H.
  destruct (wl_threads w !! t) as [pc|]; [|done].
  destruct pc, e; simplify_eq/=; try lia.
  destruct h as [|st ?]; [|destruct (st =? 201)%Z]; simpl; lia.
Qed.

Lemma writer_run_ind (P : wlstate -> Prop) w sched w' :
  (forall w t e w', writer_step w t e = Some w' -> P w -> P w') ->
  writer_run w sched = Some w' -> P w -> P w'.
Proof.
  intros Hs. revert w. induction sched as [|[t e] s IH]; simpl; intros w H HP; [by simplify_eq|].
  destruct (writer_step w t e) eqn:E; [|done]. eauto.
Qed.

Lemma flights_replicate n : flights (replicate n WTop) = 0.
Proof. unfold flights. induction n; simpl; lia. Qed.

(** At every point of every interleaving of the writer threads, the attempted
    inserts are the confirmed, the failed and those whose reply is still awaited,
    and as many ids are recorded as inserts are confirmed. *)
Theorem writer_accounting writers sched w :
  writer_run (writer_init writers) sched = Some w ->
  st_attempted (wl_stats w) =
    st_confirmed (wl_stats w) + st_failed (wl_stats w) + flights (wl_threads w) /\
  length (st_confirmed_ids (wl_stats w)) = st_confirmed (wl_stats w).
Proof.
  intros H. refine (writer_run_ind stats_balanced _ _ _ writer_step_balanced H _).
  split; simpl; [by rewrite flights_replicate|done].
Qed.

Definition demo_writers : list (nat * wlevent) :=
  [(0, WlGo); (0, WlGo); (1, WlGo); (0, WlGo); (0, WlGo); (1, WlGo); (1, WlGo); (1, WlGo);
   (0, WlReply HttpExn); (0, WlHalt)].

Lemma writer_accounting_witness :
  exists w, writer_run (writer_init 2) demo_writers = Some w /\
    st_attempted (wl_stats w) =
      st_confirmed (wl_stats w) + st_failed (wl_stats w) + flights (wl_threads w) /\
    flights (wl_threads w) = 1.
Proof.
  eexists. split; [vm_compute; reflexivity|]. split; [|vm_compute; reflexivity].
  apply (writer_accounting 2 demo_writers). vm_compute. reflexivity.
Defined.

(** ** Id uniqueness *)

Lemma chaos_id_inj a b : chaos_id a = chaos_id b -> a = b.
Proof. unfold chaos_id. intros H. by simplify_eq. Qed.

(** With one thread, the recorded ids carry numbers below the one in use. *)
Definition ids_below (w : wlstate) (bound : nat) : Prop :=
  exists ns, st_confirmed_ids (wl_stats w) = chaos_id <$> ns /\ NoDup ns /\
    forall n, n ∈ ns -> n < bound.

Definition single_inv (w : wlstate) : Prop :=
  exists pc, wl_threads w = [pc] /\
  match pc with
  | WTop | WStop => ids_below w (wl_ctr w)
  | WNamed v => v = chaos_id (wl_ctr w) /\ ids_below w (wl_ctr w)
  | WLoaded v c => v = chaos_id c /\ c = wl_ctr w /\ ids_below w (wl_ctr w)
  | WStored v | WSent v => exists c, v = chaos_id c /\ wl_ctr w = S c /\ ids_below w c
  end.

Lemma ids_below_confirm w v c :
  v = chaos_id c -> ids_below w c ->
  ids_below (mkWL (S c) (record_confirmed (wl_stats w) v) [WTop]) (S c).
Proof.
  intros -> (ns & Hids & Hnd & Hlt). exists (ns ++ [c]). split_and!; simpl.
  - by rewrite Hids, fmap_app.
  - apply NoDup_app. split_and!; [done| |apply NoDup_singleton].
    intros x Hx Hx'. apply list_elem_of_singleton in Hx'. subst. apply Hlt in Hx. lia.
  - intros n [Hn|Hn%list_elem_of_singleton]%elem_of_app; [apply Hlt in Hn|]; lia.
Qed.

Lemma ids_below_weaken w w' b b' :
  st_confirmed_ids (wl_stats w') = st_confirmed_ids (wl_stats w) -> b <= b' ->
  ids_below w b -> ids_below w' b'.
Proof.
  intros He Hb (ns & ? & ? & Hlt). exists ns. split_and!; [congruence|done|].
  intros n Hn. apply Hlt in Hn. lia.
Qed.

Lemma single_step w t e w' : writer_step w t e = Some w' -> single_inv w -> single_inv w'.
Proof.
  intros H (pc & Hth & HI). unfold writer_step in H. rewrite Hth in H.
  destruct t; [|done]. simpl in H.
  destruct pc, e; simplify_eq/=; eexists; (split; [reflexivity|]); simpl.
  all: try (by eapply ids_below_weaken; [|apply Nat.le_refl|exact HI]).
  - split; [done|]. by eapply ids_below_weaken; [|apply Nat.le_refl|exact HI].
  - destruct HI as [-> HI]. split_and!; [done..|].
    by eapply ids_below_weaken; [|apply Nat.le_refl|exact HI].
  - destruct HI as (-> & -> & HI). exists (wl_ctr w). split_and!; [done..|].
    by eapply ids_below_weaken; [|apply Nat.le_refl|exact HI].
  - destruct HI as (c & -> & Hc & HI). exists c. split_and!; [done..|].
    by eapply ids_below_weaken; [|apply Nat.le_refl|exact HI].
  - destruct HI as (c & -> & Hc & HI). rewrite Hc.
    destruct h as [|st ?]; [|destruct (st =? 201)%Z]; simpl.
    1, 3: by eapply ids_below_weaken; [|apply Nat.le_succ_diag_r|exact HI].
    by apply ids_below_confirm.
Qed.

Lemma duplicate_id_count_NoDup s : NoDup (st_confirmed_ids s) -> duplicate_id_count s = 0.
Proof. intros H. unfold duplicate_id_count. rewrite size_list_to_set by done. lia. Qed.

(** Two writers that both name an id before either bumps the counter. *)
Definition race_sched : list (nat * wlevent) :=
  [(0, WlGo); (1, WlGo);            (* both read chaos-0 *)
   (0, WlGo); (0, WlGo); (0, WlGo); (0, WlReply (HttpResp 201%Z tt));
   (1, WlGo); (1, WlGo); (1, WlGo); (1, WlReply (HttpResp 201%Z tt))].

(** A single writer thread never confirms the same id twice. With two, the
    unlocked [id_counter] lets both confirm [chaos-0]: two confirmed writes are then
    one stored vector. *)
Theorem confirmed_ids_unique_single_writer :
  (forall sched w, writer_run (writer_init 1) sched = Some w ->
     NoDup (st_confirmed_ids (wl_stats w)) /\ duplicate_id_count (wl_stats w) = 0) /\
  (exists w, writer_run (writer_init 2) race_sched = Some w /\
     st_confirmed (wl_stats w) = 2 /\ duplicate_id_count (wl_stats w) = 1).
Proof.
  split.
  - intros sched w H.
    assert (single_inv w) as (pc & _ & HI).
    { refine (writer_run_ind single_inv _ _ _ single_step H _).
      exists WTop. split; [done|]. exists []. split_and!; [done|constructor|].
      intros n Hn. by apply not_elem_of_nil in Hn. }
    assert (exists b, ids_below w b) as (b & ns & Hids & Hnd & _)
      by (destruct pc; naive_solver).
    assert (NoDup (st_confirmed_ids (wl_stats w))).
    { rewrite Hids. apply NoDup_fmap_2; [|done]. intros x y. apply chaos_id_inj. }
    split; [done|]. by apply duplicate_id_count_NoDup.
  - eexists. split; [vm_compute; reflexivity|]. split; vm_compute; reflexivity.
Qed.

(** ** The validator *)

Definition primaries_of (shard : nat) (reps : list replica_stat) : nat :=
  length (List.filter rep_primary (filter (fun r => rep_shard r = shard) reps)).

Lemma elem_of_double_primaries node reps v :
  v ∈ double_primaries node reps <->
  exists s, v = DOUBLE_PRIMARY node s (primaries_of s reps) /\ 1 < primaries_of s reps.
Proof.
  unfold double_primaries, primaries_of. rewrite list_elem_of_omap. split.
  - intros ([s g] & Hin & Hv). simpl in Hv.
    apply group_by_elem in Hin. rewrite list_fmap_id in Hin. subst g.
    case_decide; simplify_eq. eauto.
  - intros (s & -> & Hgt).
    assert (s ∈ dkeys (group_by rep_shard id reps)) as Hk.
    { apply elem_of_group_by_keys.
      destruct (filter (fun r => rep_shard r = s) reps) as [|r l] eqn:E; [simpl in Hgt; lia|].
      assert (r ∈ filter (fun r => rep_shard r = s) reps) as Hr by (rewrite E; by left).
      apply list_elem_of_filter in Hr as [Hs Hr]. subst s. apply list_elem_of_fmap. eauto. }
    unfold dkeys in Hk. apply list_elem_of_fmap in Hk as ([s' g] & Heq & Hin).
    simpl in Heq. subst s'. exists (s, g). split; [done|].
    apply group_by_elem in Hin. rewrite list_fmap_id in Hin. subst g. simpl.
    by rewrite decide_True.
Qed.

(** A reply adds exactly these violations: a lost write when it is a 200 that is
    not degraded and counts fewer elements than were confirmed before the round, and
    one double primary per shard with more than one primary in it. Every 200 is
    counted as a check, a short degraded one as a dip; anything else changes nothing. *)
Theorem validate_reply_spec cb v node reply :
  match reply with
  | HttpResp 200%Z body =>
      let v' := validate_reply cb v (node, reply) in
      (forall x, x ∈ v_violations v' <->
         x ∈ v_violations v \/
         (exists total, sb_total body = Some total /\ sb_degraded body = false /\
            (total < Z.of_nat cb)%Z /\ x = LOST_WRITE node total (Z.of_nat cb)) \/
         (exists s, x = DOUBLE_PRIMARY node s (primaries_of s (sb_replicas body)) /\
            1 < primaries_of s (sb_replicas body))) /\
      v_checks v' = S (v_checks v) /\
      (v_dips v' = S (v_dips v) <->
         exists total, sb_total body = Some total /\ sb_degraded body = true /\
           (total < Z.of_nat cb)%Z)
  | _ => status_ok reply = false -> validate_reply cb v (node, reply) = v
  end.
Proof.
  assert (forall st (b : stats_body), status_ok (HttpResp st b) = false ->
            validate_reply cb v (node, HttpResp st b) = v) as Hno.
  { intros st b H. simpl in *. by rewrite H. }
  destruct reply as [|st body]; [done|].
  destruct (decide (st = 200%Z)) as [->|Hne].
  - cbv zeta. unfold validate_reply.
    pose proof (elem_of_double_primaries node (sb_replicas body)) as HD. revert HD.
    generalize (double_primaries node (sb_replicas body)) as dp. intros dp HD.
    rewrite Z.eqb_refl.
    destruct (sb_total body) as [total|]; [destruct (total <? Z.of_nat cb)%Z eqn:E;
      [destruct (sb_degraded body) eqn:Ed|]|]; cbn [v_violations v_checks v_dips]; breflect;
      (split_and!; [intros x; rewrite !elem_of_app, HD;
                    rewrite ?list_elem_of_singleton, ?elem_of_nil; naive_solver lia
                   | done | split; [intros; try lia|]; naive_solver lia]).
  - repeat (case_match; try apply Hno). by destruct Hne.
Qed.

(** The healthy cluster of the comment in [validator_loop]: a reply that claims full
    visibility counts every write confirmed before its request was sent, and shows
    at most one primary per shard. [asked] is the confirmed count at the request. *)
Fixpoint healthy (node_ids : list nat) (asked : nat) (h : hstate) (sched : list hevent) : Prop :=
  match sched with
  | [] => True
  | e :: s =>
      let asked' := match e with HAsk => st_confirmed (wl_stats (hs_w h)) | _ => asked end in
      match e with
      | HReply (HttpResp _ body) =>
          (forall total, sb_total body = Some total -> sb_degraded body = false ->
             (Z.of_nat asked <= total)%Z) /\
          (forall s, primaries_of s (sb_replicas body) <= 1)
      | _ => True
      end /\
      match hstep node_ids h e with
      | Some h' => healthy node_ids asked' h' s
      | None => True
      end
  end.

Definition snap_le (asked : nat) (h : hstate) : Prop :=
  match hs_pc h with
  | VRound cb _ => cb <= st_confirmed (wl_stats (hs_w h))
  | VWait cb _ _ => cb <= asked <= st_confirmed (wl_stats (hs_w h))
  | _ => True
  end.

Lemma healthy_reply_quiet cb v node body st :
  (forall total, sb_total body = Some total -> sb_degraded body = false ->
     (Z.of_nat cb <= total)%Z) ->
  (forall s, primaries_of s (sb_replicas body) <= 1) ->
  v_violations v = [] -> v_violations (validate_reply cb v (node, HttpResp st body)) = [].
Proof.
  intros Ht Hp Hv. simpl. destruct (st =? 200)%Z; [|done].
  assert (double_primaries node (sb_replicas body) = []) as Hd.
  { destruct (double_primaries node (sb_replicas body)) as [|x l] eqn:E; [done|].
    assert (x ∈ double_primaries node (sb_replicas body)) as Hx by (rewrite E; by left).
    apply elem_of_double_primaries in Hx as (s & _ & Hs). specialize (Hp s). lia. }
  destruct (sb_total body) as [total|]; [|simpl; by rewrite Hd, Hv].
  destruct (total <? Z.of_nat cb)%Z eqn:E, (sb_degraded body) eqn:Ed; simpl; rewrite ?Hd, ?Hv; try done.
  breflect. specialize (Ht _ eq_refl eq_refl). lia.
Qed.

Lemma healthy_step node_ids asked h e h' :
  hstep node_ids h e = Some h' ->
  healthy node_ids asked h [e] -> snap_le asked h -> v_violations (hs_v h) = [] ->
  snap_le (match e with HAsk => st_confirmed (wl_stats (hs_w h)) | _ => asked end) h' /\
  v_violations (hs_v h') = [].
Proof.
  unfold snap_le, hstep. intros Hs [Hh _] HI Hv.
  destruct e as [t we| | | |r|].
  - destruct (writer_step (hs_w h) t we) as [w'|] eqn:E; [|done]. simplify_eq/=.
    apply writer_step_mono in E. split; [|done]. destruct (hs_pc h); simpl; lia.
  - destruct (hs_pc h); by simplify_eq/=.
  - destruct (hs_pc h); by simplify_eq/=.
  - destruct (hs_pc h) as [|cb [|n todo]| |]; by simplify_eq/=.
  - destruct (hs_pc h) as [|cb todo|cb n todo|] eqn:Epc; simplify_eq/=.
    split; [lia|]. destruct r as [|st body]; [done|]. destruct Hh as [Ht Hp].
    apply healthy_reply_quiet; [|done..]. intros total H1 H2. specialize (Ht _ H1 H2). lia.
  - destruct (hs_pc h) as [|cb [|n todo]| |]; by simplify_eq/=.
Qed.

(** C6. Reading the confirmed count before querying raises no false alarm: against a
    healthy cluster, under every interleaving with the writers, the validator
    reports nothing. *)
Theorem validator_no_false_alarm node_ids writers sched h :
  hrun node_ids (hinit writers) sched = Some h ->
  healthy node_ids 0 (hinit writers) sched ->
  v_violations (hs_v h) = [].
Proof.
  intros Hr Hh.
  assert (forall asked h0, hrun node_ids h0 sched = Some h -> healthy node_ids asked h0 sched ->
            snap_le asked h0 -> v_violations (hs_v h0) = [] -> v_violations (hs_v h) = []) as Hgen.
  { clear Hr Hh. induction sched as [|e s IH]; intros asked h0 Hr Hh HI Hv; simpl in Hr;
      [by simplify_eq|].
    destruct (hstep node_ids h0 e) as [h1|] eqn:E; [|done].
    destruct Hh as [He Hs]. rewrite E in Hs.
    destruct (healthy_step node_ids asked h0 e h1) as [HI' Hv']; [done| |done..|eauto].
    split; [done|]. by rewrite E. }
  by eapply (Hgen 0 (hinit writers)).
Qed.

(** A round during which a write is confirmed between the snapshot and the reply. *)
Definition quiet_sched : list hevent :=
  [HW 0 WlGo; HW 0 WlGo; HW 0 WlGo; HW 0 WlGo; HSnap; HAsk;
   HW 0 (WlReply (HttpResp 201%Z tt));
   HReply (HttpResp 200%Z (mkBody (Some 0%Z) false [mkRep 0 true; mkRep 0 false]));
   HRoundEnd].

Lemma validator_no_false_alarm_witness :
  exists h, hrun [0] (hinit 1) quiet_sched = Some h /\ v_violations (hs_v h) = [] /\
    st_confirmed (wl_stats (hs_w h)) = 1.
Proof.
  eexists. split; [vm_compute; reflexivity|]. split; [|reflexivity].
  apply (validator_no_false_alarm [0] 1 quiet_sched); [reflexivity|].
  simpl. split_and!; try done.
  - intros total [= <-] _. lia.
  - intros [|s]; vm_compute; lia.
Defined.

(** ** The readiness waits *)

Lemma wait_ready_true {B} deadline (rounds : list (wround B)) pending n :
  wait_for_coordinators_ready deadline rounds pending = Some true -> n ∈ pending ->
  exists r, r ∈ rounds /\ (wr_now r < deadline)%Q /\ status_ok (wr_reply r n) = true.
Proof.
  revert pending. induction rounds as [|r rounds IH]; intros pending H Hn; simpl in H; [done|].
  destruct (Qltb (wr_now r) deadline) eqn:Et; simpl in H;
    [destruct (length pending =? 0) eqn:El; simpl in H|].
  - apply Nat.eqb_eq, length_zero_iff_nil in El. subst. by apply not_elem_of_nil in Hn.
  - destruct (status_ok (wr_reply r n)) eqn:Es.
    + exists r. split_and!; [by left|qreflect; done|done].
    + destruct (IH _ H) as (r' & ? & ?); [apply elem_of_bfilter; by rewrite Es|].
      exists r'. split; [by right|done].
  - injection H as H. apply Nat.eqb_eq, length_zero_iff_nil in H. subst.
    by apply not_elem_of_nil in Hn.
Qed.

Lemma wait_ready_false {B} deadline (rounds : list (wround B)) pending :
  wait_for_coordinators_ready deadline rounds pending = Some false ->
  exists n r, n ∈ pending /\ r ∈ rounds /\ (deadline <= wr_now r)%Q.
Proof.
  revert pending. induction rounds as [|r rounds IH]; intros pending H; simpl in H; [done|].
  destruct (Qltb (wr_now r) deadline) eqn:Et; simpl in H;
    [destruct (length pending =? 0) eqn:El; simpl in H|].
  - injection H as H. congruence.
  - apply IH in H as (n & r' & Hn & Hr' & Hd). apply elem_of_bfilter in Hn as [Hn _].
    exists n, r'. split_and!; [done|by right|done].
  - destruct pending as [|n pending]; [done|]. exists n, r.
    split_and!; [by left|by left|]. qreflect. done.
Qed.

Lemma wait_ready_terminates {B} deadline (rounds : list (wround B)) pending r :
  r ∈ rounds -> (deadline <= wr_now r)%Q ->
  exists b, wait_for_coordinators_ready deadline rounds pending = Some b.
Proof.
  revert pending. induction rounds as [|r' rounds IH]; intros pending Hr Hd;
    [by apply not_elem_of_nil in Hr|]. simpl.
  destruct (Qltb (wr_now r') deadline && negb (length pending =? 0)) eqn:E; [|eauto].
  apply elem_of_cons in Hr as [->|Hr]; [|eauto].
  breflect. qreflect. lra.
Qed.

(** [wait_for_coordinators_ready] answers once the clock passes the deadline. It
    answers true only if every coordinator replied 200 before the deadline, and
    false only after the deadline with a coordinator still pending. *)
Theorem wait_for_coordinators_ready_spec (deadline : Q) (rounds : list (wround unit)) pending :
  (forall r, r ∈ rounds -> (deadline <= wr_now r)%Q ->
     exists b, wait_for_coordinators_ready deadline rounds pending = Some b) /\
  (wait_for_coordinators_ready deadline rounds pending = Some true ->
     forall n, n ∈ pending ->
     exists r, r ∈ rounds /\ (wr_now r < deadline)%Q /\ status_ok (wr_reply r n) = true) /\
  (wait_for_coordinators_ready deadline rounds pending = Some false ->
     exists n r, n ∈ pending /\ r ∈ rounds /\ (deadline <= wr_now r)%Q).
Proof.
  split_and!.
  - intros r. apply wait_ready_terminates.
  - intros H n. by apply wait_ready_true.
  - apply wait_ready_false.
Qed.

Lemma wait_for_raft_leader_sound deadline rounds node_ids n :
  wait_for_raft_leader deadline rounds node_ids = Some (Some n) ->
  n ∈ node_ids /\ exists r, r ∈ rounds /\ (wr_now r < deadline)%Q /\
    wr_reply r n = HttpResp 200%Z "leader"%string.
Proof.
  induction rounds as [|r rounds IH]; simpl; [done|].
  destruct (Qltb (wr_now r) deadline) eqn:Et; [|done].
  destruct (List.find _ node_ids) as [m|] eqn:Ef.
  - intros [= ->]. apply List.find_some in Ef as [Hin Hl].
    split; [by apply list_elem_of_In|]. exists r. split_and!; [by left|by qreflect|].
    unfold is_leader in Hl. destruct (wr_reply r n) as [|st role]; [done|].
    breflect. by subst.
  - intros H. apply IH in H as (? & r' & ? & ?). split; [done|].
    exists r'. split; [by right|done].
Qed.

(** ** The chaos loop *)

Definition kills_of (name : string) (events : list chaos_event) : nat :=
  length (List.filter (fun e => bool_decide (ce_target e = name)) events).
Definition crashes_of (name : string) (events : list chaos_event) : nat :=
  length (List.filter (fun e => bool_decide (ce_target e = name) && negb (ce_alive e)) events).

Lemma mp_kill_counts p b :
  mp_restart_count (mp_kill p b) = mp_restart_count p /\
  mp_crash_count (mp_kill p b) = mp_crash_count p.
Proof. unfold mp_kill. by destruct (mp_proc p) as [[]|]. Qed.

(** The counters of every process agree with the events already logged. *)
Definition counted (base procs : list (string * mproc)) (events : list chaos_event) : Prop :=
  dkeys procs = dkeys base /\
  forall name p0, dget name base = Some p0 ->
  exists p, dget name procs = Some p /\
    mp_restart_count p = mp_restart_count p0 + kills_of name events /\
    mp_crash_count p = mp_crash_count p0 + crashes_of name events.

Lemma dkeys_dset_present {K V} `{EqDecision K} (k : K) (v v0 : V) d :
  dget k d = Some v0 -> dkeys (dset k v d) = dkeys d.
Proof.
  intros H. rewrite dkeys_dset, decide_True; [done|].
  destruct (decide (k ∈ dkeys d)) as [|Hn]; [done|]. apply dget_None in Hn. congruence.
Qed.

Lemma counted_restart base procs events i p :
  counted base procs events -> dget (ci_target i) procs = Some p ->
  counted base (dset (ci_target i) (mp_start (mp_kill p (ci_reaped i)) (ci_up i)).1 procs) events.
Proof.
  intros [Hk HC] Hg. split; [by erewrite dkeys_dset_present|].
  intros name p0 H0. destruct (HC _ _ H0) as (q & Hq & Hr & Hc).
  rewrite dget_dset. case_decide as Hd; [|eauto]. subst name.
  rewrite Hg in Hq. simplify_eq. eexists. split; [done|]. simpl.
  destruct (mp_kill_counts q (ci_reaped i)) as [-> ->]. done.
Qed.

Lemma counted_event base procs events i p rc :
  counted base procs events -> dget (ci_target i) procs = Some p ->
  counted base
    (dset (ci_target i) (mp_count (mp_start (mp_kill p (ci_reaped i)) (ci_up i)).1 (ci_up i)) procs)
    (events ++ [mkCE (ci_t0 i) (ci_target i) (ci_up i) (ci_down_for i) rc]).
Proof.
  intros [Hk HC] Hg. split; [by erewrite dkeys_dset_present|].
  intros name p0 H0. destruct (HC _ _ H0) as (q & Hq & Hr & Hc).
  unfold kills_of, crashes_of. rewrite !List.filter_app, !length_app. simpl.
  rewrite dget_dset. destruct (mp_kill_counts p (ci_reaped i)) as [Ek Ec].
  case_decide as Hd.
  - subst name. rewrite Hg in Hq. simplify_eq. rewrite bool_decide_true by done.
    eexists. split; [done|]. simpl. rewrite Ek, Ec. unfold kills_of, crashes_of in *.
    destruct (ci_up i); simpl; lia.
  - rewrite bool_decide_false by congruence. exists q.
    unfold kills_of, crashes_of in *. simpl. split_and!; [done|lia..].
Qed.

Lemma chaos_loop_counted ins base procs events procs' events' :
  counted base procs events -> chaos_loop ins procs events = Ok (procs', events') ->
  counted base procs' events'.
Proof.
  revert procs events. induction ins as [|i ins IH]; intros procs events HC H; simpl in H;
    [by simplify_eq|].
  destruct (ci_stop_head i); [by simplify_eq|].
  destruct (ci_stop_slept i); [by simplify_eq|].
  destruct (dget (ci_target i) procs) as [p|] eqn:Eg; [|done].
  destruct (ci_stop_down i).
  - simplify_eq. by apply counted_restart.
  - eapply IH; [|exact H]. by apply counted_event.
Qed.

Lemma counted_refl base : counted base base [].
Proof.
  split; [done|]. intros name p Hp. exists p. unfold kills_of, crashes_of. simpl.
  split_and!; [done|lia..].
Qed.

(** The kill loop keeps its books: drawing targets among the managed processes it
    never raises, keeps the same processes, and raises each process's restart
    counter by its number of logged events and its crash counter by those of them
    whose child did not survive the restart. *)
Theorem chaos_loop_accounting ins procs :
  (forall i, i ∈ ins -> ci_target i ∈ dkeys procs) ->
  exists procs' events, chaos_loop ins procs [] = Ok (procs', events) /\
    dkeys procs' = dkeys procs /\
    forall name p, dget name procs = Some p ->
    exists p', dget name procs' = Some p' /\
      mp_restart_count p' = mp_restart_count p + kills_of name events /\
      mp_crash_count p' = mp_crash_count p + crashes_of name events.
Proof.
  intros Hin.
  assert (forall l procs0 ev, (forall i, i ∈ l -> ci_target i ∈ dkeys procs0) ->
            exists r, chaos_loop l procs0 ev = Ok r) as Htot.
  { clear. induction l as [|i l IH]; intros procs0 ev H; simpl; [eauto|].
    destruct (ci_stop_head i); [eauto|]. destruct (ci_stop_slept i); [eauto|].
    destruct (dget (ci_target i) procs0) as [p|] eqn:Eg.
    - destruct (ci_stop_down i); [eauto|]. apply IH.
      erewrite dkeys_dset_present by done. intros j Hj. apply H. by right.
    - apply dget_None in Eg. exfalso. apply Eg, H. by left. }
  destruct (Htot ins procs [] Hin) as [[procs' events] Hr].
  exists procs', events. split; [done|].
  exact (chaos_loop_counted _ _ _ _ _ _ (counted_refl procs) Hr).
Qed.

Definition demo_chaos : list chaos_in :=
  [mkCI false false "shard-0-1" 1 true (3#2) false true;
   mkCI false false "coordinator-2" 5 true (4#1) false false;
   mkCI false true "shard-0-0" 9 true 1 false true].

Lemma chaos_loop_accounting_witness :
  exists procs' events,
    chaos_loop demo_chaos (build_processes "run") [] = Ok (procs', events) /\
    dkeys procs' = dkeys (build_processes "run") /\ length events = 2.
Proof.
  destruct (chaos_loop_accounting demo_chaos (build_processes "run")) as (procs' & ev & H & Hk & _).
  { apply Forall_forall. decide_now. }
  exists procs', ev. split_and!; [done|done|]. vm_compute in H. by simplify_eq.
Defined.

(** ** [main] *)

Lemma kill_all_dead reaped procs :
  (forall n, n ∈ dkeys procs -> reaped n = true) ->
  forall np, np ∈ kill_all reaped procs -> mp_is_alive np.2 = false.
Proof.
  intros Hr np Hin. unfold kill_all in Hin.
  apply list_elem_of_fmap in Hin as ([n p] & -> & Hin). simpl.
  unfold mp_kill, mp_is_alive. destruct (mp_proc p) as [[]|] eqn:E; simpl; rewrite ?E; try done.
  rewrite Hr; [done|]. apply list_elem_of_fmap. by exists (n, p).
Qed.

Lemma final_readback_ok l : (final_readback l).1 = true <-> Exists (fun h => status_ok h = true) l.
Proof.
  induction l as [|[|st total] l IH]; simpl.
  - split; [done|intros H; inversion H].
  - rewrite IH, Exists_cons. simpl. naive_solver.
  - rewrite Exists_cons. simpl. destruct (st =? 200)%Z; simpl; [tauto|rewrite IH; naive_solver].
Qed.

Lemma exit_code_zero n ok : exit_code n ok = 0 <-> n = 0 /\ ok = true.
Proof. unfold exit_code. destruct n, ok; simpl; naive_solver. Qed.

(** [main] exits with 0 or 1. It exits with 0 only if the validator saw no
    violation and one of the ten read-backs answered 200, and then, when every kill
    is reaped, no child is left running. *)
Theorem main_exit i o :
  main i = Some o ->
  (mo_exit o = 0 \/ mo_exit o = 1) /\
  (mo_exit o = 0 ->
     (exists h, hrun (seq 0 NUM_COORDINATORS) (hinit (mi_writers i)) (mi_sched i) = Some h /\
        v_violations (hs_v h) = []) /\
     (exists a, a < 10 /\ status_ok (mi_final i a) = true) /\
     ((forall n, mi_reaped i n = true) ->
        forall np, np ∈ mo_procs o -> mp_is_alive np.2 = false)).
Proof.
  unfold main. intros H.
  destruct (mi_bins_exist i); cbn [negb] in H; [|simplify_eq/=; split; [by right|done]]. cbv zeta in H.
  do 2 match type of H with context [start_all ?n ?u ?p] =>
    destruct (start_all n u p) as [? []]; cbn [negb] in H; [|simplify_eq/=; split; [by right|done]] end.
  apply bind_Some in H as ([] & _ & H); cbn [negb] in H; [|simplify_eq/=; split; [by right|done]].
  apply bind_Some in H as ([leader|] & _ & H); [|simplify_eq/=; split; [by right|done]].
  apply bind_Some in H as (h & Hh & H).
  destruct (chaos_loop _ _ _) as [[p3 ev]|]; [|done].
  apply (inj Some) in H. subst o. cbn [mo_exit mo_procs].
  split; [unfold exit_code; destruct (_ || _); auto|].
  intros [Hv Hf]%exit_code_zero. split_and!.
  - exists h. split; [done|]. by apply length_zero_iff_nil.
  - apply final_readback_ok, Exists_exists in Hf as (x & Hx & Hs).
    apply list_elem_of_fmap in Hx as (a & -> & Ha%elem_of_seq). exists a. split; [lia|done].
  - intros Hr. apply kill_all_dead. auto.
Qed.

(** A complete run: both waits succeed at once, one write is confirmed, no chaos. *)
Definition demo_main : main_in := {|
  mi_bins_exist := true; mi_run_dir := "run"; mi_writers := 1;
  mi_up := fun _ => true;
  mi_ready_deadline := 20; mi_ready := [mkRound 0 (fun _ => HttpResp 200%Z tt);
                                        mkRound 1 (fun _ => HttpExn)];
  mi_leader_deadline := 15; mi_leader := [mkRound 0 (fun _ => HttpResp 200%Z "leader"%string)];
  mi_sched := [HW 0 WlGo; HW 0 WlGo; HW 0 WlGo; HW 0 WlGo;
               HW 0 (WlReply (HttpResp 201%Z tt)); HW 0 WlHalt; HHalt];
  mi_chaos := [];
  mi_up_again := fun _ => true;
  mi_final := fun _ => HttpResp 200%Z (Some 0%Z);
  mi_reaped := fun _ => true |}.

Lemma main_exit_witness :
  exists o, main demo_main = Some o /\ mo_exit o = 0 /\
    forall np, np ∈ mo_procs o -> mp_is_alive np.2 = false.
Proof.
  eexists. split; [vm_compute; reflexivity|]. split; [reflexivity|].
  match goal with |- forall np, np ∈ mo_procs ?o -> _ =>
    exact (proj2 (proj2 (proj2 (main_exit demo_main o eq_refl) eq_refl)) (fun _ => eq_refl)) end.
Defined.

(** The exit status does not carry the third documented invariant: a run whose
    final read-back counts fewer elements than were confirmed, and which prints
    [final_recovery_ok : False], exits with 0. And when a process fails to start, the
    program exits without tearing down the children it has already started. *)
Theorem main_exit_gaps :
  (exists o, main demo_main = Some o /\ mo_recovery o = Some false /\ mo_exit o = 0) /\
  (exists i o np, main i = Some o /\ mo_exit o = 1 /\ np ∈ mo_procs o /\
     mp_is_alive np.2 = true).
Proof.
  split.
  - eexists. split; [vm_compute; reflexivity|]. split; reflexivity.
  - set (i := {| mi_bins_exist := true; mi_run_dir := "run"; mi_writers := 1;
                 mi_up := fun n => negb (bool_decide (n = "shard-0-1"%string));
                 mi_ready_deadline := 20; mi_ready := []; mi_leader_deadline := 15;
                 mi_leader := []; mi_sched := []; mi_chaos := [];
                 mi_up_again := fun _ => true; mi_final := fun _ => HttpExn;
                 mi_reaped := fun _ => true |}).
    exists i. eexists _, _. split; [vm_compute; reflexivity|]. split; [reflexivity|].
    split; [by left|reflexivity].
Qed.

(** ** Topology *)

(** The topology is sound: every port is distinct, each shard starts with exactly
    one primary, the one the configuration names first, and the managed processes are
    nine with distinct names. *)
Theorem topology_sound run_dir :
  NoDup ((sc_port <$> shard_configs) ++ (raft_peers.*2)
         ++ (coord_http_port <$> seq 0 NUM_COORDINATORS)) /\
  Forall (fun s => sc_replica <$> List.filter (fun c => Nat.eqb (sc_shard c) s && sc_primary c)
                     shard_configs = [0]) (seq 0 NUM_SHARDS) /\
  NoDup (dkeys (build_processes run_dir)) /\ length (build_processes run_dir) = 9.
Proof.
  split_and!; [decide_now|decide_now| |].
  - replace (dkeys (build_processes run_dir)) with (dkeys (build_processes "run"))
      by (vm_compute; reflexivity). decide_now.
  - vm_compute. reflexivity.
Qed.

(** ** The printed breakdown *)

(** [by_target] counts each target's events and, with the crash counter, accounts for
    every one of them. *)
Lemma by_target_spec events :
  NoDup (dkeys (by_target events)) /\
  (forall t, default 0 (dget t (by_target events)) =
     length (filter (fun e => ce_target e = t) events)) /\
  crash_on_restart events <= length events.
Proof.
  split_and!; [| |apply List.filter_length_le].
  - unfold by_target. induction events as [|e es IH] using rev_ind; [constructor|].
    rewrite foldl_app. simpl. by apply dset_NoDup.
  - intros t. unfold by_target. induction events as [|e es IH] using rev_ind; [done|].
    rewrite foldl_app, filter_app, length_app, <- IH. simpl. rewrite dget_dset, filter_cons.
    destruct (decide (t = ce_target e)) as [->|Hne].
    + rewrite decide_True by done. simpl. lia.
    + rewrite decide_False by congruence. simpl. lia.
Qed.
