(* ===== verification/IndexGate.v ===== *)
(** * The Qdrant indexing gate

    [research/cross_system_replication/qdrant_index_gate.py]: the pure decision over
    the poll history and the waiting loop around it. Clocks and HTTP replies are
    inputs; [res] is the ["result"] object of a 200 reply. *)

From stdpp Require Import base list strings.
From Stdlib Require Import QArith Qminmax Lqa ZArith Lia.
From S2P Require Import Prelude PyFloat ChaosHarness.

Local Open Scope nat_scope.

(** ** [poll_index_state] *)

Record coll := mkColl {
  co_indexed : option Z;
  co_points : option Z;
  co_segments : option Z;
  co_status : option string;
  co_optimizer : option string;
}.

Record row := mkRow {
  r_node : nat;
  r_reachable : bool;
  r_coll : coll;
}.

Definition no_coll : coll := mkColl None None None None None.

Definition poll_index_state (node_ids : list nat) (reply : nat -> http coll) : list row :=
  (fun n => match reply n with
            | HttpResp st res =>
                if Z.eqb st 200 then mkRow n true res else mkRow n false no_coll
            | HttpExn => mkRow n false no_coll
            end) <$> node_ids.

(** ** [node_fraction], [poll_min_fraction] *)

Definition node_fraction (r : row) : Q :=
  if negb (r_reachable r) then 0
  else
    match co_indexed (r_coll r), co_points (r_coll r) with
    | Some idx, Some pts =>
        if Z.eqb pts 0 then 0 else Qmin 1 (Qmax 0 (inject_Z idx / inject_Z pts))
    | _, _ => 0
    end.

Definition poll_min_fraction (poll : list row) : Q :=
  match poll with
  | [] => 0
  | r :: rs => foldl (fun m r' => Qmin m (node_fraction r')) (node_fraction r) rs
  end.

(** ** [gate_decision] *)

Inductive reason : Type :=
| RNone
| RNoPolls
| RFewPolls (have need : nat)
| REmptyPoll (back : nat)
| RUnreachable (node : nat)
| RStatus (node : nat) (status : option string)
| RFraction (node : nat) (f threshold : Q).

(** The first failing condition of one row, of one poll, of the window. *)
Definition row_reason (threshold : Q) (r : row) : option reason :=
  if negb (r_reachable r) then Some (RUnreachable (r_node r))
  else if negb (bool_decide (co_status (r_coll r) = Some "green"%string))
  then Some (RStatus (r_node r) (co_status (r_coll r)))
  else
    let f := node_fraction r in
    if Qltb f threshold then Some (RFraction (r_node r) f threshold) else None.

Fixpoint poll_reason (threshold : Q) (poll : list row) : option reason :=
  match poll with
  | [] => None
  | r :: rs => match row_reason threshold r with
               | Some e => Some e
               | None => poll_reason threshold rs
               end
  end.

Fixpoint window_reason (threshold : Q) (back : nat) (polls : list (list row)) : option reason :=
  match polls with
  | [] => None
  | poll :: rest =>
      if Nat.eqb (length poll) 0 then Some (REmptyPoll back)
      else match poll_reason threshold poll with
           | Some e => Some e
           | None => window_reason threshold (back - 1) rest
           end
  end.

Definition gate_decision (history : list (list row)) (tol : Q) (consecutive : Z)
    : result (bool * Q * reason) :=
  if (consecutive <? 1)%Z then Raise ValueError
  else
    match last history with
    | None => Ok (false, 0%Q, RNoPolls)
    | Some lst =>
        let last_min := poll_min_fraction lst in
        let c := Z.to_nat consecutive in
        if length history <? c then Ok (false, last_min, RFewPolls (length history) c)
        else
          match window_reason (1 - tol) c (drop (length history - c) history) with
          | Some e => Ok (false, last_min, e)
          | None => Ok (true, last_min, RNone)
          end
    end.

(** ** [wait_for_index_gate] *)

Record gate_record := mkGate {
  g_closed : bool;
  g_polls : option nat;
  g_min_fraction : Q;
  g_reason : reason;
  g_per_node : list (nat * (coll * Q * bool));
}.

Definition push_history (consecutive : Z) (history : list (list row)) (p : list row)
    : list (list row) :=
  let h := history ++ [p] in
  if (Z.max consecutive 3 <? Z.of_nat (length h))%Z then drop 1 h else h.

Definition per_node_at_end (poll : list row) : list (nat * (coll * Q * bool)) :=
  foldl (fun d r => dset (r_node r) (r_coll r, round_nd 6 (node_fraction r), r_reachable r) d)
    [] poll.

Definition gate_result (closed : bool) (last_min : Q) (why : reason)
    (history : list (list row)) : gate_record :=
  mkGate closed (if closed then Some (length history) else None) (round_nd 6 last_min) why
    (per_node_at_end (default [] (last history))).

(** Each round is one poll and the time elapsed after its decision; [Ok None]: the
    rounds given ran out before the loop left. *)
Fixpoint wait_for_index_gate (tol : Q) (consecutive : Z) (timeout_s : Q)
    (rounds : list (list row * Q)) (history : list (list row)) : result (option gate_record) :=
  match rounds with
  | [] => Ok None
  | (p, elapsed) :: rounds' =>
      let history := push_history consecutive history p in
      match gate_decision history tol consecutive with
      | Raise e => Raise e
      | Ok (closed, last_min, why) =>
          if closed then Ok (Some (gate_result true last_min why history))
          else if Qle_bool timeout_s elapsed
          then Ok (Some (gate_result false last_min why history))
          else wait_for_index_gate tol consecutive timeout_s rounds' history
      end
  end.

(** * Properties *)

(** ** The decision *)

(** An indexed replica, as the gate's contract words it. *)
Definition row_indexed (tol : Q) (r : row) : Prop :=
  r_reachable r = true /\ co_status (r_coll r) = Some "green"%string /\
  (1 - tol <= node_fraction r)%Q.

Definition poll_indexed (tol : Q) (p : list row) : Prop :=
  p <> [] /\ forall r, r ∈ p -> row_indexed tol r.

Lemma row_reason_None tol r : row_reason (1 - tol) r = None <-> row_indexed tol r.
Proof.
  unfold row_reason, row_indexed. destruct (r_reachable r); simpl; [|naive_solver].
  destruct (bool_decide (co_status (r_coll r) = Some "green"%string)) eqn:Es; simpl; breflect;
    [|naive_solver].
  destruct (Qltb (node_fraction r) (1 - tol)) eqn:Ef; qreflect.
  - split; [done|]. intros (_ & _ & H). lra.
  - done.
Qed.

Lemma poll_reason_None tol p :
  poll_reason (1 - tol) p = None <-> forall r, r ∈ p -> row_indexed tol r.
Proof.
  induction p as [|r p IH]; simpl.
  - split; [|done]. intros _ r Hr. by apply not_elem_of_nil in Hr.
  - destruct (row_reason (1 - tol) r) eqn:E.
    + split; [done|]. intros H. specialize (H r ltac:(by left)).
      apply row_reason_None in H. congruence.
    + rewrite IH. apply row_reason_None in E. split; intros H r' Hr.
      * apply elem_of_cons in Hr as [->|Hr]; auto.
      * apply H. by right.
Qed.

Lemma window_reason_None tol back w :
  window_reason (1 - tol) back w = None <-> Forall (poll_indexed tol) w.
Proof.
  revert back. induction w as [|p w IH]; intros back; simpl; [by split|].
  rewrite Forall_cons. unfold poll_indexed at 1.
  destruct (length p =? 0) eqn:El; breflect.
  - apply length_zero_iff_nil in El. naive_solver.
  - assert (p <> []) by (by intros ->).
    destruct (poll_reason (1 - tol) p) eqn:E.
    + split; [done|]. intros [[_ Hp] _]. pose proof (proj2 (poll_reason_None tol p) Hp). congruence.
    + rewrite IH. pose proof (proj1 (poll_reason_None tol p) E). naive_solver.
Qed.

Lemma poll_reason_RNone t p : poll_reason t p <> Some RNone.
Proof.
  induction p as [|r p IH]; simpl; [done|]. unfold row_reason.
  repeat case_match; congruence.
Qed.

Lemma window_reason_RNone t back w : window_reason t back w <> Some RNone.
Proof.
  revert back. induction w as [|p w IH]; intros back; simpl; [done|].
  destruct (length p =? 0); [done|].
  destruct (poll_reason t p) eqn:E; [|auto]. intros [= ->]. by apply poll_reason_RNone in E.
Qed.

Lemma last_Some_nonempty {A} (l : list A) : l <> [] -> exists x, last l = Some x.
Proof. intros H. destruct (last l) eqn:E; [eauto|]. by apply last_None in E. Qed.

Lemma gate_decision_closed history tol consecutive :
  (1 <= consecutive)%Z ->
  exists closed m why, gate_decision history tol consecutive = Ok (closed, m, why) /\
    (closed = true <->
       (consecutive <= Z.of_nat (length history))%Z /\
       Forall (poll_indexed tol) (drop (length history - Z.to_nat consecutive) history)) /\
    (closed = true <-> why = RNone).
Proof.
  intros Hc. unfold gate_decision. destruct (consecutive <? 1)%Z eqn:E; breflect; [lia|].
  destruct history as [|p0 h0] eqn:Eh.
  { simpl. eexists _, _, _. split; [done|]. split; [|done]. split; [done|]. simpl. lia. }
  rewrite <- Eh in *. destruct (last_Some_nonempty history) as [lst ->]; [by subst|].
  destruct (length history <? Z.to_nat consecutive) eqn:El; breflect.
  { eexists _, _, _. split; [done|]. split; [|done]. split; [done|lia]. }
  destruct (window_reason _ _ _) as [e|] eqn:Ew; eexists _, _, _; (split; [done|]).
  - split; split; try done.
    + intros [_ HF]. apply (window_reason_None tol (Z.to_nat consecutive)) in HF. congruence.
    + intros ->. by apply window_reason_RNone in Ew.
  - apply window_reason_None in Ew. split; [|done]. split; [|done]. intros _. split; [lia|done].
Qed.

Lemma node_fraction_unit r : (0 <= node_fraction r <= 1)%Q.
Proof.
  unfold node_fraction. repeat case_match; try lra. split.
  - apply Q.min_glb; [lra|apply Q.le_max_l].
  - apply Q.le_min_l.
Qed.

Lemma fraction_one r :
  (1 <= node_fraction r)%Q <->
  r_reachable r = true /\ exists idx pts, co_indexed (r_coll r) = Some idx /\
    co_points (r_coll r) = Some pts /\ pts <> 0%Z /\ (1 <= inject_Z idx / inject_Z pts)%Q.
Proof.
  unfold node_fraction. destruct (r_reachable r); simpl; [|split; [intros; lra|naive_solver]].
  destruct (co_indexed (r_coll r)) as [idx|], (co_points (r_coll r)) as [pts|];
    try (split; [intros; lra|naive_solver]).
  destruct (pts =? 0)%Z eqn:E; breflect; [split; [intros; lra|naive_solver]|].
  split.
  - intros H. split; [done|]. exists idx, pts. split_and!; [done..|].
    apply Q.min_glb_iff in H as [_ H]. apply Q.max_le_iff in H as [H|H]; [lra|done].
  - intros (_ & i & p & [= <-] & [= <-] & _ & H).
    apply Q.min_glb; [lra|]. apply Q.max_le_iff. by right.
Qed.

(** The gate raises only for a non-positive [consecutive]; otherwise it closes
    exactly when there are that many polls and each of the last [consecutive] is
    non-empty with every node reachable, green and indexed to at least [1 - tol]. At
    the default tolerance 0 that means no node without points, or with fewer indexed
    vectors than points, can be in them. *)
Theorem gate_decision_spec history tol consecutive :
  (gate_decision history tol consecutive = Raise ValueError <-> (consecutive < 1)%Z) /\
  ((1 <= consecutive)%Z ->
   exists closed m why, gate_decision history tol consecutive = Ok (closed, m, why) /\
     (closed = true <->
        (consecutive <= Z.of_nat (length history))%Z /\
        Forall (poll_indexed tol) (drop (length history - Z.to_nat consecutive) history)) /\
     (closed = true <-> why = RNone)) /\
  (forall r, row_indexed 0 r -> exists idx pts, co_indexed (r_coll r) = Some idx /\
     co_points (r_coll r) = Some pts /\ pts <> 0%Z /\ (1 <= inject_Z idx / inject_Z pts)%Q).
Proof.
  split_and!.
  - unfold gate_decision. destruct (consecutive <? 1)%Z eqn:E; breflect; [done|].
    split; [repeat case_match; done|lia].
  - apply gate_decision_closed.
  - intros r (_ & _ & H). apply fraction_one. lra.
Qed.

(** ** The history cap *)

Lemma push_history_window consecutive full history p :
  (1 <= consecutive)%Z -> history `suffix_of` full ->
  (Z.max consecutive 3 <= Z.of_nat (length history))%Z \/ history = full ->
  let h := push_history consecutive history p in
  h `suffix_of` full ++ [p] /\
  ((Z.max consecutive 3 <= Z.of_nat (length h))%Z \/ h = full ++ [p]).
Proof.
  intros Hc [pre Hsuf] Hlen. unfold push_history.
  destruct (_ <? _)%Z eqn:E; breflect; rewrite length_app in E; simpl in E.
  - destruct history as [|x history]; [simpl in E; lia|].
    change (drop 1 ((x :: history) ++ [p])) with (history ++ [p]). split.
    + exists (pre ++ [x]). rewrite Hsuf, <- !app_assoc. done.
    + left. rewrite length_app. simpl in *. lia.
  - split; [exists pre; by rewrite Hsuf, app_assoc|].
    destruct Hlen as [Hlen| ->]; [lia|by right].
Qed.

(** Deciding on a long enough suffix of the history is deciding on all of it. *)
Lemma gate_decision_suffix full history tol consecutive c m why :
  history `suffix_of` full ->
  (Z.max consecutive 3 <= Z.of_nat (length history))%Z \/ history = full ->
  gate_decision history tol consecutive = Ok (c, m, why) ->
  gate_decision full tol consecutive = Ok (c, m, why).
Proof.
  intros [pre Hf] [Hlen|Heq]; [subst full|by subst history]. unfold gate_decision.
  destruct (consecutive <? 1)%Z eqn:Ec; [done|]. breflect.
  destruct (last_Some_nonempty history) as [lst Hl].
  { intros ->. simpl in Hlen. lia. }
  rewrite last_app, Hl, length_app.
  replace (length history <? Z.to_nat consecutive) with false by (symmetry; apply Nat.ltb_ge; lia).
  replace (length pre + length history <? Z.to_nat consecutive) with false
    by (symmetry; apply Nat.ltb_ge; lia).
  rewrite drop_app_ge by lia.
  by replace (length pre + length history - Z.to_nat consecutive - length pre)
    with (length history - Z.to_nat consecutive) by lia.
Qed.

Lemma gate_decision_total history tol consecutive :
  (1 <= consecutive)%Z -> exists c m why, gate_decision history tol consecutive = Ok (c, m, why).
Proof.
  intros H. unfold gate_decision. destruct (consecutive <? 1)%Z eqn:E; breflect; [lia|].
  repeat case_match; eauto.
Qed.

(** What the loop's answer says of the polls [full] it made, whatever it dropped. *)
Definition gate_answer (tol : Q) (consecutive : Z) (timeout_s : Q)
    (full : list (list row)) (elapsed : Q) (g : gate_record) : Prop :=
  exists c m why, gate_decision full tol consecutive = Ok (c, m, why) /\
    g_closed g = c /\ g_reason g = why /\
    (g_closed g = false -> (timeout_s <= elapsed)%Q).

Lemma wait_for_index_gate_sound tol consecutive timeout_s rounds full history g :
  (1 <= consecutive)%Z -> history `suffix_of` full ->
  (Z.max consecutive 3 <= Z.of_nat (length history))%Z \/ history = full ->
  wait_for_index_gate tol consecutive timeout_s rounds history = Ok (Some g) ->
  exists made p elapsed rest, rounds = made ++ (p, elapsed) :: rest /\
    gate_answer tol consecutive timeout_s (full ++ made.*1 ++ [p]) elapsed g.
Proof.
  intros Hc. revert full history. induction rounds as [|[p elapsed] rounds IH];
    intros full history Hs Hl H; simpl in H; [done|].
  destruct (push_history_window consecutive full history p Hc Hs Hl) as [Hs' Hl'].
  destruct (gate_decision_total (push_history consecutive history p) tol consecutive Hc)
    as (c & m & why & E).
  rewrite E in H.
  destruct c; [|destruct (Qle_bool timeout_s elapsed) eqn:Et].
  - exists [], p, elapsed, rounds. split; [done|]. injection H as <-.
    exists true, m, why. split_and!; try done. simpl. by eapply gate_decision_suffix.
  - exists [], p, elapsed, rounds. split; [done|]. injection H as <-.
    exists false, m, why. split_and!; try done; [|intros _; by qreflect].
    simpl. by eapply gate_decision_suffix.
  - destruct (IH _ _ Hs' Hl' H) as (made & p' & el' & rest & -> & HA).
    exists ((p, elapsed) :: made), p', el', rest. split; [done|].
    simpl. by rewrite <- app_assoc in HA.
Qed.

Lemma wait_for_index_gate_total tol consecutive timeout_s rounds history p elapsed :
  (1 <= consecutive)%Z -> (p, elapsed) ∈ rounds -> (timeout_s <= elapsed)%Q ->
  exists g, wait_for_index_gate tol consecutive timeout_s rounds history = Ok (Some g).
Proof.
  intros Hc Hin Ht. revert history. induction rounds as [|[p' e'] rounds IH]; intros history;
    [by apply not_elem_of_nil in Hin|]. simpl.
  destruct (gate_decision_total (push_history consecutive history p') tol consecutive Hc)
    as (c & m & why & ->).
  destruct c; [eauto|]. destruct (Qle_bool timeout_s e') eqn:E; [eauto|].
  apply elem_of_cons in Hin as [[= <- <-]|Hin]; [|auto].
  qreflect. lra.
Qed.

Lemma wait_for_index_gate_verdict tol consecutive timeout_s rounds g :
  (1 <= consecutive)%Z ->
  wait_for_index_gate tol consecutive timeout_s rounds [] = Ok (Some g) ->
  exists made p elapsed rest, rounds = made ++ (p, elapsed) :: rest /\
    let full := made.*1 ++ [p] in
    (g_closed g = true <->
       (consecutive <= Z.of_nat (length full))%Z /\
       Forall (poll_indexed tol) (drop (length full - Z.to_nat consecutive) full)) /\
    (g_closed g = false -> (timeout_s <= elapsed)%Q).
Proof.
  intros Hc H.
  destruct (wait_for_index_gate_sound _ _ _ _ [] [] _ Hc (suffix_nil _) (or_intror eq_refl) H)
    as (made & p & elapsed & rest & -> & c & m & why & HD & Hcl & _ & Hto).
  exists made, p, elapsed, rest. split; [done|]. simpl in HD.
  destruct (gate_decision_closed (made.*1 ++ [p]) tol consecutive Hc)
    as (c' & m' & why' & HD' & Hiff & _).
  rewrite HD in HD'. simplify_eq. split; [|done]. exact Hiff.
Qed.

(** C12. The waiting loop returns as soon as the clock passes the timeout. What it
    returns is the verdict of [gate_decision] on every poll made, although it keeps
    only the last few: it reports closed exactly when the last [consecutive] polls
    were all indexed, and reports open only after the timeout. *)
Theorem wait_for_index_gate_spec tol consecutive timeout_s rounds :
  (1 <= consecutive)%Z ->
  (forall p elapsed, (p, elapsed) ∈ rounds -> (timeout_s <= elapsed)%Q ->
     exists g, wait_for_index_gate tol consecutive timeout_s rounds [] = Ok (Some g)) /\
  (forall g, wait_for_index_gate tol consecutive timeout_s rounds [] = Ok (Some g) ->
     exists made p elapsed rest, rounds = made ++ (p, elapsed) :: rest /\
       let full := made.*1 ++ [p] in
       (g_closed g = true <->
          (consecutive <= Z.of_nat (length full))%Z /\
          Forall (poll_indexed tol) (drop (length full - Z.to_nat consecutive) full)) /\
       (g_closed g = false -> (timeout_s <= elapsed)%Q)).
Proof.
  intros Hc. split; [intros p elapsed; by apply wait_for_index_gate_total|].
  intros g. by apply wait_for_index_gate_verdict.
Qed.

Definition green (n : nat) (idx pts : Z) : row :=
  mkRow n true (mkColl (Some idx) (Some pts) (Some 2%Z) (Some "green"%string) None).

Definition demo_rounds : list (list row * Q) :=
  [([green 0 0 10; green 1 10 10], 1); ([green 0 10 10; green 1 10 10], 2);
   ([green 0 10 10; green 1 10 10], 3); ([green 0 10 10; green 1 10 10], 4);
   ([green 0 0 10], 700)]%Q.

Lemma wait_for_index_gate_spec_witness :
  exists g, wait_for_index_gate 0 2 600 demo_rounds [] = Ok (Some g) /\ g_closed g = true.
Proof.
  destruct (proj1 (wait_for_index_gate_spec 0 2 600 demo_rounds ltac:(lia)) [green 0 0 10] 700%Q)
    as [g Hg].
  - do 4 apply list_elem_of_further. apply list_elem_of_here.
  - lra.
  - exists g. split; [done|]. vm_compute in Hg. by injection Hg as <-.
Defined.

(** The record's [polls] field is the length of the capped history: here five polls
    were made and three are reported. *)
Example polls_field_is_capped :
  (g_polls <$> match wait_for_index_gate 0 1 600
                 [([], 1); ([], 2); ([], 3); ([], 4); ([green 0 10 10], 5)]%Q [] with
               | Ok (Some g) => Some g | _ => None end) = Some (Some 3).
Proof. vm_compute. reflexivity. Qed.

(** One row per node, in node order; a node counts as reachable exactly when it answered
    200. *)
Lemma poll_index_state_spec node_ids reply :
  r_node <$> poll_index_state node_ids reply = node_ids /\
  forall r, r ∈ poll_index_state node_ids reply ->
    (r_reachable r = true <-> exists c, reply (r_node r) = HttpResp 200 c /\ r_coll r = c).
Proof.
  unfold poll_index_state. split.
  - rewrite <- list_fmap_compose. rewrite <- (list_fmap_id node_ids) at 2. apply list_fmap_ext.
    intros i n _. simpl. by repeat case_match.
  - intros r Hr. apply list_elem_of_fmap in Hr as (n & -> & _).
    destruct (reply n) as [|st c] eqn:En; simpl; [rewrite En; naive_solver|].
    destruct (Z.eqb st 200) eqn:E; simpl; rewrite En; breflect; naive_solver.
Qed.
