(* ===== verification/QdrantHarness.v ===== *)
(** * The Qdrant container chaos harness

    [research/cross_system_replication/qdrant_docker_harness.py]: managed containers,
    the split-brain validator, the controlled kill schedules and the two kill loops.
    Docker calls, clocks, stop signals and random draws are inputs; a Docker call can
    raise. *)

From stdpp Require Import base list strings gmap.
From Stdlib Require Import QArith Lqa ZArith Lia.
From S2P Require Import Prelude PyFloat ChaosHarness.

Local Open Scope nat_scope.

(** ** [ManagedContainer] *)

(** A Docker call: it raises (a timeout or another error) or returns. *)
Inductive docker (A : Type) : Type :=
| DRaise (timed_out : bool)
| DOk (a : A).
Arguments DRaise {A} timed_out.
Arguments DOk {A} a.

Record container := mkC { c_restart_count : nat; c_crash_on_restart : nat }.

Definition new_container : container := mkC 0 0.

(** [restart]: the count goes up once the kill has returned; [start] is the Docker
    start followed by the liveness inspection. *)
Definition c_restart (c : container) (kill : docker unit) (start : docker bool)
    : container * docker bool :=
  match kill with
  | DRaise t => (c, DRaise t)
  | DOk _ =>
      let c1 := mkC (S (c_restart_count c)) (c_crash_on_restart c) in
      match start with
      | DRaise t => (c1, DRaise t)
      | DOk alive =>
          (if alive then c1 else mkC (c_restart_count c1) (S (c_crash_on_restart c1)), DOk alive)
      end
  end.

(** ** [validator_loop] *)

Record raft_info := mkRaft { ri_role : option string; ri_term : option Z }.

Record split_brain := mkSB { sb_terms : list (option Z); sb_leaders : list (nat * option Z) }.

Record qvstate := mkQV { qv_violations : list split_brain; qv_checks : nat }.

Definition leaders_of (node_ids : list nat) (reply : nat -> http raft_info)
    : list (nat * option Z) :=
  foldl (fun d n =>
           match reply n with
           | HttpResp st raft =>
               if Z.eqb st 200 && bool_decide (ri_role raft = Some "Leader"%string)
               then dset n (ri_term raft) d else d
           | HttpExn => d
           end) [] node_ids.

Definition answered (node_ids : list nat) (reply : nat -> http raft_info) : nat :=
  length (List.filter (fun n => status_ok (reply n)) node_ids).

Definition qvalidator_round (node_ids : list nat) (v : qvstate) (reply : nat -> http raft_info)
    : qvstate :=
  let leaders := leaders_of node_ids reply in
  let terms := remove_dups (dvalues leaders) in
  mkQV (qv_violations v ++
          (if (1 <? length leaders) && (length terms =? 1) then [mkSB terms leaders] else []))
    (qv_checks v + answered node_ids reply).

(** ** [build_kill_schedule] *)

Definition SHORT_GAP_S : Q := 5.
Definition LONG_GAP_S : Q := 40.
Definition FIXED_DOWN_S : Q := 9 # 2.

Definition short_gap : string := "short-gap-same-node".
Definition long_gap : string := "long-gap-same-node".
Definition KILL_CONDITIONS : list string := [short_gap; long_gap; "spread"%string].

Record kstep := mkK {
  k_seq : nat;
  k_target : string;
  k_at_s : Q;
  k_gap_s : option Q;
  k_down_for_s : Q;
}.

(** [target_node or node_names[0]] *)
Definition chosen_node (node_names : list string) (target_node : option string) : result string :=
  match target_node with
  | Some t => if bool_decide (t = ""%string) then py_index node_names 0 else Ok t
  | None => py_index node_names 0
  end.

Definition schedule_targets (condition : string) (node_names : list string) (n_kills : nat)
    (target_node : option string) : result (list string * Q) :=
  if bool_decide (condition = "spread"%string) then
    if length node_names <? n_kills then Raise ValueError
    else Ok (take n_kills node_names, LONG_GAP_S)
  else
    chosen ← chosen_node node_names target_node;
    if bool_decide (chosen ∈ node_names)
    then Ok (replicate n_kills chosen,
             if bool_decide (condition = short_gap) then SHORT_GAP_S else LONG_GAP_S)
    else Raise ValueError.

(** The loop over [range(n_kills)]; [at] is carried from one entry to the next. *)
Fixpoint schedule_from (targets : list string) (gap : Q) (i : nat) (at_ : Q) : list kstep :=
  match targets with
  | [] => []
  | t :: ts =>
      let at_ := (if Nat.eqb i 0 then at_ else at_ + (FIXED_DOWN_S + gap))%Q in
      mkK i t (round_nd 3 at_) (if Nat.eqb i 0 then None else Some gap) FIXED_DOWN_S
        :: schedule_from ts gap (S i) at_
  end.

Definition build_kill_schedule (condition : string) (node_names : list string) (n_kills : Z)
    (window_s : Q) (target_node : option string) : result (list kstep) :=
  if negb (bool_decide (condition ∈ KILL_CONDITIONS)) then Raise ValueError
  else if (n_kills <? 2)%Z then Raise ValueError
  else
    '(targets, gap) ← schedule_targets condition node_names (Z.to_nat n_kills) target_node;
    let schedule := schedule_from targets gap 0 0 in
    match last schedule with
    | None => Raise IndexError
    | Some k =>
        if Qltb window_s (k_at_s k + FIXED_DOWN_S) then Raise ValueError else Ok schedule
    end.

(** ** [chaos_loop_scheduled] *)

Record sevent := mkSE {
  se_t : Q;
  se_target : string;
  se_alive : option bool;
  se_restart_count : nat;
  se_seq : nat;
  se_requested_at : Q;
  se_realized_at : Q;
  se_requested_gap : option Q;
  se_realized_gap : option Q;
  se_killed_while_down : option bool;
  se_failed : option bool;             (* [Some timed_out] for a failed entry *)
}.

(** What one pass meets, in program order. *)
Record sched_in := mkSI {
  si_now : Q;                (* time.time() when the wait is computed *)
  si_stop_wait : bool;       (* stop_evt.wait(wait) *)
  si_stop : bool;            (* stop_evt.is_set() *)
  si_t0 : Q;
  si_inspect : docker bool;
  si_kill : docker unit;
  si_stop_down : bool;       (* stop_evt.wait(down_for_s) *)
  si_start : docker bool;
  si_t_restart : Q;
}.

(** The [try] block: [None] when the stop signal ends the loop. *)
Definition try_kill (i : sched_in) : docker (option (bool * bool)) :=
  match si_inspect i with
  | DRaise t => DRaise t
  | DOk was_alive =>
      match si_kill i with
      | DRaise t => DRaise t
      | DOk _ =>
          match si_start i with
          | DRaise t => DRaise t
          | DOk alive => if si_stop_down i then DOk None else DOk (Some (was_alive, alive))
          end
      end
  end.

Definition realized_gap (t0 : Q) (prev : option Q) : option Q :=
  (fun p => round_nd 3 (t0 - p)%Q) <$> prev.

Definition ok_event (started : Q) (k : kstep) (i : sched_in) (c : container) (prev : option Q)
    (was_alive alive : bool) : sevent :=
  mkSE (si_t0 i) (k_target k) (Some alive) (c_restart_count c) (k_seq k) (k_at_s k)
    (round_nd 3 (si_t0 i - started)%Q) (k_gap_s k) (realized_gap (si_t0 i) prev)
    (Some (negb was_alive)) None.

Definition failed_event (started : Q) (k : kstep) (i : sched_in) (c : container)
    (prev : option Q) (timed_out : bool) : sevent :=
  mkSE (si_t0 i) (k_target k) None (c_restart_count c) (k_seq k) (k_at_s k)
    (round_nd 3 (si_t0 i - started)%Q) (k_gap_s k) (realized_gap (si_t0 i) prev)
    None (Some timed_out).

Fixpoint chaos_loop_scheduled (started : Q) (containers : list (string * container))
    (steps : list (kstep * sched_in)) (last_restart_at : list (string * Q))
    (events : list sevent) : result (list sevent) :=
  match steps with
  | [] => Ok events
  | (k, i) :: rest =>
      let wait := (k_at_s k - (si_now i - started))%Q in
      if Qltb 0 wait && si_stop_wait i then Ok events
      else if si_stop i then Ok events
      else
        match dget (k_target k) containers with
        | None => Raise KeyError
        | Some c =>
            let prev := dget (k_target k) last_restart_at in
            match try_kill i with
            | DRaise t =>
                chaos_loop_scheduled started containers rest last_restart_at
                  (events ++ [failed_event started k i c prev t])
            | DOk None => Ok events
            | DOk (Some (was_alive, alive)) =>
                chaos_loop_scheduled started containers rest
                  (dset (k_target k) (si_t_restart i) last_restart_at)
                  (events ++ [ok_event started k i c prev was_alive alive])
            end
        end
  end.

(** ** [chaos_loop] *)

(** [qe_failed] stands for two keys: empty is [failed: False], a value is [failed: True] with
    its [timed_out]. *)
Record qevent := mkQE {
  qe_t : Q;
  qe_target : string;
  qe_alive : option bool;
  qe_down_for : option Q;
  qe_restart_count : nat;
  qe_failed : option bool;
}.

Record qchaos_in := mkQI {
  qi_stop_head : bool;
  qi_stop_slept : bool;
  qi_target : string;
  qi_t0 : Q;
  qi_kill : docker unit;
  qi_down_for : Q;
  qi_stop_down : bool;
  qi_start : docker bool;
}.

Fixpoint qchaos_loop (containers : list (string * container)) (ins : list qchaos_in)
    (events : list qevent) : result (list qevent) :=
  match ins with
  | [] => Ok events
  | i :: ins' =>
      if qi_stop_head i then Ok events
      else if qi_stop_slept i then Ok events
      else
        match dget (qi_target i) containers with
        | None => Raise KeyError
        | Some c =>
            let failed t := mkQE (qi_t0 i) (qi_target i) None None (c_restart_count c) (Some t) in
            match qi_kill i, qi_start i with
            | DRaise t, _ => qchaos_loop containers ins' (events ++ [failed t])
            | DOk _, DRaise t => qchaos_loop containers ins' (events ++ [failed t])
            | DOk _, DOk alive =>
                if qi_stop_down i then Ok events
                else qchaos_loop containers ins'
                       (events ++ [mkQE (qi_t0 i) (qi_target i) (Some alive)
                                     (Some (qi_down_for i)) (c_restart_count c) None])
            end
        end
  end.

(** [build_containers] *)
Definition build_containers (container_name : nat -> string) (node_ids : list nat)
    : list (string * container) :=
  foldl (fun d n => dset (container_name n) new_container d) [] node_ids.

(** * Properties *)

(** ** Kill schedules *)

Definition condition_gap (condition : string) : Q :=
  if bool_decide (condition = short_gap) then SHORT_GAP_S else LONG_GAP_S.

Definition nth_at (gap : Q) (i : nat) : Q := (inject_Z (Z.of_nat i) * (FIXED_DOWN_S + gap))%Q.

(** The gaps the conditions use are whole numbers of milliseconds. *)
Definition ms_gap (gap : Q) : Prop := exists z, ((FIXED_DOWN_S + gap) * 1000 == inject_Z z)%Q.

Lemma condition_gap_ms c : ms_gap (condition_gap c).
Proof.
  unfold condition_gap, ms_gap. case_bool_decide; [exists 9500%Z|exists 44500%Z]; reflexivity.
Qed.

Lemma condition_gap_pos c : (0 < condition_gap c)%Q.
Proof. unfold condition_gap. case_bool_decide; reflexivity. Qed.

Lemma round_nth_at gap i a : ms_gap gap -> (a == nth_at gap i)%Q -> (round_nd 3 a == nth_at gap i)%Q.
Proof.
  intros [z Hz] Ha. rewrite <- Ha. apply (round_nd_exact 3 _ (Z.of_nat i * z)%Z).
  rewrite Ha. unfold nth_at. rewrite inject_Z_mult, <- Hz.
  change (inject_Z (10 ^ Z.of_nat 3)) with 1000%Q. ring.
Qed.

Lemma nth_at_S gap i : (nth_at gap (S i) == nth_at gap i + (FIXED_DOWN_S + gap))%Q.
Proof.
  unfold nth_at. rewrite Nat2Z.inj_succ, <- Z.add_1_r, inject_Z_plus.
  change (inject_Z 1) with 1%Q. ring.
Qed.

Lemma nth_at_mono gap i j : (0 < gap)%Q -> i <= j -> (nth_at gap i <= nth_at gap j)%Q.
Proof.
  intros Hg Hij. unfold nth_at. apply Qmult_le_compat_r; [by apply inject_nat_le|].
  unfold FIXED_DOWN_S. lra.
Qed.

Lemma schedule_from_length ts gap i a : length (schedule_from ts gap i a) = length ts.
Proof. revert i a. induction ts; intros; simpl; auto. Qed.

Lemma schedule_from_targets ts gap i a : k_target <$> schedule_from ts gap i a = ts.
Proof. revert i a. induction ts; intros; simpl; f_equal; auto. Qed.

(** Entry [j] of the schedule, where [i] entries precede it and [a] is the offset of
    the last of them. *)
Lemma schedule_from_lookup ts gap i a j k :
  ms_gap gap -> (a == nth_at gap (i - 1))%Q ->
  schedule_from ts gap i a !! j = Some k ->
  k_seq k = i + j /\ (k_at_s k == nth_at gap (i + j))%Q /\ k_down_for_s k = FIXED_DOWN_S /\
  k_gap_s k = (if Nat.eqb (i + j) 0 then None else Some gap).
Proof.
  intros Hms. revert i a j. induction ts as [|t ts IH]; intros i a j Ha Hk; [done|].
  simpl in Hk.
  set (a' := (if Nat.eqb i 0 then a else a + (FIXED_DOWN_S + gap))%Q) in *.
  assert (a' == nth_at gap i)%Q as Ha'.
  { unfold a'. destruct i as [|i]; simpl; [done|]. rewrite Ha, nth_at_S.
    simpl. by rewrite Nat.sub_0_r. }
  destruct j as [|j]; simpl in Hk.
  - injection Hk as <-. rewrite Nat.add_0_r. split_and!; try done. by apply round_nth_at.
  - rewrite <- Nat.add_succ_comm. eapply IH; [|exact Hk].
    simpl. by rewrite Nat.sub_0_r.
Qed.

Lemma schedule_targets_Ok c names n t ts gap :
  schedule_targets c names n t = Ok (ts, gap) ->
  length ts = n /\ gap = condition_gap c /\ (forall x, x ∈ ts -> x ∈ names) /\
  (c = "spread"%string -> ts = take n names) /\
  (c <> "spread"%string -> exists x, chosen_node names t = Ok x /\ ts = replicate n x).
Proof.
  unfold schedule_targets, condition_gap. case_bool_decide as Hs.
  - destruct (length names <? n) eqn:El; [done|]. intros [= <- <-]. breflect. subst c.
    split_and!; try done.
    + rewrite length_take. lia.
    + intros x Hx. by eapply subseteq_take.
  - destruct (chosen_node names t) as [x|] eqn:Ex; simpl; [|done].
    case_bool_decide as Hin; [|done]. intros [= <- <-].
    split_and!; try done; [apply length_replicate| |naive_solver].
    intros y Hy. apply elem_of_replicate in Hy as [-> _]. done.
Qed.

Lemma last_at ts gap k :
  ms_gap gap -> last (schedule_from ts gap 0 0) = Some k ->
  (k_at_s k == nth_at gap (length ts - 1))%Q.
Proof.
  intros Hms Hl. rewrite last_lookup, schedule_from_length in Hl.
  replace (Init.Nat.pred (length ts)) with (length ts - 1) in Hl by lia.
  apply schedule_from_lookup in Hl as (_ & H & _); [done|done|reflexivity].
Qed.

Lemma build_kill_schedule_Ok c names n w t s :
  build_kill_schedule c names n w t = Ok s ->
  exists ts, c ∈ KILL_CONDITIONS /\ (2 <= n)%Z /\
    schedule_targets c names (Z.to_nat n) t = Ok (ts, condition_gap c) /\
    length ts = Z.to_nat n /\ s = schedule_from ts (condition_gap c) 0 0 /\
    (nth_at (condition_gap c) (Z.to_nat n - 1) + FIXED_DOWN_S <= w)%Q.
Proof.
  unfold build_kill_schedule. case_bool_decide as Hc; simpl; [|done].
  destruct (n <? 2)%Z eqn:En; [done|]. breflect.
  destruct (schedule_targets c names (Z.to_nat n) t) as [[ts gap]|] eqn:Et; simpl; [|done].
  pose proof (schedule_targets_Ok _ _ _ _ _ _ Et) as (Hlen & -> & _).
  destruct (last _) as [k|] eqn:El; [|done]. apply last_at in El; [|apply condition_gap_ms].
  destruct (Qltb w _) eqn:Ew; [done|]. intros [= <-]. qreflect.
  exists ts. split_and!; try done. rewrite <- Hlen. lra.
Qed.

(** C21. A schedule honours the spacing its condition names or is refused. When
    [build_kill_schedule] returns, it has [n_kills] entries; entry [i] starts exactly
    [i] times the down-time plus the condition's gap after chaos starts, so it begins
    that gap after the previous restart; targets are cluster nodes, distinct for
    ["spread"] and all the same otherwise; and every entry ends within the window. *)
Theorem build_kill_schedule_spec c names n w t s :
  build_kill_schedule c names n w t = Ok s ->
  Z.of_nat (length s) = n /\
  (forall i k, s !! i = Some k ->
     k_seq k = i /\ (k_at_s k == inject_Z (Z.of_nat i) * (FIXED_DOWN_S + condition_gap c))%Q /\
     k_down_for_s k = FIXED_DOWN_S /\ k_target k ∈ names /\ (k_at_s k + FIXED_DOWN_S <= w)%Q) /\
  (forall i k k', s !! i = Some k -> s !! S i = Some k' ->
     (k_at_s k' - (k_at_s k + k_down_for_s k) == condition_gap c)%Q) /\
  (c = "spread"%string -> NoDup names -> NoDup (k_target <$> s)) /\
  (c <> "spread"%string -> exists x, Forall (fun k => k_target k = x) s).
Proof.
  intros H. apply build_kill_schedule_Ok in H as (ts & _ & Hn & Ht & Hlen & -> & Hw).
  pose proof (condition_gap_ms c) as Hms. pose proof (condition_gap_pos c) as Hpos.
  set (gap := condition_gap c) in *.
  assert (forall i k, schedule_from ts gap 0 0 !! i = Some k ->
            k_seq k = i /\ (k_at_s k == nth_at gap i)%Q /\ k_down_for_s k = FIXED_DOWN_S) as HL.
  { intros i k Hk. apply schedule_from_lookup in Hk as (? & ? & ? & _); [done|done|reflexivity]. }
  apply schedule_targets_Ok in Ht as (_ & _ & Hin & Hspread & Hsame).
  split_and!.
  - rewrite schedule_from_length. lia.
  - intros i k Hk. destruct (HL _ _ Hk) as (Hs & Ha & Hd). split_and!; try done.
    + apply Hin. rewrite <- (schedule_from_targets ts gap 0 0). apply list_elem_of_fmap.
      exists k. split; [done|]. by eapply list_elem_of_lookup_2.
    + apply lookup_lt_Some in Hk. rewrite schedule_from_length in Hk.
      rewrite Ha. pose proof (nth_at_mono gap i (Z.to_nat n - 1) Hpos ltac:(lia)). lra.
  - intros i k k' Hk Hk'. destruct (HL _ _ Hk) as (_ & Ha & ->), (HL _ _ Hk') as (_ & Ha' & _).
    rewrite Ha, Ha', nth_at_S. ring.
  - intros Hc Hnd. rewrite schedule_from_targets, (Hspread Hc). by apply NoDup_take.
  - intros Hc. destruct (Hsame Hc) as (x & _ & ->). exists x. apply Forall_forall.
    intros k Hk. apply (list_elem_of_fmap_2 k_target) in Hk. rewrite schedule_from_targets in Hk.
    by apply elem_of_replicate in Hk as [? _].
Qed.

Lemma build_kill_schedule_spec_witness :
  exists s, build_kill_schedule short_gap ["a"; "b"]%string 3 30 None = Ok s /\
    Z.of_nat (length s) = 3%Z /\ k_target <$> s = ["a"; "a"; "a"]%string.
Proof.
  eexists. split; [vm_compute; reflexivity|]. split; [|reflexivity].
  apply (build_kill_schedule_spec short_gap ["a"; "b"]%string 3 30 None). vm_compute. reflexivity.
Defined.

(** Exactly these requests are refused: an unknown condition, fewer than two kills,
    a spread over more kills than nodes, a same-node target outside the cluster, and
    a schedule that does not fit the chaos window. *)
Theorem build_kill_schedule_accepts c names n w t :
  (exists s, build_kill_schedule c names n w t = Ok s) <->
  c ∈ KILL_CONDITIONS /\ (2 <= n)%Z /\
  (c = "spread"%string -> (n <= Z.of_nat (length names))%Z) /\
  (c <> "spread"%string -> exists x, chosen_node names t = Ok x /\ x ∈ names) /\
  (inject_Z (n - 1) * (FIXED_DOWN_S + condition_gap c) + FIXED_DOWN_S <= w)%Q.
Proof.
  assert ((2 <= n)%Z -> nth_at (condition_gap c) (Z.to_nat n - 1) =
            (inject_Z (n - 1) * (FIXED_DOWN_S + condition_gap c))%Q) as Hat.
  { intros Hn. unfold nth_at. do 2 f_equal. lia. }
  split.
  - intros [s H]. apply build_kill_schedule_Ok in H as (ts & Hc & Hn & Ht & Hlen & _ & Hw).
    rewrite Hat in Hw by done. split_and!; try done.
    + intros ->. unfold schedule_targets in Ht. rewrite bool_decide_true in Ht by done.
      destruct (length names <? Z.to_nat n) eqn:E; [done|]. breflect. lia.
    + intros Hne. apply schedule_targets_Ok in Ht as (_ & _ & Hin & _ & Hs).
      destruct (Hs Hne) as (x & Hx & ->). exists x. split; [done|]. apply Hin.
      apply elem_of_replicate. split; [done|lia].
  - intros (Hc & Hn & Hsp & Hsn & Hw). unfold build_kill_schedule.
    rewrite bool_decide_true by done. simpl.
    destruct (n <? 2)%Z eqn:En; breflect; [lia|].
    assert (exists ts, schedule_targets c names (Z.to_nat n) t = Ok (ts, condition_gap c))
      as [ts Ht].
    { unfold schedule_targets, condition_gap. case_bool_decide as Hc'.
      - specialize (Hsp Hc'). destruct (length names <? Z.to_nat n) eqn:E; breflect; [lia|].
        subst c. eauto.
      - destruct (Hsn Hc') as (x & -> & Hx). simpl. rewrite bool_decide_true by done. eauto. }
    rewrite Ht. simpl. apply schedule_targets_Ok in Ht as (Hlen & _).
    destruct (last (schedule_from ts _ 0 0)) as [k|] eqn:El.
    + apply last_at in El; [|apply condition_gap_ms]. rewrite Hlen, Hat in El by done.
      destruct (Qltb w _) eqn:E; [|eauto]. qreflect. lra.
    + apply last_None in El. apply (f_equal length) in El.
      rewrite schedule_from_length in El. simpl in El. lia.
Qed.

(** ** Executing a schedule *)

Definition no_stop (i : sched_in) : Prop :=
  si_stop_wait i = false /\ si_stop i = false /\ si_stop_down i = false.

(** The event an entry of the schedule must leave. *)
Definition event_of (k : kstep) (e : sevent) : Prop :=
  se_seq e = k_seq k /\ se_target e = k_target k /\ se_requested_at e = k_at_s k /\
  se_requested_gap e = k_gap_s k.

Lemma chaos_loop_scheduled_complete started containers steps lra0 ev :
  (forall k i, (k, i) ∈ steps -> no_stop i /\ k_target k ∈ dkeys containers) ->
  exists new, chaos_loop_scheduled started containers steps lra0 ev = Ok (ev ++ new) /\
    Forall2 event_of steps.*1 new.
Proof.
  revert lra0 ev. induction steps as [|[k i] steps IH]; intros l ev H; simpl.
  { exists []. by rewrite app_nil_r. }
  destruct (H k i) as [(Hw & Hs & Hd) Hk]; [by left|]. rewrite Hw, Hs, andb_false_r.
  destruct (dget (k_target k) containers) as [c|] eqn:Ec; [|by apply dget_None in Ec].
  assert (forall k i, (k, i) ∈ steps -> no_stop i /\ k_target k ∈ dkeys containers) as Hrest
    by (intros; apply H; by right).
  assert (forall l' e, event_of k e ->
            exists new, chaos_loop_scheduled started containers steps l' (ev ++ [e])
                        = Ok (ev ++ new) /\ Forall2 event_of (k :: steps.*1) new) as Hgo.
  { intros l' e He. destruct (IH l' (ev ++ [e]) Hrest) as (new & -> & HF).
    exists (e :: new). rewrite <- app_assoc. split; [done|by constructor]. }
  destruct (try_kill i) as [t|[[was alive]|]] eqn:Et; [by apply Hgo..|].
  unfold try_kill in Et. rewrite Hd in Et. repeat case_match; done.
Qed.

(** C35. No kill of a schedule goes missing: unless the run is stopped, executing a
    schedule over the cluster's containers never raises and leaves exactly one event
    per entry, in order, carrying the entry's requested values, even when Docker
    calls raise. *)
Theorem scheduled_kills_all_recorded started containers steps :
  (forall k i, (k, i) ∈ steps -> no_stop i /\ k_target k ∈ dkeys containers) ->
  exists events, chaos_loop_scheduled started containers steps [] [] = Ok events /\
    Forall2 event_of steps.*1 events.
Proof.
  intros H. destruct (chaos_loop_scheduled_complete started containers steps [] [] H)
    as (new & Hn & HF). eauto.
Qed.

Definition demo_in (t : Q) (k : docker unit) : sched_in :=
  mkSI t false false t (DOk true) k false (DOk true) (t + 5).

Definition demo_steps : list (kstep * sched_in) :=
  [(mkK 0 "n0" 0 None FIXED_DOWN_S, demo_in 100 (DOk tt));
   (mkK 1 "n0" (19 # 2) (Some SHORT_GAP_S) FIXED_DOWN_S, demo_in 110 (DRaise true));
   (mkK 2 "n0" 19 (Some SHORT_GAP_S) FIXED_DOWN_S, demo_in 120 (DOk tt))].

Lemma scheduled_kills_all_recorded_witness :
  exists events,
    chaos_loop_scheduled 100 (build_containers (fun _ => "n0"%string) [0]) demo_steps [] []
      = Ok events /\
    Forall2 event_of demo_steps.*1 events /\
    se_realized_gap <$> events = [None; Some (5000 # 1000); Some (15000 # 1000)]%Q.
Proof.
  destruct (scheduled_kills_all_recorded 100 (build_containers (fun _ => "n0"%string) [0])
              demo_steps) as (events & He & HF).
  - intros k i Hin. apply (list_elem_of_fmap_2 (fun p => (k_target p.1, si_stop_wait p.2, si_stop p.2,
      si_stop_down p.2))) in Hin. revert Hin. simpl.
    rewrite !elem_of_cons, elem_of_nil. unfold no_stop.
    intros [H|[H|[H|[]]]]; injection H as -> -> -> ->; (split; [done|]); by left.
  - exists events. split; [done|]. split; [done|]. vm_compute in He. injection He as <-.
    vm_compute. reflexivity.
Defined.

(** [realized_gap_s] is measured from the node's previous successful restart. *)
Fixpoint last_restart (name : string) (steps : list (kstep * sched_in)) : option Q :=
  match steps with
  | [] => None
  | (k, i) :: rest =>
      match last_restart name rest with
      | Some q => Some q
      | None =>
          if bool_decide (k_target k = name)
          then match try_kill i with DOk _ => Some (si_t_restart i) | DRaise _ => None end
          else None
      end
  end.

Lemma last_restart_snoc name steps k i :
  last_restart name (steps ++ [(k, i)]) =
  if bool_decide (k_target k = name)
  then match try_kill i with
       | DOk _ => Some (si_t_restart i)
       | DRaise _ => last_restart name steps
       end
  else last_restart name steps.
Proof.
  induction steps as [|[k0 i0] steps IH]; simpl; [by repeat case_match|].
  rewrite IH. repeat case_match; simplify_eq; done.
Qed.

Definition gaps_right (steps : list (kstep * sched_in)) (e : sevent) : Prop :=
  exists before k i after, steps = before ++ (k, i) :: after /\ event_of k e /\
    se_t e = si_t0 i /\ se_realized_gap e = realized_gap (si_t0 i) (last_restart (k_target k) before).

Lemma chaos_loop_scheduled_gaps started containers done_ steps l ev events :
  (forall name, dget name l = last_restart name done_) ->
  Forall (gaps_right (done_ ++ steps)) ev ->
  chaos_loop_scheduled started containers steps l ev = Ok events ->
  Forall (gaps_right (done_ ++ steps)) events.
Proof.
  revert done_ l ev. induction steps as [|[k i] steps IH]; intros done_ l ev Hl Hev H; simpl in H.
  { by simplify_eq. }
  destruct (_ && _); [by simplify_eq|]. destruct (si_stop i); [by simplify_eq|].
  destruct (dget (k_target k) containers) as [c|]; [|done].
  assert (forall e, event_of k e -> se_t e = si_t0 i ->
            se_realized_gap e = realized_gap (si_t0 i) (dget (k_target k) l) ->
            Forall (gaps_right ((done_ ++ [(k, i)]) ++ steps)) (ev ++ [e])) as Hadd.
  { intros e He Ht Hg. rewrite <- app_assoc. simpl. apply Forall_app. split; [done|].
    constructor; [|done]. exists done_, k, i, steps. split_and!; try done. by rewrite Hg, Hl. }
  replace (done_ ++ (k, i) :: steps) with ((done_ ++ [(k, i)]) ++ steps)
    by (by rewrite <- app_assoc).
  destruct (try_kill i) as [t|[[was alive]|]] eqn:Et.
  - eapply IH; [| |exact H]; [|by apply Hadd].
    intros name. rewrite last_restart_snoc, Et, Hl. by case_bool_decide.
  - eapply IH; [| |exact H]; [|by apply Hadd].
    intros name. rewrite last_restart_snoc, Et, dget_dset, Hl.
    repeat case_bool_decide; repeat case_decide; congruence.
  - simplify_eq. by rewrite <- app_assoc.
Qed.

(** Each recorded [realized_gap_s] is the time from that node's last restart that
    succeeded earlier in the schedule to this kill, and is missing exactly when the
    node has none; failed kills do not count as restarts. *)
Theorem scheduled_realized_gap started containers steps events :
  chaos_loop_scheduled started containers steps [] [] = Ok events ->
  Forall (fun e => exists before k i after, steps = before ++ (k, i) :: after /\ event_of k e /\
    se_t e = si_t0 i /\
    se_realized_gap e = realized_gap (si_t0 i) (last_restart (k_target k) before)) events.
Proof.
  intros H. apply (chaos_loop_scheduled_gaps started containers [] steps [] [] events); [done..|exact H].
Qed.

Lemma scheduled_realized_gap_witness :
  exists events,
    chaos_loop_scheduled 100 (build_containers (fun _ => "n0"%string) [0]) demo_steps [] []
      = Ok events /\ Forall (gaps_right demo_steps) events.
Proof.
  eexists. split; [vm_compute; reflexivity|].
  apply (scheduled_realized_gap 100 (build_containers (fun _ => "n0"%string) [0]) demo_steps).
  vm_compute. reflexivity.
Defined.

(** ** The validator *)

(** The term [n] claims leadership with, if it does. *)
Definition claims (reply : nat -> http raft_info) (n : nat) : option (option Z) :=
  match reply n with
  | HttpResp st raft =>
      if Z.eqb st 200 && bool_decide (ri_role raft = Some "Leader"%string)
      then Some (ri_term raft) else None
  | HttpExn => None
  end.

Lemma leaders_of_snoc ns n reply :
  leaders_of (ns ++ [n]) reply =
  match claims reply n with
  | Some t => dset n t (leaders_of ns reply)
  | None => leaders_of ns reply
  end.
Proof. unfold leaders_of. rewrite foldl_app. simpl. unfold claims. by repeat case_match. Qed.

Lemma leaders_of_omap ns reply :
  NoDup ns -> leaders_of ns reply = omap (fun n => (n,.) <$> claims reply n) ns.
Proof.
  induction ns as [|n ns IH] using rev_ind; [done|]. intros Hnd.
  apply NoDup_app in Hnd as (Hnd & Hni & _).
  rewrite leaders_of_snoc, omap_app, IH by done. simpl.
  destruct (claims reply n) as [t|]; simpl; [|by rewrite app_nil_r].
  assert (n ∉ (omap (fun n => (n,.) <$> claims reply n) ns).*1) as Hn.
  { intros Hin. apply list_elem_of_fmap in Hin as ([m t'] & -> & Hin).
    apply list_elem_of_omap in Hin as (m' & Hm & He).
    destruct (claims reply m'); simplify_eq/=.
    match goal with H : ?x ∈ ns |- _ => apply (Hni x); [done|by left] end. }
  clear -Hn. induction (omap _ ns) as [|[m t'] l IH]; simpl in *; [done|].
  apply not_elem_of_cons in Hn as [Hne Hn]. rewrite decide_False by done. by rewrite IH.
Qed.

Lemma remove_dups_one {A} `{EqDecision A} (l : list A) :
  length (remove_dups l) = 1 <-> exists x, x ∈ l /\ forall y, y ∈ l -> y = x.
Proof.
  split.
  - intros H. destruct (remove_dups l) as [|x [|]] eqn:E; simplify_eq/=.
    assert (forall y, y ∈ l <-> y = x) as Hy.
    { intros y. rewrite <- elem_of_remove_dups, E. apply list_elem_of_singleton. }
    exists x. split; [by apply Hy|]. intros y. by apply Hy.
  - intros (x & Hx & Hall). pose proof (NoDup_remove_dups l) as Hnd.
    apply elem_of_remove_dups in Hx. destruct (remove_dups l) as [|a [|b r]] eqn:E.
    + by apply not_elem_of_nil in Hx.
    + done.
    + exfalso. assert (a = x) as -> by (apply Hall; rewrite <- elem_of_remove_dups, E; by left).
      assert (b = x) as -> by (apply Hall; rewrite <- elem_of_remove_dups, E; right; by left).
      apply NoDup_cons in Hnd as [Hni _]. apply Hni. by left.
Qed.

(** A round reports a split brain exactly when at least two coordinators claim
    leadership and all the claims carry one term. It counts one check per node that
    answered 200. The consequence for two leaders that share a term while a third
    claims another: nothing is reported. *)
Theorem split_brain_spec node_ids v reply :
  NoDup node_ids ->
  let v' := qvalidator_round node_ids v reply in
  (length (qv_violations v') = S (length (qv_violations v)) <->
     1 < length (omap (claims reply) node_ids) /\
     exists t, forall n t', n ∈ node_ids -> claims reply n = Some t' -> t' = t) /\
  qv_checks v' = qv_checks v + length (List.filter (fun n => status_ok (reply n)) node_ids) /\
  (forall a b c term term', node_ids = [a; b; c] -> term <> term' ->
     claims reply a = Some term -> claims reply b = Some term -> claims reply c = Some term' ->
     qv_violations v' = qv_violations v).
Proof.
  intros Hnd v'.
  assert (dvalues (leaders_of node_ids reply) = omap (claims reply) node_ids) as Hval.
  { rewrite leaders_of_omap by done. unfold dvalues. clear.
    induction node_ids as [|n ns IH]; simpl; [done|].
    destruct (claims reply n); simpl; [f_equal|]; exact IH. }
  assert (length (leaders_of node_ids reply) = length (omap (claims reply) node_ids)) as Hlen.
  { rewrite <- Hval. unfold dvalues. by rewrite length_fmap. }
  assert (qv_violations v' = qv_violations v ++
    (if (1 <? length (omap (claims reply) node_ids)) &&
        (length (remove_dups (omap (claims reply) node_ids)) =? 1)
     then [mkSB (remove_dups (omap (claims reply) node_ids)) (leaders_of node_ids reply)]
     else [])) as Hv by (unfold v', qvalidator_round; simpl; by rewrite Hval, Hlen).
  split_and!; [|done|].
  - rewrite Hv, length_app. destruct (_ && _) eqn:E; simpl; breflect.
    + apply remove_dups_one in H0 as (t & _ & Ht). split; [|lia]. intros _. split; [done|].
      exists t. intros n t' Hn Hc. apply Ht, list_elem_of_omap. eauto.
    + split; [lia|]. intros [Hl [t Ht]]. exfalso. apply andb_false_iff in E as [E|E]; breflect; [lia|].
      apply E, remove_dups_one.
      destruct (omap (claims reply) node_ids) as [|t0 l] eqn:Eo; [simpl in Hl; lia|].
      assert (forall y, y ∈ t0 :: l -> y = t) as Hall.
      { intros y Hy. rewrite <- Eo in Hy. apply list_elem_of_omap in Hy as (n & ? & ?). eauto. }
      exists t. split; [|done]. rewrite <- (Hall t0) by (by left). by left.
  - intros a b c term term' -> Hne Ha Hb Hc.
    assert (omap (claims reply) [a; b; c] = [term; term; term']) as Ho
      by (cbn; by rewrite Ha, Hb, Hc).
    rewrite Hv, Ho.
    match goal with |- context [if ?b then _ else _] => destruct b eqn:E end;
      [|by rewrite app_nil_r]. exfalso. breflect.
    match goal with H : length _ = 1 |- _ => apply remove_dups_one in H as (x & _ & Hx) end.
    apply Hne. transitivity x; [|symmetry]; apply Hx; [by left|right; right; by left].
Qed.

Definition demo_reply (n : nat) : http raft_info :=
  HttpResp 200%Z (mkRaft (Some "Leader"%string) (Some 7%Z)).

Lemma split_brain_spec_witness :
  length (qv_violations (qvalidator_round [0; 1] (mkQV [] 0) demo_reply)) = 1.
Proof.
  apply (split_brain_spec [0; 1] (mkQV [] 0) demo_reply); [decide_now|].
  split; [vm_compute; lia|]. exists (Some 7%Z). intros n t' _ H. by injection H.
Defined.

(** ** Restart counters *)

(** Neither kill loop ever counts a restart: they kill and start the container
    themselves, so every event of a run over freshly built containers records
    [restart_count] 0. *)
Theorem restart_count_never_moves container_name node_ids :
  (forall started steps events,
     chaos_loop_scheduled started (build_containers container_name node_ids) steps [] []
       = Ok events -> Forall (fun e => se_restart_count e = 0) events) /\
  (forall ins events,
     qchaos_loop (build_containers container_name node_ids) ins [] = Ok events ->
     Forall (fun e => qe_restart_count e = 0) events).
Proof.
  assert (forall n c, dget n (build_containers container_name node_ids) = Some c ->
            c_restart_count c = 0) as H0.
  { unfold build_containers. induction node_ids as [|m ns IH] using rev_ind; [done|].
    rewrite foldl_app. simpl. intros n c. rewrite dget_dset. case_decide; [|apply IH].
    intros [= <-]. done. }
  split.
  - intros started steps. generalize (@nil (string * Q)) as l. intros l.
    assert (Forall (fun e => se_restart_count e = 0) (@nil sevent)) as Hn by constructor.
    revert Hn. generalize (@nil sevent) as ev. revert l.
    induction steps as [|[k i] steps IH]; intros l ev Hev events H; simpl in H; [by simplify_eq|].
    destruct (_ && _); [by simplify_eq|]. destruct (si_stop i); [by simplify_eq|].
    destruct (dget (k_target k) _) as [c|] eqn:Ec; [|done]. apply H0 in Ec.
    destruct (try_kill i) as [t|[[was alive]|]]; [| |by simplify_eq]; (eapply IH; [|exact H]);
      apply Forall_app; (split; [done|by constructor]).
  - intros ins. assert (Forall (fun e => qe_restart_count e = 0) (@nil qevent)) as Hn by constructor.
    revert Hn. generalize (@nil qevent) as ev.
    induction ins as [|i ins IH]; intros ev Hev events H; simpl in H; [by simplify_eq|].
    destruct (qi_stop_head i); [by simplify_eq|]. destruct (qi_stop_slept i); [by simplify_eq|].
    destruct (dget (qi_target i) _) as [c|] eqn:Ec; [|done]. apply H0 in Ec.
    destruct (qi_kill i); [|destruct (qi_start i); [|destruct (qi_stop_down i); [by simplify_eq|]]];
      (eapply IH; [|exact H]); apply Forall_app; (split; [done|by constructor]).
Qed.
