(* ===== verification/QdrantCluster.v ===== *)
(** * The Qdrant cluster: topology, waits and the per-replica probe

    [research/cross_system_replication/qdrant_topology.py] (port layout, the compose
    file, the readiness waits) and [qdrant_probe.py] (point ids, the paginated id
    listing, the batch search). HTTP and gRPC replies and clocks are inputs. *)

From stdpp Require Import base list gmap strings pretty.
From Stdlib Require Import QArith Lqa ZArith Lia Ascii.
From S2P Require Import Prelude PyFloat Metrics Sampler ChaosHarness.

Local Open Scope nat_scope.

(** ** Ports and names *)

Definition Q_NUM_SHARDS : nat := 2.
Definition Q_REPLICAS_PER_SHARD : nat := 3.

Definition http_port (node : nat) : Z := (16333 + Z.of_nat node)%Z.
Definition grpc_port (node : nat) : Z := (16350 + Z.of_nat node)%Z.
Definition internal_port (node : nat) : Z := (16370 + Z.of_nat node)%Z.
Definition probe_port_fn (shard_id replica_id : nat) : Z := internal_port replica_id.

Definition container_name (node : nat) : string := ("rrd-qdrant-node" +:+ pretty node)%string.
Definition node_service_name (node : nat) : string := ("qdrant-node" +:+ pretty node)%string.
Definition volume_name (node : nat) : string := ("rrd-qdrant-data" +:+ pretty node)%string.

(** ** [write_compose_file] and [_write_yaml] *)

Record service := mkSvc {
  sv_image : string;
  sv_container : string;
  sv_environment : list string;
  sv_command : list string;
  sv_ports : list (Z * Z);                 (* host:container *)
  sv_volumes : list (string * string);     (* name:path *)
  sv_depends_on : option (list string);
}.

Definition uri_of (svc : string) : string := ("http://" +:+ svc +:+ ":6335")%string.

Definition compose_service (image : string) (n : nat) : string * service :=
  let svc := node_service_name n in
  (svc, mkSvc image (container_name n) ["QDRANT__CLUSTER__ENABLED=true"%string]
          (if 0 <? n
           then ["./qdrant"%string; "--bootstrap"%string; uri_of (node_service_name 0);
                 "--uri"%string; uri_of svc]
           else ["./qdrant"%string; "--uri"%string; uri_of svc])
          [(http_port n, 6333); (grpc_port n, 6334); (internal_port n, 6335)]%Z
          [(volume_name n, "/qdrant/storage"%string)]
          (if 0 <? n then Some [node_service_name 0] else None)).

Definition compose_services (image : string) : list (string * service) :=
  foldl (fun d n => let '(svc, cfg) := compose_service image n in dset svc cfg d) []
    (seq 0 Q_REPLICAS_PER_SHARD).

Definition compose_volumes : list string := volume_name <$> seq 0 Q_REPLICAS_PER_SHARD.

Definition dquote : string := String (ascii_of_nat 34) EmptyString.
Definition quoted (s : string) : string := (dquote +:+ s +:+ dquote)%string.

Fixpoint join (sep : string) (l : list string) : string :=
  match l with
  | [] => ""
  | [x] => x
  | x :: l' => (x +:+ sep +:+ join sep l')%string
  end.

Definition item (s : string) : string := ("      - " +:+ s)%string.

Definition service_lines (sv : string * service) : list string :=
  let '(svc, cfg) := sv in
  [("  " +:+ svc +:+ ":")%string;
   ("    image: " +:+ sv_image cfg)%string;
   ("    container_name: " +:+ sv_container cfg)%string;
   "    environment:"%string]
  ++ (item <$> sv_environment cfg)
  ++ [("    command: [" +:+ join ", " (quoted <$> sv_command cfg) +:+ "]")%string;
      "    ports:"%string]
  ++ ((fun p => item (quoted (pretty p.1 +:+ ":" +:+ pretty p.2))) <$> sv_ports cfg)
  ++ ["    volumes:"%string]
  ++ ((fun v => item (v.1 +:+ ":" +:+ v.2)) <$> sv_volumes cfg)
  ++ match sv_depends_on cfg with
     | Some ds => "    depends_on:"%string :: (item <$> ds)
     | None => []
     end.

Definition write_yaml (services : list (string * service)) (volumes : list string)
    : list string :=
  ["services:"%string] ++ concat (service_lines <$> services)
  ++ ["volumes:"%string] ++ ((fun v => ("  " +:+ v +:+ ":")%string) <$> volumes).

(** ** Waits *)

(** [wait_for_nodes_ready] is the loop of [wait_for_coordinators_ready] on [/readyz]. *)
Definition wait_for_nodes_ready {B} (deadline : Q) (rounds : list (wround B)) (node_ids : list nat)
    : option bool := wait_for_coordinators_ready deadline rounds node_ids.

(** [/cluster]: the status and the number of peers. *)
Definition cluster_ok (node_ids : list nat) (reply : nat -> http (option string * nat)) : bool :=
  forallb (fun n => match reply n with
                    | HttpResp st (status, peers) =>
                        Z.eqb st 200 && bool_decide (status = Some "enabled"%string)
                        && (length node_ids <=? peers)
                    | HttpExn => false
                    end) node_ids.

Definition wait_for_cluster_formed (deadline : Q)
    (rounds : list (Q * (nat -> http (option string * nat)))) (node_ids : list nat)
    : option bool := poll_until deadline rounds (cluster_ok node_ids).

(** [/collections/.../cluster]: the states of local and remote shards. *)
Definition shards_ok (reply : http (list string * list string)) : bool :=
  match reply with
  | HttpResp st (local, remote) =>
      Z.eqb st 200 && (Q_NUM_SHARDS * Q_REPLICAS_PER_SHARD <=? length local + length remote)
      && forallb (fun s => bool_decide (s = "Active"%string)) (local ++ remote)
  | HttpExn => false
  end.

Definition wait_for_shards_active (deadline : Q)
    (rounds : list (Q * http (list string * list string))) : option bool :=
  poll_until deadline rounds shards_ok.

(** [create_collection]: the request body's shard layout, and whether it worked. *)
Record create_body := mkCreate {
  cb_size : nat; cb_shard_number : nat; cb_replication_factor : nat;
  cb_write_consistency : nat; cb_indexing_threshold : option Z;
}.
Definition create_collection_body (indexing_threshold_kb : option Z) : create_body :=
  mkCreate 128 Q_NUM_SHARDS Q_REPLICAS_PER_SHARD 1 indexing_threshold_kb.

(** ** Point ids *)

Inductive point_id : Type :=
| PNum (n : N)
| PUuid (u : string).

#[export] Instance point_id_eq_dec : EqDecision point_id.
Proof. solve_decision. Defined.

Definition point_id_to_ext (pid : point_id) : string :=
  match pid with
  | PUuid u => u
  | PNum n => pretty n
  end.

Definition digit_val (c : ascii) : option N :=
  let n := N_of_ascii c in
  if (48 <=? n)%N && (n <=? 57)%N then Some (n - 48)%N else None.

Fixpoint all_digits (s : string) : bool :=
  match s with
  | EmptyString => true
  | String c s' => match digit_val c with Some _ => all_digits s' | None => false end
  end.

(** [str.isdigit] on ASCII. *)
Definition isdigit (s : string) : bool :=
  match s with EmptyString => false | _ => all_digits s end.

(** [int(s)] on a string of digits. *)
Fixpoint int_acc (acc : N) (s : string) : N :=
  match s with
  | EmptyString => acc
  | String c s' => int_acc (acc * 10 + default 0%N (digit_val c)) s'
  end.
Definition int_of (s : string) : N := int_acc 0 s.

(** A protobuf [uint64] field refuses larger numbers. *)
Definition ext_to_point_id (ext_id : string) : result point_id :=
  if isdigit ext_id then
    if (int_of ext_id <? 2 ^ 64)%N then Ok (PNum (int_of ext_id)) else Raise ValueError
  else Ok (PUuid ext_id).

(** ** [ReplicaProbe] *)

(** A [Scroll] reply: one page and [next_page_offset] when there is more. [server]
    answers the [i]-th request from the offset given. *)
Record page := mkPage { pg_ids : list point_id; pg_next : option point_id }.

Fixpoint scroll_pages (server : nat -> nat -> option point_id -> option page) (page_size : nat)
    (max_pages i : nat) (offset : option point_id) (out : list string) : option (list string) :=
  match max_pages with
  | 0 => Some out
  | S mp =>
      match server i page_size offset with
      | None => None
      | Some pg =>
          let out := out ++ (point_id_to_ext <$> pg_ids pg) in
          match pg_next pg with
          | None => Some out
          | Some o => scroll_pages server page_size mp (S i) (Some o) out
          end
      end
  end.

Definition q_list_local_ids (c : chan) (server : nat -> nat -> option point_id -> option page)
    (page_size max_pages : nat) : chan * (bool * gset string) :=
  match scroll_pages server page_size max_pages 0 None [] with
  | None => (Closed, (false, ∅))
  | Some ids => (Open, (true, list_to_set ids))
  end.

(** One [CoreSearchBatch] for all queries. *)
Definition q_search_batch (c : chan) (resp : option (list (list point_id)))
    : chan * (bool * list (list string)) :=
  match resp with
  | None => (Closed, (false, []))
  | Some batches => (Open, (true, List.map (List.map point_id_to_ext) batches))
  end.

(** * Properties *)

(** The Qdrant layout is sound: host ports, container names and volumes are
    distinct, every port family is the one the probes and waits dial, every volume
    mounted is declared, every service depends only on declared services, and nodes
    other than the first bootstrap from it. *)
Theorem compose_sound image :
  let sv := compose_services image in
  dkeys sv = node_service_name <$> seq 0 Q_REPLICAS_PER_SHARD /\
  NoDup (concat ((fun s => (sv_ports s).*1) <$> dvalues sv)) /\
  NoDup (sv_container <$> dvalues sv) /\
  concat ((fun s => (sv_volumes s).*1) <$> dvalues sv) = compose_volumes /\ NoDup compose_volumes /\
  Forall (fun s => Forall (.∈ dkeys sv) (default [] (sv_depends_on s))) (dvalues sv) /\
  (forall s r, s < Q_NUM_SHARDS -> r < Q_REPLICAS_PER_SHARD ->
     exists cfg, dget (node_service_name r) sv = Some cfg /\
       (probe_port_fn s r, 6335%Z) ∈ sv_ports cfg).
Proof.
  split_and!; [vm_compute; reflexivity|decide_now..|].
  intros s r _ Hr. unfold Q_REPLICAS_PER_SHARD in Hr.
  destruct r as [|[|[|]]]; [| | |lia]; (eexists; split; [vm_compute; reflexivity|]);
    right; right; by left.
Qed.

(** ** Point ids *)

Lemma digit_val_pretty d : (d < 10)%N -> digit_val (pretty_N_char d) = Some d.
Proof.
  intros H.
  assert (d = 0 \/ d = 1 \/ d = 2 \/ d = 3 \/ d = 4 \/ d = 5 \/ d = 6 \/ d = 7 \/ d = 8 \/ d = 9)%N
    as Hd by lia.
  destruct_or! Hd; subst d; reflexivity.
Qed.

Lemma pretty_go_digits x s : all_digits s = true -> all_digits (pretty_N_go x s) = true.
Proof.
  revert s. induction (N.lt_wf_0 x) as [x _ IH]; intros s Hs.
  destruct (decide (x = 0%N)) as [->|Hx]; [done|].
  rewrite pretty_N_go_step by lia. apply IH; [apply N.div_lt; lia|].
  simpl. rewrite digit_val_pretty; [done|]. apply N.mod_lt. lia.
Qed.

Lemma int_acc_pretty x s : int_acc 0 (pretty_N_go x s) = int_acc x s.
Proof.
  revert s. induction (N.lt_wf_0 x) as [x _ IH]; intros s.
  destruct (decide (x = 0%N)) as [->|Hx]; [done|].
  rewrite pretty_N_go_step by lia. rewrite IH by (apply N.div_lt; lia).
  simpl. rewrite digit_val_pretty by (apply N.mod_lt; lia). simpl. f_equal.
  pose proof (N.div_mod x 10 ltac:(done)). lia.
Qed.

Lemma pretty_N_nonempty x s : s <> ""%string \/ (0 < x)%N -> pretty_N_go x s <> ""%string.
Proof.
  revert s. induction (N.lt_wf_0 x) as [x _ IH]; intros s Hs.
  destruct (decide (x = 0%N)) as [->|Hx]; [destruct Hs; [done|lia]|].
  rewrite pretty_N_go_step by lia. apply IH; [apply N.div_lt; lia|by left].
Qed.

Lemma isdigit_pretty (n : N) : isdigit (pretty n) = true.
Proof.
  unfold pretty, pretty_N. case_decide; [done|].
  pose proof (pretty_go_digits n "" eq_refl) as H1.
  pose proof (pretty_N_nonempty n "" ltac:(right; lia)) as H2.
  unfold isdigit. by destruct (pretty_N_go n "").
Qed.

Lemma int_of_pretty (n : N) : int_of (pretty n) = n.
Proof.
  unfold int_of, pretty, pretty_N. case_decide as H; [by subst|]. by rewrite int_acc_pretty.
Qed.

(** Point ids round-trip: the numeric ids the writer mints, printed in decimal,
    come back as the same number for every 64-bit id; and any id string that is not
    all digits survives unchanged. *)
Theorem point_id_roundtrip :
  (forall n, (n < 2 ^ 64)%N -> ext_to_point_id (point_id_to_ext (PNum n)) = Ok (PNum n)) /\
  (forall n pid, ext_to_point_id (pretty n) = Ok pid -> point_id_to_ext pid = pretty (n : N)) /\
  (forall u, isdigit u = false -> point_id_to_ext <$> ext_to_point_id u = Ok u).
Proof.
  unfold ext_to_point_id, point_id_to_ext. split_and!.
  - intros n Hn. rewrite isdigit_pretty, int_of_pretty.
    by rewrite (proj2 (N.ltb_lt _ _) Hn).
  - intros n pid. rewrite isdigit_pretty, int_of_pretty. case_match; [|done]. by intros [= <-].
  - intros u ->. done.
Qed.

(** ** Listing a replica's ids *)

(** The documented scroll contract over a shard that holds [ids], in id order:
    [limit] ids from the offset on, and the id after them as the next offset. *)
Definition scroll_contract (ids : list point_id)
    (server : nat -> nat -> option point_id -> option page) : Prop :=
  (forall i limit, server i limit None = Some (mkPage (take limit ids) (ids !! limit))) /\
  (forall i limit j o, ids !! j = Some o ->
     server i limit (Some o) = Some (mkPage (take limit (drop j ids)) (ids !! (j + limit)))).

Lemma scroll_pages_from ids server page_size mp i j offset out :
  scroll_contract ids server -> 0 < page_size ->
  (offset = None /\ j = 0 \/ exists o, offset = Some o /\ ids !! j = Some o) ->
  scroll_pages server page_size mp i offset out =
  Some (out ++ (point_id_to_ext <$> take (mp * page_size) (drop j ids))).
Proof.
  intros [H0 Hj] Hp. revert i j offset out. induction mp as [|mp IH]; intros i j offset out Ho.
  { simpl. by rewrite app_nil_r. }
  assert (server i page_size offset =
            Some (mkPage (take page_size (drop j ids)) (ids !! (j + page_size)))) as Hs.
  { destruct Ho as [[-> ->]|(o & -> & Ho)]; [|by apply Hj].
    rewrite H0. by rewrite drop_0. }
  simpl. rewrite Hs. simpl.
  destruct (ids !! (j + page_size)) as [o|] eqn:E.
  - rewrite (IH (S i) (j + page_size)) by eauto. f_equal. rewrite <- app_assoc. f_equal.
    rewrite <- fmap_app. f_equal. rewrite <- drop_drop.
    rewrite (Nat.add_comm page_size (mp * page_size)), Nat.add_comm. by rewrite take_take_drop.
  - apply lookup_ge_None in E. f_equal. f_equal. f_equal.
    rewrite !take_ge; rewrite ?length_drop; [done|lia..].
Qed.

(** Against a server that keeps the scroll contract, the paginated listing returns
    exactly the replica's ids whenever they fit in [max_pages] pages; past that it
    still reports success, with the first [max_pages * page_size] of them. *)
Theorem list_local_ids_complete c ids server page_size max_pages :
  scroll_contract ids server -> 0 < page_size ->
  q_list_local_ids c server page_size max_pages =
    (Open, (true, list_to_set (point_id_to_ext <$> take (max_pages * page_size) ids))) /\
  (length ids <= max_pages * page_size ->
     (q_list_local_ids c server page_size max_pages).2
       = (true, list_to_set (point_id_to_ext <$> ids))).
Proof.
  intros Hc Hp. unfold q_list_local_ids.
  rewrite (scroll_pages_from ids server page_size max_pages 0 0 None [] Hc Hp) by auto.
  rewrite drop_0. simpl. split; [done|]. intros Hl. by rewrite take_ge.
Qed.

(** A server that keeps the contract, for any list of distinct ids. *)
Definition list_index (ids : list point_id) (o : point_id) : nat :=
  default 0 (fst <$> list_find (o =.) ids).
Definition ref_server (ids : list point_id) (i limit : nat) (offset : option point_id)
    : option page :=
  let j := match offset with None => 0 | Some o => list_index ids o end in
  Some (mkPage (take limit (drop j ids)) (ids !! (j + limit))).

Lemma ref_server_contract ids : NoDup ids -> scroll_contract ids (ref_server ids).
Proof.
  intros Hnd. split.
  - intros i limit. unfold ref_server. by rewrite drop_0.
  - intros i limit j o Hj. unfold ref_server. f_equal.
    assert (list_index ids o = j) as ->; [|done]. unfold list_index.
    destruct (list_find (o =.) ids) as [[j' o']|] eqn:E; simpl.
    + apply list_find_Some in E as (Hj' & <- & _). by eapply NoDup_lookup.
    + eapply list_find_None, Forall_lookup_1 in E; [|exact Hj]. done.
Qed.

Lemma list_local_ids_complete_witness :
  (q_list_local_ids Closed (ref_server [PNum 3; PNum 5; PNum 8]) 2 10).2
    = (true, list_to_set (point_id_to_ext <$> [PNum 3; PNum 5; PNum 8])).
Proof.
  apply (list_local_ids_complete Closed [PNum 3; PNum 5; PNum 8]).
  - apply ref_server_contract. decide_now.
  - lia.
  - simpl. lia.
Defined.

(** ** Readiness waits *)

(** The cluster wait succeeds only on a round, before the deadline, in which every node
    answered that clustering is enabled with all peers; the shard wait only on one in
    which enough shards are listed and all are active. Both answer by the deadline. *)
Lemma cluster_waits_spec deadline rounds srounds node_ids :
  (wait_for_cluster_formed deadline rounds node_ids = Some true ->
     exists now reply, (now, reply) ∈ rounds /\ (now < deadline)%Q /\
       forall n, n ∈ node_ids -> exists peers,
         reply n = HttpResp 200 (Some "enabled"%string, peers) /\ length node_ids <= peers) /\
  (wait_for_shards_active deadline srounds = Some true ->
     exists now l r, (now, HttpResp 200 (l, r)) ∈ srounds /\ (now < deadline)%Q /\
       Q_NUM_SHARDS * Q_REPLICAS_PER_SHARD <= length l + length r /\
       forall s, s ∈ l ++ r -> s = "Active"%string) /\
  (forall now a, (now, a) ∈ rounds -> (deadline <= now)%Q ->
     is_Some (wait_for_cluster_formed deadline rounds node_ids)) /\
  (forall now a, (now, a) ∈ srounds -> (deadline <= now)%Q ->
     is_Some (wait_for_shards_active deadline srounds)).
Proof.
  split_and!.
  - intros H. apply poll_until_true in H as (now & reply & Hin & Hd & Hok). exists now, reply.
    split_and!; [done..|]. intros n Hn. unfold cluster_ok in Hok. rewrite forallb_forall in Hok.
    apply list_elem_of_In, Hok in Hn. destruct (reply n) as [|st [status peers]]; [done|].
    breflect. subst. eauto.
  - intros H. apply poll_until_true in H as (now & reply & Hin & Hd & Hok).
    destruct reply as [|st [l r]]; [done|]. unfold shards_ok in Hok. breflect. subst. exists now, l, r.
    split_and!; [done..|]. intros s Hs. apply list_elem_of_In in Hs.
    match goal with H : forallb _ _ = true |- _ => rewrite forallb_forall in H; apply H in Hs end.
    by breflect.
  - intros now a Hin Hd. destruct (poll_until_total deadline rounds (cluster_ok node_ids) now a Hin Hd)
      as [b Hb]. by exists b.
  - intros now a Hin Hd. destruct (poll_until_total deadline srounds shards_ok now a Hin Hd)
      as [b Hb]. by exists b.
Qed.
