(* ===== verification/QdrantRun.v ===== *)
(** * One Qdrant experiment run

    [research/cross_system_replication/qdrant_run_experiment.py]: the batching writer
    threads, one sampling sweep, the warm-up and the indexing gate, the chaos phases
    and the exit status. HTTP replies, clocks, random vectors and thread scheduling
    are inputs. *)

From stdpp Require Import base list gmap strings sorting.
From Stdlib Require Import QArith Lqa ZArith Lia.
From S2P Require Import Prelude PyFloat Metrics Sampler ChaosHarness IndexGate QdrantHarness QdrantCluster.

Local Open Scope nat_scope.

(** ** [RetainingWriter] *)

(** Where a writer thread is: at the loop head, past the pause test, holding a batch,
    waiting for the reply to it, stopped. A vector is known by its number [i]; its id
    is the decimal [100000000 + i]. *)
Inductive qpc : Type :=
| QTop
| QChecked
| QMade (batch : list nat)
| QSent (batch : list nat)
| QStop.

Record qwriter := mkQW {
  qw_limit : option nat;          (* the corpus size of --dist sift *)
  qw_batch : nat;
  qw_next : nat;
  qw_attempted : nat;
  qw_failed : nat;
  qw_corpus : list nat;           (* confirmed, in append order *)
  qw_exhausted : bool;
  qw_paused : bool;
  qw_threads : list qpc;
}.

Definition qw_init (limit : option nat) (batch threads : nat) : qwriter :=
  mkQW limit batch 0 0 0 [] false false (replicate threads QTop).

Inductive qwevent : Type :=
| QCheck (t : nat)                        (* pause_evt is clear *)
| QMake (t : nat)                         (* _make_batch *)
| QCount (t : nat)                        (* attempted += len(batch) *)
| QReply (t : nat) (h : http unit)
| QHalt (t : nat)                         (* stop_evt is set *)
| QPause
| QResume.

(** [_make_batch]: the numbers reserved, and the writer with [_next] advanced and
    [exhausted] set when a finite corpus has none left. *)
Definition make_batch (w : qwriter) : list nat * qwriter :=
  let n := match qw_limit w with
           | Some len => Nat.min (qw_batch w) (len - qw_next w)
           | None => qw_batch w
           end in
  (seq (qw_next w) n,
   mkQW (qw_limit w) (qw_batch w) (qw_next w + n) (qw_attempted w) (qw_failed w) (qw_corpus w)
     (qw_exhausted w || (Nat.eqb n 0 && match qw_limit w with Some _ => true | None => false end))
     (qw_paused w) (qw_threads w)).

Definition set_thread (w : qwriter) (t : nat) (pc : qpc) : qwriter :=
  mkQW (qw_limit w) (qw_batch w) (qw_next w) (qw_attempted w) (qw_failed w) (qw_corpus w)
    (qw_exhausted w) (qw_paused w) (<[t := pc]> (qw_threads w)).
Definition add_attempted (w : qwriter) (n : nat) : qwriter :=
  mkQW (qw_limit w) (qw_batch w) (qw_next w) (qw_attempted w + n) (qw_failed w) (qw_corpus w)
    (qw_exhausted w) (qw_paused w) (qw_threads w).
Definition add_failed (w : qwriter) (n : nat) : qwriter :=
  mkQW (qw_limit w) (qw_batch w) (qw_next w) (qw_attempted w) (qw_failed w + n) (qw_corpus w)
    (qw_exhausted w) (qw_paused w) (qw_threads w).
(** [vector_of], [confirmed_at] and [_append_corpus] for every item, under one lock. *)
Definition confirm_batch (w : qwriter) (b : list nat) : qwriter :=
  mkQW (qw_limit w) (qw_batch w) (qw_next w) (qw_attempted w) (qw_failed w) (qw_corpus w ++ b)
    (qw_exhausted w) (qw_paused w) (qw_threads w).
Definition set_paused (w : qwriter) (p : bool) : qwriter :=
  mkQW (qw_limit w) (qw_batch w) (qw_next w) (qw_attempted w) (qw_failed w) (qw_corpus w)
    (qw_exhausted w) p (qw_threads w).

Definition qw_step (w : qwriter) (e : qwevent) : option qwriter :=
  match e with
  | QPause => Some (set_paused w true)
  | QResume => Some (set_paused w false)
  | QCheck t =>
      match qw_threads w !! t with
      | Some QTop => if qw_paused w then None else Some (set_thread w t QChecked)
      | _ => None
      end
  | QHalt t =>
      match qw_threads w !! t with
      | Some QTop | Some QChecked => Some (set_thread w t QStop)
      | _ => None
      end
  | QMake t =>
      match qw_threads w !! t with
      | Some QChecked =>
          let '(b, w') := make_batch w in
          Some (set_thread w' t (match b with [] => QStop | _ => QMade b end))
      | _ => None
      end
  | QCount t =>
      match qw_threads w !! t with
      | Some (QMade b) => Some (set_thread (add_attempted w (length b)) t (QSent b))
      | _ => None
      end
  | QReply t h =>
      match qw_threads w !! t with
      | Some (QSent b) =>
          Some (set_thread (if status_ok h then confirm_batch w b else add_failed w (length b)) t QTop)
      | _ => None
      end
  end.

Fixpoint qw_run (w : qwriter) (es : list qwevent) : option qwriter :=
  match es with
  | [] => Some w
  | e :: es' => match qw_step w e with Some w' => qw_run w' es' | None => None end
  end.

(** ** [sample_once] *)

(** One replica's answers: the scroll pages, and the reply to the batch that asks for
    so many results, exactly or through the graph. *)
Record qreplies := mkQR {
  qr_scroll : nat -> nat -> option point_id -> option page;
  qr_search : nat -> bool -> option (list (list point_id));
}.

Definition q_probe_one (p : probe) (c : chan) (e : qreplies) (k : nat) (exact : bool) : rawrec :=
  let k_fetch := k * 3 in
  let '(c1, (ok_ids, local)) := q_list_local_ids c (qr_scroll e) 10000 10000 in
  let '(ok_search, obs) := if ok_ids then snd (q_search_batch c1 (qr_search e k_fetch exact)) else (false, []) in
  mkRaw p (ok_ids && ok_search) local obs [].

Section QSample.
Context {np : Numpy}.

Definition q_sample_once (probes : list probe) (env : probe -> chan * qreplies)
    (t : Q) (intended_all : gset string) (corpus : Corpus) (queries : list vec) (k : nat)
    (metric : string) (exact : bool) (probe_s : Q) (score_s : string -> Q)
    : result (list Sampler.row) :=
  score_raw t intended_all corpus queries k metric false
    (foldl (fun raw p => dset (p_name p) (q_probe_one p (env p).1 (env p).2 k exact) raw) [] probes)
    probe_s score_s.
End QSample.

(** [telemetry_loop]: per round, a row for every node that answered 200 and an error
    for every call that raised. *)
Record tele_row := mkTele { tr_t : Q; tr_node : nat; tr_coll : coll }.

Definition tele_node (t : Q) (reply : nat -> http coll) (acc : list tele_row * list nat) (n : nat)
    : list tele_row * list nat :=
  match reply n with
  | HttpExn => (acc.1, acc.2 ++ [n])
  | HttpResp st c => if (st =? 200)%Z then (acc.1 ++ [mkTele t n c], acc.2) else acc
  end.

Definition telemetry_loop (node_ids : list nat) (rounds : list (Q * (nat -> http coll)))
    : list tele_row * list nat :=
  foldl (fun acc r => foldl (tele_node r.1 r.2) acc node_ids) ([], []) rounds.

(** [for name in OUTPUT_FILES]: what startup leaves in the output directory. *)
Definition OUTPUT_FILES : list string :=
  ["samples.csv"; "events.json"; "run_meta.json"; "telemetry.csv"]%string.

Definition clear_outputs (dir : gset string) : gset string :=
  dir ∖ list_to_set OUTPUT_FILES.

(** ** Score at the gate *)

(** [{r["name"]: r for r in rows}], then
    [float(r["index_recall"]) - float(other[...]["index_recall"])]: a blank cell is the
    empty string, which is not [None] and which [float] refuses. *)
Definition by_name (rows : list Sampler.row) : list (string * option Q) :=
  foldl (fun d r => dset (r_name r) (r_index_recall r) d) [] rows.

Definition delta_of (other : list (string * option Q)) (r : Sampler.row)
    : result (string * option Q) :=
  match dget (r_name r) other with
  | None => Ok (r_name r, None)
  | Some o =>
      match r_index_recall r, o with
      | Some a, Some b => Ok (r_name r, Some (round_nd 6 (a - b)))
      | _, _ => Raise ValueError
      end
  end.

Definition recall_delta (after other : list Sampler.row) : result (list (string * option Q)) :=
  rmapM (delta_of (by_name other)) after.

(** ** Columns of [samples.csv] *)

Definition CANONICAL : list string :=
  ["t_rel"; "shard"; "replica"; "name"; "reachable"; "index_recall"; "e2e_recall"; "completeness";
   "n_local"; "n_intended"; "shard_agreement"; "loo_agreement"; "n_confirmed_settled"; "probe_s";
   "score_s"]%string.

Definition csv_columns (row_keys : list (list string)) : list string :=
  CANONICAL ++ sorted str_leb
    (List.filter (fun k => negb (bool_decide (k ∈ CANONICAL)) && negb (bool_decide (k = "t"%string)))
       (remove_dups (concat row_keys))).

(** ** [bring_up_cluster] and the run *)

Record run_args := mkArgs {
  ra_no_chaos : bool;
  ra_duration : Q;
  ra_pre_chaos_s : Q;
  ra_chaos_duration : option Q;
  ra_kill_schedule : option string;
  ra_kill_count : Z;
  ra_kill_target : option string;
  ra_index_gate : bool;
  ra_gate_tol : Q;
  ra_gate_consecutive : Z;
  ra_gate_timeout : Q;
  ra_score_at_gate : bool;
  ra_warmup_until : option nat;
}.

(** [return 2] / [return 1] before anything is started. *)
Definition check_args (a : run_args) : option nat :=
  if ra_index_gate a && (ra_gate_consecutive a <? 1)%Z then Some 2
  else if ra_index_gate a && negb (Qle_bool 0 (ra_gate_tol a) && Qltb (ra_gate_tol a) 1) then Some 2
  else if match ra_kill_schedule a with Some s => negb (bool_decide (s = ""%string)) | None => false end
          && ra_no_chaos a then Some 2
  else if match ra_chaos_duration a with Some _ => true | None => false end && ra_no_chaos a
  then Some 1
  else None.

(** The polls of the extended warm-up: (confirmed, exhausted, clock past the cap). *)
Fixpoint warmup (target : nat) (polls : list (nat * bool * bool)) : option (result nat) :=
  match polls with
  | [] => None
  | (n_conf, exhausted, late) :: rest =>
      if target <=? n_conf then Some (Ok n_conf)
      else if exhausted || late then Some (Raise (OtherError "exit 4"))
      else warmup target rest
  end.

Inductive stage : Type :=
| SBringUp | SWarmup | SGate | SSampler | SPreChaos | SChaos | SQuiesce | SResults | STeardown.

#[export] Instance stage_eq_dec : EqDecision stage.
Proof. solve_decision. Defined.

(** What the run meets. *)
Record run_in := mkIn {
  in_up : bool * result bool * result bool * result bool * result bool;
    (* compose up; then nodes, cluster, collection, shards: each answers or raises *)
  in_warm : list (nat * bool * bool);
  in_gate : list (list IndexGate.row * Q);
  in_before : list Sampler.row;
  in_after : list Sampler.row;
  in_exact : list Sampler.row;
}.

Definition bring_up_cluster (u : bool * result bool * result bool * result bool * result bool)
    : result bool :=
  let '(compose, nodes, cluster, collection, shards) := u in
  if negb compose then Ok false
  else
    ready ← nodes;
    if negb ready then Ok false
    else
      formed ← cluster;
      if negb formed then Ok false
      else
        created ← collection;
        if negb created then Ok false
        else
          active ← shards;
          Ok active.

(** [_chaos_thread]: the schedule is built when the chaos thread is made. *)
Definition chaos_thread (a : run_args) (window_s : Q) : result (option (list kstep)) :=
  match ra_kill_schedule a with
  | Some s =>
      if bool_decide (s = ""%string) then Ok None
      else Some <$> build_kill_schedule s (container_name <$> seq 0 Q_REPLICAS_PER_SHARD)
                      (ra_kill_count a) window_s (ra_kill_target a)
  | None => Ok None
  end.

(** The stages entered and how they ended: go on, return a code, or raise. *)
Inductive flow : Type :=
| Go
| Return (code : nat)
| Throw (e : exn).

Definition warm_phase (a : run_args) (i : run_in) : option flow :=
  match ra_warmup_until a with
  | None => Some Go
  | Some target =>
      match warmup target (in_warm i) with
      | None => None
      | Some (Ok _) => Some Go
      | Some (Raise _) => Some (Return 4)
      end
  end.

(** The gate; [None] when its rounds run out before it decides. *)
Definition gate_phase (a : run_args) (i : run_in) : option flow :=
  if negb (ra_index_gate a) then Some Go
  else
    match wait_for_index_gate (ra_gate_tol a) (ra_gate_consecutive a) (ra_gate_timeout a)
            (in_gate i) [] with
    | Raise e => Some (Throw e)
    | Ok None => None
    | Ok (Some g) =>
        if negb (g_closed g) then Some (Return 3)
        else if ra_score_at_gate a then
          match recall_delta (in_after i) (in_exact i), recall_delta (in_after i) (in_before i) with
          | Ok _, Ok _ => Some Go
          | Raise e, _ | _, Raise e => Some (Throw e)
          end
        else Some Go
    end.

(** The fault phases and the stages they enter. *)
Definition chaos_phase (a : run_args) : list stage * flow :=
  if ra_no_chaos a then ([], Go)
  else
    match ra_chaos_duration a with
    | None =>
        match chaos_thread a (ra_duration a) with
        | Raise e => ([], Throw e)
        | Ok _ => ([SChaos], Go)
        end
    | Some cd =>
        if Qle_bool (ra_duration a - ra_pre_chaos_s a - cd) 0 then ([STeardown], Return 1)
        else
          match chaos_thread a cd with
          | Raise e => ([SPreChaos], Throw e)
          | Ok _ => ([SPreChaos; SChaos; SQuiesce], Go)
          end
    end.

(** [_run_experiment_body] *)
Definition run_body (a : run_args) (i : run_in) : option (list stage * flow) :=
  match warm_phase a i with
  | None => None
  | Some Go =>
      match gate_phase a i with
      | None => None
      | Some Go =>
          let '(stages, f) := chaos_phase a in
          let pre := SWarmup :: (if ra_index_gate a then [SGate] else []) ++ SSampler :: stages in
          match f with
          | Go => Some (pre ++ [SResults], Return 0)
          | _ => Some (pre, f)
          end
      | Some f => Some ([SWarmup; SGate], f)
      end
  | Some f => Some ([SWarmup], f)
  end.

(** [main]: the [finally] tears the cluster down however the body ends. *)
Definition qrun_main (a : run_args) (i : run_in) : option (list stage * flow) :=
  match check_args a with
  | Some code => Some ([], Return code)
  | None =>
      match bring_up_cluster (in_up i) with
      | Raise e => Some ([SBringUp; STeardown], Throw e)
      | Ok false => Some ([SBringUp; STeardown], Return 1)
      | Ok true =>
          match run_body a i with
          | None => None
          | Some (stages, f) => Some (SBringUp :: stages ++ [STeardown], f)
          end
      end
  end.

(** ** Kill counters of [run_meta.json] *)

Record kill_meta := mkKM { km_count : nat; km_failures : nat; km_no_kills : bool }.

(** [qe_failed] is empty for an event written with [failed: False]. *)
Definition kill_meta_of (no_chaos : bool) (events : list qevent) : kill_meta :=
  let failed (e : qevent) := match qe_failed e with Some _ => true | None => false end in
  mkKM (length (List.filter (fun e => negb (failed e)) events))
    (length (List.filter failed events))
    (negb no_chaos && negb (existsb (fun e => negb (failed e)) events)).

(** ** The writers *)

Definition batch_of (pc : qpc) : list nat :=
  match pc with QMade b | QSent b => b | _ => [] end.

Definition sent_of (pc : qpc) : nat :=
  match pc with QSent b => length b | _ => 0 end.

Definition outstanding (ts : list qpc) : list nat := concat (batch_of <$> ts).
Definition in_flight (ts : list qpc) : nat := sum_list_with sent_of ts.

(** Replacing one thread's state moves its batch in and out of the total. *)
Lemma outstanding_insert ts t pc pc' :
  ts !! t = Some pc ->
  batch_of pc ++ outstanding (<[t := pc']> ts) ≡ₚ batch_of pc' ++ outstanding ts.
Proof.
  revert t. induction ts as [|x ts IH]; intros [|t] H; simplify_eq/=.
  - unfold outstanding. csimpl. rewrite !app_assoc. apply Permutation_app_tail, Permutation_app_comm.
  - unfold outstanding in *. csimpl. rewrite !app_assoc.
    rewrite (Permutation_app_comm _ (batch_of x)), (Permutation_app_comm _ (batch_of x)).
    rewrite <- !app_assoc. by rewrite IH.
Qed.

Lemma sum_with_insert (f : qpc -> nat) ts t pc pc' :
  ts !! t = Some pc ->
  f pc + sum_list_with f (<[t := pc']> ts) = f pc' + sum_list_with f ts.
Proof.
  revert t. induction ts as [|x ts IH]; intros [|t] H; simplify_eq/=; [lia|].
  specialize (IH _ H). lia.
Qed.

Record qw_inv (w : qwriter) : Prop := {
  qi_nodup : NoDup (qw_corpus w ++ outstanding (qw_threads w));
  qi_below : Forall (fun i => i < qw_next w) (qw_corpus w ++ outstanding (qw_threads w));
  qi_limit : forall len, qw_limit w = Some len -> qw_next w <= len;
  qi_count : qw_attempted w = length (qw_corpus w) + qw_failed w + in_flight (qw_threads w);
  qi_exhausted : qw_exhausted w = true ->
                 qw_batch w = 0 \/ qw_limit w = Some (qw_next w);
}.

Lemma qw_init_inv limit b n : qw_inv (qw_init limit b n).
Proof.
  assert (outstanding (replicate n QTop) = []) as Ho
    by (unfold outstanding; by induction n).
  assert (in_flight (replicate n QTop) = 0) as Hf
    by (clear Ho; unfold in_flight; by induction n).
  split; simpl; rewrite ?Ho, ?Hf; auto with lia; by apply NoDup_nil.
Qed.

(** Changing a thread's state without touching the numbers it holds. *)
Lemma outstanding_same ts t pc pc' :
  ts !! t = Some pc -> batch_of pc' = batch_of pc -> outstanding (<[t := pc']> ts) ≡ₚ outstanding ts.
Proof.
  intros Et Hb. pose proof (outstanding_insert _ _ _ pc' Et) as Ho. rewrite Hb in Ho.
  by apply Permutation_app_inv_l in Ho.
Qed.

Lemma qw_inv_move w t pc pc' attempted :
  qw_inv w -> qw_threads w !! t = Some pc -> batch_of pc' = batch_of pc ->
  attempted + sent_of pc = qw_attempted w + sent_of pc' ->
  qw_inv (mkQW (qw_limit w) (qw_batch w) (qw_next w) attempted (qw_failed w) (qw_corpus w)
            (qw_exhausted w) (qw_paused w) (<[t := pc']> (qw_threads w))).
Proof.
  intros [Hnd Hlt Hlim Hcnt Hex] Et Hb Ha.
  pose proof (sum_with_insert sent_of _ _ _ pc' Et) as Hf.
  split; simpl; rewrite ?(outstanding_same _ _ _ _ Et Hb); unfold in_flight in *; auto; lia.
Qed.

Lemma qw_inv_make w t :
  qw_inv w -> qw_threads w !! t = Some QChecked ->
  let '(b, w') := make_batch w in
  qw_inv (set_thread w' t (match b with [] => QStop | _ => QMade b end)).
Proof.
  intros [Hnd Hlt Hlim Hcnt Hex] Et. unfold make_batch.
  set (n := match qw_limit w with Some _ => _ | None => _ end).
  set (pc' := match seq (qw_next w) n with [] => QStop | _ => _ end).
  pose proof (outstanding_insert _ _ _ pc' Et) as Ho.
  pose proof (sum_with_insert sent_of _ _ _ pc' Et) as Hf.
  assert (batch_of pc' = seq (qw_next w) n) as Hb by (unfold pc'; by destruct n).
  assert (sent_of pc' = 0) as Hsent by (unfold pc'; by destruct n).
  rewrite Hb in Ho. simpl in Ho.
  split; simpl; rewrite ?Ho.
  - rewrite (Permutation_app_comm (seq _ _)), app_assoc. apply NoDup_app. split_and!; [done| |apply NoDup_seq].
    intros i Hi Hi'. rewrite Forall_forall in Hlt. apply Hlt in Hi. apply elem_of_seq in Hi'. lia.
  - rewrite (Permutation_app_comm (seq _ _)), app_assoc. apply Forall_app. split.
    + eapply Forall_impl; [exact Hlt|]. simpl. lia.
    + apply Forall_forall. intros i Hi%elem_of_seq. lia.
  - intros len Hl. specialize (Hlim _ Hl). unfold n. rewrite Hl. lia.
  - unfold in_flight in *. simpl in Hf. lia.
  - intros [Hx|Hx]%orb_true_iff.
    + destruct (Hex Hx) as [|Hl]; [by left|right]. unfold n. rewrite Hl. f_equal. lia.
    + breflect. destruct (qw_limit w) as [len|] eqn:Hl; [|done].
      specialize (Hlim _ eq_refl). unfold n in *. destruct (decide (qw_batch w = 0)); [by left|].
      right. f_equal. lia.
Qed.

Lemma qw_inv_reply w t b ok :
  qw_inv w -> qw_threads w !! t = Some (QSent b) ->
  qw_inv (set_thread (if ok : bool then confirm_batch w b else add_failed w (length b)) t QTop).
Proof.
  intros [Hnd Hlt Hlim Hcnt Hex] Et.
  pose proof (outstanding_insert _ _ _ QTop Et) as Ho. simpl in Ho.
  pose proof (sum_with_insert sent_of _ _ _ QTop Et) as Hf. simpl in Hf.
  rewrite <- Ho in Hnd, Hlt. unfold in_flight in *. destruct ok; split; simpl; auto.
  - by rewrite <- app_assoc.
  - by rewrite <- app_assoc.
  - unfold in_flight. rewrite length_app. lia.
  - apply NoDup_app in Hnd as (H1 & H2 & H3). apply NoDup_app in H3 as (_ & _ & H3).
    apply NoDup_app. split_and!; auto. intros x Hx Hx'. apply (H2 x Hx). apply elem_of_app. by right.
  - rewrite !Forall_app in Hlt. apply Forall_app. naive_solver.
  - unfold in_flight. lia.
Qed.

Lemma qw_step_inv w e w' : qw_inv w -> qw_step w e = Some w' -> qw_inv w'.
Proof.
  intros Hi Hs. unfold qw_step in Hs.
  destruct e as [t|t|t|t h|t| | ]; simplify_eq/=; try by (destruct Hi; split).
  all: destruct (qw_threads w !! t) as [[| |b|b| ]|] eqn:Et; try done.
  - destruct (qw_paused w); [done|]. simplify_eq. by eapply qw_inv_move.
  - pose proof (qw_inv_make w t Hi Et) as Hm. simplify_eq. exact Hm.
  - simplify_eq. apply (qw_inv_move w t (QMade b) (QSent b)); simpl; auto; lia.
  - simplify_eq. by apply qw_inv_reply.
  - simplify_eq. by eapply qw_inv_move.
  - simplify_eq. by eapply qw_inv_move.
Qed.

Lemma qw_run_inv es w w' : qw_inv w -> qw_run w es = Some w' -> qw_inv w'.
Proof.
  revert w. induction es as [|e es IH]; intros w Hi H; simplify_eq/=; [done|].
  destruct (qw_step w e) as [w1|] eqn:E; [|done]. eauto using qw_step_inv.
Qed.

Lemma qw_step_fixed w e w' :
  qw_step w e = Some w' -> qw_limit w' = qw_limit w /\ qw_batch w' = qw_batch w.
Proof.
  unfold qw_step, make_batch. intros H.
  destruct e as [t|t|t|t h|t| | ]; simplify_eq/=; try done.
  all: destruct (qw_threads w !! t) as [[| |b|b| ]|]; simplify_eq/=; try done.
  - by destruct (qw_paused w); simplify_eq.
  - by destruct (status_ok h).
Qed.

Lemma qw_run_fixed es w w' :
  qw_run w es = Some w' -> qw_limit w' = qw_limit w /\ qw_batch w' = qw_batch w.
Proof.
  revert w. induction es as [|e es IH]; intros w H; simplify_eq/=; [done|].
  destruct (qw_step w e) as [w1|] eqn:E; [|done].
  apply qw_step_fixed in E as [<- <-]. eauto.
Qed.

(** Under every interleaving of the batching writers, pauses and stops: no number is
    confirmed twice, every confirmed number was handed out, a finite corpus is never
    overrun, and every attempted vector is confirmed, failed or in a request not yet
    answered. A writer only reports the corpus exhausted when every row of it has been
    handed out. *)
Theorem qwriter_invariant limit batch threads es w :
  qw_run (qw_init limit batch threads) es = Some w ->
  NoDup (qw_corpus w) /\
  Forall (fun i => i < qw_next w) (qw_corpus w) /\
  (forall len, limit = Some len -> qw_next w <= len) /\
  qw_attempted w = length (qw_corpus w) + qw_failed w + in_flight (qw_threads w) /\
  (qw_exhausted w = true -> 0 < batch -> limit = Some (qw_next w)).
Proof.
  intros H. pose proof (qw_run_fixed _ _ _ H) as [Hl Hb]. simpl in Hl, Hb.
  apply qw_run_inv in H as [Hnd Hlt Hlim Hcnt Hex]; [|apply qw_init_inv].
  rewrite Hl, Hb in *. apply NoDup_app in Hnd as [? _]. apply Forall_app in Hlt as [? _].
  split_and!; auto. intros Hx Hpos. destruct (Hex Hx); [lia|done].
Qed.

(** Two threads on a corpus of five: one batch refused, one cut short at the end. *)
Definition demo_wevents : list qwevent :=
  [QCheck 0; QCheck 1; QMake 1; QMake 0; QCount 0; QCount 1; QPause;
   QReply 1 (HttpResp 200 ()); QReply 0 HttpExn; QResume; QCheck 0; QMake 0; QCount 0;
   QReply 0 (HttpResp 200 ()); QCheck 1; QMake 1]%Z.

Lemma qwriter_invariant_witness :
  exists w, qw_run (qw_init (Some 5) 2 2) demo_wevents = Some w /\
    qw_corpus w = [0; 1; 4] /\ qw_exhausted w = true /\ NoDup (qw_corpus w) /\
    qw_attempted w = length (qw_corpus w) + qw_failed w + in_flight (qw_threads w).
Proof.
  eexists. split; [vm_compute; reflexivity|]. split; [done|]. split; [done|].
  edestruct (qwriter_invariant (Some 5) 2 2 demo_wevents) as (H1 & _ & _ & H4 & _);
    [vm_compute; reflexivity|]. by split.
Defined.

(** What a thread may still add to the corpus without passing the pause test again. *)
Definition may_add (batch : nat) (pc : qpc) : nat :=
  match pc with
  | QChecked => batch
  | QMade b | QSent b => length b
  | QTop | QStop => 0
  end.

Lemma qw_step_paused w e w' :
  qw_paused w = true -> e <> QResume -> qw_step w e = Some w' ->
  qw_paused w' = true /\ qw_corpus w `prefix_of` qw_corpus w' /\
  length (qw_corpus w') + sum_list_with (may_add (qw_batch w')) (qw_threads w') <=
  length (qw_corpus w) + sum_list_with (may_add (qw_batch w)) (qw_threads w).
Proof.
  intros Hp He Hs. unfold qw_step, make_batch in Hs.
  destruct e as [t|t|t|t h|t| | ]; simplify_eq/=; try done.
  all: destruct (qw_threads w !! t) as [pc|] eqn:Et; [|done].
  all: pose proof (fun pc' => sum_with_insert (may_add (qw_batch w)) _ _ _ pc' Et) as Hf.
  all: destruct pc as [| |b|b| ]; try done; rewrite ?Hp in *; simplify_eq/=.
  - split_and!; [done..|]. set (n := match qw_limit w with Some _ => _ | None => _ end).
    specialize (Hf (match seq (qw_next w) n with [] => QStop | _ => QMade (seq (qw_next w) n) end)).
    assert (n <= qw_batch w) by (unfold n; destruct (qw_limit w); lia).
    destruct n; simpl in *; rewrite ?length_seq in *; lia.
  - split_and!; [done..|]. specialize (Hf (QSent b)). simpl in *. lia.
  - specialize (Hf QTop). simpl in Hf. destruct (status_ok h); simpl.
    + split_and!; [done|by eexists|]. rewrite length_app. lia.
    + split_and!; [done..|]. lia.
  - split_and!; [done..|]. specialize (Hf QStop). simpl in *. lia.
  - split_and!; [done..|]. specialize (Hf QStop). simpl in *. lia.
Qed.

(** While the gate holds the writers paused, the corpus keeps everything it had and
    grows by at most what the threads already past the pause test carry; once every
    thread is idle it does not change at all. *)
Theorem paused_corpus_bounded es w w' :
  qw_paused w = true -> QResume ∉ es -> qw_run w es = Some w' ->
  qw_corpus w `prefix_of` qw_corpus w' /\
  length (qw_corpus w') <= length (qw_corpus w) +
                           sum_list_with (may_add (qw_batch w)) (qw_threads w) /\
  (Forall (fun pc => pc = QTop \/ pc = QStop) (qw_threads w) -> qw_corpus w' = qw_corpus w).
Proof.
  intros Hp Hr Hrun.
  assert (qw_corpus w `prefix_of` qw_corpus w' /\
          length (qw_corpus w') + sum_list_with (may_add (qw_batch w')) (qw_threads w') <=
          length (qw_corpus w) + sum_list_with (may_add (qw_batch w)) (qw_threads w)) as [Hpre Hle].
  { revert w Hp Hrun. induction es as [|e es IH]; intros w Hp Hrun; simplify_eq/=; [done|].
    apply not_elem_of_cons in Hr as [He Hr]. destruct (qw_step w e) as [w1|] eqn:E; [|done].
    apply qw_step_paused in E as (Hp1 & Hpre1 & Hle1); [|done..].
    destruct (IH Hr w1 Hp1 Hrun) as [Hpre Hle]. split; [by etrans|lia]. }
  split_and!; [done|lia|]. intros Hidle.
  assert (sum_list_with (may_add (qw_batch w)) (qw_threads w) = 0) as H0.
  { clear -Hidle. induction Hidle as [|pc ts [-> | ->] _ IH]; simpl; auto. }
  destruct Hpre as [l Hl]. rewrite Hl, length_app in Hle. rewrite Hl.
  destruct l; [by rewrite app_nil_r|simpl in Hle; lia].
Qed.

(** The corpus does grow after the pause when a batch is in flight. *)
Definition demo_paused : qwriter :=
  default (qw_init None 2 1) (qw_run (qw_init None 2 1) [QCheck 0; QMake 0; QCount 0; QPause]).
Definition demo_replied : qwriter :=
  default (qw_init None 2 1) (qw_run demo_paused [QReply 0 (HttpResp 200%Z ())]).

Lemma paused_corpus_bounded_witness :
  qw_paused demo_paused = true /\ qw_corpus demo_paused = [] /\
  qw_corpus demo_replied = [0; 1] /\
  length (qw_corpus demo_replied) <=
    0 + sum_list_with (may_add (qw_batch demo_paused)) (qw_threads demo_paused).
Proof.
  split; [done|]. split; [done|]. split; [done|].
  apply (paused_corpus_bounded [QReply 0 (HttpResp 200%Z ())] demo_paused demo_replied);
    [done| |reflexivity].
  intros Hc. by apply list_elem_of_singleton in Hc.
Defined.

(** ** Sweeps and telemetry *)

(** A Qdrant sweep on vectors of one dimension never raises either: one row per
    replica, cells in range. *)
Lemma q_sample_once_total (np : Numpy) probes env t intended_all corpus queries k metric exact
    probe_s score_s dim :
  NumpyLaws np -> NoDup (p_name <$> probes) ->
  corpus_wf corpus -> corpus_dim dim corpus -> queries_dim dim queries -> 0 < k -> known_metric metric ->
  exists rows, q_sample_once probes env t intended_all corpus queries k metric exact probe_s score_s
                 = Ok rows /\
    r_name <$> rows ≡ₚ p_name <$> probes /\ Forall row_ok rows.
Proof.
  intros laws Hnd Hwf Hc Hqd Hk Hm. unfold q_sample_once.
  pose proof (dset_probes_keys
    (fun p => q_probe_one p (env p).1 (env p).2 k exact) probes Hnd) as Hkeys.
  destruct (score_raw_total corpus queries dim k metric Hwf Hc Hqd Hk Hm t intended_all false _ probe_s score_s
    ltac:(by rewrite Hkeys)) as (rows & -> & Hn & Hok).
  exists rows. split_and!; [done| |done]. by rewrite Hn, Hkeys.
Qed.

Definition tele_rows (node_ids : list nat) (r : Q * (nat -> http coll)) : list tele_row :=
  omap (fun n => match r.2 n with
                 | HttpResp st c => if (st =? 200)%Z then Some (mkTele r.1 n c) else None
                 | HttpExn => None
                 end) node_ids.
Definition tele_errors (node_ids : list nat) (r : Q * (nat -> http coll)) : list nat :=
  List.filter (fun n => match r.2 n with HttpExn => true | _ => false end) node_ids.

Lemma telemetry_round ns r acc :
  foldl (tele_node r.1 r.2) acc ns = (acc.1 ++ tele_rows ns r, acc.2 ++ tele_errors ns r).
Proof.
  unfold tele_rows, tele_errors.
  revert acc. induction ns as [|n ns IH]; intros acc; simpl; [rewrite !app_nil_r; by destruct acc|].
  rewrite IH. unfold tele_node.
  destruct (r.2 n) as [|st c]; [|destruct (st =? 200)%Z]; simpl; by rewrite <- ?app_assoc.
Qed.

(** Telemetry has one row for each call answered 200 and one error for each that raised. *)
Lemma telemetry_loop_spec ns rounds :
  telemetry_loop ns rounds = (concat (tele_rows ns <$> rounds), concat (tele_errors ns <$> rounds)).
Proof.
  unfold telemetry_loop. induction rounds as [|r rounds IH] using rev_ind; [done|].
  rewrite foldl_app, !fmap_app, !concat_app. cbn [foldl]. rewrite IH, telemetry_round. simpl.
  by rewrite !app_nil_r.
Qed.

(** ** The run *)

Lemma by_name_spec rows nm :
  match dget nm (by_name rows) with
  | Some o => exists r, r ∈ rows /\ r_name r = nm /\ r_index_recall r = o
  | None => nm ∉ r_name <$> rows
  end.
Proof.
  unfold by_name. induction rows as [|r rows IH] using rev_ind; simpl; [apply not_elem_of_nil|].
  rewrite foldl_app. simpl. rewrite dget_dset. case_decide as Hd.
  - subst. exists r. split_and!; [|done..]. apply elem_of_app. right. by left.
  - destruct (dget nm _) as [o|].
    + destruct IH as (r' & Hr & ?). exists r'. split; [|done]. apply elem_of_app. by left.
    + rewrite fmap_app. intros [?|Hc]%elem_of_app; [done|].
      by apply list_elem_of_singleton in Hc.
Qed.

Lemma delta_of_name d r y : delta_of d r = Ok y -> y.1 = r_name r.
Proof. unfold delta_of. repeat case_match; by intros [= <-]. Qed.

Lemma delta_of_raise d r e : delta_of d r = Raise e -> e = ValueError.
Proof. unfold delta_of. repeat case_match; by intros [= <-]. Qed.

(** Comparing two sweeps at the gate gives one entry per replica of the later sweep
    when every replica was scored in both; if a replica of the later sweep has a blank
    cell and is also in the earlier one, the comparison raises, which ends the run. *)
Theorem recall_delta_spec after other :
  (Forall (fun r => r_index_recall r <> None) (after ++ other) ->
     exists d, recall_delta after other = Ok d /\ d.*1 = r_name <$> after) /\
  (forall r, r ∈ after -> r_index_recall r = None -> r_name r ∈ r_name <$> other ->
     recall_delta after other = Raise ValueError).
Proof.
  unfold recall_delta. split.
  - intros [Ha Ho]%Forall_app. rewrite Forall_forall in Ha, Ho.
    destruct (rmapM_total (delta_of (by_name other)) after) as [d Hd].
    + intros r Hr. unfold delta_of. pose proof (by_name_spec other (r_name r)) as Hs.
      destruct (dget _ _) as [o|]; [|eauto]. destruct Hs as (r' & Hr' & _ & <-).
      specialize (Ha r Hr). specialize (Ho r' Hr'). simpl in *.
      destruct (r_index_recall r), (r_index_recall r'); try done. eauto.
    + exists d. split; [exact Hd|]. apply rmapM_Ok in Hd. clear -Hd.
      induction Hd as [|r y rs ys Hry _ IH]; [done|]. csimpl. f_equal; [|done].
      by eapply delta_of_name.
  - intros r Hr Hn Hin. induction after as [|r0 rs IH]; [by apply not_elem_of_nil in Hr|]. simpl.
    destruct (delta_of (by_name other) r0) as [y|e] eqn:E0; simpl; [|by rewrite (delta_of_raise _ _ _ E0)].
    apply elem_of_cons in Hr as [->|Hr]; [|by rewrite IH].
    pose proof (by_name_spec other (r_name r0)) as Hs. unfold delta_of in E0.
    destruct (dget _ _) as [o|]; [by rewrite Hn in E0|done].
Qed.

(** *** Stages *)

Lemma gate_phase_closed a i :
  gate_phase a i = Some Go -> ra_index_gate a = true ->
  exists g, wait_for_index_gate (ra_gate_tol a) (ra_gate_consecutive a) (ra_gate_timeout a)
              (in_gate i) [] = Ok (Some g) /\ g_closed g = true.
Proof.
  unfold gate_phase. intros H Hg. rewrite Hg in H. simpl in H. destruct (wait_for_index_gate _ _ _ _ _) as [[g|]|]; try done.
  destruct (g_closed g) eqn:Eg; simpl in H; eauto. done.
Qed.

Lemma gate_phase_exit a i code :
  gate_phase a i = Some (Return code) ->
  code = 3 /\ exists g, wait_for_index_gate (ra_gate_tol a) (ra_gate_consecutive a) (ra_gate_timeout a)
              (in_gate i) [] = Ok (Some g) /\ g_closed g = false.
Proof.
  unfold gate_phase. intros H. destruct (ra_index_gate a); simpl in H; [|done].
  destruct (wait_for_index_gate _ _ _ _ _) as [[g|]|]; try done.
  destruct (g_closed g) eqn:Eg; simpl in H; [|simplify_eq; eauto].
  repeat case_match; done.
Qed.

Lemma warm_phase_exit a i code : warm_phase a i = Some (Return code) -> code = 4.
Proof. unfold warm_phase. repeat case_match; congruence. Qed.

Lemma chaos_phase_shape a stages f :
  chaos_phase a = (stages, f) ->
  SResults ∉ stages /\ SSampler ∉ stages /\ SBringUp ∉ stages /\
  (f = Go \/ f = Return 1 \/ exists e, f = Throw e).
Proof.
  unfold chaos_phase. intros H.
  repeat case_match; simplify_eq; split_and!; try decide_now; eauto.
Qed.

(** What can be said of a finished body, whichever way it ended. *)
Record body_ok (a : run_args) (i : run_in) (stages : list stage) (f : flow) : Prop := {
  bo_results : SResults ∈ stages <-> f = Return 0;
  bo_sampler : SSampler ∈ stages -> gate_phase a i = Some Go;
  bo_measured : SResults ∈ stages -> SSampler ∈ stages;
  bo_refused : f = Return 3 -> SSampler ∉ stages /\ gate_phase a i = Some (Return 3);
  bo_go : f <> Go;
}.

Lemma run_body_ok a i stages f : run_body a i = Some (stages, f) -> body_ok a i stages f.
Proof.
  unfold run_body. intros H.
  destruct (warm_phase a i) as [[|code|e]|] eqn:Ew; simplify_eq.
  - destruct (gate_phase a i) as [[|code|e]|] eqn:Eg; simplify_eq.
    + destruct (chaos_phase a) as [st f'] eqn:Ec.
      apply chaos_phase_shape in Ec as (H1 & H2 & _ & H3).
      set (pre := SWarmup :: _) in H.
      assert (SResults ∉ pre) as Hp.
      { unfold pre. destruct (ra_index_gate a); simpl; set_solver. }
      assert (SSampler ∈ pre) as Hs.
      { unfold pre. destruct (ra_index_gate a); simpl; set_solver. }
      destruct H3 as [->|[->|[e ->]]]; simplify_eq; split; try set_solver.
    + apply gate_phase_exit in Eg as Hg. destruct Hg as [-> _]. split; set_solver.
    + split; set_solver.
  - apply warm_phase_exit in Ew as ->. split; set_solver.
  - split; set_solver.
Qed.

(** C5. With [--index-gate], a run that starts its sampler has seen the last
    [consecutive] polls all report every replica's corpus indexed. *)
Theorem gated_run_measures_indexed a i stages f :
  qrun_main a i = Some (stages, f) -> ra_index_gate a = true -> SSampler ∈ stages ->
  exists made p elapsed rest, in_gate i = made ++ (p, elapsed) :: rest /\
    let full := made.*1 ++ [p] in
    (1 <= ra_gate_consecutive a <= Z.of_nat (length full))%Z /\
    Forall (poll_indexed (ra_gate_tol a))
      (drop (length full - Z.to_nat (ra_gate_consecutive a)) full).
Proof.
  unfold qrun_main. intros H Hg Hs.
  destruct (check_args a) as [code|] eqn:Ec; [simplify_eq; by apply not_elem_of_nil in Hs|].
  assert (1 <= ra_gate_consecutive a)%Z as Hc.
  { unfold check_args in Ec. rewrite Hg in Ec. simpl in Ec.
    destruct (ra_gate_consecutive a <? 1)%Z eqn:E; [done|]. breflect. lia. }
  destruct (bring_up_cluster _) as [[]|]; simplify_eq; [|set_solver..].
  destruct (run_body a i) as [[st f']|] eqn:Eb; simplify_eq.
  apply run_body_ok in Eb as [_ Hgo _ _ _].
  destruct (gate_phase_closed a i) as (g & Hw & Hcl); [apply Hgo; set_solver|done|].
  destruct (wait_for_index_gate_verdict _ _ _ _ _ Hc Hw) as (made & p & el & rest & Hr & Hiff & _).
  exists made, p, el, rest. split; [done|]. destruct (proj1 Hiff Hcl) as [Hle Hall]. by split.
Qed.

(** How a run can end. Arguments are refused before anything is started; otherwise
    the cluster is torn down last, whatever happened. Results are written exactly when
    the run returns 0, and then there were samples; exit 3 means the gate gave up open
    and no sampler ran. *)
Theorem qrun_main_outcomes a i stages f :
  qrun_main a i = Some (stages, f) ->
  (forall code, check_args a = Some code -> stages = [] /\ f = Return code) /\
  (check_args a = None -> head stages = Some SBringUp /\ last stages = Some STeardown) /\
  (SResults ∈ stages <-> f = Return 0) /\
  (SResults ∈ stages -> SSampler ∈ stages) /\
  (f = Return 3 -> SSampler ∉ stages /\
     exists g, wait_for_index_gate (ra_gate_tol a) (ra_gate_consecutive a) (ra_gate_timeout a)
                 (in_gate i) [] = Ok (Some g) /\ g_closed g = false).
Proof.
  unfold qrun_main. intros H.
  destruct (check_args a) as [code|] eqn:Ec.
  { assert (code = 1 \/ code = 2) as Hcode
      by (unfold check_args in Ec; repeat case_match; simplify_eq; auto).
    simplify_eq. split_and!; try done; set_solver. }
  split; [done|]. destruct (bring_up_cluster _) as [[]|]; simplify_eq; [|split_and!; set_solver..].
  destruct (run_body a i) as [[st f']|] eqn:Eb; simplify_eq.
  apply run_body_ok in Eb as [Hres _ Hm Href _]. split_and!.
  - intros _. split; [done|]. rewrite app_comm_cons. apply last_snoc.
  - rewrite <- Hres. set_solver.
  - set_solver.
  - intros Hf. apply Href in Hf as [Hns Hgp]. apply gate_phase_exit in Hgp as [_ Hg].
    split; [set_solver|done].
Qed.

Definition demo_args : run_args :=
  mkArgs false 180 30 (Some 60%Q) (Some "short-gap-same-node"%string) 3 None true 0 2 600 false (Some 100).
Definition demo_in : run_in :=
  mkIn (true, Ok true, Ok true, Ok true, Ok true) [(40, false, false); (120, false, false)]
    demo_rounds [] [] [].
Definition demo_stages : list stage :=
  [SBringUp; SWarmup; SGate; SSampler; SPreChaos; SChaos; SQuiesce; SResults; STeardown].

Lemma gated_run_measures_indexed_witness :
  exists made p elapsed rest, demo_rounds = made ++ (p, elapsed) :: rest /\
    Forall (poll_indexed 0) (drop (length (made.*1 ++ [p]) - 2) (made.*1 ++ [p])).
Proof.
  destruct (gated_run_measures_indexed demo_args demo_in demo_stages (Return 0))
    as (made & p & el & rest & Hr & _ & Hall); [vm_compute; reflexivity|done|decide_now|].
  exists made, p, el, rest. split; [exact Hr|exact Hall].
Defined.

Lemma qrun_main_outcomes_witness :
  qrun_main demo_args demo_in = Some (demo_stages, Return 0) /\
  (SResults ∈ demo_stages <-> Return 0 = Return 0) /\ last demo_stages = Some STeardown.
Proof.
  split; [vm_compute; reflexivity|].
  destruct (qrun_main_outcomes demo_args demo_in demo_stages (Return 0))
    as (_ & Hl & Hr & _); [vm_compute; reflexivity|].
  split; [exact Hr|]. apply Hl. vm_compute. reflexivity.
Defined.

(** A schedule too long for its window is refused only once the sampler and the
    settling phase have run. *)
Example infeasible_schedule_fails_late :
  qrun_main (mkArgs false 180 30 (Some 10%Q) (Some "short-gap-same-node"%string) 3 None
               false 0 2 600 false None) demo_in
  = Some ([SBringUp; SWarmup; SSampler; SPreChaos; STeardown], Throw ValueError).
Proof. vm_compute. reflexivity. Qed.

(** The record a failed gate leaves survives the clean-up of the next run. *)
Example stale_gate_record_survives :
  clear_outputs {["samples.csv"; "index_gate_failed.json"; "gate_scores.json"]}%string
  = {["index_gate_failed.json"; "gate_scores.json"]}%string.
Proof. vm_compute. reflexivity. Qed.

(** ** [samples.csv] and the kill counters *)

(** The header of [samples.csv] has every column once, starts with the canonical
    ones in order, and has a column for every key any row carries except [t], which
    becomes [t_rel]: [DictWriter] never meets an unknown field. *)
Theorem csv_columns_cover row_keys :
  NoDup (csv_columns row_keys) /\
  CANONICAL `prefix_of` csv_columns row_keys /\
  (forall keys k, keys ∈ row_keys -> k ∈ keys -> k <> "t"%string -> k ∈ csv_columns row_keys) /\
  ("t"%string ∉ csv_columns row_keys).
Proof.
  unfold csv_columns. set (extra := sorted _ _).
  assert (forall k, k ∈ extra <-> (k ∉ CANONICAL) /\ k <> "t"%string /\ k ∈ concat row_keys) as Hx.
  { intros k. unfold extra. rewrite elem_of_sorted, elem_of_bfilter, elem_of_remove_dups.
    rewrite andb_true_iff, !negb_true_iff, !bool_decide_eq_false. naive_solver. }
  split_and!.
  - apply NoDup_app. split_and!; [decide_now| |].
    + intros k Hk Hk'. by apply Hx in Hk' as [? _].
    + unfold extra. apply sorted_NoDup, NoDup_ListNoDup, List.NoDup_filter, NoDup_ListNoDup, NoDup_remove_dups.
  - by eexists.
  - intros keys k Hin Hk Ht. apply elem_of_app. destruct (decide (k ∈ CANONICAL)); [by left|right].
    apply Hx. split_and!; [done..|]. apply list_elem_of_In, in_concat.
    exists keys. by rewrite <- !list_elem_of_In.
  - intros [Hc|Hc]%elem_of_app; [|by apply Hx in Hc as (_ & ? & _)].
    revert Hc. decide_now.
Qed.

(** [kill_count] and [kill_failures] add up to the events, and [chaos_no_kills] is set
    exactly for a run that asked for chaos and completed no kill. *)
Lemma kill_meta_counts nc events :
  let m := kill_meta_of nc events in
  km_count m + km_failures m = length events /\
  (km_no_kills m = true <-> nc = false /\ km_count m = 0).
Proof.
  unfold kill_meta_of. simpl. induction events as [|e l [IH1 IH2]]; simpl; [destruct nc; naive_solver|].
  destruct (qe_failed e); simpl; (split; [lia|]); [done|].
  rewrite andb_false_r. naive_solver.
Qed.
