(* ===== verification/Forensics.v ===== *)
(** * Autopsy of an HNSW index file

    [research/replica_recall/graph_forensics.py]: the binary layout and
    [load_index], and [analyse] (degrees, in-degrees, reachability, link symmetry,
    layer occupancy). A file is the list of its bytes. *)

From stdpp Require Import base list gmap strings relations sorting.
From Stdlib Require Import QArith Lqa ZArith Lia.
From S2P Require Import Prelude PyFloat Bytes.

Local Open Scope nat_scope.

(** ** Layout *)

Definition HEADER_SIZE : nat := 64.
Definition MAX_LAYERS : nat := 4.
Definition M_MAX0 : nat := 32.
Definition VECTOR_DIM : nat := 128.
Definition NODE_SIZE : nat := 1056.
Definition NANODB_MAGIC : Z := 0x4E444200.
Definition NO_NEIGHBOR : Z := 0xFFFFFFFF.

Record node := mkNode {
  n_id : Z;
  n_max_layer : Z;
  n_deleted : Z;
  n_vector : list Z;                 (* the 128 words of the float32 array *)
  n_neighbors : list (list Z);       (* MAX_LAYERS x M_MAX0 *)
  n_counts : list Z;                 (* MAX_LAYERS *)
}.

Definition parse_node (b : list Z) : node :=
  mkNode (u32 (sub 0 4 b)) (i32 (sub 4 4 b)) (le_val (sub 8 1 b))
    (items u32 4 VECTOR_DIM (sub 12 512 b))
    (items (items u32 4 M_MAX0) 128 MAX_LAYERS (sub 524 512 b))
    (items i32 4 MAX_LAYERS (sub 1036 16 b)).

Record header := mkHeader {
  h_magic : Z;
  h_element_count : Z;
  h_entry_point_id : Z;
  h_max_layer : Z;
}.

Definition parse_header (b : list Z) : header :=
  mkHeader (u32 (sub 0 4 b)) (u32 (sub 4 4 b)) (i32 (sub 8 4 b)) (i32 (sub 12 4 b)).

(** ** [load_index] *)

(** [v != 0] for a float32 given by its word: both zeros are equal to 0. *)
Definition f32_nonzero (w : Z) : bool := negb (Z.eqb (Z.land w 0x7FFFFFFF) 0).

Definition written (nd : node) : bool :=
  existsb (existsb (Z.eqb NO_NEIGHBOR)) (n_neighbors nd) || existsb f32_nonzero (n_vector nd).

(** [int(nz[-1]) + 1 if nz.size else 0] *)
Fixpoint extent (nodes : list node) : nat :=
  match nodes with
  | [] => 0
  | nd :: rest =>
      match extent rest with
      | 0 => if written nd then 1 else 0
      | e => S e
      end
  end.

Definition load_index (raw : list Z) : result (header * list node * nat) :=
  let size := length raw in
  if size <? HEADER_SIZE then Raise ValueError
  else
    let h := parse_header (take HEADER_SIZE raw) in
    if negb (Z.eqb (h_magic h) NANODB_MAGIC) then Raise ValueError
    else
      let capacity := (size - HEADER_SIZE) / NODE_SIZE in
      let all_nodes := items parse_node NODE_SIZE capacity
                         (sub HEADER_SIZE (capacity * NODE_SIZE) raw) in
      Ok (h, take (extent all_nodes) all_nodes, capacity).

(** ** [analyse] *)

(** [np.clip(c, 0, hi)] as a count. *)
Definition clip (hi : nat) (c : Z) : nat := Z.to_nat (Z.max 0 (Z.min (Z.of_nat hi) c)).

Definition deg0 (nd : node) : nat := clip M_MAX0 (nth 0 (n_counts nd) 0%Z).

(** The valid slots of one node, layer by layer. *)
Definition out_links (nd : node) : list Z :=
  concat (zip_with (fun c nbrs => take (clip M_MAX0 c) nbrs) (n_counts nd) (n_neighbors nd)).

Definition edges (nodes : list node) : list (nat * Z) :=
  concat (imap (fun i nd => (fun d => (i, d)) <$> out_links nd) nodes).

Definition dangling (n : nat) (e : nat * Z) : bool := (Z.of_nat n <=? e.2)%Z.

(** [src_g, dst_g]: the edges whose target is a written node. *)
Definition good_edges (nodes : list node) : list (nat * nat) :=
  (fun e => (e.1, Z.to_nat e.2)) <$>
    List.filter (fun e => negb (dangling (length nodes) e)) (edges nodes).

Definition indeg (g : list (nat * nat)) (v : nat) : nat :=
  length (List.filter (fun e => Nat.eqb e.2 v) g).

(** [unreachable = indeg == 0; unreachable[entry] = False] *)
Definition no_in_edge (g : list (nat * nat)) (n : nat) (entry : Z) (v : nat) : bool :=
  Nat.eqb (indeg g v) 0 &&
  negb ((0 <=? entry)%Z && (entry <? Z.of_nat n)%Z && (Z.of_nat v =? entry)%Z).

(** The compressed adjacency: edges stably sorted by source, and the offsets
    [adj_start] from the running sum of the out-degrees. *)
Definition csr_sorted (g : list (nat * nat)) : list (nat * nat) :=
  sorted (fun a b => Nat.leb a.1 b.1) g.
Definition adj_start (g : list (nat * nat)) (v : nat) : nat :=
  length (List.filter (fun e => Nat.ltb e.1 v) g).
Definition csr_neighbors (g : list (nat * nat)) (v : nat) : list nat :=
  (take (adj_start g (S v) - adj_start g v) (drop (adj_start g v) (csr_sorted g))).*2.

Definition np_unique (l : list nat) : list nat := sorted Nat.leb (remove_dups l).

(** The [while frontier.size] loop; [None]: out of fuel. *)
Fixpoint bfs (g : list (nat * nat)) (fuel : nat) (seen : gset nat) (frontier : list nat)
    : option (gset nat) :=
  match fuel with
  | 0 => None
  | S fuel' =>
      match frontier with
      | [] => Some seen
      | _ =>
          let reached := concat (csr_neighbors g <$> frontier) in
          if Nat.eqb (length reached) 0 then Some seen
          else
            let nxt := List.filter (fun v => negb (bool_decide (v ∈ seen))) (np_unique reached) in
            bfs g fuel' (seen ∪ list_to_set nxt) nxt
      end
  end.

(** Every round but the last sees a new node, so [n + 1] rounds are enough. *)
Definition reachable_from_entry (g : list (nat * nat)) (n : nat) (entry : Z) : option (gset nat) :=
  if (0 <=? entry)%Z && (entry <? Z.of_nat n)%Z
  then bfs g (S n) {[Z.to_nat entry]} [Z.to_nat entry]
  else None.

(** One-way edges, through the integer codes [src * n + dst]. *)
Definition asymmetric_edges (g : list (nat * nat)) (n : nat) : nat :=
  let codes := (fun e => e.1 * n + e.2) <$> g in
  length (List.filter (fun e => negb (bool_decide (e.2 * n + e.1 ∈ codes))) g).

Record report := mkReport {
  o_element_count : Z;
  o_capacity : nat;
  o_nodes_examined : nat;
  o_uncounted : Z;
  o_out_degree_0 : nat;
  o_out_degree_0_frac : Q;
  o_deg0_mean : Q;
  o_deg0_median : Q;
  o_deg0_p5 : Q;
  o_deg0_min : nat;
  o_edges_total : nat;
  o_dangling : nat;
  o_self_loops : nat;
  o_in_degree_0 : nat;
  o_in_degree_0_frac : Q;
  o_indeg_mean : Q;
  o_isolated : nat;
  o_reachable : option nat;
  o_unreachable : option nat;
  o_unreachable_frac : option Q;
  o_edges_scored : nat;
  o_asymmetric : nat;
  o_asymmetric_frac : Q;
  o_layer_hist : list nat;
  o_deleted : Z;
}.

Definition count {A} (p : A -> bool) (l : list A) : nat := length (List.filter p l).

Definition Qnat (k : nat) : Q := inject_Z (Z.of_nat k).

Definition nat_min (l : list nat) : nat :=
  match l with [] => 0 | x :: xs => foldl Nat.min x xs end.

(** The full report of a non-empty index; [None] for an index with no node. *)
Definition analyse_nodes (h : header) (nodes : list node) (capacity : nat) : option report :=
  let n := length nodes in
  let entry := h_entry_point_id h in
  if Nat.eqb n 0 then None
  else
    let l0 := deg0 <$> nodes in
    let es := edges nodes in
    let g := good_edges nodes in
    let seen := reachable_from_entry g n entry in
    let asym := asymmetric_edges g n in
    Some {|
      o_element_count := h_element_count h;
      o_capacity := capacity;
      o_nodes_examined := n;
      o_uncounted := (Z.of_nat n - h_element_count h)%Z;
      o_out_degree_0 := count (Nat.eqb 0) l0;
      o_out_degree_0_frac := qratio (count (Nat.eqb 0) l0) n;
      o_deg0_mean := np_mean (Qnat <$> l0);
      o_deg0_median := np_median (Qnat <$> l0);
      o_deg0_p5 := np_percentile 5 (Qnat <$> l0);
      o_deg0_min := nat_min l0;
      o_edges_total := length es;
      o_dangling := count (dangling n) es;
      o_self_loops := count (fun e => (Z.of_nat e.1 =? e.2)%Z) es;
      o_in_degree_0 := count (no_in_edge g n entry) (seq 0 n);
      o_in_degree_0_frac := qratio (count (no_in_edge g n entry) (seq 0 n)) n;
      o_indeg_mean := np_mean ((fun v => Qnat (indeg g v)) <$> seq 0 n);
      o_isolated := count (fun v => no_in_edge g n entry v && Nat.eqb (nth v l0 0) 0) (seq 0 n);
      o_reachable := size <$> seen;
      o_unreachable := (fun s => n - size s) <$> seen;
      o_unreachable_frac := (fun s => qratio (n - size s) n) <$> seen;
      o_edges_scored := length g;
      o_asymmetric := asym;
      o_asymmetric_frac := if Nat.eqb (length g) 0 then 0 else qratio asym (length g);
      o_layer_hist := (fun i => count (fun nd => Nat.eqb (clip (MAX_LAYERS - 1) (n_max_layer nd)) i)
                                  nodes) <$> seq 0 MAX_LAYERS;
      o_deleted := foldr Z.add 0%Z (n_deleted <$> nodes);
    |}.

Definition analyse (raw : list Z) : result (option report) :=
  '(h, nodes, capacity) ← load_index raw; Ok (analyse_nodes h nodes capacity).

(** * Properties *)

(** ** The compressed adjacency *)

Section Csr.
Context (g : list (nat * nat)).

Notation src_leb := (fun a b : nat * nat => Nat.leb a.1 b.1).

Lemma sinsert_key (x : nat * nat) l v :
  List.filter (fun e => Nat.eqb e.1 v) (sinsert src_leb x l) =
  List.filter (fun e => Nat.eqb e.1 v) (x :: l).
Proof.
  induction l as [|y l IH]; [done|]. simpl sinsert.
  destruct (Nat.leb x.1 y.1) eqn:E; [done|]. simpl in *. rewrite IH. breflect.
  destruct (Nat.eqb y.1 v) eqn:Ey, (Nat.eqb x.1 v) eqn:Ex; try done. breflect. lia.
Qed.

(** Sorting by source keeps the order of the edges of one source. *)
Lemma csr_stable v :
  List.filter (fun e => Nat.eqb e.1 v) (csr_sorted g) = List.filter (fun e => Nat.eqb e.1 v) g.
Proof.
  unfold csr_sorted. induction g as [|x l IH]; [done|]. simpl sorted.
  rewrite sinsert_key. simpl. by rewrite IH.
Qed.

Lemma sorted_split v (l : list (nat * nat)) :
  StronglySorted (fun a b => Nat.leb a.1 b.1 = true) l ->
  l = List.filter (fun e => Nat.ltb e.1 v) l ++ List.filter (fun e => Nat.eqb e.1 v) l
        ++ List.filter (fun e => Nat.ltb v e.1) l.
Proof.
  induction 1 as [|x l Hs IH Hall]; [done|].
  assert (forall p : nat * nat -> bool, (forall y, y ∈ l -> p y = false) -> List.filter p l = [])
    as Hnil.
  { intros p Hp. destruct (List.filter p l) as [|z r] eqn:E; [done|].
    assert (z ∈ List.filter p l) as Hz by (rewrite E; by left).
    apply elem_of_bfilter in Hz as [Hz1 Hz2]. rewrite (Hp _ Hz1) in Hz2. done. }
  assert (forall y, y ∈ l -> x.1 <= y.1) as Hle.
  { intros y Hy. rewrite Forall_forall in Hall. by apply Nat.leb_le, Hall. }
  simpl. destruct (lt_eq_lt_dec x.1 v) as [[Hlt|Heq]|Hgt].
  - rewrite (proj2 (Nat.ltb_lt _ _) Hlt). replace (x.1 =? v) with false by (symmetry; apply Nat.eqb_neq; lia).
    replace (v <? x.1) with false by (symmetry; apply Nat.ltb_ge; lia). simpl. by f_equal.
  - replace (x.1 <? v) with false by (symmetry; apply Nat.ltb_ge; lia).
    rewrite (proj2 (Nat.eqb_eq _ _) Heq).
    replace (v <? x.1) with false by (symmetry; apply Nat.ltb_ge; lia).
    rewrite IH at 1. rewrite (Hnil (fun e => Nat.ltb e.1 v)); [done|].
    intros y Hy. apply Nat.ltb_ge. specialize (Hle _ Hy). lia.
  - replace (x.1 <? v) with false by (symmetry; apply Nat.ltb_ge; lia).
    replace (x.1 =? v) with false by (symmetry; apply Nat.eqb_neq; lia).
    rewrite (proj2 (Nat.ltb_lt _ _) Hgt).
    rewrite IH at 1. rewrite (Hnil (fun e => Nat.ltb e.1 v)), (Hnil (fun e => Nat.eqb e.1 v)); [done|..];
      intros y Hy; specialize (Hle _ Hy); [apply Nat.eqb_neq|apply Nat.ltb_ge]; lia.
Qed.

Lemma adj_start_sorted v :
  adj_start g v = length (List.filter (fun e => Nat.ltb e.1 v) (csr_sorted g)).
Proof. apply filter_length_perm. symmetry. apply sorted_perm. Qed.

Lemma adj_start_S v :
  adj_start g (S v) = adj_start g v + length (List.filter (fun e => Nat.eqb e.1 v) g).
Proof.
  unfold adj_start. induction g as [|x l IH]; [done|]. simpl.
  destruct (lt_eq_lt_dec x.1 v) as [[H|H]|H].
  - rewrite (proj2 (Nat.ltb_lt x.1 (S v))), (proj2 (Nat.ltb_lt x.1 v)) by lia.
    replace (x.1 =? v) with false by (symmetry; apply Nat.eqb_neq; lia). simpl. lia.
  - rewrite (proj2 (Nat.ltb_lt x.1 (S v))) by lia. rewrite (proj2 (Nat.eqb_eq x.1 v) H).
    replace (x.1 <? v) with false by (symmetry; apply Nat.ltb_ge; lia). simpl. lia.
  - replace (x.1 <? S v) with false by (symmetry; apply Nat.ltb_ge; lia).
    replace (x.1 <? v) with false by (symmetry; apply Nat.ltb_ge; lia).
    replace (x.1 =? v) with false by (symmetry; apply Nat.eqb_neq; lia). done.
Qed.

(** The slice of the compressed arrays is the adjacency list. *)
Lemma csr_neighbors_filter v :
  csr_neighbors g v = (List.filter (fun e => Nat.eqb e.1 v) g).*2.
Proof.
  unfold csr_neighbors. f_equal. rewrite adj_start_S.
  replace (adj_start g v + length (List.filter (fun e => Nat.eqb e.1 v) g) - adj_start g v)
    with (length (List.filter (fun e => Nat.eqb e.1 v) (csr_sorted g)))
    by (rewrite csr_stable; lia).
  rewrite adj_start_sorted.
  assert (StronglySorted (fun a b => Nat.leb a.1 b.1 = true) (csr_sorted g)) as Hs.
  { apply (sorted_StronglySorted src_leb).
    - intros x y. rewrite !Nat.leb_le. lia.
    - intros x y z. rewrite !Nat.leb_le. lia. }
  rewrite (sorted_split v _ Hs) at 3. rewrite drop_app_length, take_app_length.
  apply csr_stable.
Qed.

Lemma elem_of_csr v w : w ∈ csr_neighbors g v <-> (v, w) ∈ g.
Proof.
  rewrite csr_neighbors_filter, list_elem_of_fmap. split.
  - intros ([a b] & -> & H). apply elem_of_bfilter in H as [H Hb]. breflect. simpl in *. by subst.
  - intros H. exists (v, w). split; [done|]. apply elem_of_bfilter. by rewrite Nat.eqb_refl.
Qed.
End Csr.

(** ** Reachability *)

Definition edge (g : list (nat * nat)) (u v : nat) : Prop := (u, v) ∈ g.

Definition in_range (g : list (nat * nat)) (n : nat) : Prop :=
  forall u v, (u, v) ∈ g -> u < n /\ v < n.

Lemma elem_of_np_unique l v : v ∈ np_unique l <-> v ∈ l.
Proof. unfold np_unique. by rewrite elem_of_sorted, elem_of_remove_dups. Qed.

Lemma size_range (s : gset nat) n : (forall v, v ∈ s -> v < n) -> size s <= n.
Proof.
  intros H. transitivity (size (list_to_set (seq 0 n) : gset nat)).
  - apply subseteq_size. intros v Hv. apply elem_of_list_to_set, elem_of_seq. specialize (H _ Hv). lia.
  - rewrite size_list_to_set by apply NoDup_seq. by rewrite length_seq.
Qed.

(** What the loop maintains: seen nodes are reachable, the frontier is seen, and
    every seen node outside the frontier has all its successors seen. *)
Record bfs_inv (g : list (nat * nat)) (n entry : nat) (seen : gset nat) (frontier : list nat)
    : Prop := {
  bi_entry : entry ∈ seen;
  bi_range : forall v, v ∈ seen -> v < n;
  bi_reach : forall v, v ∈ seen -> rtc (edge g) entry v;
  bi_front : forall v, v ∈ frontier -> v ∈ seen;
  bi_closed : forall u v, u ∈ seen -> u ∉ frontier -> edge g u v -> v ∈ seen;
}.

Lemma elem_of_reached g frontier v :
  v ∈ concat (csr_neighbors g <$> frontier) <-> exists u, u ∈ frontier /\ edge g u v.
Proof.
  rewrite list_elem_of_In, in_concat. unfold edge. split.
  - intros (l & Hl & Hv). apply list_elem_of_In, list_elem_of_fmap in Hl as (u & -> & Hu).
    exists u. split; [done|]. by apply elem_of_csr, list_elem_of_In.
  - intros (u & Hu & He). exists (csr_neighbors g u). split.
    + apply list_elem_of_In, list_elem_of_fmap. eauto.
    + by apply list_elem_of_In, elem_of_csr.
Qed.

Lemma bfs_inv_step g n entry seen frontier :
  in_range g n -> bfs_inv g n entry seen frontier ->
  let nxt := List.filter (fun v => negb (bool_decide (v ∈ seen)))
               (np_unique (concat (csr_neighbors g <$> frontier))) in
  bfs_inv g n entry (seen ∪ list_to_set nxt) nxt.
Proof.
  intros Hr HI nxt.
  assert (forall v, v ∈ nxt <-> v ∉ seen /\ exists u, u ∈ frontier /\ edge g u v) as Hn.
  { intros v. unfold nxt. rewrite elem_of_bfilter, elem_of_np_unique, elem_of_reached.
    rewrite negb_true_iff, bool_decide_eq_false. tauto. }
  constructor.
  - apply elem_of_union. left. apply HI.
  - intros v [Hv|Hv%elem_of_list_to_set]%elem_of_union; [by apply (bi_range _ _ _ _ _ HI)|].
    apply Hn in Hv as (_ & u & _ & He). by apply Hr in He as [_ ?].
  - intros v [Hv|Hv%elem_of_list_to_set]%elem_of_union; [by apply (bi_reach _ _ _ _ _ HI)|].
    apply Hn in Hv as (_ & u & Hu & He). eapply rtc_r; [|exact He].
    by apply (bi_reach _ _ _ _ _ HI), (bi_front _ _ _ _ _ HI).
  - intros v Hv. apply elem_of_union. right. by apply elem_of_list_to_set.
  - intros u v Hu Hnot He. apply elem_of_union.
    destruct (decide (v ∈ seen)) as [|Hv]; [by left|].
    apply elem_of_union in Hu as [Hu|Hu%elem_of_list_to_set]; [|done].
    destruct (decide (u ∈ frontier)) as [Hf|Hf].
    + right. apply elem_of_list_to_set, Hn. eauto.
    + left. by eapply (bi_closed _ _ _ _ _ HI).
Qed.

Lemma closed_complete g entry (seen : gset nat) v :
  entry ∈ seen -> (forall u w, u ∈ seen -> edge g u w -> w ∈ seen) ->
  rtc (edge g) entry v -> v ∈ seen.
Proof. intros He Hc H. revert He. induction H as [|x y z Hxy _ IH]; eauto. Qed.

Lemma bfs_terminates g n entry fuel seen frontier :
  in_range g n -> bfs_inv g n entry seen frontier -> n + 2 <= fuel + size seen ->
  exists s, bfs g fuel seen frontier = Some s /\ (forall v, v ∈ s -> v < n) /\
    forall v, v ∈ s <-> rtc (edge g) entry v.
Proof.
  intros Hr. revert seen frontier. induction fuel as [|fuel IH]; intros seen frontier HI Hf.
  { pose proof (size_range seen n (bi_range _ _ _ _ _ HI)). lia. }
  assert ((forall u w, u ∈ seen -> edge g u w -> w ∈ seen) ->
          exists s, Some seen = Some s /\ (forall v, v ∈ s -> v < n) /\
            forall v, v ∈ s <-> rtc (edge g) entry v) as Hdone.
  { intros Hc. exists seen. split_and!; [done|apply HI|]. intros v. split; [apply HI|].
    apply closed_complete; [apply HI|done]. }
  simpl. destruct frontier as [|f0 fr] eqn:Efr.
  { apply Hdone. intros u w Hu. apply (bi_closed _ _ _ _ _ HI); [done|apply not_elem_of_nil]. }
  rewrite <- Efr in *. clear Efr.
  destruct (Nat.eqb (length (concat (csr_neighbors g <$> frontier))) 0) eqn:E.
  { apply Hdone. intros u w Hu He. destruct (decide (u ∈ frontier)).
    - breflect. apply length_zero_iff_nil in E.
      assert (w ∈ concat (csr_neighbors g <$> frontier)) as Hw by (apply elem_of_reached; eauto).
      rewrite E in Hw. by apply not_elem_of_nil in Hw.
    - by eapply (bi_closed _ _ _ _ _ HI). }
  pose proof (bfs_inv_step g n entry seen frontier Hr HI) as HI'. cbv zeta in HI'.
  set (nxt := List.filter _ _) in *.
  assert (forall v, v ∈ nxt -> v ∉ seen) as Hnew.
  { intros v Hv. apply elem_of_bfilter in Hv as [_ Hv]. breflect. done. }
  destruct nxt as [|v nxt'] eqn:Enxt.
  - destruct fuel as [|fuel].
    { pose proof (size_range seen n (bi_range _ _ _ _ _ HI)). lia. }
    simpl. rewrite union_empty_r_L in *. apply Hdone.
    intros u w Hu. apply (bi_closed _ _ _ _ _ HI'); [done|apply not_elem_of_nil].
  - rewrite <- Enxt in *. apply IH; [done|].
    assert (size seen < size (seen ∪ list_to_set nxt)) as Hlt; [|lia].
    apply subset_size. split; [set_solver|]. intros Hsub. apply (Hnew v).
    + rewrite Enxt. by left.
    + apply Hsub. rewrite Enxt. set_solver.
Qed.

(** C9. The breadth-first search terminates within [n + 1] rounds and sees exactly the
    nodes reachable from the entry point along the stored edges, for every graph
    whose edges stay within the [n] nodes. *)
Theorem reachability_exact g n entry :
  in_range g n -> (0 <= entry < Z.of_nat n)%Z ->
  exists s, reachable_from_entry g n entry = Some s /\
    forall v, v ∈ s <-> rtc (fun u w => (u, w) ∈ g) (Z.to_nat entry) v.
Proof.
  intros Hr He. unfold reachable_from_entry.
  rewrite (proj2 (Z.leb_le 0 entry)), (proj2 (Z.ltb_lt entry (Z.of_nat n))) by lia. simpl.
  destruct (bfs_terminates g n (Z.to_nat entry) (S n) {[Z.to_nat entry]} [Z.to_nat entry])
    as (s & Hs & _ & Hv); [done| |rewrite size_singleton; lia|by eauto].
  constructor.
  - set_solver.
  - intros v ->%elem_of_singleton. lia.
  - intros v ->%elem_of_singleton. constructor.
  - set_solver.
  - intros u v ->%elem_of_singleton Hn. exfalso. apply Hn. by left.
Qed.

Lemma reachability_exact_witness :
  exists s, reachable_from_entry [(0, 1); (1, 0); (2, 3); (3, 2)] 4 0 = Some s /\
    size s = 2.
Proof.
  destruct (reachability_exact [(0, 1); (1, 0); (2, 3); (3, 2)] 4 0) as (s & Hs & _).
  - intros u v. rewrite !elem_of_cons, elem_of_nil. intros [H|[H|[H|[H|[]]]]]; simplify_eq; lia.
  - lia.
  - exists s. split; [done|]. vm_compute in Hs. injection Hs as <-. vm_compute. reflexivity.
Defined.

(** ** The report *)

Lemma count_le {A} (p q : A -> bool) l :
  (forall x, p x = true -> q x = true) -> count p l <= count q l.
Proof.
  intros H. unfold count. induction l as [|x l IH]; simpl; [lia|].
  destruct (p x) eqn:Ep; [rewrite (H _ Ep); simpl; lia|]. destruct (q x); simpl; lia.
Qed.

Lemma count_negb {A} (p : A -> bool) l :
  count p l + length (List.filter (fun x => negb (p x)) l) = length l.
Proof.
  unfold count. induction l as [|x l IH]; simpl; [done|]. destruct (p x); simpl; lia.
Qed.

Lemma good_edges_range nodes : in_range (good_edges nodes) (length nodes).
Proof.
  intros u v H. unfold good_edges in H.
  apply list_elem_of_fmap in H as ([i d] & Heq & Hin). simplify_eq/=.
  apply elem_of_bfilter in Hin as [Hin Hd]. unfold dangling in Hd. simpl in Hd. breflect.
  unfold edges in Hin. apply list_elem_of_In, in_concat in Hin as (l & Hl & Hi).
  apply list_elem_of_In, elem_of_lookup_imap in Hl as (j & nd & -> & Hj).
  apply list_elem_of_In, list_elem_of_fmap in Hi as (x & Heq & _). simplify_eq.
  apply lookup_lt_Some in Hj. lia.
Qed.

Lemma reachable_Some g n entry :
  in_range g n -> (0 <= entry < Z.of_nat n)%Z ->
  exists s, reachable_from_entry g n entry = Some s /\ (forall v, v ∈ s -> v < n) /\
    forall v, v ∈ s -> v = Z.to_nat entry \/ exists u, (u, v) ∈ g.
Proof.
  intros Hr He. unfold reachable_from_entry.
  rewrite (proj2 (Z.leb_le 0 entry)), (proj2 (Z.ltb_lt entry (Z.of_nat n))) by lia. simpl.
  destruct (bfs_terminates g n (Z.to_nat entry) (S n) {[Z.to_nat entry]} [Z.to_nat entry])
    as (s & Hs & Hn & Hv); [done| |rewrite size_singleton; lia|].
  - constructor; [set_solver| | |set_solver|].
    + intros v ->%elem_of_singleton. lia.
    + intros v ->%elem_of_singleton. constructor.
    + intros u v ->%elem_of_singleton Hno. exfalso. apply Hno. by left.
  - exists s. split_and!; [done..|]. intros v Hin. apply Hv in Hin.
    apply rtc_inv_r in Hin as [->|(u & _ & Hu)]; [by left|right; eauto].
Qed.

(** A node with no in-edge that is not the entry point is never reached. *)
Lemma no_in_edge_unreached g n entry (s : gset nat) :
  (forall v, v ∈ s -> v < n) ->
  (forall v, v ∈ s -> v = Z.to_nat entry \/ exists u, (u, v) ∈ g) ->
  (0 <= entry < Z.of_nat n)%Z ->
  count (no_in_edge g n entry) (seq 0 n) <= n - size s.
Proof.
  intros Hn Hs He. set (l := List.filter (no_in_edge g n entry) (seq 0 n)).
  assert (NoDup l) as Hnd.
  { unfold l. generalize (NoDup_seq 0 n). generalize (seq 0 n). induction l0 as [|x l0 IH]; simpl; [done|].
    intros H. apply NoDup_cons in H as [Hx Hl]. destruct (no_in_edge g n entry x); [|auto].
    apply NoDup_cons. split; [|auto]. intros Hin. apply elem_of_bfilter in Hin as [Hin _]. done. }
  assert (list_to_set l ## s) as Hdis.
  { intros v Hv Hv'. apply elem_of_list_to_set, elem_of_bfilter in Hv as [_ Hv].
    unfold no_in_edge in Hv. breflect. destruct (Hs _ Hv') as [->|[u Hu]].
    - rewrite Z2Nat.id in H0 by lia. rewrite Z.eqb_refl in H0.
      rewrite (proj2 (Z.leb_le 0 entry)), (proj2 (Z.ltb_lt entry (Z.of_nat n))) in H0 by lia. done.
    - unfold indeg in H. apply length_zero_iff_nil in H.
      assert ((u, v) ∈ List.filter (fun e : nat * nat => e.2 =? v) g) as Hin
        by (apply elem_of_bfilter; simpl; by rewrite Nat.eqb_refl).
      rewrite H in Hin. by apply not_elem_of_nil in Hin. }
  assert (size (list_to_set l ∪ s : gset nat) <= n) as Hsz.
  { apply size_range. intros v [Hv%elem_of_list_to_set|Hv]%elem_of_union; [|auto].
    apply elem_of_bfilter in Hv as [Hv%elem_of_seq _]. lia. }
  rewrite size_union in Hsz by done. rewrite size_list_to_set in Hsz by done.
  unfold count. fold l. lia.
Qed.

Lemma codes_injective g n u v :
  in_range g n -> u < n -> v < n ->
  v * n + u ∈ ((fun e : nat * nat => e.1 * n + e.2) <$> g) <-> (v, u) ∈ g.
Proof.
  intros Hr Hu Hv. rewrite list_elem_of_fmap. split.
  - intros ([a b] & Heq & Hin). simpl in Heq. destruct (Hr _ _ Hin) as [Ha Hb].
    assert (v = a) as -> by nia. assert (u = b) as -> by lia. done.
  - intros Hin. by exists (v, u).
Qed.

(** The integer codes count the edges whose reverse is not stored. *)
Lemma asymmetric_edges_exact g n :
  in_range g n ->
  asymmetric_edges g n = length (List.filter (fun e => negb (bool_decide ((e.2, e.1) ∈ g))) g).
Proof.
  intros Hr. unfold asymmetric_edges. f_equal.
  assert (forall l, (forall e, e ∈ l -> e ∈ g) ->
    List.filter (fun e => negb (bool_decide (e.2 * n + e.1 ∈ ((fun e : nat * nat => e.1 * n + e.2) <$> g)))) l
    = List.filter (fun e => negb (bool_decide ((e.2, e.1) ∈ g))) l) as H; [|by apply H].
  intros l. induction l as [|[u v] l IH]; simpl; intros Hl; [done|].
  destruct (Hr u v) as [Hu Hv]; [apply Hl; by left|].
  rewrite (bool_decide_ext _ _ (codes_injective g n u v Hr Hu Hv)).
  rewrite IH by (intros; apply Hl; by right). done.
Qed.

Lemma layer_hist_sum (nodes : list node) :
  sum_list ((fun i => count (fun nd => Nat.eqb (clip (MAX_LAYERS - 1) (n_max_layer nd)) i) nodes)
              <$> seq 0 MAX_LAYERS) = length nodes.
Proof.
  unfold count. induction nodes as [|nd nodes IH]; [done|]. simpl in *.
  assert (clip (MAX_LAYERS - 1) (n_max_layer nd) < 4) as Hc.
  { unfold clip, MAX_LAYERS. lia. }
  destruct (clip _ _) as [|[|[|[|]]]]; simpl; lia.
Qed.

(** C34. The forensic report is consistent: scored and dangling edges make up all the
    edges; with an entry point inside the index every node is reachable or not, and
    every node with in-degree 0 other than the entry point is among the unreachable
    ones; isolated nodes have neither in- nor out-edges; the layer histogram counts
    every node; and the asymmetric edges are those whose reverse is not stored. *)
Theorem analyse_consistent h nodes capacity r :
  analyse_nodes h nodes capacity = Some r ->
  let g := good_edges nodes in
  o_nodes_examined r = length nodes /\
  o_dangling r + o_edges_scored r = o_edges_total r /\
  ((0 <= h_entry_point_id h < Z.of_nat (length nodes))%Z ->
     exists a b, o_reachable r = Some a /\ o_unreachable r = Some b /\
       a + b = o_nodes_examined r /\ o_in_degree_0 r <= b) /\
  o_isolated r <= o_in_degree_0 r /\
  sum_list (o_layer_hist r) = o_nodes_examined r /\
  o_asymmetric r = length (List.filter (fun e => negb (bool_decide ((e.2, e.1) ∈ g))) g).
Proof.
  unfold analyse_nodes. destruct (Nat.eqb (length nodes) 0) eqn:En; [done|]. cbv zeta. intros Heq.
  apply (inj Some) in Heq. subst r.
  cbn [o_nodes_examined o_dangling o_edges_scored o_edges_total o_reachable o_unreachable
       o_in_degree_0 o_isolated o_layer_hist o_asymmetric].
  split_and!.
  - done.
  - unfold good_edges. rewrite length_fmap. apply count_negb.
  - intros He. destruct (reachable_Some _ _ _ (good_edges_range nodes) He) as (s & -> & Hn & Hs).
    exists (size s), (length nodes - size s). cbn. split_and!; try done.
    + pose proof (size_range s _ Hn). lia.
    + by apply no_in_edge_unreached.
  - apply count_le. intros v H. by breflect.
  - apply layer_hist_sum.
  - apply asymmetric_edges_exact, good_edges_range.
Qed.

(** Three nodes on layer 0: 0 and 1 linked both ways, 2 pointing at 0 only. *)
Definition demo_node (nbrs : list Z) : node :=
  mkNode 0 0 0 [1%Z] [nbrs ++ replicate (32 - length nbrs) NO_NEIGHBOR] [Z.of_nat (length nbrs)].
Definition demo_nodes : list node := [demo_node [1%Z]; demo_node [0%Z]; demo_node [0%Z; 99%Z]].

Lemma analyse_consistent_witness :
  exists r, analyse_nodes (mkHeader NANODB_MAGIC 3 0 0) demo_nodes 8 = Some r /\
    o_dangling r + o_edges_scored r = o_edges_total r /\
    o_in_degree_0 r = 1 /\ o_unreachable r = Some 1 /\ o_asymmetric r = 1.
Proof.
  eexists. split; [vm_compute; reflexivity|]. split; [|vm_compute; done].
  refine (proj1 (proj2 (analyse_consistent (mkHeader NANODB_MAGIC 3 0 0) demo_nodes 8 _ _))).
  vm_compute. reflexivity.
Defined.

(** ** The binary round trip *)

Definition encode_header (h : header) (reserved : list Z) : list Z :=
  le_bytes 4 (h_magic h) ++ le_bytes 4 (h_element_count h) ++ le_bytes 4 (h_entry_point_id h)
  ++ le_bytes 4 (h_max_layer h) ++ reserved.

Definition encode_node (pad0 pad1 : list Z) (nd : node) : list Z :=
  le_bytes 4 (n_id nd) ++ le_bytes 4 (n_max_layer nd) ++ le_bytes 1 (n_deleted nd) ++ pad0
  ++ encode_words (n_vector nd) ++ concat (encode_words <$> n_neighbors nd)
  ++ encode_words (n_counts nd) ++ pad1.

Record wf_node (nd : node) : Prop := {
  wn_id : is_u32 (n_id nd);
  wn_max_layer : is_i32 (n_max_layer nd);
  wn_deleted : (0 <= n_deleted nd < 256)%Z;
  wn_vector : length (n_vector nd) = VECTOR_DIM /\ Forall is_u32 (n_vector nd);
  wn_neighbors : length (n_neighbors nd) = MAX_LAYERS /\
    Forall (fun l => length l = M_MAX0 /\ Forall is_u32 l) (n_neighbors nd);
  wn_counts : length (n_counts nd) = MAX_LAYERS /\ Forall is_i32 (n_counts nd);
}.

Record wf_header (h : header) : Prop := {
  wh_magic : h_magic h = NANODB_MAGIC;
  wh_element_count : is_u32 (h_element_count h);
  wh_entry : is_i32 (h_entry_point_id h);
  wh_max_layer : is_i32 (h_max_layer h);
}.

Lemma encode_node_length pad0 pad1 nd :
  wf_node nd -> length pad0 = 3 -> length pad1 = 4 ->
  length (encode_node pad0 pad1 nd) = NODE_SIZE.
Proof.
  intros H H0 H1. destruct (wn_vector _ H) as [Hv _], (wn_counts _ H) as [Hc _],
    (wn_neighbors _ H) as [Hn HN].
  unfold encode_node. rewrite !length_app, !le_bytes_length, !encode_words_length.
  rewrite (concat_fmap_length encode_words 128), H0, H1, Hv, Hc, Hn; [reflexivity|].
  eapply Forall_impl; [exact HN|]. intros l [Hl _]. by rewrite encode_words_length, Hl.
Qed.

Lemma parse_encode_node pad0 pad1 nd :
  wf_node nd -> length pad0 = 3 -> length pad1 = 4 -> parse_node (encode_node pad0 pad1 nd) = nd.
Proof.
  intros H H0 H1. destruct (wn_vector _ H) as [Hv HV], (wn_counts _ H) as [Hc HC],
    (wn_neighbors _ H) as [Hn HN].
  assert (length (encode_words (n_vector nd)) = 512) as Lv
    by (rewrite encode_words_length, Hv; reflexivity).
  assert (length (encode_words (n_counts nd)) = 16) as Lc
    by (rewrite encode_words_length, Hc; reflexivity).
  assert (length (concat (encode_words <$> n_neighbors nd)) = 512) as Ln.
  { rewrite (concat_fmap_length encode_words 128), Hn; [reflexivity|].
    eapply Forall_impl; [exact HN|]. intros l [Hl _]. by rewrite encode_words_length, Hl. }
  unfold parse_node, encode_node.
  repeat match goal with |- context [sub ?o ?l (?a ++ ?X)] =>
    rewrite (sub_skip a X o l) by (rewrite ?le_bytes_length, ?Lv, ?Ln, ?Lc, ?H0; lia) end.
  rewrite ?le_bytes_length, ?Lv, ?Ln, ?Lc, ?H0. cbn [Nat.sub].
  rewrite !sub_here by (rewrite ?le_bytes_length, ?Lv, ?Ln, ?Lc; reflexivity).
  rewrite u32_bytes, i32_bytes, le_val_bytes by apply H.
  rewrite Z.mod_small by apply (wn_deleted _ H).
  rewrite <- (app_nil_r (encode_words (n_vector nd))), (items_u32 _ _ VECTOR_DIM Hv HV).
  rewrite <- (app_nil_r (encode_words (n_counts nd))), (items_words i32 _ _ MAX_LAYERS Hc)
    by (eapply Forall_impl; [exact HC|apply i32_bytes]).
  rewrite <- (app_nil_r (concat (encode_words <$> n_neighbors nd))). rewrite <- Hn at 1.
  rewrite items_encode; [by destruct nd|].
  eapply Forall_impl; [exact HN|]. intros l [Hl HF]. split; [by rewrite encode_words_length, Hl|].
  rewrite <- (app_nil_r (encode_words l)). by apply items_u32.
Qed.

Lemma encode_header_length h reserved :
  length reserved = 48 -> length (encode_header h reserved) = HEADER_SIZE.
Proof. intros H. unfold encode_header. rewrite !length_app, !le_bytes_length, H. done. Qed.

Lemma parse_encode_header h reserved : wf_header h -> parse_header (encode_header h reserved) = h.
Proof.
  intros H. assert (is_u32 (h_magic h)) as Hm by (rewrite (wh_magic _ H); done).
  unfold parse_header, encode_header.
  repeat match goal with |- context [sub ?o ?l (?a ++ ?X)] =>
    rewrite (sub_skip a X o l) by (rewrite ?le_bytes_length; lia) end.
  rewrite ?le_bytes_length. cbn [Nat.sub].
  rewrite !sub_here by apply le_bytes_length.
  rewrite !u32_bytes, !i32_bytes by (done || apply H). by destruct h.
Qed.

Lemma extent_unwritten nodes c nd :
  written nd = false -> extent (nodes ++ replicate c nd) = extent nodes.
Proof.
  intros Hw. assert (extent (replicate c nd) = 0) as Hr
    by (induction c as [|c IH]; simpl; [done|]; by rewrite IH, Hw).
  induction nodes as [|x nodes IH]; simpl; [done|]. by rewrite IH.
Qed.

(** The extent scan finds the last written row. *)
Lemma extent_full nodes nd : written nd = true -> extent (nodes ++ [nd]) = S (length nodes).
Proof. intros Hw. induction nodes as [|x nodes IH]; simpl; [by rewrite Hw|]. by rewrite IH. Qed.

Lemma zero_node_unwritten : written (parse_node (replicate NODE_SIZE 0%Z)) = false.
Proof. vm_compute. reflexivity. Qed.

(** C10. Reading back an index file recovers it: for every well-formed header and nodes,
    laid out as the compiled structs lay them out and followed by any number of
    pre-allocated zero bytes, [load_index] returns that header, exactly those nodes
    and the capacity of the file, as long as the last node is a written one. *)
Theorem load_index_roundtrip h reserved pad0 pad1 nodes z :
  wf_header h -> length reserved = 48 -> length pad0 = 3 -> length pad1 = 4 ->
  Forall wf_node nodes -> extent nodes = length nodes ->
  load_index (encode_header h reserved ++ concat (encode_node pad0 pad1 <$> nodes)
              ++ replicate z 0%Z)
  = Ok (h, nodes, length nodes + z / NODE_SIZE).
Proof.
  intros Hh Hr H0 H1 Hn He.
  assert (Forall (fun nd => length (encode_node pad0 pad1 nd) = NODE_SIZE /\
            parse_node (encode_node pad0 pad1 nd) = nd) nodes) as Henc.
  { eapply Forall_impl; [exact Hn|]. intros nd Hnd.
    split; [by apply encode_node_length|by apply parse_encode_node]. }
  assert (length (concat (encode_node pad0 pad1 <$> nodes)) = length nodes * NODE_SIZE) as Hlen.
  { apply concat_fmap_length. eapply Forall_impl; [exact Henc|]. by intros nd [? _]. }
  pose proof (encode_header_length h reserved Hr) as Hhl.
  pose proof zero_node_unwritten as Hz.
  assert (0 < NODE_SIZE) as HN by (unfold NODE_SIZE; lia).
  unfold load_index. rewrite !length_app, length_replicate, Hhl, Hlen.
  destruct (HEADER_SIZE + (length nodes * NODE_SIZE + z) <? HEADER_SIZE) eqn:E; breflect; [lia|].
  rewrite (take_app_length' _ _ HEADER_SIZE (eq_sym Hhl)), (parse_encode_header h reserved Hh).
  rewrite (wh_magic _ Hh), Z.eqb_refl. cbn [negb].
  rewrite Nat.add_comm, Nat.add_sub, Nat.div_add_l by lia.
  rewrite sub_skip, Hhl, Nat.sub_diag by lia. unfold sub. rewrite drop_0.
  rewrite items_take by lia. rewrite items_app, (items_encode _ _ _ _ _ Henc).
  rewrite (drop_app_length' _ _ _ (eq_sym Hlen)).
  rewrite items_zeros by (rewrite Nat.mul_comm; by apply Nat.Div0.mul_div_le).
  rewrite extent_unwritten, He by done. by rewrite take_app_length.
Qed.

Definition demo_full (i : nat) : node :=
  mkNode (Z.of_nat i) 0 0 (replicate 128 1%Z) (replicate 4 (replicate 32 NO_NEIGHBOR))
    [0; -1; 0; 0]%Z.
Definition demo_header : header := mkHeader NANODB_MAGIC 2 1 (-1).

Lemma load_index_roundtrip_witness :
  load_index (encode_header demo_header (replicate 48 0%Z)
              ++ concat (encode_node [7; 7; 7]%Z [0; 0; 0; 9]%Z <$> [demo_full 0; demo_full 1])
              ++ replicate 1500 0%Z)
  = Ok (demo_header, [demo_full 0; demo_full 1], 3).
Proof.
  apply (load_index_roundtrip demo_header (replicate 48 0%Z) [7; 7; 7]%Z [0; 0; 0; 9]%Z
           [demo_full 0; demo_full 1] 1500); try reflexivity.
  - constructor; unfold is_u32, is_i32; simpl; lia.
  - assert (forall i, i <= 1 -> wf_node (demo_full i)) as H.
    { intros i Hi. constructor; unfold is_u32, is_i32; simpl n_id; simpl n_max_layer;
        simpl n_deleted; try lia; (split; [reflexivity|]).
      - apply Forall_replicate. lia.
      - apply Forall_replicate. split; [reflexivity|]. apply Forall_replicate. unfold NO_NEIGHBOR. lia.
      - repeat constructor; lia. }
    constructor; [apply H; lia|]. constructor; [apply H; lia|constructor].
Defined.
