(* ===== verification/Sift.v ===== *)
(** * The SIFT corpus loader

    [research/replica_recall/sift.py]: the fvecs parser, the cached download and
    [load]. A file system maps paths to byte lists; what the server sends is an input. *)

From stdpp Require Import base list gmap strings.
From Stdlib Require Import QArith Qabs Lqa ZArith Lia.
From S2P Require Import Prelude PyFloat Rounding Metrics Bytes.

Local Open Scope nat_scope.

Definition EXPECTED_DIM : nat := 128.
Definition HEADER_BYTES : nat := 4.
Definition SCALE : Q := 1 # 128.

(** ** Parsing *)

Definition record_bytes (dim : nat) : nat := HEADER_BYTES + 4 * dim.

(** [b[:want]], [src.read(want)] *)
Definition read_bytes (content : list Z) (want : option nat) : list Z :=
  match want with None => content | Some w => take w content end.

(** One row of [words]: the header as [int32], the other columns as bit patterns. *)
Definition parse_record (dim : nat) (b : list Z) : Z * list Z :=
  (i32 (take HEADER_BYTES b), items u32 4 dim (drop HEADER_BYTES b)).

Definition read_fvecs (content : list Z) (limit : option nat) (dim : nat)
    : result (list (list Z)) :=
  let rec := record_bytes dim in
  let buf := read_bytes content ((fun l => l * rec) <$> limit) in
  if Nat.eqb (length buf) 0 then Raise ValueError
  else if negb (Nat.eqb (length buf mod rec) 0) then Raise ValueError
  else
    let n := length buf / rec in
    if match limit with Some l => n <? l | None => false end then Raise ValueError
    else
      let words := items (parse_record dim) rec n buf in
      if existsb (fun w => negb (Z.eqb w.1 (Z.of_nat dim))) words then Raise ValueError
      else Ok words.*2.

(** ** float32 values *)

Inductive f32v : Type :=
| F32Nan
| F32Inf (neg : bool)
| F32 (q : Q).

Definition f32_exp (w : Z) : Z := (w / 2 ^ 23) mod 256.
Definition f32_frac (w : Z) : Z := w mod 2 ^ 23.
Definition f32_neg (w : Z) : bool := (2 ^ 31 <=? w)%Z.

(** The value of a binary32 bit pattern. *)
Definition f32_val (w : Z) : f32v :=
  let e := f32_exp w in
  let m := f32_frac w in
  let sign (q : Q) := if f32_neg w then (- q)%Q else q in
  if Z.eqb e 255 then if Z.eqb m 0 then F32Inf (f32_neg w) else F32Nan
  else if Z.eqb e 0 then F32 (sign (inject_Z m * pow2 (-149))%Q)
  else F32 (sign (inject_Z (2 ^ 23 + m) * pow2 (e - 150))%Q).

(** [x * np.float32(scale)] for a positive scale below 1. *)
Definition f32_scale (scale : Q) (x : f32v) : f32v :=
  match x with F32 q => F32 (f32 (q * f32 scale)) | _ => x end.

(** ** Fetching *)

Notation fs := (gmap string (list Z)).

(** What the download meets: [urlopen] raises, or a status and the chunks read until
    the first empty one, or until an exception. *)
Inductive download : Type :=
| UrlExn (e : exn)
| Resp (status : Z) (chunks : list (list Z)) (broken : option exn).

Fixpoint until_empty (chunks : list (list Z)) : list Z :=
  match chunks with
  | [] | [] :: _ => []
  | c :: rest => c ++ until_empty rest
  end.

Definition part (path : string) : string := (path +:+ ".part")%string.

Definition getsize (f : fs) (path : string) : nat := length (default [] (f !! path)).

Definition cached (f : fs) (path : string) (want_bytes : option nat) : bool :=
  let have := getsize f path in
  negb (Nat.eqb have 0) && match want_bytes with None => true | Some w => w <=? have end.

(** [_ensure]: the handler removes the partial file and re-raises. *)
Definition ensure (f : fs) (path : string) (want_bytes : option nat) (d : download)
    : fs * result unit :=
  if cached f path want_bytes then (f, Ok ())
  else
    let tmp := part path in
    match d with
    | UrlExn e => (delete tmp f, Raise e)
    | Resp status chunks broken =>
        if match want_bytes with Some _ => negb (Z.eqb status 206) | None => false end
        then (delete tmp f, Raise RuntimeError)
        else
          let body := until_empty chunks in
          let f1 := <[tmp := body]> f in
          match broken with
          | Some e => (delete tmp f1, Raise e)
          | None =>
              if match want_bytes with Some w => negb (Nat.eqb (length body) w) | None => false end
              then (delete tmp f1, Raise RuntimeError)
              else (<[path := body]> (delete tmp f1), Ok ())
          end
    end.

Definition BASE_FILE : string := "sift_base.fvecs".
Definition QUERY_FILE : string := "sift_query.fvecs".

Definition default_cache_dir (env : option string) (here : string) : string :=
  match env with
  | Some e => if bool_decide (e = EmptyString) then (here +:+ "/data")%string else e
  | None => (here +:+ "/data")%string
  end.

Definition in_dir (dir file : string) : string := (dir +:+ "/" +:+ file)%string.

Definition fetch (f : fs) (dir : string) (n_base dim : nat) (d1 d2 : download)
    : fs * result (string * string) :=
  let base_path := in_dir dir BASE_FILE in
  let query_path := in_dir dir QUERY_FILE in
  match ensure f base_path (Some (n_base * record_bytes dim)) d1 with
  | (f1, Raise e) => (f1, Raise e)
  | (f1, Ok _) =>
      match ensure f1 query_path None d2 with
      | (f2, Raise e) => (f2, Raise e)
      | (f2, Ok _) => (f2, Ok (base_path, query_path))
      end
  end.

(** ** Loading *)

Definition open_read (f : fs) (path : string) : result (list Z) :=
  match f !! path with Some b => Ok b | None => Raise (OtherError "FileNotFoundError") end.

(** [base * np.float32(scale)] unless the scale is 1. *)
Definition component (scale : Q) (w : Z) : f32v :=
  if Qeq_bool scale 1 then f32_val w else f32_scale scale (f32_val w).

Definition scaled (scale : Q) (rows : list (list Z)) : list (list f32v) :=
  (fun r : list Z => component scale <$> r) <$> rows.

Definition load (f : fs) (dir : string) (n_base dim : nat) (scale : Q) (d1 d2 : download)
    : fs * result (list (list f32v) * list (list f32v)) :=
  match fetch f dir n_base dim d1 d2 with
  | (f', Raise e) => (f', Raise e)
  | (f', Ok (base_path, query_path)) =>
      (f', bytes ← open_read f' base_path;
           base ← read_fvecs bytes (Some n_base) dim;
           qbytes ← open_read f' query_path;
           queries ← read_fvecs qbytes None dim;
           Ok (scaled scale base, scaled scale queries))
  end.

(** ** The fvecs format *)

(** A record as the format lays it out. *)
Definition encode_record (dim : nat) (row : list Z) : list Z :=
  le_bytes 4 (Z.of_nat dim) ++ encode_words row.

Definition encode_fvecs (dim : nat) (rows : list (list Z)) : list Z :=
  concat (encode_record dim <$> rows).

Definition is_byte (b : Z) : Prop := (0 <= b < 256)%Z.
Definition fvecs_row (dim : nat) (row : list Z) : Prop := length row = dim /\ Forall is_u32 row.

Lemma encode_record_length dim row : length row = dim -> length (encode_record dim row) = record_bytes dim.
Proof.
  intros H. unfold encode_record, record_bytes, HEADER_BYTES.
  rewrite length_app, le_bytes_length, encode_words_length. lia.
Qed.

Lemma parse_encode_record dim row :
  is_i32 (Z.of_nat dim) -> fvecs_row dim row ->
  parse_record dim (encode_record dim row) = (Z.of_nat dim, row).
Proof.
  intros Hd [Hl Hu]. unfold parse_record, encode_record, HEADER_BYTES.
  rewrite take_app_length', drop_app_length' by (by rewrite le_bytes_length).
  rewrite i32_bytes by done. f_equal. rewrite <- (app_nil_r (encode_words row)).
  by apply items_u32.
Qed.

Lemma read_encoded dim rows rest :
  is_i32 (Z.of_nat dim) -> Forall (fvecs_row dim) rows ->
  items (parse_record dim) (record_bytes dim) (length rows) (encode_fvecs dim rows ++ rest)
  = (fun r => (Z.of_nat dim, r)) <$> rows.
Proof.
  intros Hd H. rewrite <- (length_fmap (fun r => (Z.of_nat dim, r)) rows).
  unfold encode_fvecs.
  replace (encode_record dim <$> rows)
    with ((fun x : Z * list Z => encode_record dim x.2) <$> ((fun r => (Z.of_nat dim, r)) <$> rows))
    by (by rewrite <- list_fmap_compose).
  apply items_encode, Forall_fmap. eapply Forall_impl; [exact H|]. intros r Hr. simpl. split.
  - apply encode_record_length, Hr.
  - by apply parse_encode_record.
Qed.

Lemma encode_fvecs_length dim rows :
  Forall (fvecs_row dim) rows -> length (encode_fvecs dim rows) = length rows * record_bytes dim.
Proof.
  intros H. apply concat_fmap_length. eapply Forall_impl; [exact H|].
  intros r Hr. apply encode_record_length, Hr.
Qed.

(** Parsing a chunk loses nothing. *)
Lemma encode_parse_record dim b :
  length b = record_bytes dim -> Forall is_byte b ->
  fvecs_row dim (parse_record dim b).2 /\
  le_bytes 4 (parse_record dim b).1 ++ encode_words (parse_record dim b).2 = b.
Proof.
  intros Hl Hb. unfold record_bytes, HEADER_BYTES in Hl.
  assert (length (take HEADER_BYTES b) = 4) as H4 by (rewrite length_take; unfold HEADER_BYTES; lia).
  assert (length (drop HEADER_BYTES b) = dim * 4) as H4' by (rewrite length_drop; unfold HEADER_BYTES; lia).
  unfold parse_record. cbn [fst snd]. split; [split|].
  - apply items_length.
  - apply items_Forall; [done|by apply Forall_drop|]. intros c Hc Hcb. unfold u32, is_u32.
    pose proof (le_val_range c Hcb) as Hr. rewrite Hc in Hr. exact Hr.
  - rewrite encode_items_u32 by (done || by apply Forall_drop).
    rewrite le_bytes_i32 by (done || by apply Forall_take). apply take_drop.
Qed.

Lemma headers_ok dim words :
  existsb (fun w : Z * list Z => negb (Z.eqb w.1 (Z.of_nat dim))) words = false <->
  Forall (fun w => w.1 = Z.of_nat dim) words.
Proof.
  induction words as [|w words IH]; simpl; [by split|].
  rewrite orb_false_iff, IH, negb_false_iff, Z.eqb_eq. split; [intros []; by constructor|].
  intros H. by inversion H.
Qed.

Lemma read_fvecs_facts content limit dim :
  Forall is_byte content -> is_i32 (Z.of_nat dim) ->
  forall rows, read_fvecs content limit dim = Ok rows <->
     rows <> [] /\ Forall (fvecs_row dim) rows /\
     (forall l, limit = Some l -> length rows = l) /\
     encode_fvecs dim rows = read_bytes content ((fun l => l * record_bytes dim) <$> limit).
Proof.
  intros Hb Hd. unfold read_fvecs. set (rec := record_bytes dim).
  set (buf := read_bytes content _).
  assert (0 < rec) as Hrec by (unfold rec, record_bytes, HEADER_BYTES; lia).
  assert (Forall is_byte buf) as Hbuf by (unfold buf; destruct limit; simpl; [by apply Forall_take|done]).
  intros rows. split.
  - intros H. destruct (length buf =? 0) eqn:E0; [done|].
    destruct (length buf mod rec =? 0) eqn:Em; [|done]. cbn [negb] in H.
    destruct (match limit with Some l => _ | None => _ end) eqn:El; [done|].
    destruct (existsb _ _) eqn:Eh; [done|]. apply Ok_inj in H. subst rows. breflect.
    assert (length buf = length buf / rec * rec) as Hlen
      by (pose proof (Nat.div_mod_eq (length buf) rec); lia).
    set (words := items (parse_record dim) rec (length buf / rec) buf) in *.
    apply headers_ok in Eh. assert (length words = length buf / rec) as Hlw by apply items_length.
    assert (Forall (fun w => fvecs_row dim w.2) words) as Hrows.
    { apply items_Forall; [done..|]. intros c Hc Hcb. by apply encode_parse_record. }
    assert (concat ((fun w : Z * list Z => le_bytes 4 w.1 ++ encode_words w.2) <$> words) = buf) as Henc.
    { apply items_decode; [done..|]. intros c Hc Hcb. by apply encode_parse_record. }
    split_and!.
    + intros Hn. apply (f_equal length) in Hn. rewrite length_fmap, Hlw in Hn. cbn [length] in Hn. lia.
    + by apply Forall_fmap.
    + intros l ->. rewrite length_fmap, Hlw. breflect. unfold buf in *. cbn [read_bytes fmap option_fmap option_map] in *.
      rewrite length_take in *. apply Nat.le_antisymm; [|lia].
      transitivity (l * rec / rec); [apply Nat.Div0.div_le_mono; lia|]. by rewrite Nat.div_mul by lia.
    + rewrite <- Henc. unfold encode_fvecs. f_equal. rewrite <- list_fmap_compose.
      clear -Eh. induction Eh as [|w ws Hw _ IH]; [done|]. csimpl. rewrite IH. f_equal.
      unfold encode_record. simpl. by rewrite Hw.
  - intros (Hne & Hrows & Hlim & Henc). fold rec buf in Henc.
    assert (length buf = length rows * rec) as Hlen
      by (rewrite <- Henc; by apply encode_fvecs_length).
    assert (0 < length rows) by (destruct rows; [done|simpl; lia]).
    rewrite Hlen, Nat.Div0.mod_mul, Nat.div_mul by lia. cbn [Nat.eqb negb].
    destruct (_ =? 0) eqn:E0; breflect; [nia|].
    assert (match limit with Some l => length rows <? l | None => false end = false) as ->
      by (destruct limit as [l|]; [rewrite (Hlim l eq_refl); apply Nat.ltb_irrefl|done]).
    rewrite <- Henc, <- (app_nil_r (encode_fvecs dim rows)), read_encoded by done.
    assert (existsb (fun w : Z * list Z => negb (Z.eqb w.1 (Z.of_nat dim)))
              ((fun r => (Z.of_nat dim, r)) <$> rows) = false) as ->
      by (apply headers_ok, Forall_fmap, Forall_true; done).
    by rewrite <- list_fmap_compose, list_fmap_id.
Qed.

(** C29. [read_fvecs] is exact: it returns rows precisely when the bytes it reads are the
    encoding of at least one row of the expected dimension, of as many rows as were
    asked for when a limit was given, and it returns those rows. Anything else -- a
    truncated file, a wrong header in any record, a short file -- raises. *)
Theorem read_fvecs_exact content limit dim :
  Forall is_byte content -> is_i32 (Z.of_nat dim) ->
  (forall rows, read_fvecs content limit dim = Ok rows <->
     rows <> [] /\ Forall (fvecs_row dim) rows /\
     (forall l, limit = Some l -> length rows = l) /\
     encode_fvecs dim rows = read_bytes content ((fun l => l * record_bytes dim) <$> limit)) /\
  (forall e, read_fvecs content limit dim = Raise e -> e = ValueError).
Proof.
  intros Hb Hd. split; [by apply read_fvecs_facts|].
  intros e. unfold read_fvecs. repeat case_match; congruence.
Qed.

Lemma read_fvecs_exact_witness :
  read_fvecs (encode_fvecs 2 [[1; 2]; [3; 4]]%Z ++ [9; 9]%Z) (Some 2) 2 = Ok [[1; 2]; [3; 4]]%Z.
Proof.
  refine (proj2 (proj1 (read_fvecs_exact _ (Some 2) 2 _ _) _) _).
  - apply (bool_decide_unpack _). vm_compute. exact I.
  - done.
  - split_and!; [done|repeat constructor; done| |reflexivity]. by intros l [= <-].
Defined.

(** ** Scaling *)

(** Dividing a normal number by 128 is a decrement of its exponent field: the result
    is a binary32 number too, so nothing is rounded. *)
Lemma f32_scale_exact w q :
  is_u32 w -> (8 <= f32_exp w < 255)%Z -> f32_val w = F32 q ->
  exists q', f32_val (w - 7 * 2 ^ 23) = F32 q' /\ (q' == q * SCALE)%Q.
Proof.
  intros Hw He Hv.
  assert (f32_frac (w - 7 * 2 ^ 23) = f32_frac w) as Hm.
  { unfold f32_frac. replace (w - 7 * 2 ^ 23)%Z with (w + (-7) * 2 ^ 23)%Z by lia. by rewrite Z.mod_add by lia. }
  assert (f32_exp (w - 7 * 2 ^ 23) = f32_exp w - 7)%Z as He'.
  { unfold f32_exp in *. replace (w - 7 * 2 ^ 23)%Z with (w + (-7) * 2 ^ 23)%Z by lia.
    rewrite Z.div_add by lia. symmetry. apply (Z.mod_unique_pos _ 256 (w / 2 ^ 23 / 256)); [lia|].
    pose proof (Z.div_mod (w / 2 ^ 23) 256). lia. }
  assert (f32_neg (w - 7 * 2 ^ 23) = f32_neg w) as Hn.
  { unfold f32_neg, f32_exp, is_u32 in *.
    assert (w = 2 ^ 23 * (w / 2 ^ 23) + w mod 2 ^ 23)%Z as Hd by (apply Z.div_mod; lia).
    pose proof (Z.mod_pos_bound w (2 ^ 23) ltac:(lia)).
    assert (w / 2 ^ 23 = 256 * (w / 2 ^ 23 / 256) + (w / 2 ^ 23) mod 256)%Z as Hd' by (apply Z.div_mod; lia).
    assert (0 <= w / 2 ^ 23 / 256 < 2)%Z by (split; [apply Z.div_pos; [apply Z.div_pos; lia|lia]|
      apply Z.div_lt_upper_bound; [lia|apply Z.div_lt_upper_bound; lia]]).
    destruct (Z.leb_spec (2 ^ 31) w), (Z.leb_spec (2 ^ 31) (w - 7 * 2 ^ 23)); lia. }
  unfold f32_val in *. rewrite Hm, He', Hn.
  destruct (Z.eqb_spec (f32_exp w) 255); [lia|]. destruct (Z.eqb_spec (f32_exp w) 0); [lia|].
  destruct (Z.eqb_spec (f32_exp w - 7) 255); [lia|]. destruct (Z.eqb_spec (f32_exp w - 7) 0); [lia|].
  simplify_eq. eexists. split; [reflexivity|].
  replace (f32_exp w - 7 - 150)%Z with (f32_exp w - 150 + -7)%Z by lia.
  set (m := inject_Z _). assert (pow2 (-7) == SCALE)%Q as H7 by reflexivity.
  destruct (f32_neg w); rewrite pow2_add, H7; ring.
Qed.

Definition f32_finite (x : f32v) : option Q := match x with F32 q => Some q | _ => None end.

(** An array without infinities and NaNs, as vectors. *)
Definition finite_rows (rows : list (list f32v)) : option (list vec) := mapM (mapM f32_finite) rows.

(** A SIFT component: the bit pattern of an integer from 0 to 255. *)
Definition sift_int (w : Z) (z : Z) : Prop :=
  (0 <= z <= 255)%Z /\ exists q, f32_val w = F32 q /\ (q == inject_Z z)%Q.
Definition sift_word (w : Z) : Prop := exists z, sift_int w z.

(** The value of a component is a multiple of [s], between 0 and [255 * s]. *)
Definition sift_value (s : Q) (x : Q) (z : Z) : Prop := (0 <= z <= 255)%Z /\ (x == inject_Z z * s)%Q.

Lemma component_raw w z : sift_int w z ->
  exists x, f32_finite (component 1 w) = Some x /\ sift_value 1 x z.
Proof.
  intros (Hz & q & Eq & Hq). exists q. unfold component. simpl. rewrite Eq.
  split; [done|]. split; [done|]. rewrite Hq. ring.
Qed.

Lemma component_scaled w z : sift_int w z ->
  exists x, f32_finite (component SCALE w) = Some x /\ sift_value SCALE x z.
Proof.
  intros (Hz & q & Eq & Hq). unfold component. change (Qeq_bool SCALE 1) with false. cbn match.
  rewrite Eq. eexists. split; [done|]. split; [done|].
  assert (f32 SCALE == SCALE)%Q as Es by (by vm_compute).
  assert (q * f32 SCALE == inject_Z z * pow2 (-7))%Q as E by (rewrite Hq, Es; reflexivity).
  rewrite (f32_grid (-7)); [rewrite E; reflexivity|done|by exists z|].
  rewrite E, Qabs_Qmult. change (Qabs (inject_Z z)) with (inject_Z (Z.abs z)).
  assert (inject_Z (Z.abs z) <= 255)%Q by (change 255%Q with (inject_Z 255); rewrite <- Zle_Qle; lia).
  change (Qabs (pow2 (-7))) with (1 # 128). change (pow2 (24 + -7)) with (inject_Z (2 ^ 17)).
  change (inject_Z (2 ^ 17)) with 131072%Q. lra.
Qed.

(** The raw and the scaled array hold the same integers, in units of 1 and of 1/128. *)
Definition same_ints (s : Q) : list vec -> list vec -> Prop :=
  Forall2 (Forall2 (fun x x1 => exists z, sift_value s x z /\ sift_value 1 x1 z)).

Lemma sift_row row : Forall sift_word row ->
  exists v v1, mapM f32_finite (component SCALE <$> row) = Some v /\
    mapM f32_finite (component 1 <$> row) = Some v1 /\
    Forall2 (fun x x1 => exists z, sift_value SCALE x z /\ sift_value 1 x1 z) v v1.
Proof.
  setoid_rewrite mapM_Some.
  induction 1 as [|w row [z Hz] _ (v & v1 & E & E1 & HF)]; [by exists [], []; repeat constructor|].
  destruct (component_scaled w z Hz) as (x & Ex & Hx). destruct (component_raw w z Hz) as (x1 & Ex1 & Hx1).
  exists (x :: v), (x1 :: v1). csimpl. split_and!; constructor; eauto.
Qed.

Lemma sift_rows rows : Forall (Forall sift_word) rows ->
  exists vs vs1, finite_rows (scaled SCALE rows) = Some vs /\ finite_rows (scaled 1 rows) = Some vs1 /\
    same_ints SCALE vs vs1.
Proof.
  unfold finite_rows, scaled. setoid_rewrite mapM_Some.
  induction 1 as [|r rows Hr _ (vs & vs1 & E & E1 & HF)]; [by exists [], []; repeat constructor|].
  destruct (sift_row r Hr) as (v & v1 & Ev & Ev1 & Hv).
  exists (v :: vs), (v1 :: vs1). csimpl. split_and!; by constructor.
Qed.

Lemma finite_rows_dim s rows vs dim :
  Forall (fvecs_row dim) rows -> finite_rows (scaled s rows) = Some vs ->
  Forall (fun v => length v = dim) vs.
Proof.
  unfold finite_rows, scaled. intros Hr H%mapM_Some. apply Forall2_fmap_l in H.
  induction H as [|r v rows vs Hv _ IH]; inversion Hr as [|? ? [Hl _] Hr']; subst; constructor; [|auto].
  cbn in Hv. apply mapM_Some, Forall2_length in Hv. by rewrite length_fmap in Hv.
Qed.

Lemma sq_dist_scaled s u u1 v v1 :
  Forall2 (fun x x1 => exists z, sift_value s x z /\ sift_value 1 x1 z) u u1 ->
  Forall2 (fun x x1 => exists z, sift_value s x z /\ sift_value 1 x1 z) v v1 ->
  (sq_dist u v == s * s * sq_dist u1 v1)%Q.
Proof.
  intros Hu. revert v v1. unfold sq_dist.
  induction Hu as [|x x1 u u1 (z & [_ Hx] & [_ Hx1]) _ IH]; intros v v1 Hv.
  - cbn [zip_with]. rewrite Qsum_nil. ring.
  - destruct Hv as [|y y1 v v1 (z' & [_ Hy] & [_ Hy1]) Hv]; cbn [zip_with];
      rewrite ?Qsum_nil, ?Qsum_cons; [ring|].
    rewrite (IH _ _ Hv), Hx, Hy, Hx1, Hy1. ring.
Qed.

(** Sums of at most 128 products of scaled components stay below [2^10 / 2]. *)
Lemma sift_prod_abs u v :
  Forall (fun x => exists z, sift_value SCALE x z) u -> Forall (fun x => exists z, sift_value SCALE x z) v ->
  (prod_abs (zip u v) <= inject_Z (Z.of_nat (length v)) * (65025 # 16384))%Q.
Proof.
  intros Hu. revert v. induction Hu as [|x u (z & Hz & Hx) _ IH]; intros v Hv.
  { change (prod_abs (zip [] v)) with 0%Q. assert (0 <= inject_Z (Z.of_nat (length v)))%Q
      by (change 0%Q with (inject_Z 0); rewrite <- Zle_Qle; lia). nra. }
  destruct Hv as [|y v (z' & Hz' & Hy) Hv]; [by vm_compute|].
  change (zip (x :: u) (y :: v)) with ((x, y) :: zip u v). rewrite prod_abs_cons.
  specialize (IH v Hv). cbn [length]. rewrite Nat2Z.inj_succ. unfold Z.succ. rewrite inject_Z_plus.
  change (inject_Z 1) with 1%Q.
  assert (Qabs (x * y) <= 65025 # 16384)%Q; [|lra].
  rewrite Hx, Hy. assert (0 <= inject_Z z <= 255)%Q as Bz.
  { change 0%Q with (inject_Z 0). change 255%Q with (inject_Z 255). rewrite <- !Zle_Qle. lia. }
  assert (0 <= inject_Z z' <= 255)%Q as Bz'.
  { change 0%Q with (inject_Z 0). change 255%Q with (inject_Z 255). rewrite <- !Zle_Qle. lia. }
  unfold SCALE. rewrite Qabs_pos; nra.
Qed.

Lemma sift_on_grid vs vs1 qs qs1 dim :
  same_ints SCALE vs vs1 -> same_ints SCALE qs qs1 -> dim <= EXPECTED_DIM ->
  Forall (fun v => length v = dim) vs -> on_f32_grid (-7) qs vs.
Proof.
  intros Hv Hq Hd Hl.
  assert (forall l l1, same_ints SCALE l l1 -> Forall (Forall (fun x => exists z, sift_value SCALE x z)) l) as Hi.
  { intros l l1 H. eapply Forall2_Forall_l; [exact H|]. apply Forall_true. intros r1 r Hr.
    eapply Forall2_Forall_l; [exact Hr|]. apply Forall_true. intros x1 x (z & Hx & _). eauto. }
  assert (forall l, Forall (Forall (fun x => exists z, sift_value SCALE x z)) l ->
    Forall (Forall (fun x => on_grid (-7) x /\ 0 <= x)%Q) l) as Hg.
  { intros l H. eapply Forall_impl; [exact H|]. intros r Hr. eapply Forall_impl; [exact Hr|].
    intros x (z & Hz & Hx). split; [exists z; by rewrite Hx|]. rewrite Hx. unfold SCALE.
    assert (0 <= inject_Z z)%Q by (change 0%Q with (inject_Z 0); rewrite <- Zle_Qle; lia). lra. }
  pose proof (Hi _ _ Hv) as Iv. pose proof (Hi _ _ Hq) as Iq. split; [lia|by apply Hg..|].
  intros q v Inq Inv. rewrite Forall_forall in Iv, Iq, Hl.
  pose proof (sift_prod_abs v v (Iv v Inv) (Iv v Inv)) as B1.
  pose proof (sift_prod_abs q v (Iq q Inq) (Iv v Inv)) as B2.
  assert (inject_Z (Z.of_nat (length v)) <= 128)%Q.
  { change 128%Q with (inject_Z 128). rewrite <- Zle_Qle. rewrite (Hl v Inv). unfold EXPECTED_DIM in Hd. lia. }
  change (pow2 (24 + (-7 + -7))) with 1024%Q. lra.
Qed.

Lemma Forall2_nth_vec (P : vec -> vec -> Prop) l l1 i :
  Forall2 P l l1 -> P [] [] -> P (nth i l []) (nth i l1 []).
Proof.
  intros H H0. revert i. induction H as [|x y l l1 Hxy _ IH]; intros [|i]; simpl; auto.
Qed.

(** C27. SIFT ground truth is exact, and scaling keeps the ranking. On arrays of at most
    128 dimensions whose components are integers from 0 to 255, as SIFT's are, exact
    search in [float32] over the vectors scaled by 1/128 rounds nothing, in whatever
    order NumPy adds: for each query it returns a correct top-k by the exact euclidean
    distance of the unscaled vectors. *)
Theorem sift_ranking_exact (np : Numpy) rows qrows k dim :
  NumpyLaws np -> dim <= EXPECTED_DIM ->
  Forall (fvecs_row dim) rows -> Forall (fvecs_row dim) qrows ->
  Forall (Forall sift_word) rows -> Forall (Forall sift_word) qrows ->
  exists vb vq vb1 vq1 top,
    finite_rows (scaled SCALE rows) = Some vb /\ finite_rows (scaled SCALE qrows) = Some vq /\
    finite_rows (scaled 1 rows) = Some vb1 /\ finite_rows (scaled 1 qrows) = Some vq1 /\
    exact_topk_rows vq vb k "l2" = Ok top /\
    Forall2 (fun q r => is_topk (distances "l2" vb1 q) (length rows) (min k (length rows)) r) vq1 top.
Proof.
  intros laws Hd Hr Hq Sr Sq.
  destruct (sift_rows rows Sr) as (vb & vb1 & Eb & Eb1 & Fb).
  destruct (sift_rows qrows Sq) as (vq & vq1 & Eq & Eq1 & Fq).
  pose proof (finite_rows_dim _ _ _ _ Hr Eb) as Lb. pose proof (finite_rows_dim _ _ _ _ Hq Eq) as Lq.
  pose proof (sift_on_grid _ _ _ _ _ Fb Fq Hd Lb) as Hg.
  destruct (exact_topk_rows_grid np vq vb k dim (-7) laws Lq Lb Hg) as (top & Et & HF).
  exists vb, vq, vb1, vq1, top. split_and!; [done..|].
  assert (length vb = length rows) as Hl.
  { unfold finite_rows, scaled in Eb. apply mapM_Some, Forall2_length in Eb. by rewrite length_fmap in Eb. }
  rewrite Hl in HF. clear Et Hg Eq Eq1 Lq Sq Hq. revert top HF.
  induction Fq as [|q q1 vq vq1 Hqq _ IH]; intros top HF;
    inversion HF as [|? r ? rs Hr1 HF' Ha Hb]; subst; constructor; [|by apply IH].
  eapply is_topk_ext; [|exact Hr1]. intros a b _ _ H.
  assert (forall i, distances "l2" vb q i == SCALE * SCALE * distances "l2" vb1 q1 i)%Q as Hs.
  { intros i. apply (sq_dist_scaled SCALE); [done|]. apply Forall2_nth_vec; [done|constructor]. }
  pose proof (Hs a). pose proof (Hs b). unfold SCALE in *. lra.
Qed.

(** Two SIFT-like vectors [3, 4] and [1, 0] against the origin. *)
Definition f32_one : Z := 0x3F800000.
Definition f32_three : Z := 0x40400000.
Definition f32_four : Z := 0x40800000.

Lemma sift_ranking_exact_witness :
  exists vb vq vb1 vq1 top,
    finite_rows (scaled SCALE [[f32_three; f32_four]; [f32_one; 0]]%Z) = Some vb /\
    finite_rows (scaled SCALE [[0; 0]]%Z) = Some vq /\
    finite_rows (scaled 1 [[f32_three; f32_four]; [f32_one; 0]]%Z) = Some vb1 /\
    finite_rows (scaled 1 [[0; 0]]%Z) = Some vq1 /\
    exact_topk_rows vq vb 1 "l2" = Ok top /\
    Forall2 (fun q r => is_topk (distances "l2" vb1 q) 2 1 r) vq1 top.
Proof.
  apply (sift_ranking_exact ref_numpy [[f32_three; f32_four]; [f32_one; 0]]%Z [[0; 0]]%Z 1 2);
    [apply ref_numpy_laws|unfold EXPECTED_DIM; lia|repeat constructor; done..| |].
  - repeat constructor; [exists 3%Z|exists 4%Z|exists 1%Z|exists 0%Z]; (split; [done|]);
      eexists; (split; [vm_compute; reflexivity|by vm_compute]).
  - repeat constructor; exists 0%Z; (split; [done|]);
      eexists; (split; [vm_compute; reflexivity|by vm_compute]).
Defined.

(** ** The cache *)

Lemma part_ne path : part path <> path.
Proof.
  unfold part. induction path as [|c path IH]; simpl; [done|]. by intros [= ?].
Qed.

(** The cached download is atomic. Whatever the server does, [_ensure] touches only the
    file and its [.part]; when it raises, the file is as it was and no [.part] is left;
    when it returns, the file is there with at least the bytes asked for, and is either
    the cached one or exactly one complete download; and once a non-empty file is there,
    calling it again changes nothing. *)
Theorem ensure_atomic f path want d f' r :
  ensure f path want d = (f', r) ->
  (forall p, p <> path -> p <> part path -> f' !! p = f !! p) /\
  (forall e, r = Raise e -> f' !! path = f !! path /\ f' !! part path = None) /\
  (r = Ok () ->
     exists b, f' !! path = Some b /\ (forall w, want = Some w -> w <= length b) /\
       (f' = f \/ exists status chunks, d = Resp status chunks None /\ b = until_empty chunks /\
                    (forall w, want = Some w -> status = 206%Z /\ length b = w)) /\
       (b <> [] -> forall d', ensure f' path want d' = (f', Ok ()))).
Proof.
  intros H. unfold ensure in H.
  destruct (cached f path want) eqn:Ec.
  { simplify_eq. split; [done|]. split; [done|]. intros _.
    unfold cached, getsize in Ec. destruct (f' !! path) as [b|] eqn:Eb; [|done].
    exists b. split; [done|]. split_and!; [|by left|].
    - intros w ->. simpl in Ec. breflect. done.
    - intros _ d'. unfold ensure, cached, getsize. rewrite Eb. by rewrite Ec. }
  pose proof (part_ne path) as Hne. destruct d as [e|status chunks broken].
  { simplify_eq. split_and!; [|intros e' _; split|done]; intros; by simplify_map_eq. }
  set (body := until_empty chunks) in *.
  assert (forall e, (delete (part path) (<[part path := body]> f), Raise e) = (f', r) ->
    (forall p, p <> path -> p <> part path -> f' !! p = f !! p) /\
    (forall e', r = Raise e' -> f' !! path = f !! path /\ f' !! part path = None) /\ r <> Ok ()) as Hbad.
  { intros e He. simplify_eq. rewrite delete_insert_eq.
    split_and!; [|intros e' _; split|done]; intros; by simplify_map_eq. }
  destruct (match want with Some _ => negb (Z.eqb status 206) | None => false end) eqn:Est.
  { simplify_eq. split_and!; [|intros e' _; split|done]; intros; by simplify_map_eq. }
  destruct broken as [e|]; [naive_solver|].
  destruct (match want with Some w => negb (length body =? w) | None => false end) eqn:Ew; [naive_solver|].
  simplify_eq. rewrite delete_insert_eq. split; [|split].
  - intros p Hp Hp'. rewrite lookup_insert_ne, lookup_delete_ne; done.
  - done.
  - intros _. exists body. rewrite lookup_insert_eq.
    assert (forall w, want = Some w -> status = 206%Z /\ length body = w) as Hw.
    { intros w ->. breflect. done. }
    split; [done|]. split; [intros w Hw'; apply Hw in Hw' as [_ <-]; done|]. split.
    + right. exists status, chunks. done.
    + intros Hb d'. unfold ensure, cached, getsize. rewrite lookup_insert_eq. simpl.
      destruct body as [|x body']; [done|]. simpl.
      destruct want as [w|]; [|done]. destruct (Hw w eq_refl) as [_ <-].
      by rewrite Nat.leb_refl.
Qed.

Definition demo_download : download := Resp 206 [[1; 2]; [3; 4]; []; [5]]%Z None.

Definition demo_fs : fs := (ensure ∅ "b" (Some 4) demo_download).1.

Lemma ensure_atomic_witness :
  demo_fs !! "b" = Some [1; 2; 3; 4]%Z /\
  forall d', ensure demo_fs "b" (Some 4) d' = (demo_fs, Ok ()).
Proof.
  split; [reflexivity|].
  assert (ensure ∅ "b" (Some 4) demo_download = (demo_fs, Ok ())) as E by reflexivity.
  destruct (ensure_atomic _ _ _ _ _ _ E) as (_ & _ & H).
  destruct (H eq_refl) as (b & Hb & _ & _ & Hi). vm_compute in Hb. simplify_eq. by apply Hi.
Defined.

(** A query download that ends early is stored and never fetched again: no size is
    expected of it. *)
Example short_query_file_is_cached :
  let '(f1, r1) := ensure ∅ "q" None (Resp 200 [[1; 2; 3]]%Z None) in
  r1 = Ok () /\ ensure f1 "q" None (Resp 200 [[1; 2; 3; 4]]%Z None) = (f1, Ok ()).
Proof. by split. Qed.

(** [load] never hands back a smaller corpus than was asked for. *)
Lemma load_complete f dir n dim scale d1 d2 f' base queries :
  load f dir n dim scale d1 d2 = (f', Ok (base, queries)) ->
  (forall p b, f' !! p = Some b -> Forall is_byte b) -> is_i32 (Z.of_nat dim) ->
  length base = n /\ queries <> [] /\
  Forall (fun v => length v = dim) base /\ Forall (fun v => length v = dim) queries.
Proof.
  unfold load. intros H Hb Hd. destruct (fetch f dir n dim d1 d2) as [f1 [[bp qp]|]]; [|done].
  apply pair_equal_spec in H as [-> H]. unfold open_read in H.
  destruct (f' !! bp) as [bytes|] eqn:E1; simpl in H; [|done].
  destruct (read_fvecs bytes (Some n) dim) as [rows|] eqn:E2; simpl in H; [|done].
  destruct (f' !! qp) as [qbytes|] eqn:E3; simpl in H; [|done].
  destruct (read_fvecs qbytes None dim) as [qrows|] eqn:E4; simpl in H; [|done].
  simplify_eq.
  apply (read_fvecs_facts bytes (Some n) dim (Hb _ _ E1) Hd) in E2 as (_ & R2 & L2 & _).
  apply (read_fvecs_facts qbytes None dim (Hb _ _ E3) Hd) in E4 as (N4 & R4 & _ & _).
  unfold scaled. rewrite length_fmap. split_and!.
  - by apply L2.
  - by destruct qrows.
  - apply Forall_fmap. eapply Forall_impl; [exact R2|]. intros r [Hr _]. simpl. by rewrite length_fmap.
  - apply Forall_fmap. eapply Forall_impl; [exact R4|]. intros r [Hr _]. simpl. by rewrite length_fmap.
Qed.
