(* ===== verification/Analyze.v ===== *)
(** * From samples to answers

    [research/replica_recall/analyze.py]: the reductions behind the experiment's
    questions, as the numbers and the verdict each function prints. The printed text is in
    [AnalyzeReport], the reading of the files in [SampleFile] and [NanoRecord]. *)

From stdpp Require Import base list gmap strings sorting.
From Stdlib Require Import QArith Qminmax Qabs Qround Lqa ZArith Lia.
From S2P Require Import Prelude PyFloat Metrics.

Local Open Scope nat_scope.

(** ** Rows *)

(** A CSV cell: blank or absent, not a number, or a number. *)
Inductive cell : Type :=
| CBlank
| CText
| CNum (x : float).

(** [_f] *)
Definition cellf (c : cell) : float :=
  match c with CNum x => x | CBlank | CText => nan end.

Record srow := mkS {
  s_name : string;
  s_shard : string;
  s_reachable : string;
  s_t_rel : string * cell;       (* the text, which keys the groups, and its value *)
  s_n_local : cell;
  s_n_intended : cell;
  s_index : cell;
  s_compl : cell;
  s_e2e : cell;
  s_loo : cell;
}.

(** [r["reachable"] != "1"] is skipped everywhere. *)
Definition reach (r : srow) : bool := bool_decide (s_reachable r = "1"%string).
Definition reachable_rows (rows : list srow) : list srow := List.filter reach rows.

Definition nanmean (xs : list float) : float := mean_or_nan (drop_nan xs).

(** ** [_recall_by_size] *)

Definition SIZE_BIN : Q := 2500.

(** The usable rows: (bin, (e2e, index)). *)
Definition size_sample (r : srow) : option (Z * (Q * float)) :=
  match cellf (s_n_local r), cellf (s_e2e r) with
  | fin n, fin e => Some (Qfloor (n / SIZE_BIN), (e, cellf (s_index r)))
  | _, _ => None
  end.

Definition recall_by_size (rows : list srow) : list (Z * (Q * float * nat)) :=
  (fun bv : Z * list (Q * float) =>
     (bv.1, (np_mean bv.2.*1, mean_or_nan (drop_nan bv.2.*2), length bv.2)))
    <$> group_by fst snd (omap size_sample (reachable_rows rows)).

(** The size-controlled comparison: the deltas of the bins both runs have. *)
Definition overlap_deltas (rows compare_rows : list srow) : list Q :=
  let a := recall_by_size rows in
  let b := recall_by_size compare_rows in
  omap (fun bin => match dget bin a, dget bin b with
                   | Some (ea, _, _), Some (eb, _, _) => Some (ea - eb)%Q
                   | _, _ => None
                   end)
    (sorted Z.leb (remove_dups (dkeys a ++ dkeys b))).

(** ** [_intra_shard_spreads] *)

Definition ts_key (r : srow) : string * string := (fst (s_t_rel r), s_shard r).

Definition e2e_sample (r : srow) : option ((string * string) * Q) :=
  match cellf (s_e2e r) with fin v => Some (ts_key r, v) | nan => None end.

Definition minmax (vals : list Q) : Q * Q :=
  match vals with
  | [] => (0, 0)
  | v :: vs => (Qmin_list v vs, Qmax_list v vs)
  end%Q.

Definition intra_shard_spreads (rows : list srow) : list Q * list Q * list Q :=
  let by_ts := dvalues (group_by fst snd (omap e2e_sample (reachable_rows rows))) in
  let multi := List.filter (fun vals => 2 <=? length vals) by_ts in
  ((fun vals => let '(lo, hi) := minmax vals in (hi - lo)%Q) <$> multi,
   (fun vals => (minmax vals).1) <$> multi,
   (fun vals => (minmax vals).2) <$> multi).

(** ** [resolution_eps] *)

(** [int(meta.get(key) or default)] for an integer-valued or missing entry. *)
Definition or_default (v : option Z) (d : Z) : Z :=
  match v with Some z => if Z.eqb z 0 then d else z | None => d end.

Definition resolution_eps (k queries : option Z) : Q :=
  ((1 # 2) / inject_Z (or_default k 10 * or_default queries 100))%Q.

(** ** [_detection_stats] *)

Record cand := mkCand { c_name : string; c_loo : Q; c_e2e : Q }.

Definition loo_sample (r : srow) : option ((string * string) * cand) :=
  match cellf (s_loo r), cellf (s_e2e r) with
  | fin l, fin e => Some (ts_key r, mkCand (s_name r) l e)
  | _, _ => None
  end.

(** [min(g, key=...)]: the first of the smallest. *)
Fixpoint min_by {A} (key : A -> Q) (best : A) (l : list A) : A :=
  match l with
  | [] => best
  | x :: l' => min_by key (if Qltb (key x) (key best) then x else best) l'
  end.

(** [srt[1] - srt[0]] over the sorted true recalls. *)
Definition recall_margin (g : list cand) : Q :=
  let srt := sorted Qle_bool (c_e2e <$> g) in (nth 1 srt 0 - nth 0 srt 0)%Q.

Definition is_hit (g : list cand) : bool :=
  match g with
  | [] => false
  | x :: xs => bool_decide (c_name (min_by c_loo x xs) = c_name (min_by c_e2e x xs))
  end.

Definition variance (l : list Q) : Q :=
  let m := np_mean l in np_mean ((fun x => (x - m) * (x - m))%Q <$> l).

Definition covariance (a b : list Q) : Q :=
  let ma := np_mean a in
  let mb := np_mean b in
  np_mean (zip_with (fun x y => (x - ma) * (y - mb))%Q a b).

Section Detection.
Context {np : Numpy}.

Definition ranks (l : list Q) : list Q :=
  (fun i => inject_Z (Z.of_nat i)) <$>
    argsort ((fun i => inject_Z (Z.of_nat i)) <$> argsort l).

(** [np.corrcoef] of two rank vectors. Both are permutations of [0..m-1], so their
    standard deviations are equal and the product under the quotient is one variance. *)
Definition rank_corr (g : list cand) : option Q :=
  let loo := c_loo <$> g in
  let e2e := c_e2e <$> g in
  (* std > 1e-9 *)
  if Qltb (1 # 1000000000000000000) (variance loo) &&
     Qltb (1 # 1000000000000000000) (variance e2e)
  then Some (covariance (ranks loo) (ranks e2e) / variance (ranks loo))%Q
  else None.

Record detection := mkDet {
  d_groups : nat;
  d_tied_excluded : nat;
  d_candidates : nat;
  d_n_replicas : float;
  d_hit_rate : float;
  d_chance : float;
  d_rank_corr : float;
  d_margin : float;
}.

Definition candidates (rows : list srow) : list (list cand) :=
  List.filter (fun g => 3 <=? length g)
    (dvalues (group_by fst snd (omap loo_sample (reachable_rows rows)))).

Definition is_tied (tie_eps : Q) (g : list cand) : bool := Qle_bool (recall_margin g) tie_eps.

Definition detection_stats (rows : list srow) (tie_eps : Q) : option detection :=
  let cs := candidates rows in
  let scored := List.filter (fun g => negb (is_tied tie_eps g)) cs in
  let tied := length (List.filter (is_tied tie_eps) cs) in
  if length scored <? 5 then
    if Nat.eqb (length cs) 0 then None
    else Some (mkDet (length scored) tied (length cs) nan nan nan nan nan)
  else
    let hits := length (List.filter is_hit scored) in
    let n_rep := np_mean ((fun g => inject_Z (Z.of_nat (length g))) <$> scored) in
    Some (mkDet (length scored) tied (length cs) (fin n_rep)
            (fin (qratio hits (length scored))) (fin (1 / n_rep)%Q)
            (mean_or_nan (omap rank_corr scored))
            (fin (np_mean (recall_margin <$> scored)))).

(** ** [summarize_run] *)

Record summary := mkSum {
  sm_spread_mean : float;
  sm_spread_p95 : float;
  sm_index : float;
  sm_compl : float;
  sm_e2e : float;
  sm_hit_rate : float;
  sm_rank_corr : float;
  sm_margin : float;
  sm_chance : float;
  sm_tied : nat;
  sm_groups : nat;
  sm_unreachable_frac : float;
  sm_by_size : list (Z * (Q * float * nat));
}.

Definition det_get {A} (d : A) (f : detection -> A) (det : option detection) : A :=
  match det with Some x => f x | None => d end.

Definition summarize_run (rows : list srow) (k queries : option Z) : summary :=
  let '(spreads, _, _) := intra_shard_spreads rows in
  let det := detection_stats rows (resolution_eps k queries) in
  let rs := reachable_rows rows in
  {| sm_spread_mean := mean_or_nan spreads;
     sm_spread_p95 := match spreads with [] => nan | _ => fin (np_percentile 95 spreads) end;
     sm_index := nanmean ((fun r => cellf (s_index r)) <$> rs);
     sm_compl := nanmean ((fun r => cellf (s_compl r)) <$> rs);
     sm_e2e := nanmean ((fun r => cellf (s_e2e r)) <$> rs);
     sm_hit_rate := det_get nan d_hit_rate det;
     sm_rank_corr := det_get nan d_rank_corr det;
     sm_margin := det_get nan d_margin det;
     sm_chance := det_get nan d_chance det;
     sm_tied := det_get 0 d_tied_excluded det;
     sm_groups := det_get 0 d_groups det;
     sm_unreachable_frac :=
       match rows with
       | [] => nan
       | _ => fin (qratio (length (List.filter (fun r => negb (reach r)) rows)) (length rows))
       end;
     sm_by_size := recall_by_size rows |}.

(** ** Q4: the verdict *)

Inductive q4_verdict : Type :=
| NotEnoughGroups
| TooFewDistinguishable
| DETECTS
| PARTIAL
| DOES_NOT_DETECT.

Definition q4_can_we_spot_the_bad_replica (rows : list srow) (k queries : option Z) : q4_verdict :=
  match detection_stats rows (resolution_eps k queries) with
  | None => NotEnoughGroups
  | Some d =>
      match d_hit_rate d, d_chance d with
      | fin rate, fin chance =>
          if Qle_bool (chance * (9 # 5)) rate && Qle_bool (11 # 20) rate then DETECTS
          else if Qle_bool (chance * (13 # 10)) rate then PARTIAL
          else DOES_NOT_DETECT
      | _, _ => TooFewDistinguishable
      end
  end.
End Detection.

(** ** Q2: windows around a kill *)

Inductive window : Type := BeforeKill | W0_5 | W5_15 | W15_30 | W30.

#[export] Instance window_eq_dec : EqDecision window.
Proof. solve_decision. Defined.

Definition BIG : Q := 1000000000.

(** The bucket of [dt], the first whose half-open interval holds it. *)
Definition bucket (dt : Q) : option window :=
  let inside lo hi := Qle_bool lo dt && Qltb dt hi in
  if inside (- BIG)%Q 0%Q then Some BeforeKill
  else if inside 0%Q 5%Q then Some W0_5
  else if inside 5%Q 15%Q then Some W5_15
  else if inside 15%Q 30%Q then Some W15_30
  else if inside 30%Q BIG then Some W30
  else None.

Definition since_kill (kills : list Q) (t : float) : Q :=
  let prior := List.filter (fun k => fle (fin k) t) kills in
  match prior, t with
  | k :: ks, fin q => (q - Qmax_list k ks)%Q
  | _, _ => (- BIG)%Q
  end.

Definition q2_buckets (rows : list srow) (events : list (string * Q))
    : list (window * list (float * float * float)) :=
  let kills_by_target := group_by fst snd events in
  foldl (fun acc r =>
           let ks := default [] (dget (s_name r) kills_by_target) in
           match bucket (since_kill ks (cellf (snd (s_t_rel r)))) with
           | Some w => dappend w (cellf (s_e2e r), cellf (s_index r), cellf (s_compl r)) acc
           | None => acc
           end)
    ((fun w => (w, [])) <$> [BeforeKill; W0_5; W5_15; W15_30; W30])
    (reachable_rows rows).

(** ** Q3: graph or data *)

Inductive q3_verdict : Type := GraphDegraded | DataMissing | BothOrNeither.

Definition q3_verdict_of (i c : Q) : q3_verdict :=
  if Qltb i (c - (1 # 20)) then GraphDegraded
  else if Qltb c (i - (1 # 20)) then DataMissing
  else BothOrNeither.

Definition q3_samples (rows : list srow) : list (float * Q * Q) :=
  omap (fun r => match cellf (s_index r), cellf (s_compl r) with
                 | fin i, fin c => Some (cellf (s_e2e r), i, c)
                 | _, _ => None
                 end) (reachable_rows rows).

(** [key=lambda x: (isnan(x[0]), x[0])]: finite values first, in order. *)
Definition nan_last_leb (a b : float) : bool :=
  match a, b with
  | fin x, fin y => Qle_bool x y
  | fin _, nan => true
  | nan, fin _ => false
  | nan, nan => true
  end.

Definition q3_graph_vs_data (rows : list srow) : list (float * Q * Q * q3_verdict) :=
  (fun x : float * Q * Q => (x, q3_verdict_of x.1.2 x.2)) <$>
    take 5 (sorted (fun a b : float * Q * Q => nan_last_leb a.1.1 b.1.1) (q3_samples rows)).

(** ** Q0: drift *)

Definition q0_points (rows : list srow) : list (Q * Q) :=
  omap (fun r => match cellf (snd (s_t_rel r)), cellf (s_e2e r) with
                 | fin t, fin v => Some (t, v)
                 | _, _ => None
                 end) (reachable_rows rows).

(** [None]: too few samples; otherwise the drift and whether recall is stable. *)
Definition q0_drift (rows : list srow) : option (Q * bool) :=
  let pts := sorted (fun a b : Q * Q => Qle_bool a.1 b.1) (q0_points rows) in
  if length pts <? 6 then None
  else
    let third := Nat.max 1 (length pts / 3) in
    let f_mean := np_mean (take third pts).*2 in
    let l_mean := np_mean (drop (length pts - third) pts).*2 in
    Some ((l_mean - f_mean)%Q, Qltb (Qabs (l_mean - f_mean)) (1 # 50)).

(** ** [heal_stats] *)

Inductive phase : Type := Pre | During | Post0_30 | Post30_60 | Post60p.

#[export] Instance phase_eq_dec : EqDecision phase.
Proof. solve_decision. Defined.

Definition phase_of (t0 t1 t : Q) : phase :=
  if Qltb t t0 then Pre
  else if Qltb t t1 then During
  else
    let dt := (t - t1)%Q in
    if Qltb dt 30 then Post0_30 else if Qltb dt 60 then Post30_60 else Post60p.

(** (completeness, e2e, missing) of one row, and its phase. *)
Definition heal_sample (t0 t1 : Q) (r : srow) : option (phase * (Q * float * float)) :=
  match cellf (snd (s_t_rel r)), cellf (s_compl r) with
  | fin t, fin c =>
      Some (phase_of t0 t1 t,
            (c, cellf (s_e2e r), fmul (fin (1 - c)%Q) (cellf (s_n_intended r))))
  | _, _ => None
  end.

Record phase_stats := mkPh {
  ph_compl : float;
  ph_e2e : float;
  ph_missing : float;
  ph_n : nat;
}.

Definition phase_of_rows (t0 t1 : Q) (rows : list srow) (p : phase) : phase_stats :=
  let vals := snd <$> filter (fun x => x.1 = p) (omap (heal_sample t0 t1) (reachable_rows rows)) in
  mkPh (nanmean ((fun v => fin v.1.1) <$> vals)) (nanmean ((fun v => v.1.2) <$> vals))
    (nanmean ((fun v => v.2) <$> vals)) (length vals).

Record heal := mkHeal {
  hl_phases : phase -> phase_stats;
  hl_healed : option bool;
  hl_recovered_frac : float;
  hl_residual_missing : float;
}.

(** The [else] branch, on the missing means at the stop, at the end and before. *)
Definition judge (phases : phase -> phase_stats) (at_stop last pre_m : float) : heal :=
  let damage := fsub at_stop pre_m in
  let residual := fsub last pre_m in
  let big := flt (fin (1 # 1000000000)) damage in
  let frac := if big then fsub (fin 1%Q) (fdiv residual damage) else nan in
  let not_big := fle damage (fin (1 # 1000000000)) in
  mkHeal phases (if not_big then None else Some (fle (fin (9 # 10)) frac)) frac residual.

(** [quiesce] is the truth value of the run's quiesce setting. *)
Definition heal_stats (rows : list srow) (quiesce : bool) (window : option Q * option Q)
    : option heal :=
  if negb quiesce then None
  else
    match window with
    | (Some t0, Some t1) =>
        let out := phase_of_rows t0 t1 rows in
        let has p := negb (Nat.eqb (ph_n (out p)) 0) in
        let last := List.find has [Post60p; Post30_60; Post0_30] in
        let at_stop := if has Post0_30 then Some Post0_30 else last in
        match last, at_stop, ph_missing (out Pre) with
        | Some l, Some s, fin pre_m =>
            Some (judge out (ph_missing (out s)) (ph_missing (out l)) (fin pre_m))
        | _, _, _ => Some (mkHeal out None nan nan)
        end
    | _ => None
    end.

(** * Properties *)

(** ** Healing *)

Lemma judge_finite phases a l p :
  (1 # 1000000000 < a - p)%Q ->
  let h := judge phases (fin a) (fin l) (fin p) in
  hl_healed h = Some (Qle_bool (9 # 10) (1 - (l - p) / (a - p))) /\
  hl_recovered_frac h = fin (1 - (l - p) / (a - p)) /\ hl_residual_missing h = fin (l - p).
Proof.
  intros H. unfold judge. simpl.
  rewrite (proj2 (Qltb_lt _ _) H). simpl.
  replace (Qle_bool (a - p) (1 # 1000000000)) with false; [done|].
  symmetry. apply not_true_iff_false. rewrite Qle_bool_iff. lra.
Qed.

Lemma frac_threshold a l p :
  (0 < a - p)%Q -> (9 # 10 <= 1 - (l - p) / (a - p))%Q <-> (l - p <= (a - p) / 10)%Q.
Proof.
  intros Hd.
  assert (exists x, ((l - p) / (a - p) == x)%Q /\ (l - p == x * (a - p))%Q) as (x & -> & Hx).
  { exists ((l - p) / (a - p))%Q. split; [reflexivity|]. field. lra. }
  rewrite Hx. generalize dependent (a - p)%Q. intros A Hd _.
  assert (A / 10 == (1 # 10) * A)%Q as -> by field. split; intros H; nra.
Qed.

Lemma heal_threshold phases a l p :
  (1 # 1000000000 < a - p)%Q ->
  hl_healed (judge phases (fin a) (fin l) (fin p)) = Some true <-> (l - p <= (a - p) / 10)%Q.
Proof.
  intros H. destruct (judge_finite phases a l p H) as (-> & _).
  rewrite <- frac_threshold by lra. rewrite <- Qle_bool_iff.
  split; [by intros [= ->]|by intros ->].
Qed.

(** All the missing counts of the rows sampled in a phase equal [m]. *)
Definition missing_is (t0 t1 : Q) (rows : list srow) (ps : list phase) (m : Q) : Prop :=
  forall p c e x, p ∈ ps -> (p, (c, e, x)) ∈ omap (heal_sample t0 t1) (reachable_rows rows) ->
  exists q, x = fin q /\ (q == m)%Q.

Lemma phase_missing_const t0 t1 rows p ps m :
  missing_is t0 t1 rows ps m -> p ∈ ps -> ph_n (phase_of_rows t0 t1 rows p) <> 0 ->
  exists q, ph_missing (phase_of_rows t0 t1 rows p) = fin q /\ (q == m)%Q.
Proof.
  intros Hm Hp. unfold phase_of_rows. simpl.
  set (vals := snd <$> _). intros Hn.
  assert (forall v, v ∈ vals -> exists q, v.2 = fin q /\ (q == m)%Q) as Hv.
  { intros v Hv. apply list_elem_of_fmap in Hv as ([p' [[c e] x]] & -> & Hin).
    apply list_elem_of_filter in Hin as [Hp' Hin]. simpl in *. subst p'. by eapply Hm. }
  clearbody vals. unfold nanmean, mean_or_nan.
  assert (length (drop_nan ((fun v => v.2) <$> vals)) = length vals /\
          Forall (fun q => q == m)%Q (drop_nan ((fun v => v.2) <$> vals))) as [Hlen HF].
  { clear Hn. induction vals as [|v vals IH]; [by split|].
    destruct (Hv v) as (q & Hq & Hqm); [by left|].
    destruct IH as [IH1 IH2]; [intros w Hw; apply Hv; by right|].
    unfold drop_nan in *. simpl. rewrite Hq. simpl. split; [by f_equal|by constructor]. }
  destruct (drop_nan _) as [|q0 l] eqn:E; [by destruct vals|].
  exists (np_mean (q0 :: l)). split; [done|]. apply np_mean_const; [done|done].
Qed.

(** Healing is judged on counts, not on the completeness ratio. If after the
    faults stop every sample still misses the same number of ids, more than before
    the faults, the verdict is not healed with nothing recovered, however much the
    completeness ratios climbed. *)
Theorem heal_judges_counts rows t0 t1 m pre :
  missing_is t0 t1 rows [Post0_30; Post30_60; Post60p] m ->
  ph_missing (phase_of_rows t0 t1 rows Pre) = fin pre ->
  (exists p, p ∈ [Post0_30; Post30_60; Post60p] /\ ph_n (phase_of_rows t0 t1 rows p) <> 0) ->
  (1 # 1000000000 < m - pre)%Q ->
  exists h f d, heal_stats rows true (Some t0, Some t1) = Some h /\
    hl_healed h = Some false /\ hl_recovered_frac h = fin f /\ (f == 0)%Q /\
    hl_residual_missing h = fin d /\ (d == m - pre)%Q.
Proof.
  intros Hm Hpre Hex Hd. unfold heal_stats. cbn [negb]. cbv zeta.
  set (out := phase_of_rows t0 t1 rows) in *.
  set (has := fun p => negb (ph_n (out p) =? 0)).
  assert (forall p, p ∈ [Post0_30; Post30_60; Post60p] -> has p = true ->
            exists q, ph_missing (out p) = fin q /\ (q == m)%Q) as Hmiss.
  { intros p Hp Hh. eapply phase_missing_const; [exact Hm|done|]. unfold has in Hh. breflect. done. }
  assert (exists l, List.find has [Post60p; Post30_60; Post0_30] = Some l) as [l Hl].
  { destruct (List.find has _) as [l|] eqn:E; [by exists l|]. exfalso.
    destruct Hex as (p & Hp & Hn). apply Nat.eqb_neq in Hn.
    assert (has p = true) as Hhp by (unfold has; by rewrite Hn).
    rewrite (List.find_none _ _ E p) in Hhp; [done|].
    rewrite !elem_of_cons, elem_of_nil in Hp. clear -Hp. simpl.
    destruct Hp as [->|[->|[->|[]]]]; auto. }
  destruct (List.find_some _ _ Hl) as [Hli Hhl].
  assert (l ∈ [Post0_30; Post30_60; Post60p]) as Hli'.
  { rewrite !elem_of_cons. simpl in Hli. intuition congruence. }
  assert (exists s, (if has Post0_30 then Some Post0_30
                     else List.find has [Post60p; Post30_60; Post0_30]) = Some s /\
            has s = true /\ s ∈ [Post0_30; Post30_60; Post60p]) as (s & Hs & Hhs & Hsi).
  { rewrite Hl. destruct (has Post0_30) eqn:E; eexists; (split; [reflexivity|]); [|done].
    split; [done|by left]. }
  change (negb (ph_n (out Post0_30) =? 0)) with (has Post0_30).
  rewrite Hs, Hl, Hpre.
  destruct (Hmiss l Hli' Hhl) as (ql & -> & Hql), (Hmiss s Hsi Hhs) as (qs & -> & Hqs).
  assert (1 # 1000000000 < qs - pre)%Q as Hd' by (rewrite Hqs; done).
  destruct (judge_finite out qs ql pre Hd') as (H1 & H2 & H3).
  assert ((1 - (ql - pre) / (qs - pre)) == 0)%Q as Hz.
  { rewrite Hql, Hqs. field. lra. }
  eexists _, _, _. split; [reflexivity|]. split_and!; [|exact H2|exact Hz|exact H3|by rewrite Hql].
  rewrite H1. f_equal. apply not_true_iff_false. rewrite Qle_bool_iff. lra.
Qed.

Definition hrow (t : Q) (c : Q) (ni : Q) : srow :=
  mkS "r0" "s0" "1" (""%string, CNum (fin t)) CBlank (CNum (fin ni)) CBlank (CNum (fin c)) CBlank CBlank.

(** 100 ids lost for good while the denominator grows: completeness 0.9 to 0.95. *)
Definition demo_heal : list srow :=
  [hrow 5 1 500; hrow 70 (9 # 10) 1000; hrow 140 (19 # 20) 2000].

Lemma demo_heal_missing : missing_is 10 60 demo_heal [Post0_30; Post30_60; Post60p] 100.
Proof.
  intros p c e x Hp Hin.
  let l := eval vm_compute in (omap (heal_sample 10 60) (reachable_rows demo_heal)) in
  assert (omap (heal_sample 10 60) (reachable_rows demo_heal) = l) as E
    by (vm_compute; reflexivity).
  rewrite E in Hin.
  rewrite !elem_of_cons, elem_of_nil in Hin.
  destruct Hin as [H|[H|[H|[]]]]; simplify_eq; [|by eexists; split; [reflexivity|]..].
  rewrite !elem_of_cons, elem_of_nil in Hp. naive_solver.
Qed.

Lemma heal_judges_counts_witness :
  exists h f d, heal_stats demo_heal true (Some 10, Some 60)%Q = Some h /\
    hl_healed h = Some false /\ hl_recovered_frac h = fin f /\ (f == 0)%Q /\
    hl_residual_missing h = fin d /\ (d == 100 - 0)%Q.
Proof.
  eapply (heal_judges_counts demo_heal 10 60 100).
  - exact demo_heal_missing.
  - vm_compute. reflexivity.
  - exists Post0_30. split; [by left|]. vm_compute. done.
  - vm_compute. reflexivity.
Defined.

(** ** Detection *)

Lemma min_by_elem {A} (key : A -> Q) b l : min_by key b l ∈ b :: l.
Proof.
  revert b. induction l as [|x l IH]; intros b; simpl; [by left|].
  destruct (Qltb (key x) (key b)).
  - right. apply IH.
  - specialize (IH b). apply elem_of_cons in IH as [->|H]; [by left|right; by right].
Qed.

Lemma min_by_le {A} (key : A -> Q) b l y : y ∈ b :: l -> (key (min_by key b l) <= key y)%Q.
Proof.
  revert b y. induction l as [|x l IH]; intros b y Hy; simpl.
  { apply list_elem_of_singleton in Hy as ->. lra. }
  pose proof (IH x x ltac:(by left)) as Hx. pose proof (IH b b ltac:(by left)) as Hb.
  destruct (Qltb (key x) (key b)) eqn:E; qreflect; apply elem_of_cons in Hy as [->|Hy].
  - lra.
  - by apply IH.
  - done.
  - apply elem_of_cons in Hy as [->|Hy]; [lra|]. apply IH. by right.
Qed.

Lemma Qle_bool_sorted (l : list Q) : StronglySorted (fun a b => Qle_bool a b = true) (sorted Qle_bool l).
Proof. apply (sorted_StronglySorted Qle_bool); [apply Qle_bool_total|apply Qle_bool_trans]. Qed.

(** A positive margin: the smallest value occurs once. *)
Lemma margin_unique (l : list Q) x l1 l2 :
  l = l1 ++ x :: l2 -> 2 <= length l ->
  (0 < nth 1 (sorted Qle_bool l) 0 - nth 0 (sorted Qle_bool l) 0)%Q ->
  (forall y, y ∈ l -> x <= y)%Q -> forall y, y ∈ l1 ++ l2 -> (x < y)%Q.
Proof.
  intros -> Hlen Hm Hx y Hy.
  pose proof (Qle_bool_sorted (l1 ++ x :: l2)) as HS.
  pose proof (sorted_perm Qle_bool (l1 ++ x :: l2)) as HP.
  pose proof (sorted_length Qle_bool (l1 ++ x :: l2)) as HL.
  destruct (sorted Qle_bool (l1 ++ x :: l2)) as [|a [|b r]] eqn:E; [simpl in HL; lia..|].
  simpl in Hm. inversion HS as [|? ? HS' Ha]; subst. inversion HS' as [|? ? _ Hb]; subst.
  (* everything but [a] is at least [b] *)
  assert (forall z, z ∈ b :: r -> (b <= z)%Q) as Hbz.
  { intros z [->|Hz]%elem_of_cons; [lra|]. rewrite Forall_forall in Hb.
    by apply Qle_bool_iff, Hb. }
  assert (x = a) as ->.
  { assert (x ∈ a :: b :: r) as Hin by (rewrite HP; set_solver).
    apply elem_of_cons in Hin as [|Hin]; [done|]. apply Hbz in Hin.
    assert (x <= a)%Q; [|lra]. apply Hx. rewrite <- HP. by left. }
  assert (b :: r ≡ₚ l1 ++ l2) as HP'.
  { apply (Permutation_cons_inv (a := a)). rewrite HP. by rewrite Permutation_middle. }
  rewrite <- HP' in Hy. apply Hbz in Hy. lra.
Qed.

Section DetectionProps.
Context {np : Numpy}.

(** A scored group has an answer: once ties are excluded (with a non-negative
    threshold), exactly one replica of the group has the lowest true recall, the one
    [min] returns, whatever the order of the rows; and the groups scored and the ties
    excluded are together all the candidates, each with at least three replicas. *)
Theorem scored_groups_have_a_worst rows tie_eps :
  (0 <= tie_eps)%Q ->
  length (List.filter (fun g => negb (is_tied tie_eps g)) (candidates rows)) +
    length (List.filter (is_tied tie_eps) (candidates rows)) = length (candidates rows) /\
  forall g, g ∈ candidates rows -> is_tied tie_eps g = false ->
    3 <= length g /\
    exists x xs l1 l2, g = x :: xs /\ g = l1 ++ min_by c_e2e x xs :: l2 /\
      forall y, y ∈ l1 ++ l2 -> (c_e2e (min_by c_e2e x xs) < c_e2e y)%Q.
Proof.
  intros He. split.
  - generalize (candidates rows). induction l as [|g l IH]; simpl; [done|].
    destruct (is_tied tie_eps g); simpl; lia.
  - intros g Hg Ht. apply elem_of_bfilter in Hg as [_ Hlen]. breflect.
    split; [done|]. destruct g as [|x xs]; [simpl in Hlen; lia|].
    destruct (list_elem_of_split _ _ (min_by_elem c_e2e x xs)) as (l1 & l2 & Hsp).
    exists x, xs, l1, l2. split; [done|]. split; [done|]. intros y Hy.
    unfold is_tied, recall_margin in Ht. qreflect.
    apply (margin_unique (c_e2e <$> x :: xs) _ (c_e2e <$> l1) (c_e2e <$> l2)).
    + rewrite Hsp at 1. by rewrite fmap_app.
    + rewrite length_fmap. lia.
    + lra.
    + intros z Hz. apply list_elem_of_fmap in Hz as (w & -> & Hw). by apply min_by_le.
    + rewrite <- fmap_app. by apply list_elem_of_fmap_2.
Qed.

Lemma detection_hit_rate_unit rows eps d q :
  detection_stats rows eps = Some d -> d_hit_rate d = fin q -> (0 <= q <= 1)%Q.
Proof.
  unfold detection_stats. destruct (_ <? 5) eqn:E.
  { destruct (_ =? 0); [done|]. intros [= <-]. done. }
  intros [= <-] [= <-]. breflect. split; [apply qratio_nonneg|].
  apply qratio_le_1; [lia|]. apply List.filter_length_le.
Qed.
End DetectionProps.

Definition srow3 (t name : string) (loo e2e : Q) : srow :=
  mkS name "s0" "1" (t, CBlank) CBlank CBlank CBlank CBlank (CNum (fin e2e)) (CNum (fin loo)).

Definition demo_rows : list srow :=
  t ← ["1"; "2"; "3"; "4"; "5"]%string;
  [srow3 t "a" 1 (1 # 2); srow3 t "b" 1 (3 # 4); srow3 t "c" 1 (4 # 5)].

Lemma scored_groups_have_a_worst_witness :
  length (candidates demo_rows) = 5 /\
  forall g, g ∈ candidates demo_rows -> is_tied (1 # 2000) g = false ->
    exists x xs, g = x :: xs /\ min_by c_e2e x xs ∈ g.
Proof.
  split; [vm_compute; reflexivity|]. intros g Hg Ht.
  destruct (proj2 (scored_groups_have_a_worst demo_rows (1 # 2000) ltac:(lra)) g Hg Ht)
    as (_ & x & xs & l1 & l2 & H1 & H2 & _).
  exists x, xs. split; [done|]. rewrite H1. apply min_by_elem.
Defined.

(** Ties of the detector itself are not excluded: [loo_agreement] is the same for all
    three replicas in every group, and the detector is scored a perfect hit rate
    because the worst replica is listed first. *)
Example constant_detector_scores_one :
  exists d, detection_stats (np := ref_numpy) demo_rows (resolution_eps None None) = Some d /\
    d_groups d = 5 /\ d_hit_rate d = fin (qratio 5 5) /\
    q4_can_we_spot_the_bad_replica (np := ref_numpy) demo_rows None None = DETECTS.
Proof. eexists. split; [vm_compute; reflexivity|]. vm_compute. done. Qed.

(** ** Q2 *)

Lemma bucket_total dt : (- BIG <= dt < BIG)%Q -> exists w, bucket dt = Some w.
Proof.
  intros [H1 H2]. unfold bucket, BIG in *.
  repeat match goal with |- context [if ?b then _ else _] => destruct b eqn:?; [by eexists|] end.
  exfalso. repeat match goal with H : (_ && _) = false |- _ => apply andb_false_iff in H as [H|H] end;
    qreflect; try lra.
Qed.

Lemma since_kill_range kills t :
  (forall q, t = fin q -> forall k, k ∈ kills -> (q - k < BIG)%Q) ->
  (- BIG <= since_kill kills t < BIG)%Q.
Proof.
  intros H. unfold since_kill.
  destruct (List.filter _ kills) as [|k ks] eqn:E; [unfold BIG; lra|].
  destruct t as [|q]; [unfold BIG; lra|].
  assert (k :: ks ⊆ kills /\ Forall (fun x => x <= q)%Q (k :: ks)) as [Hsub Hle].
  { rewrite <- E. split.
    - intros x Hx. by apply elem_of_bfilter in Hx as [? _].
    - apply Forall_forall. intros x Hx. apply elem_of_bfilter in Hx as [_ Hx]. simpl in Hx. by qreflect. }
  apply Forall_cons in Hle as [Hk Hks].
  pose proof (Qmax_list_lub q k ks Hk Hks). pose proof (Qmax_list_ge k ks) as [Hge _].
  pose proof (H q eq_refl k (Hsub k ltac:(by left))). unfold BIG in *. lra.
Qed.

(** The failover windows partition the samples: as long as no sample is more than
    [1e9] seconds after a kill, every reachable row lands in exactly one window, a
    row with no earlier kill of its replica in the first. *)
Theorem q2_partition rows events :
  (forall r q k, r ∈ rows -> cellf (snd (s_t_rel r)) = fin q -> (s_name r, k) ∈ events ->
     (q - k < BIG)%Q) ->
  dkeys (q2_buckets rows events) = [BeforeKill; W0_5; W5_15; W15_30; W30] /\
  concat (dvalues (q2_buckets rows events)) ≡ₚ
    (fun r => (cellf (s_e2e r), cellf (s_index r), cellf (s_compl r))) <$> reachable_rows rows.
Proof.
  intros H. unfold q2_buckets.
  set (init := (fun w => (w, [])) <$> _).
  assert (forall l, (forall r, r ∈ l -> r ∈ reachable_rows rows) ->
    let acc := foldl (fun acc r =>
           let ks := default [] (dget (s_name r) (group_by fst snd events)) in
           match bucket (since_kill ks (cellf (snd (s_t_rel r)))) with
           | Some w => dappend w (cellf (s_e2e r), cellf (s_index r), cellf (s_compl r)) acc
           | None => acc
           end) init l in
    dkeys acc = [BeforeKill; W0_5; W5_15; W15_30; W30] /\
    concat (dvalues acc) ≡ₚ
      (fun r => (cellf (s_e2e r), cellf (s_index r), cellf (s_compl r))) <$> l) as Hgen;
    [|by apply Hgen].
  intros l. induction l as [|r l IH] using rev_ind; intros Hl; [done|].
  cbv zeta. rewrite foldl_app. simpl foldl.
  destruct IH as [IHk IHv]; [intros x Hx; apply Hl, elem_of_app; by left|].
  cbv zeta in IHk, IHv. set (acc := foldl _ init l) in *.
  assert (r ∈ rows) as Hr.
  { specialize (Hl r ltac:(apply elem_of_app; right; by left)).
    by apply elem_of_bfilter in Hl as [? _]. }
  destruct (bucket_total (since_kill (default [] (dget (s_name r) (group_by fst snd events)))
              (cellf (snd (s_t_rel r))))) as [w ->].
  { apply since_kill_range. intros q Hq k Hk. rewrite group_by_get in Hk.
    apply list_elem_of_fmap in Hk as ([n k'] & -> & Hin).
    apply list_elem_of_filter in Hin as [Hn Hin]. simpl in *. subst n. by eapply H. }
  split.
  - unfold dappend. rewrite dkeys_dset, IHk, decide_True; [done|].
    rewrite !elem_of_cons. destruct w; tauto.
  - rewrite dset_concat_perm, IHv, fmap_app. simpl. by rewrite Permutation_app_comm.
Qed.

Lemma q2_partition_witness :
  concat (dvalues (q2_buckets [hrow 5 1 1; hrow 40 1 1; hrow 90 1 1] [("r0"%string, 30%Q)])) ≡ₚ
    (fun r => (cellf (s_e2e r), cellf (s_index r), cellf (s_compl r)))
      <$> reachable_rows [hrow 5 1 1; hrow 40 1 1; hrow 90 1 1].
Proof.
  apply q2_partition. intros r q k Hr Hq He.
  apply list_elem_of_singleton in He. injection He as _ ->.
  rewrite !elem_of_cons, elem_of_nil in Hr.
  destruct Hr as [->|[->|[->|[]]]]; simpl in Hq; injection Hq as <-; reflexivity.
Defined.

(** ** The summary of a run *)

(** The metric cells of a row are proportions, blank or unreadable. *)
Definition cells_ok (r : srow) : Prop :=
  unit_or_nan (cellf (s_index r)) /\ unit_or_nan (cellf (s_compl r)) /\ unit_or_nan (cellf (s_e2e r)).

Lemma reachable_ok rows : Forall cells_ok rows -> Forall cells_ok (reachable_rows rows).
Proof.
  rewrite !Forall_forall. intros H r Hr. apply elem_of_bfilter in Hr as [Hr _]. auto.
Qed.

Lemma nanmean_unit (f : srow -> float) rows :
  Forall (fun r => unit_or_nan (f r)) rows -> unit_or_nan (nanmean (f <$> rows)).
Proof.
  intros H. apply mean_or_nan_unit, drop_nan_unit, Forall_fmap. exact H.
Qed.

Lemma minmax_spec vals :
  vals <> [] ->
  (forall v, v ∈ vals -> (minmax vals).1 <= v <= (minmax vals).2)%Q /\
  ((minmax vals).1 <= (minmax vals).2)%Q.
Proof.
  destruct vals as [|v vs]; [done|]. intros _. simpl.
  pose proof (Qmin_list_le v vs) as [H1 H2]. pose proof (Qmax_list_ge v vs) as [H3 H4].
  split; [|lra]. intros q [->|Hq]%elem_of_cons; [split; done|]. split; auto.
Qed.

Lemma minmax_unit vals :
  Forall (fun q => 0 <= q <= 1)%Q vals -> (0 <= (minmax vals).1)%Q /\ ((minmax vals).2 <= 1)%Q.
Proof.
  intros H. destruct H as [|v vs [Hv1 Hv2] Hvs]; simpl; [split; lra|].
  split; [apply Qmin_list_glb|apply Qmax_list_lub]; auto;
    eapply Forall_impl; [exact Hvs| |exact Hvs|]; simpl; intros q Hq; apply Hq.
Qed.

(** Every value of a group comes from a row. *)
Lemma group_values {A B} (f : A -> option ((string * string) * B)) (P : B -> Prop) (rows : list A) :
  (forall r kb, r ∈ rows -> f r = Some kb -> P kb.2) ->
  Forall (Forall P) (dvalues (group_by fst snd (omap f rows))).
Proof.
  intros H. apply Forall_forall. intros vals Hv.
  apply list_elem_of_fmap in Hv as ([k g] & -> & Hg). apply group_by_elem in Hg. simpl. subst g.
  apply Forall_fmap, Forall_forall. intros kb Hkb. apply list_elem_of_filter in Hkb as [_ Hkb].
  apply list_elem_of_omap in Hkb as (r & Hr & Hf). simpl. eauto.
Qed.

(** Spreads are nonnegative, and at most 1 over proportions; the three lists agree. *)
Lemma intra_shard_spreads_spec rows :
  let '(spreads, mins, maxes) := intra_shard_spreads rows in
  length spreads = length mins /\ length spreads = length maxes /\
  Forall (fun d => 0 <= d)%Q spreads /\
  (Forall cells_ok rows -> Forall (fun d => 0 <= d <= 1)%Q spreads).
Proof.
  unfold intra_shard_spreads. rewrite !length_fmap. split; [done|]. split; [done|].
  set (multi := List.filter _ _).
  assert (Forall (fun vals => vals <> []) multi) as Hne.
  { apply Forall_forall. intros vals Hv. apply elem_of_bfilter in Hv as [_ Hv]. by destruct vals. }
  assert (Forall (fun vals : list Q => 0 <= (let '(lo, hi) := minmax vals in hi - lo))%Q multi) as Hpos.
  { eapply Forall_impl; [exact Hne|]. intros vals Hv. simpl.
    destruct (minmax_spec vals Hv) as [_ ?]. destruct (minmax vals). simpl in *. lra. }
  split; [by apply Forall_fmap|]. intros Hok. apply Forall_fmap, Forall_forall.
  intros vals Hv. rewrite Forall_forall in Hpos. specialize (Hpos vals Hv). simpl.
  apply elem_of_bfilter in Hv as [Hv _].
  assert (Forall (fun q => 0 <= q <= 1)%Q vals) as Hu.
  { pose proof (group_values e2e_sample (fun q => 0 <= q <= 1)%Q (reachable_rows rows)) as Hg.
    rewrite Forall_forall in Hg. apply Hg; [|exact Hv].
    intros r kb Hr Hf. apply reachable_ok in Hok. rewrite Forall_forall in Hok.
    destruct (Hok r Hr) as (_ & _ & He). unfold e2e_sample in Hf.
    destruct (cellf (s_e2e r)); [done|]. by simplify_eq. }
  destruct (minmax_unit vals Hu). destruct (minmax vals). simpl in *. lra.
Qed.

(** The bins are distinct, none is empty, and together they hold every usable row. *)
Lemma recall_by_size_spec rows :
  NoDup (recall_by_size rows).*1 /\
  sum_list ((fun b => b.2.2) <$> recall_by_size rows) = length (omap size_sample (reachable_rows rows)) /\
  (Forall cells_ok rows ->
     Forall (fun b => 0 < b.2.2 /\ (0 <= b.2.1.1 <= 1)%Q /\ unit_or_nan b.2.1.2) (recall_by_size rows)).
Proof.
  unfold recall_by_size. set (smp := omap size_sample _). set (g := group_by fst snd smp).
  rewrite <- !list_fmap_compose. split; [|split].
  - apply (group_by_NoDup fst snd smp).
  - rewrite <- (length_fmap snd smp), <- (group_by_concat fst snd smp). fold g. unfold dvalues.
    clear. induction g as [|x g IH]; [done|]. csimpl. rewrite IH, length_app. done.
  - intros Hok. apply Forall_fmap, Forall_forall. intros [b vals] Hb. simpl.
    pose proof (elem_of_group_by_keys fst snd smp b) as Hk.
    apply group_by_elem in Hb as Hv. subst vals.
    assert (b ∈ fst <$> smp) as Hin.
    { apply Hk. apply list_elem_of_fmap. by exists (b, snd <$> filter (fun x => x.1 = b) smp). }
    assert (Forall (fun v : Z * (Q * float) => (0 <= v.2.1 <= 1)%Q /\ unit_or_nan v.2.2)
              (filter (fun x => x.1 = b) smp)) as Hu.
    { apply Forall_forall. intros v Hv. apply list_elem_of_filter in Hv as [_ Hv].
      apply list_elem_of_omap in Hv as (r & Hr & Hf). apply reachable_ok in Hok.
      rewrite Forall_forall in Hok. destruct (Hok r Hr) as (Hi & _ & He). unfold size_sample in Hf.
      repeat case_match; simplify_eq/=. by split. }
    assert (filter (fun x => x.1 = b) smp <> []) as Hne.
    { apply list_elem_of_fmap in Hin as (v & -> & Hv). intros E.
      apply (not_elem_of_nil v). rewrite <- E. by apply list_elem_of_filter. }
    rewrite length_fmap, <- !list_fmap_compose. split; [|split].
    + destruct (filter _ smp); [done|simpl; lia].
    + apply np_mean_bounds; [by destruct (filter _ smp)|].
      apply Forall_fmap. eapply Forall_impl; [exact Hu|]. by intros v [? _].
    + apply mean_or_nan_unit, drop_nan_unit, Forall_fmap.
      eapply Forall_impl; [exact Hu|]. by intros v [_ ?].
Qed.

(** When the metric cells of the samples are proportions, so is every proportion in
    the summary of the run: mean and 95th-percentile spread, the three recalls, the
    detector's hit rate and the unreachable fraction. The size bins are distinct, none
    is empty, and together they count every usable row once. *)
Theorem summarize_run_ranges (np : Numpy) rows k queries :
  Forall cells_ok rows ->
  let s := summarize_run rows k queries in
  unit_or_nan (sm_spread_mean s) /\ unit_or_nan (sm_spread_p95 s) /\
  unit_or_nan (sm_index s) /\ unit_or_nan (sm_compl s) /\ unit_or_nan (sm_e2e s) /\
  unit_or_nan (sm_hit_rate s) /\ unit_or_nan (sm_unreachable_frac s) /\
  NoDup (sm_by_size s).*1 /\
  sum_list ((fun b => b.2.2) <$> sm_by_size s) = length (omap size_sample (reachable_rows rows)) /\
  Forall (fun b => 0 < b.2.2 /\ (0 <= b.2.1.1 <= 1)%Q /\ unit_or_nan b.2.1.2) (sm_by_size s).
Proof.
  intros Hok. unfold summarize_run. pose proof (intra_shard_spreads_spec rows) as Hsp.
  pose proof (recall_by_size_spec rows) as (Hb1 & Hb2 & Hb3).
  pose proof (reachable_ok rows Hok) as Hr.
  destruct (intra_shard_spreads rows) as [[spreads mins] maxes]. destruct Hsp as (_ & _ & _ & Hs).
  specialize (Hs Hok). simpl. split_and!; auto.
  - by apply mean_or_nan_unit.
  - destruct spreads; [done|]. by apply np_percentile_unit.
  - apply nanmean_unit. eapply Forall_impl; [exact Hr|]. by intros r (? & _).
  - apply nanmean_unit. eapply Forall_impl; [exact Hr|]. by intros r (_ & ? & _).
  - apply nanmean_unit. eapply Forall_impl; [exact Hr|]. by intros r (_ & _ & ?).
  - destruct (detection_stats rows _) as [d|] eqn:Ed; [|done]. simpl.
    destruct (d_hit_rate d) as [|q] eqn:Eq; [done|]. simpl. by eapply detection_hit_rate_unit.
  - destruct rows; [done|]. simpl. split; [apply qratio_nonneg|].
    apply qratio_le_1; [simpl; lia|]. apply (List.filter_length_le (fun r => negb (reach r)) (s :: rows)).
Qed.

Lemma summarize_run_ranges_witness :
  unit_or_nan (sm_e2e (summarize_run (np := ref_numpy) demo_rows None None)) /\
  sum_list ((fun b => b.2.2) <$> sm_by_size (summarize_run (np := ref_numpy) demo_rows None None))
    = length (omap size_sample (reachable_rows demo_rows)).
Proof.
  destruct (summarize_run_ranges ref_numpy demo_rows None None)
    as (_ & _ & _ & _ & He & _ & _ & _ & Hs & _); [|by split].
  repeat constructor; vm_compute; discriminate.
Defined.
