(* ===== verification/Aggregate.v ===== *)
(** * Aggregating a seed sweep

    [research/replica_recall/aggregate.py]: the exact Mann-Whitney test, the discovery
    of the runs of a sweep, the pooled healing report and the verdicts. The normal
    tail used for more than twenty values is a parameter. *)

From stdpp Require Import base list gmap strings sorting.
From Stdlib Require Import QArith Qminmax Qabs Lqa ZArith Lia Ascii.
From S2P Require Import Prelude PyFloat Metrics Analyze.

Local Open Scope nat_scope.

(** ** [mann_whitney] *)

Definition wins (xs ys : list Q) : nat :=
  sum_list ((fun x => length (List.filter (fun y => Qltb y x) ys)) <$> xs).
Definition draws (xs ys : list Q) : nat :=
  sum_list ((fun x => length (List.filter (fun y => Qeq_bool x y) ys)) <$> xs).

Definition Qn (n : nat) : Q := inject_Z (Z.of_nat n).

(** [_u] *)
Definition u_stat (xs ys : list Q) : Q := (Qn (wins xs ys) + (1 # 2) * Qn (draws xs ys))%Q.

(** The choices of [k] positions of [pool], in the order of [itertools.combinations]:
    the values at the chosen positions and the values at the others. *)
Fixpoint splits {A} (k : nat) (pool : list A) : list (list A * list A) :=
  match pool with
  | [] => match k with 0 => [([], [])] | S _ => [] end
  | x :: pool' =>
      match k with
      | 0 => []
      | S k' => (fun s => (x :: s.1, s.2)) <$> splits k' pool'
      end ++ ((fun s => (s.1, x :: s.2)) <$> splits k pool')
  end.

Definition extreme (u_obs centre : Q) (s : list Q * list Q) : bool :=
  Qle_bool (Qabs (u_obs - centre) - (1 # 1000000000000)) (Qabs (u_stat s.1 s.2 - centre)).

(** [normal_tail u n1 n2] is the p-value of the normal approximation. *)
Definition mann_whitney (normal_tail : Q -> nat -> nat -> float) (a b : list float)
    : float * float :=
  let a := drop_nan a in
  let b := drop_nan b in
  let n1 := length a in
  let n2 := length b in
  if Nat.eqb n1 0 || Nat.eqb n2 0 then (nan, nan)
  else
    let u_obs := u_stat a b in
    let centre := (Qn (n1 * n2) / 2)%Q in
    if n1 + n2 <=? 20 then
      let all := splits n1 (sorted Qle_bool (a ++ b)) in
      (fin u_obs, fin (qratio (length (List.filter (extreme u_obs centre) all)) (length all)))
    else (fin u_obs, normal_tail u_obs n1 n2).

(** ** [discover] *)

Inductive condition : Type := Baseline | Chaos | Quiesce.

#[export] Instance condition_eq_dec : EqDecision condition.
Proof. solve_decision. Defined.

Definition is_digit (c : ascii) : bool :=
  let n := nat_of_ascii c in (48 <=? n) && (n <=? 57).

(** [\d+]: the longest run of digits and what follows. *)
Fixpoint span_digits (s : string) : string * string :=
  match s with
  | EmptyString => (EmptyString, EmptyString)
  | String c s' =>
      if is_digit c then let '(d, r) := span_digits s' in (String c d, r)
      else (EmptyString, s)
  end.

Fixpoint strip_prefix (p s : string) : option string :=
  match p, s with
  | EmptyString, _ => Some s
  | String a p', String b s' => if Ascii.eqb a b then strip_prefix p' s' else None
  | String _ _, EmptyString => None
  end.

Definition condition_of (s : string) : option condition :=
  if bool_decide (s = "baseline"%string) then Some Baseline
  else if bool_decide (s = "chaos"%string) then Some Chaos
  else if bool_decide (s = "quiesce"%string) then Some Quiesce
  else None.

(** [RUN_RE.match] (file names hold no newline): the seed's digits and the condition. *)
Definition run_re (name : string) : option (string * condition) :=
  match strip_prefix "seed" name with
  | None => None
  | Some rest =>
      match span_digits rest with
      | (EmptyString, _) => None
      | (digits, tail) =>
          match strip_prefix "_" tail with
          | None => None
          | Some c => (fun k => (digits, k)) <$> condition_of c
          end
      end
  end.

Section Discover.
Context {S : Type}.

(** A directory entry: its name, whether it has samples, its corpus distribution and
    the summary of its run. *)
Record entry := mkEntry {
  en_name : string; en_has_samples : bool; en_dist : string; en_summary : S }.

Definition kept (e : entry) : option (condition * (string * S) * string) :=
  match run_re (en_name e) with
  | Some (seed, c) => if en_has_samples e then Some (c, (seed, en_summary e), en_dist e) else None
  | None => None
  end.

Record runs := mkRuns {
  rn_baseline : list (string * S); rn_chaos : list (string * S); rn_quiesce : list (string * S) }.

Definition of_condition (c : condition) (l : list (condition * (string * S) * string))
    : list (string * S) :=
  (fun x => x.1.2) <$> filter (fun x => x.1.1 = c) l.

(** [None]: refused because the directory mixes corpus distributions. *)
Definition discover (entries : list entry) : option runs :=
  let l := omap kept (sorted (fun a b => str_leb (en_name a) (en_name b)) entries) in
  let dists := group_by snd (fun x => x.1.1) l in
  if 1 <? length dists then None
  else Some (mkRuns (of_condition Baseline l) (of_condition Chaos l) (of_condition Quiesce l)).
End Discover.
Arguments entry : clear implicits.
Arguments runs : clear implicits.

(** ** [report_healing] *)

Inductive heal_verdict : Type :=
| NoQuiesceRuns | NothingToRecover
| HEALS (n_runs : nat) | DOES_NOT_HEAL (n_runs : nat) | MIXED (n_healed n_runs : nat).

Definition last_phase (h : heal) : option phase :=
  List.find (fun p => negb (Nat.eqb (ph_n (hl_phases h p)) 0)) [Post60p; Post30_60; Post0_30].

Definition healed_flags (hs : list heal) : list bool :=
  omap (fun h => match last_phase h with None => None | Some _ => hl_healed h end) hs.

Definition report_healing (hs : list (option heal)) : heal_verdict :=
  match omap id hs with
  | [] => NoQuiesceRuns
  | quiesce =>
      let flags := healed_flags quiesce in
      let n_healed := length (List.filter id flags) in
      let n_runs := length flags in
      if Nat.eqb n_runs 0 then NothingToRecover
      else if Nat.eqb n_healed n_runs then HEALS n_runs
      else if Nat.eqb n_healed 0 then DOES_NOT_HEAL n_runs
      else MIXED n_healed n_runs
  end.

(** ** [main]: comparison and verdict *)

(** The p-value of one metric: none when a side has no finite value. *)
Definition metric_p (normal_tail : Q -> nat -> nat -> float) (bv cv : list float) : option float :=
  match drop_nan bv, drop_nan cv with
  | [], _ | _, [] => None
  | _, _ => Some (snd (mann_whitney normal_tail bv cv))
  end.

Definition separates (p : option float) : bool :=
  match p with Some p => fle p (fin (1 # 20)) | None => false end.

Definition hr_detects (chaos : list summary) : bool :=
  match drop_nan (sm_hit_rate <$> chaos), drop_nan (sm_chance <$> chaos) with
  | (_ :: _) as hr, (_ :: _) as ch =>
      Qle_bool (np_mean ch * (9 # 5)) (np_mean hr) && Qle_bool (11 # 20) (np_mean hr)
  | _, _ => false
  end.

(** [pooled]: the per-bin recalls of one condition. *)
Definition pooled (ss : list summary) : list (Z * list Q) :=
  group_by fst snd (concat ((fun s => (fun b => (b.1, b.2.1.1)) <$> sm_by_size s) <$> ss)).

Definition size_matched_deltas (baseline chaos : list summary) : list Q :=
  let pb := pooled baseline in
  let pc := pooled chaos in
  omap (fun k => match dget k pb, dget k pc with
                 | Some b, Some c => Some (np_mean c - np_mean b)%Q
                 | _, _ => None
                 end)
    (sorted Z.leb (remove_dups (dkeys pb ++ dkeys pc))).

Record verdict := mkVerdict {
  vd_diverges : bool; vd_detects : bool; vd_graph : bool; vd_data : bool }.

(** The exit code, and the verdict when there are enough runs to compare. *)
Definition aggregate_main (normal_tail : Q -> nat -> nat -> float) (baseline chaos : list summary)
    : nat * option verdict :=
  if (length baseline <? 2) || (length chaos <? 2) then (1, None)
  else
    let p f := metric_p normal_tail (f <$> baseline) (f <$> chaos) in
    (0, Some (mkVerdict (separates (p sm_spread_mean)) (hr_detects chaos)
                (separates (p sm_index)) (separates (p sm_compl)))).

(** * Properties *)

(** ** The exact test *)

Lemma splits_length_binomial {A} (l l' : list A) k :
  length l = length l' -> length (splits k l) = length (splits k l').
Proof.
  revert k l'. induction l as [|x l IH]; intros k [|y l'] H; simplify_eq/=; [done|].
  rewrite !length_app, !length_fmap. rewrite (IH k l') by done.
  destruct k as [|k]; [done|]. rewrite !length_fmap. by rewrite (IH k l').
Qed.

Lemma splits_elem {A} k (l : list A) a b :
  (a, b) ∈ splits k l -> length a = k /\ a ++ b ≡ₚ l.
Proof.
  revert k a b. induction l as [|x l IH]; intros k a b H; simpl in H.
  - destruct k; [|by apply not_elem_of_nil in H].
    apply list_elem_of_singleton in H. by simplify_eq.
  - apply elem_of_app in H as [H|H].
    + destruct k as [|k]; [by apply not_elem_of_nil in H|].
      apply list_elem_of_fmap in H as ([a' b'] & Heq & H). simplify_eq/=.
      apply IH in H as [-> HP]. split; [done|]. by constructor.
    + apply list_elem_of_fmap in H as ([a' b'] & Heq & H). simplify_eq/=.
      apply IH in H as [-> HP]. split; [done|]. rewrite <- HP. by rewrite Permutation_middle.
Qed.

(** Every way of dividing the pool is enumerated, up to order. *)
Lemma splits_complete {A} (l a b : list A) :
  l ≡ₚ a ++ b -> exists a' b', (a', b') ∈ splits (length a) l /\ a' ≡ₚ a /\ b' ≡ₚ b.
Proof.
  revert a b. induction l as [|x l IH]; intros a b HP.
  { apply Permutation_nil_l in HP. destruct a; [|done]. simpl in HP. subst b.
    exists [], []. split; [by left|done]. }
  assert (x ∈ a ++ b) as [Hx|Hx]%elem_of_app by (rewrite <- HP; by left).
  - apply list_elem_of_split in Hx as (a1 & a2 & ->).
    assert (l ≡ₚ (a1 ++ a2) ++ b) as HP'.
    { apply (Permutation_cons_inv (a := x)). rewrite HP, <- !app_assoc. simpl.
      symmetry. apply Permutation_middle. }
    destruct (IH _ _ HP') as (a' & b' & Hin & Ha & Hb). exists (x :: a'), b'.
    split_and!; [|by rewrite Ha, Permutation_middle|done].
    replace (length (a1 ++ x :: a2)) with (S (length (a1 ++ a2)))
      by (rewrite !length_app; simpl; lia).
    simpl. apply elem_of_app. left. apply list_elem_of_fmap. by exists (a', b').
  - apply list_elem_of_split in Hx as (b1 & b2 & ->).
    assert (l ≡ₚ a ++ (b1 ++ b2)) as HP'.
    { apply (Permutation_cons_inv (a := x)). rewrite HP.
      rewrite !(app_assoc a b1). symmetry. apply Permutation_middle. }
    destruct (IH _ _ HP') as (a' & b' & Hin & Ha & Hb). exists a', (x :: b').
    split_and!; [|done|by rewrite Hb, Permutation_middle].
    simpl. apply elem_of_app. right. apply list_elem_of_fmap. by exists (a', b').
Qed.

Lemma sum_list_perm (l l' : list nat) : l ≡ₚ l' -> sum_list l = sum_list l'.
Proof. induction 1; simpl; lia. Qed.

Lemma sum_fmap_ext {A} (f g : A -> nat) l : (forall x, f x = g x) -> sum_list (f <$> l) = sum_list (g <$> l).
Proof. intros H. induction l as [|x l IH]; [done|]. rewrite !fmap_cons. simpl. by rewrite H, IH. Qed.

Lemma pair_count_perm (p : Q -> Q -> bool) a a' b b' :
  a ≡ₚ a' -> b ≡ₚ b' ->
  sum_list ((fun x => length (List.filter (p x) b)) <$> a) =
  sum_list ((fun x => length (List.filter (p x) b')) <$> a').
Proof.
  intros Ha Hb. rewrite (sum_list_perm _ _ (fmap_Permutation _ _ _ Ha)).
  apply sum_fmap_ext. intros x. by apply filter_length_perm.
Qed.

Lemma u_stat_perm a a' b b' : a ≡ₚ a' -> b ≡ₚ b' -> u_stat a b = u_stat a' b'.
Proof.
  intros Ha Hb. unfold u_stat, wins, draws.
  rewrite (pair_count_perm (fun x y => Qltb y x) a a' b b' Ha Hb).
  by rewrite (pair_count_perm (fun x y => Qeq_bool x y) a a' b b' Ha Hb).
Qed.

Lemma trichotomy_count x (b : list Q) :
  length (List.filter (fun y => Qltb y x) b) + length (List.filter (fun y => Qeq_bool x y) b) +
    length (List.filter (fun y => Qltb x y) b) = length b.
Proof.
  induction b as [|y b IH]; simpl; [done|].
  destruct (Qltb y x) eqn:E1, (Qeq_bool x y) eqn:E2, (Qltb x y) eqn:E3; simpl; try lia;
    exfalso; qreflect; try lra.
  assert (x == y)%Q as E by lra. apply Qeq_bool_iff in E. congruence.
Qed.

Lemma wins_cons_r b x a :
  wins b (x :: a) = wins b a + length (List.filter (fun y => Qltb x y) b).
Proof.
  unfold wins. induction b as [|y b IH]; [done|]. rewrite !fmap_cons. simpl.
  destruct (Qltb x y); simpl in *; lia.
Qed.

Lemma draws_cons_r b x a :
  draws b (x :: a) = draws b a + length (List.filter (fun y => Qeq_bool x y) b).
Proof.
  unfold draws. induction b as [|y b IH]; [done|]. rewrite !fmap_cons. simpl.
  assert (Qeq_bool y x = Qeq_bool x y) as ->
    by (apply eq_true_iff_eq; rewrite !Qeq_bool_iff; split; intros H; by symmetry).
  destruct (Qeq_bool x y); simpl in *; lia.
Qed.

Lemma pairs_nil_r b : wins b [] = 0 /\ draws b [] = 0.
Proof. induction b as [|y b [IH1 IH2]]; [done|]. split; [exact IH1|exact IH2]. Qed.

Lemma wins_draws a b :
  wins a b + wins b a + draws a b = length a * length b /\ draws a b = draws b a.
Proof.
  induction a as [|x a [IH1 IH2]].
  - rewrite (proj1 (pairs_nil_r b)), (proj2 (pairs_nil_r b)). done.
  - rewrite wins_cons_r, draws_cons_r. pose proof (trichotomy_count x b) as Ht.
    change (wins (x :: a) b) with (length (List.filter (fun y => Qltb y x) b) + wins a b).
    change (draws (x :: a) b) with (length (List.filter (fun y => Qeq_bool x y) b) + draws a b).
    simpl length. simpl Nat.mul. lia.
Qed.

(** Swapping the samples reflects the statistic about its centre. *)
Lemma u_stat_swap a b : (u_stat a b + u_stat b a == Qn (length a * length b))%Q.
Proof.
  destruct (wins_draws a b) as [H1 H2]. unfold u_stat, Qn. rewrite <- H1, H2.
  rewrite !Nat2Z.inj_add, !inject_Z_plus. ring.
Qed.

Lemma splits_none {A} k (l : list A) : length l < k -> splits k l = [].
Proof.
  revert k. induction l as [|x l IH]; intros [|k] H; simpl in *; try lia; [done|].
  rewrite !IH by lia. done.
Qed.

Definition swap {A B} (s : A * B) : B * A := (s.2, s.1).

Lemma splits_swap {A} k (l : list A) :
  k <= length l -> splits (length l - k) l ≡ₚ swap <$> splits k l.
Proof.
  revert k. induction l as [|x l IH]; intros k Hk; simpl in Hk.
  { by replace k with 0 by lia. }
  destruct k as [|k].
  - simpl. rewrite (splits_none (S (length l)) l) by lia. rewrite fmap_nil, app_nil_r.
    specialize (IH 0 ltac:(lia)). rewrite Nat.sub_0_r in IH. rewrite IH.
    by rewrite <- !list_fmap_compose.
  - simpl Nat.sub.
    assert (splits (length l - k) (x :: l) =
      match length l - k with
      | 0 => []
      | S k' => (fun s => (x :: s.1, s.2)) <$> splits k' l
      end ++ ((fun s => (s.1, x :: s.2)) <$> splits (length l - k) l)) as -> by done.
    simpl splits. rewrite fmap_app, Permutation_app_comm. apply Permutation_app.
    + rewrite (IH k) by lia. by rewrite <- !list_fmap_compose.
    + destruct (decide (S k <= length l)) as [Hle|Hgt].
      * replace (length l - k) with (S (length l - S k)) by lia.
        rewrite (IH (S k)) by lia. by rewrite <- !list_fmap_compose.
      * replace (length l - k) with 0 by lia. rewrite splits_none by lia. done.
Qed.

Lemma count_fmap {A B} (P : B -> bool) (f : A -> B) l :
  length (List.filter P (f <$> l)) = length (List.filter (fun x => P (f x)) l).
Proof.
  induction l as [|x l IH]; [done|]. rewrite fmap_cons. simpl.
  destruct (P (f x)); simpl; by rewrite IH.
Qed.

Definition perm_inv {A} (P : list A * list A -> bool) : Prop :=
  forall a a' b b', a ≡ₚ a' -> b ≡ₚ b' -> P (a, b) = P (a', b').

Lemma filter_count_ext {A} (P P' : A -> bool) l :
  (forall x, P x = P' x) -> length (List.filter P l) = length (List.filter P' l).
Proof. intros H. induction l as [|x l IH]; simpl; [done|]. rewrite H. by destruct (P' x); simpl; rewrite IH. Qed.

(** How many splits satisfy an order-blind test does not depend on the pool's order. *)
Lemma splits_count_perm {A} (l l' : list A) :
  l ≡ₚ l' -> forall k P, perm_inv P ->
  length (List.filter P (splits k l)) = length (List.filter P (splits k l')).
Proof.
  induction 1 as [|x l l' HP IH|x y l|l l' l'' _ IH1 _ IH2]; intros k P Hinv.
  - done.
  - simpl. rewrite !List.filter_app, !length_app, !count_fmap. f_equal.
    + destruct k as [|k]; [done|]. rewrite !count_fmap. apply IH.
      intros a a' b b' Ha Hb. apply Hinv; [by constructor|done].
    + apply IH. intros a a' b b' Ha Hb. apply Hinv; [done|by constructor].
  - assert (forall (k : nat) (u v : A), length (List.filter P (splits k (u :: v :: l))) =
      match k with S (S k') => length (List.filter (fun s => P (u :: v :: s.1, s.2)) (splits k' l)) | _ => 0 end +
      (match k with S k' => length (List.filter (fun s => P (u :: s.1, v :: s.2)) (splits k' l)) | _ => 0 end +
       match k with S k' => length (List.filter (fun s => P (v :: s.1, u :: s.2)) (splits k' l)) | _ => 0 end) +
      length (List.filter (fun s => P (s.1, u :: v :: s.2)) (splits k l))) as Hexp.
    { clear. intros k u v. simpl. destruct k as [|[|k]]; simpl;
        rewrite ?List.filter_app, ?fmap_app, ?length_app, ?List.filter_app, ?length_app, ?count_fmap; simpl;
        rewrite ?fmap_app, ?List.filter_app, ?length_app, ?count_fmap; simpl; lia. }
    rewrite !Hexp.
    assert (forall s : list A * list A, P (y :: x :: s.1, s.2) = P (x :: y :: s.1, s.2)) as E1
      by (intros s; apply Hinv; [constructor|done]).
    assert (forall s : list A * list A, P (s.1, y :: x :: s.2) = P (s.1, x :: y :: s.2)) as E2
      by (intros s; apply Hinv; [done|constructor]).
    rewrite (filter_count_ext _ _ (splits k l) E2).
    destruct k as [|[|k]]; [lia|lia|]. rewrite (filter_count_ext _ _ (splits k l) E1). lia.
  - rewrite IH1 by done. by apply IH2.
Qed.

Lemma extreme_perm_inv u c : perm_inv (extreme u c).
Proof. intros a a' b b' Ha Hb. unfold extreme. cbn [fst snd]. by rewrite (u_stat_perm a a' b b' Ha Hb). Qed.

(** The number of splits as extreme as the one observed. *)
Definition n_extreme (a b : list Q) : nat :=
  length (List.filter (extreme (u_stat a b) (Qn (length a * length b) / 2)%Q)
            (splits (length a) (sorted Qle_bool (a ++ b)))).

Lemma observed_is_extreme a b : 1 <= n_extreme a b.
Proof.
  unfold n_extreme.
  destruct (splits_complete (sorted Qle_bool (a ++ b)) a b) as (a' & b' & Hin & Ha & Hb);
    [apply sorted_perm|].
  assert (extreme (u_stat a b) (Qn (length a * length b) / 2)%Q (a', b') = true) as Hx.
  { unfold extreme. cbn [fst snd]. rewrite (u_stat_perm a' a b' b Ha Hb). apply Qle_bool_iff. lra. }
  set (l := List.filter _ _).
  assert ((a', b') ∈ l) as Hl by (apply elem_of_bfilter; done).
  destruct l; [by apply not_elem_of_nil in Hl|simpl; lia].
Qed.

Lemma reflect_centre u u' N :
  (u + u' == N)%Q -> (Qabs (u' - N / 2) == Qabs (u - N / 2))%Q.
Proof. intros H. rewrite (Qabs_Qminus u). apply Qabs_wd. rewrite <- H. field. Qed.

Lemma extreme_swap a b s :
  s ∈ splits (length b) (sorted Qle_bool (a ++ b)) ->
  extreme (u_stat b a) (Qn (length b * length a) / 2)%Q s =
  extreme (u_stat a b) (Qn (length a * length b) / 2)%Q (swap s).
Proof.
  destruct s as [x y]. intros Hs. apply splits_elem in Hs as [Hx HP].
  assert (length y = length a) as Hy.
  { apply Permutation_length in HP. rewrite sorted_length, !length_app in HP. lia. }
  unfold extreme, swap. cbn [fst snd].
  pose proof (u_stat_swap a b) as E1. pose proof (u_stat_swap y x) as E2. rewrite Hx, Hy in E2.
  rewrite (Nat.mul_comm (length b) (length a)).
  set (N := Qn (length a * length b)) in *.
  pose proof (reflect_centre _ _ _ E1) as F1. pose proof (reflect_centre _ _ _ E2) as F2.
  clearbody N. revert F1 F2. generalize (Qabs (u_stat b a - N / 2)) (Qabs (u_stat a b - N / 2))
    (Qabs (u_stat x y - N / 2)) (Qabs (u_stat y x - N / 2)). intros p q r t F1 F2.
  apply eq_true_iff_eq. rewrite !Qle_bool_iff. lra.
Qed.

Lemma n_extreme_swap a b : n_extreme b a = n_extreme a b.
Proof.
  unfold n_extreme.
  assert (sorted Qle_bool (b ++ a) ≡ₚ sorted Qle_bool (a ++ b)) as HP
    by (rewrite !sorted_perm; apply Permutation_app_comm).
  rewrite (splits_count_perm _ _ HP _ _ (extreme_perm_inv _ _)).
  assert (length (sorted Qle_bool (a ++ b)) = length a + length b) as HL
    by (rewrite sorted_length; apply length_app).
  pose proof (splits_swap (length b) (sorted Qle_bool (a ++ b)) ltac:(lia)) as HS.
  rewrite HL in HS. replace (length a + length b - length b) with (length a) in HS by lia.
  rewrite (filter_length_perm _ _ _ HS), count_fmap.
  assert (forall l, (forall s, s ∈ l -> s ∈ splits (length b) (sorted Qle_bool (a ++ b))) ->
    length (List.filter (extreme (u_stat b a) (Qn (length b * length a) / 2)) l) =
    length (List.filter (fun s => extreme (u_stat a b) (Qn (length a * length b) / 2) (swap s)) l))
    as Hgen; [|by apply Hgen].
  induction l as [|s l IH]; intros Hl; simpl; [done|].
  rewrite (extreme_swap a b s) by (apply Hl; by left).
  destruct (extreme _ _ (swap s)); simpl; rewrite IH by (intros; apply Hl; by right); done.
Qed.

Lemma n_splits_swap a b :
  length (splits (length b) (sorted Qle_bool (b ++ a))) =
  length (splits (length a) (sorted Qle_bool (a ++ b))).
Proof.
  rewrite (splits_length_binomial _ (sorted Qle_bool (a ++ b)))
    by (rewrite !sorted_length, !length_app; lia).
  assert (length (sorted Qle_bool (a ++ b)) = length a + length b) as HL
    by (rewrite sorted_length; apply length_app).
  pose proof (splits_swap (length b) (sorted Qle_bool (a ++ b)) ltac:(lia)) as HS.
  rewrite HL in HS. replace (length a + length b - length b) with (length a) in HS by lia.
  apply Permutation_length in HS. rewrite length_fmap in HS. done.
Qed.

Lemma mann_whitney_exact tail a b :
  let a' := drop_nan a in
  let b' := drop_nan b in
  0 < length a' -> 0 < length b' -> length a' + length b' <= 20 ->
  mann_whitney tail a b =
    (fin (u_stat a' b'),
     fin (qratio (n_extreme a' b') (length (splits (length a') (sorted Qle_bool (a' ++ b')))))).
Proof.
  intros a' b' Ha Hb Hn. unfold mann_whitney. fold a' b'.
  destruct (length a' =? 0) eqn:E1; breflect; [lia|].
  destruct (length b' =? 0) eqn:E2; breflect; [lia|]. simpl.
  apply Nat.leb_le in Hn. by rewrite Hn.
Qed.

(** *** The p-value by relabelling *)

(** How often a value of [xs] is above one of [ys], less how often it is below. *)
Definition dominance (xs ys : list Q) : Z :=
  foldr Z.add 0%Z ((fun x => foldr Z.add 0%Z
    ((fun y => match (x ?= y)%Q with Gt => 1 | Eq => 0 | Lt => -1 end)%Z <$> ys)) <$> xs).

(** The ways to label [n] values as one of two samples, [k] of them as the first. *)
Fixpoint masks (n : nat) : list (list bool) :=
  match n with
  | 0 => [[]]
  | S n' => (cons true <$> masks n') ++ (cons false <$> masks n')
  end.

Definition trues (m : list bool) : nat := length (List.filter id m).

Definition labelings (k n : nat) : list (list bool) := List.filter (fun m => Nat.eqb (trues m) k) (masks n).

(** The values with a given label. *)
Fixpoint labelled_as {A} (b : bool) (m : list bool) (l : list A) : list A :=
  match m, l with
  | c :: m', x :: l' => if Bool.eqb b c then x :: labelled_as b m' l' else labelled_as b m' l'
  | _, _ => []
  end.

(** A labelling of the pooled values under which the samples differ at least as much, one
    way or the other, as they do. *)
Definition as_far (a b : list Q) (m : list bool) : bool :=
  (Z.abs (dominance a b) <=?
   Z.abs (dominance (labelled_as true m (a ++ b)) (labelled_as false m (a ++ b))))%Z.

Lemma dominance_cons x xs ys :
  dominance (x :: xs) ys =
    (Z.of_nat (length (List.filter (fun y => Qltb y x) ys))
     - Z.of_nat (length (List.filter (fun y => Qltb x y) ys)) + dominance xs ys)%Z.
Proof.
  unfold dominance. csimpl. f_equal. induction ys as [|y ys IH]; [done|]. csimpl. rewrite IH.
  destruct (Qcompare_spec x y) as [E|E|E].
  - assert (Qltb y x = false) as -> by (apply Qltb_ge; lra).
    assert (Qltb x y = false) as -> by (apply Qltb_ge; lra). lia.
  - assert (Qltb y x = false) as -> by (apply Qltb_ge; lra).
    assert (Qltb x y = true) as -> by (by apply Qltb_lt). simpl. lia.
  - assert (Qltb y x = true) as -> by (by apply Qltb_lt).
    assert (Qltb x y = false) as -> by (apply Qltb_ge; lra). simpl. lia.
Qed.

Lemma three_way x (ys : list Q) :
  length (List.filter (fun y => Qltb y x) ys) + length (List.filter (fun y => Qltb x y) ys)
  + length (List.filter (fun y => Qeq_bool x y) ys) = length ys.
Proof.
  induction ys as [|y ys IH]; [done|]. simpl.
  destruct (Qlt_le_dec x y) as [H|H]; [|destruct (Qlt_le_dec y x) as [H'|H']].
  - assert (Qltb y x = false) as -> by (apply Qltb_ge; lra).
    assert (Qltb x y = true) as -> by (by apply Qltb_lt).
    assert (Qeq_bool x y = false) as -> by (apply not_true_iff_false; rewrite Qeq_bool_iff; lra). simpl. lia.
  - assert (Qltb y x = true) as -> by (by apply Qltb_lt).
    assert (Qltb x y = false) as -> by (apply Qltb_ge; lra).
    assert (Qeq_bool x y = false) as -> by (apply not_true_iff_false; rewrite Qeq_bool_iff; lra). simpl. lia.
  - assert (Qltb y x = false) as -> by (apply Qltb_ge; lra).
    assert (Qltb x y = false) as -> by (apply Qltb_ge; lra).
    assert (Qeq_bool x y = true) as -> by (apply Qeq_bool_iff; lra). simpl. lia.
Qed.

(** U is half the number of pairs and half the dominance. *)
Lemma u_stat_dominance xs ys :
  (u_stat xs ys == Qn (length xs * length ys) / 2 + inject_Z (dominance xs ys) / 2)%Q.
Proof.
  unfold u_stat, wins, draws. induction xs as [|x xs IH]; [by vm_compute|].
  rewrite dominance_cons. csimpl. unfold Qn in *.
  pose proof (three_way x ys) as Hl. set (w := length (List.filter (fun y => Qltb y x) ys)) in *.
  set (l := length (List.filter (fun y => Qltb x y) ys)) in *.
  set (e := length (List.filter (fun y => Qeq_bool x y) ys)) in *.
  set (W := sum_list _) in *. set (D := sum_list _) in *.
  set (N := length xs * length ys) in *.
  rewrite <- Hl. rewrite !Nat2Z.inj_add, !inject_Z_plus. unfold Z.sub. rewrite !inject_Z_plus, inject_Z_opp.
  unfold Qdiv in *. change (/ 2)%Q with (1 # 2) in *. lra.
Qed.

Lemma u_distance xs ys :
  (Qabs (u_stat xs ys - Qn (length xs * length ys) / 2) == inject_Z (Z.abs (dominance xs ys)) / 2)%Q.
Proof.
  assert (u_stat xs ys - Qn (length xs * length ys) / 2 == inject_Z (dominance xs ys) * (1 # 2))%Q as ->
    by (rewrite u_stat_dominance; field).
  rewrite Qabs_Qmult. reflexivity.
Qed.

(** The tolerance of the code's comparison never matters. *)
Lemma extreme_dominance a b xs ys :
  length xs = length a -> length ys = length b ->
  extreme (u_stat a b) (Qn (length a * length b) / 2)%Q (xs, ys) =
  (Z.abs (dominance a b) <=? Z.abs (dominance xs ys))%Z.
Proof.
  intros Hx Hy. unfold extreme. cbn [fst snd]. apply eq_true_iff_eq.
  rewrite Qle_bool_iff, Z.leb_le, u_distance. rewrite <- Hx, <- Hy at 1. rewrite u_distance. split.
  - intros H. destruct (Z_le_gt_dec (Z.abs (dominance a b)) (Z.abs (dominance xs ys))) as [|Hgt]; [done|].
    assert (inject_Z (Z.abs (dominance xs ys) + 1) <= inject_Z (Z.abs (dominance a b)))%Q as Hq
      by (rewrite <- Zle_Qle; lia).
    rewrite inject_Z_plus in Hq. change (inject_Z 1) with 1%Q in Hq. unfold Qdiv in H.
    change (/ 2)%Q with (1 # 2) in H. lra.
  - intros H. rewrite Zle_Qle in H. unfold Qdiv. change (/ 2)%Q with (1 # 2). lra.
Qed.

Lemma filter_fmap {A B} (P : B -> bool) (f : A -> B) l :
  List.filter P (f <$> l) = f <$> List.filter (fun x => P (f x)) l.
Proof. induction l as [|x l IH]; [done|]. csimpl. destruct (P (f x)); csimpl; by rewrite IH. Qed.

Lemma labelings_S k n :
  labelings k (S n) =
    match k with 0 => [] | S k' => cons true <$> labelings k' n end ++ (cons false <$> labelings k n).
Proof.
  unfold labelings. cbn [masks]. rewrite List.filter_app, !filter_fmap. f_equal.
  destruct k as [|k]; [|done]. unfold trues. simpl. induction (masks n); [done|]. simpl. done.
Qed.

(** The combinations the code goes through are the labellings. *)
Lemma splits_labelings {A} k (l : list A) :
  splits k l = (fun m => (labelled_as true m l, labelled_as false m l)) <$> labelings k (length l).
Proof.
  revert k. induction l as [|x l IH]; intros k; [by destruct k|].
  cbn [splits length]. rewrite labelings_S, fmap_app, IH. f_equal.
  - destruct k as [|k]; [done|]. rewrite IH, <- !list_fmap_compose. done.
  - rewrite <- !list_fmap_compose. done.
Qed.

Lemma labelled_length k (l : list Q) m :
  m ∈ labelings k (length l) ->
  length (labelled_as true m l) = k /\ length (labelled_as false m l) = length l - k.
Proof.
  intros Hm.
  assert ((labelled_as true m l, labelled_as false m l) ∈ splits k l) as Hs
    by (rewrite splits_labelings; apply list_elem_of_fmap; eauto).
  apply splits_elem in Hs as [H1 H2]. apply Permutation_length in H2. rewrite length_app in H2.
  simpl in *. lia.
Qed.

Lemma n_extreme_labelings a b :
  n_extreme a b = length (List.filter (as_far a b) (labelings (length a) (length a + length b))).
Proof.
  unfold n_extreme. rewrite (splits_count_perm _ (a ++ b) (sorted_perm _ _) _ _ (extreme_perm_inv _ _)).
  rewrite splits_labelings, count_fmap, length_app.
  assert (forall l, (forall m, m ∈ l -> m ∈ labelings (length a) (length (a ++ b))) ->
    length (List.filter (fun m => extreme (u_stat a b) (Qn (length a * length b) / 2)
      (labelled_as true m (a ++ b), labelled_as false m (a ++ b))) l) =
    length (List.filter (as_far a b) l)) as Hgen; [|apply Hgen; intros m; by rewrite length_app].
  induction l as [|m l IH]; intros Hl; [done|]. simpl.
  destruct (labelled_length (length a) (a ++ b) m) as [L1 L2]; [apply Hl; by left|].
  rewrite length_app in L2. rewrite extreme_dominance by lia. fold (as_far a b m).
  destruct (as_far a b m); simpl; rewrite IH by (intros; apply Hl; by right); done.
Qed.

Lemma n_splits_labelings a b :
  length (splits (length a) (sorted Qle_bool (a ++ b))) = length (labelings (length a) (length a + length b)).
Proof. rewrite splits_labelings, length_fmap, sorted_length, length_app. done. Qed.

(** C26. The exact Mann-Whitney p-value is the two-sided permutation p-value. For two
    non-empty samples of at most twenty finite values in all, U is half the number of
    pairs plus half the dominance of the first over the second, and p is the share, among
    all labellings of the pooled values with as many in the first sample, of those whose
    dominance is at least as large in magnitude as the observed one. The observed
    labelling is one of them, so p is positive and at most 1; exchanging the samples
    leaves p unchanged. *)
Theorem mann_whitney_spec tail a b :
  let a' := drop_nan a in
  let b' := drop_nan b in
  let all := labelings (length a') (length a' + length b') in
  0 < length a' -> 0 < length b' -> length a' + length b' <= 20 ->
  exists u u',
    mann_whitney tail a b = (fin u, fin (qratio (length (List.filter (as_far a' b') all)) (length all))) /\
    mann_whitney tail b a = (fin u', fin (qratio (length (List.filter (as_far a' b') all)) (length all))) /\
    (u == Qn (length a' * length b') / 2 + inject_Z (dominance a' b') / 2)%Q /\
    (u + u' == Qn (length a' * length b'))%Q /\
    1 <= length (List.filter (as_far a' b') all) <= length all.
Proof.
  intros a' b' all Ha Hb Hn. exists (u_stat a' b'), (u_stat b' a').
  unfold all. rewrite <- n_extreme_labelings, <- n_splits_labelings. split_and!.
  - by apply mann_whitney_exact.
  - rewrite <- n_extreme_swap, <- n_splits_swap. apply mann_whitney_exact; fold a' b'; lia.
  - apply u_stat_dominance.
  - apply u_stat_swap.
  - apply observed_is_extreme.
  - apply List.filter_length_le.
Qed.

Lemma mann_whitney_spec_witness :
  let a := [fin 1; fin 2; nan]%Q in
  let b := [fin 3; fin 4; fin 5]%Q in
  let tail := fun _ _ _ => nan in
  snd (mann_whitney tail a b) = fin (qratio 2 10) /\
  snd (mann_whitney tail b a) = snd (mann_whitney tail a b).
Proof.
  cbv zeta. split; [vm_compute; reflexivity|].
  destruct (mann_whitney_spec (fun _ _ _ => nan) [fin 1; fin 2; nan]%Q [fin 3; fin 4; fin 5]%Q)
    as (u & u' & -> & -> & _); [simpl; lia..|]. done.
Defined.

(** ** Discovery *)

Lemma group_by_two {A K V} `{EqDecision K} (key : A -> K) (val : A -> V) xs :
  1 < length (group_by key val xs) <-> exists x y, x ∈ xs /\ y ∈ xs /\ key x <> key y.
Proof.
  pose proof (elem_of_group_by_keys key val xs) as Hk. pose proof (group_by_NoDup key val xs) as Hnd.
  unfold dkeys in *.
  destruct (group_by key val xs) as [|[k1 v1] [|[k2 v2] r]]; csimpl in *.
  - split; [lia|]. intros (x & y & Hx & _). exfalso. apply (not_elem_of_nil (key x)), Hk.
    by apply list_elem_of_fmap_2.
  - split; [lia|]. intros (x & y & Hx & Hy & Hne). exfalso. apply Hne.
    apply (list_elem_of_fmap_2 key), Hk in Hx, Hy.
    apply list_elem_of_singleton in Hx, Hy. congruence.
  - split; [|lia]. intros _.
    assert (k1 ∈ key <$> xs) as H1 by (apply Hk; by left).
    assert (k2 ∈ key <$> xs) as H2 by (apply Hk; right; by left).
    apply list_elem_of_fmap in H1 as (x1 & -> & Hx1), H2 as (x2 & -> & Hx2).
    exists x1, x2. split_and!; [done..|]. intros Heq.
    apply NoDup_cons in Hnd as [Hni _]. apply Hni. rewrite Heq. by left.
Qed.

(** Discovery never pools runs of different corpora: it refuses exactly when two
    of the usable runs of the directory carry different distributions, and otherwise
    each usable run is in the list of the condition its name says, and nothing else
    is. *)
Theorem discover_spec {S} (entries : list (entry S)) :
  (discover entries = None <->
     exists e1 e2 x1 x2, e1 ∈ entries /\ e2 ∈ entries /\ kept e1 = Some x1 /\ kept e2 = Some x2 /\
       en_dist e1 <> en_dist e2) /\
  (forall r, discover entries = Some r -> forall c seed s,
     (seed, s) ∈ (match c with Baseline => rn_baseline r | Chaos => rn_chaos r
                  | Quiesce => rn_quiesce r end) <->
     exists e, e ∈ entries /\ run_re (en_name e) = Some (seed, c) /\ en_has_samples e = true /\
       en_summary e = s).
Proof.
  unfold discover. set (l := omap kept _).
  assert (forall x, x ∈ l <-> exists e, e ∈ entries /\ kept e = Some x) as Hl.
  { intros x. unfold l. rewrite list_elem_of_omap. by setoid_rewrite elem_of_sorted. }
  assert (forall (e : entry S) x, kept e = Some x -> x.2 = en_dist e) as Hd.
  { intros e x H. unfold kept in H. repeat case_match; by simplify_eq. }
  pose proof (group_by_two snd (fun x => x.1.1) l) as Hg.
  assert ((exists x y, x ∈ l /\ y ∈ l /\ x.2 <> y.2) <->
    exists (e1 e2 : entry S) x1 x2, e1 ∈ entries /\ e2 ∈ entries /\ kept e1 = Some x1 /\
      kept e2 = Some x2 /\ en_dist e1 <> en_dist e2) as Hmix.
  { split.
    - intros (x1 & x2 & (e1 & He1 & Hk1)%Hl & (e2 & He2 & Hk2)%Hl & Hne).
      exists e1, e2, x1, x2. by rewrite <- (Hd _ _ Hk1), <- (Hd _ _ Hk2).
    - intros (e1 & e2 & x1 & x2 & H1 & H2 & K1 & K2 & Hne). exists x1, x2.
      rewrite (Hd _ _ K1), (Hd _ _ K2). split_and!; [apply Hl; eauto..|done]. }
  rewrite <- Hmix, <- Hg.
  destruct (1 <? length (group_by snd (fun x => x.1.1) l)) eqn:E; breflect; split; try done.
  - split; [done|lia].
  - intros r [= <-] c seed s.
    assert ((seed, s) ∈ of_condition c l <-> exists e, e ∈ entries /\
      run_re (en_name e) = Some (seed, c) /\ en_has_samples e = true /\ en_summary e = s) as Hc.
    { unfold of_condition. rewrite list_elem_of_fmap. split.
      - intros ([[c' ss] d] & Heq & Hin). apply list_elem_of_filter in Hin as [<- Hin].
        apply Hl in Hin as (e & He & Hk). simpl in *. subst ss. exists e.
        unfold kept in Hk. repeat case_match; simplify_eq/=. done.
      - intros (e & He & Hre & Hs & <-). exists (c, (seed, en_summary e), en_dist e).
        split; [done|]. apply list_elem_of_filter. split; [done|]. apply Hl. exists e.
        split; [done|]. unfold kept. by rewrite Hre, Hs. }
    destruct c; exact Hc.
Qed.

(** ** Verdicts *)

(** A sample compared with itself is at the centre of the distribution: p = 1. *)
Lemma mann_whitney_self tail a :
  0 < length (drop_nan a) <= 10 ->
  exists p, mann_whitney tail a a = (fin (u_stat (drop_nan a) (drop_nan a)), fin p) /\ (p == 1)%Q.
Proof.
  intros Hn. eexists. split; [apply mann_whitney_exact; lia|]. set (a' := drop_nan a) in *.
  pose proof (observed_is_extreme a' a') as Hobs. unfold n_extreme in *.
  pose proof (u_stat_swap a' a') as Hu. set (all := splits _ _) in *.
  assert (forall s, extreme (u_stat a' a') (Qn (length a' * length a') / 2)%Q s = true) as Hall.
  { intros s. unfold extreme. apply Qle_bool_iff.
    pose proof (Qabs_nonneg (u_stat s.1 s.2 - Qn (length a' * length a') / 2)).
    assert (u_stat a' a' - Qn (length a' * length a') / 2 == 0)%Q as -> by (rewrite <- Hu; field).
    change (Qabs 0) with 0%Q. lra. }
  assert (List.filter (extreme (u_stat a' a') (Qn (length a' * length a') / 2)%Q) all = all) as Hf.
  { clear Hobs. induction all as [|x l IH]; simpl; [done|]. by rewrite Hall, IH. }
  rewrite Hf in Hobs |- *. by apply qratio_eq_1.
Qed.

Lemma drop_nan_length xs : length (drop_nan xs) <= length xs.
Proof.
  unfold drop_nan. induction xs as [|[|x] xs IH]; simpl; [done|by constructor|].
  by apply le_n_S.
Qed.

Lemma metric_p_self tail a : length a <= 10 -> separates (metric_p tail a a) = false.
Proof.
  intros Hn. unfold metric_p. destruct (drop_nan a) as [|q l] eqn:E; [done|].
  destruct (mann_whitney_self tail a) as (p & -> & Hp).
  { rewrite E. split; [simpl; lia|]. rewrite <- E.
    etrans; [apply drop_nan_length|exact Hn]. }
  simpl. apply Qle_bool_false. lra.
Qed.

(** Bins compared with themselves have no delta. *)
Lemma size_matched_self ss : Forall (fun d => d == 0)%Q (size_matched_deltas ss ss).
Proof.
  unfold size_matched_deltas. apply Forall_forall. intros d Hd.
  apply list_elem_of_omap in Hd as (k & _ & Hk). repeat case_match; simplify_eq. lra.
Qed.

(** What a sweep may conclude. It compares nothing and exits 1 unless both conditions
    have two runs. A metric is said to separate only with finite values on both sides
    and a p-value of at most 0.05, and the detector to work only above its thresholds.
    A sweep compared with itself separates nothing. *)
Theorem aggregate_main_spec tail baseline chaos :
  let r := aggregate_main tail baseline chaos in
  (r.1 = 0 <-> 2 <= length baseline /\ 2 <= length chaos) /\ (r.1 = 0 <-> is_Some r.2) /\
  (forall v, r.2 = Some v ->
     (vd_diverges v = true -> exists p,
        mann_whitney tail (sm_spread_mean <$> baseline) (sm_spread_mean <$> chaos) = p /\
        fle p.2 (fin (1 # 20)) = true) /\
     (vd_graph v = true -> exists p,
        mann_whitney tail (sm_index <$> baseline) (sm_index <$> chaos) = p /\
        fle p.2 (fin (1 # 20)) = true) /\
     (vd_detects v = true ->
        (np_mean (drop_nan (sm_chance <$> chaos)) * (9 # 5) <=
           np_mean (drop_nan (sm_hit_rate <$> chaos)))%Q)) /\
  (length baseline <= 10 -> forall v, (aggregate_main tail baseline baseline).2 = Some v ->
     vd_diverges v = false /\ vd_graph v = false /\ vd_data v = false).
Proof.
  assert (forall bv cv, separates (metric_p tail bv cv) = true ->
            exists p, mann_whitney tail bv cv = p /\ fle p.2 (fin (1 # 20)) = true) as Hsep.
  { intros bv cv. unfold metric_p. destruct (drop_nan bv), (drop_nan cv); try done. eauto. }
  unfold aggregate_main. split_and!.
  - destruct (length baseline <? 2) eqn:E1, (length chaos <? 2) eqn:E2; breflect; simpl; lia.
  - destruct ((_ <? 2) || _); simpl; [|naive_solver]. split; [done|]. by intros [? ?].
  - intros v Hv. destruct ((_ <? 2) || _); simplify_eq/=. split_and!; [apply Hsep..|].
    unfold hr_detects. destruct (drop_nan (sm_hit_rate <$> chaos)), (drop_nan (sm_chance <$> chaos));
      try done. intros H. breflect. by apply Qle_bool_iff.
  - intros Hn v Hv. destruct ((_ <? 2) || _); simplify_eq/=.
    split_and!; apply metric_p_self; by rewrite length_fmap.
Qed.

(** The healing verdict counts exactly the quiesce runs that had damage to recover:
    HEALS when every one of them recovered, DOES NOT HEAL when none did, MIXED with both
    counts otherwise; with no such run it concludes nothing. *)
Theorem report_healing_spec hs :
  let quiesce := omap id hs in
  let flags := healed_flags quiesce in
  match report_healing hs with
  | NoQuiesceRuns => quiesce = []
  | NothingToRecover => quiesce <> [] /\ flags = []
  | HEALS n => n = length flags /\ 0 < n /\ Forall (fun b => b = true) flags
  | DOES_NOT_HEAL n => n = length flags /\ 0 < n /\ Forall (fun b => b = false) flags
  | MIXED h n => n = length flags /\ 0 < h < n /\ h = length (List.filter id flags)
  end.
Proof.
  intros quiesce flags. unfold report_healing. fold quiesce.
  assert (length (List.filter id flags) <= length flags) as Hle by apply List.filter_length_le.
  assert (length (List.filter id flags) = length flags -> Forall (fun b => b = true) flags) as Hall.
  { clear. induction flags as [|[] l IH]; simpl; intros H; [constructor|constructor; auto|].
    pose proof (List.filter_length_le id l). lia. }
  assert (length (List.filter id flags) = 0 -> Forall (fun b => b = false) flags) as Hnone.
  { clear. induction flags as [|[] l IH]; simpl; intros H; [constructor|lia|constructor; auto]. }
  destruct quiesce as [|h q] eqn:Eq; [done|]. subst flags. set (flags := healed_flags _) in *.
  destruct (length flags =? 0) eqn:E0; breflect.
  { split; [done|]. by destruct flags. }
  destruct (_ =? length flags) eqn:E1; breflect; [split_and!; auto; lia|].
  destruct (_ =? 0) eqn:E2; breflect; [split_and!; auto; lia|]. split_and!; auto; lia.
Qed.
