(* ===== verification/Dissociation.v ===== *)
(** * The Weaviate dissociation experiment

    [research/weaviate_dissociation/dissociation.py]: the two-part corpus, exact
    ground truth over what a replica holds, the isolation snapshot, the classification
    of a recovery series, and one run with its abort conditions. Server replies,
    clocks and random vectors are inputs; every command that changes the cluster is
    recorded in a trace, which is kept when the run raises: an exception may strike at
    any [point] of a run. *)

From stdpp Require Import base list gmap strings sorting.
From Stdlib Require Import QArith Lqa ZArith Lia.
From S2P Require Import Prelude PyFloat Rounding Metrics.

Local Open Scope nat_scope.

Definition VICTIM : nat := 2.
Definition PEERS : list nat := [0; 1].
Definition DIVERGENCE : nat := 5000.
Definition ID_CAP : nat := 15000.
Definition K : nat := 10.

(** ** [corpus] *)

(** The uuids, as the integers they are built from. *)
Fixpoint zrange (n : nat) (x : Z) : list Z :=
  match n with 0 => [] | S n' => x :: zrange n' (x + 1)%Z end.

Definition corpus_ids (seed : Z) (n : nat) (offset : Z) : list Z :=
  zrange n (seed * 10000000 + offset)%Z.

Definition base_ids (seed : Z) : list Z := corpus_ids seed DIVERGENCE 0.
Definition div_ids (seed : Z) : list Z := corpus_ids seed DIVERGENCE (Z.of_nat DIVERGENCE).
Definition all_ids (seed : Z) : list Z := base_ids seed ++ div_ids seed.

(** ** Actions *)

Inductive cmd : Type :=
| Pause (node : nat)
| Unpause (node : nat)
| StopNode (node : nat)
| StartNode (node : nat)
| WriteAll (ids : list Z)
| WriteOne (ids : list Z).

(** The places of a run where an exception may be raised -- by the call made there, or
    by the user's interrupt; [k] numbers the two snapshots. *)
Inductive point : Type :=
| AtSetup (step : nat)
| AtWriteBase
| AtPause (k node : nat) | AtSettle (k : nat)
| AtPresent (k : nat) | AtSearch (k i : nat)
| AtUnpause (k node : nat) | AtReady (k node : nat)
| AtStop | AtStopped | AtWriteDiv | AtStart | AtSample
| AtWriteControl.

(** The commands given, and how the action ends. *)
Definition act (A : Type) : Type := list cmd * result A.

#[global] Instance act_ret : MRet act := fun A x => ([], Ok x).
#[global] Instance act_bind : MBind act := fun A B f m =>
  match m with
  | (t, Ok x) => let r := f x in (t ++ r.1, r.2)
  | (t, Raise e) => (t, Raise e)
  end.

Definition lift {A} (r : result A) : act A := ([], r).

(** [try: body finally: fin] *)
Definition finally {A} (body : act A) (fin : act unit) : act A :=
  (body.1 ++ fin.1, match fin.2 with Raise e => Raise e | Ok _ => body.2 end).

Fixpoint for_each {A} (f : A -> act unit) (l : list A) : act unit :=
  match l with
  | [] => mret ()
  | x :: rest => f x ≫= fun _ => for_each f rest
  end.

Fixpoint amapM {A B} (f : A -> act B) (l : list A) : act (list B) :=
  match l with
  | [] => mret []
  | x :: rest => f x ≫= fun y => amapM f rest ≫= fun ys => mret (y :: ys)
  end.

(** ** [exact_topk] *)

Section Truth.
Context {np : Numpy}.
(** [np.linalg.norm] of a row: rounded, since it is irrational. *)
Context (norm : vec -> Q).
(** What is raised at each point. *)
Context (exns : point -> option exn).

(** The scores of the rows of [sub]: [1.0 - sn @ qn], [norm(sub - query)] or
    [-(sub @ query)], in [float32]. *)
Definition gemv (sub : list vec) (query : vec) : result (list Q) :=
  match matmul [query] sub with
  | Ok rows => Ok (nth 0 rows [])
  | Raise e => Raise e
  end.

Definition each (f : Q -> Q) (d : result (list Q)) : result (list Q) :=
  match d with Ok xs => Ok (f <$> xs) | Raise e => Raise e end.

Definition unit_row (v : vec) : vec := (fun x => f32 (x / norm v)) <$> v.

Definition wv_scores (distance : string) (query : vec) (sub : list vec) : result (list Q) :=
  if bool_decide (distance = "cosine"%string) then
    each (fun x => f32 (1 - x)) (gemv (unit_row <$> sub) (unit_row query))
  else if bool_decide (distance ∈ ["l2-squared"; "l2"; "euclidean"]%string) then
    if same_dim [query] sub
    then Ok ((fun v => norm (zip_with (fun x y => f32 (x - y)) v query)) <$> sub)
    else Raise ValueError
  else if bool_decide (distance = "dot"%string) then
    each Qopp (gemv sub query)
  else Raise ValueError.

Definition wv_exact_topk (query : vec) (vecs : list vec) (held_idx : list nat) (k : nat)
    (distance : string) : result (list nat) :=
  match held_idx with
  | [] => Ok []
  | _ =>
      d ← wv_scores distance query ((fun i => nth i vecs []) <$> held_idx);
      Ok ((fun i => nth i held_idx 0) <$> take k (argsort d))
  end.

(** A call at [p] that gives no command, and one that gives [c] unless it raises. *)
Definition at_point (p : point) : act unit :=
  ([], match exns p with Some e => Raise e | None => Ok () end).
Definition give (p : point) (c : cmd) : act unit :=
  match exns p with Some e => ([], Raise e) | None => ([c], Ok ()) end.

(** ** [index_recall_snapshot] *)

Record snapshot := mkSnap {
  sn_recall : option Q; sn_held : nat; sn_queries : nat; sn_distance : string }.

(** What the isolated node answers: the ids it holds, or a failure; and each query's
    ids, or a failure. *)
Record probe_replies := mkPR {
  pr_present : option (gset Z);
  pr_search : nat -> option (list (option Z));
}.

Definition score_query (ids : list Z) (vecs : list vec) (held_idx : list nat) (distance : string)
    (q : vec) (got : option (list (option Z))) : result (nat * nat) :=
  truth_idx ← wv_exact_topk q vecs held_idx K distance;
  let truth : gset Z := list_to_set (omap (ids !!.) truth_idx) in
  match got with
  | None => Ok (0, 0)
  | Some g =>
      if Nat.eqb (size truth) 0 then Ok (0, 0)
      else Ok (size (list_to_set (omap id g) ∩ truth), size truth)
  end.

Definition enumerate {A} (l : list A) : list (nat * A) := zip (seq 0 (length l)) l.

(** The body of the [try]. *)
Definition snapshot_body (k : nat) (ids : list Z) (vecs : list vec) (queries : list vec)
    (distance : string) (e : probe_replies) : act (option snapshot) :=
  at_point (AtPresent k) ≫= fun _ =>
  match pr_present e with
  | None => mret None
  | Some held =>
      let held_idx := omap (fun ix => if bool_decide (ix.2 ∈ held) then Some ix.1 else None)
                        (enumerate (take ID_CAP ids)) in
      amapM (fun iq => at_point (AtSearch k iq.1) ≫= fun _ =>
               lift (score_query ids vecs held_idx distance iq.2 (pr_search e iq.1)))
        (enumerate queries) ≫= fun scores =>
      let hits := sum_list (scores.*1) in
      let tot := sum_list (scores.*2) in
      mret (Some (mkSnap (if Nat.eqb tot 0 then None else Some (qratio hits tot))
                    (length held_idx) (length queries) distance))
  end.

Definition others_of (node : nat) : list nat := List.filter (fun p => negb (Nat.eqb p node)) PEERS.

(** The [finally] clause. *)
Definition restore (k node : nat) : act unit :=
  for_each (fun p => give (AtUnpause k p) (Unpause p)) (others_of node) ≫= fun _ =>
  for_each (fun p => at_point (AtReady k p)) (others_of node).

Definition index_recall_snapshot (k node : nat) (ids : list Z) (vecs : list vec)
    (queries : list vec) (distance : string) (e : probe_replies) : act (option snapshot) :=
  for_each (fun p => give (AtPause k p) (Pause p)) (others_of node) ≫= fun _ =>
  at_point (AtSettle k) ≫= fun _ =>
  finally (snapshot_body k ids vecs queries distance e) (restore k node).

(** ** [recovery_with_censoring] *)

Record sample := mkSample { sa_t : Q; sa_n : option nat; sa_ok : bool }.

Inductive censoring : Type := NoData | LeftC | RightC | NoneC.

Record recovery := mkRec {
  rc_first : option Q; rc_recovery : option Q; rc_bound : option Q; rc_censored : censoring }.

Definition usable (s : sample) : option (Q * nat) :=
  if sa_ok s then match sa_n s with Some n => Some (sa_t s, n) | None => None end else None.

Definition recovery_with_censoring (series : list sample) : recovery :=
  match omap usable series with
  | [] => mkRec None None None NoData
  | ((t0, n0) :: rest) as ok =>
      match List.filter (fun s => DIVERGENCE <=? s.2) ok with
      | [] => mkRec (Some t0) None (fst <$> last ok) RightC
      | (tc, _) :: _ =>
          if DIVERGENCE <=? n0 then mkRec (Some t0) None (Some t0) LeftC
          else mkRec (Some t0) (Some tc) None NoneC
      end
  end.

(** ** [shard_for_class] *)

(** Each node's shards, as (class, name) pairs. *)
Definition shard_for_class (cls : string) (nodes : list (list (string * string))) : option string :=
  snd <$> List.find (fun sh => bool_decide (sh.1 = cls)) (concat nodes).

(** ** [wait_full_membership] *)

Fixpoint wait_full_membership (expect : nat) (t0 timeout_s : Q)
    (rounds : list (Q * list bool)) : option bool :=
  match rounds with
  | [] => None
  | (now, healthy) :: rest =>
      if Qltb (now - t0) timeout_s then
        if expect <=? length (List.filter id healthy) then Some true
        else wait_full_membership expect t0 timeout_s rest
      else Some false
  end.

(** ** [one_run] *)

Inductive abort : Type :=
| NoMembership | CreateFailed | BadPlacement (holders : nat) | NotEmpty (n : nat)
| NoShard | NoDistance | BaselineNone | BaselineLow.

(** What one run meets, in program order. *)
Record run_env := mkEnv {
  re_membership : bool;
  re_create_status : Z;
  re_verify : bool;
  re_holders : nat;
  re_count : option nat;                  (* class_count() after creation *)
  re_nodes : list (list (string * string));
  re_live : option string;                (* schema_distance(0) *)
  re_before : probe_replies;
  re_after : probe_replies;
  re_series : list sample;
}.

Record run_rec := mkRun {
  rr_aborted : option abort;
  rr_distance : string;
  rr_before : option snapshot;
  rr_after : option snapshot;
  rr_recovery : option recovery;
  rr_completeness_end : option Q;
}.

Definition BASELINE_FLOOR : Q := 9 # 10.

Definition cls_name (seed_text : string) (chaos : bool) : string :=
  ("RrdV" +:+ seed_text +:+ (if chaos then "Chaos" else "Ctl"))%string.

Definition nonempty (s : option string) : option string :=
  match s with Some s => if bool_decide (s = ""%string) then None else Some s | None => None end.

(** [last / DIVERGENCE] of the last sample, when it has a count. *)
Definition completeness_end (series : list sample) : option Q :=
  match last series with
  | Some s => (fun n => qratio n DIVERGENCE) <$> sa_n s
  | None => None
  end.

(** The chaos arm stops the victim, writes what it cannot see, restarts it and samples;
    the control writes the same set with every replica up. *)
Definition diverge (seed : Z) (chaos : bool) : act unit :=
  if chaos then
    give AtStop (StopNode VICTIM) ≫= fun _ =>
    at_point AtStopped ≫= fun _ =>
    give AtWriteDiv (WriteOne (div_ids seed)) ≫= fun _ =>
    give AtStart (StartNode VICTIM) ≫= fun _ =>
    at_point AtSample
  else give AtWriteControl (WriteAll (div_ids seed)).

Definition aborted (a : abort) (distance : string) (before : option snapshot) : act run_rec :=
  mret (mkRun (Some a) distance before None None None).

(** The run once its class exists: base corpus, snapshot and its control, divergence,
    snapshot. *)
Definition measure (seed : Z) (chaos : bool) (vecs queries : list vec) (live : string)
    (e : run_env) : act run_rec :=
  give AtWriteBase (WriteAll (base_ids seed)) ≫= fun _ =>
  index_recall_snapshot 0 VICTIM (all_ids seed) vecs queries live (re_before e) ≫= fun before =>
  match before ≫= sn_recall with
  | None => aborted BaselineNone live before
  | Some b =>
      if Qltb b BASELINE_FLOOR then aborted BaselineLow live before
      else
        diverge seed chaos ≫= fun _ =>
        index_recall_snapshot 1 VICTIM (all_ids seed) vecs queries live (re_after e) ≫= fun after =>
        mret (mkRun None live before after
                (if chaos then Some (recovery_with_censoring (re_series e)) else None)
                (if chaos then completeness_end (re_series e) else None))
  end.

(** A real (not dry) run. *)
Definition one_run (seed : Z) (seed_text : string) (chaos : bool) (vecs queries : list vec)
    (distance : string) (e : run_env) : act run_rec :=
  at_point (AtSetup 0) ≫= fun _ =>                     (* membership *)
  if negb (re_membership e) then aborted NoMembership distance None
  else
    at_point (AtSetup 1) ≫= fun _ =>                   (* delete and create *)
    if negb (Z.eqb (re_create_status e) 200) then aborted CreateFailed distance None
    else
      at_point (AtSetup 2) ≫= fun _ =>                 (* verify, count the holders *)
      if negb (re_verify e) || negb (Nat.eqb (re_holders e) 3)
      then aborted (BadPlacement (re_holders e)) distance None
      else
        match re_count e with
        | Some (S n) => aborted (NotEmpty (S n)) distance None
        | _ =>
            at_point (AtSetup 3) ≫= fun _ =>           (* the shard *)
            match nonempty (shard_for_class (cls_name seed_text chaos) (re_nodes e)) with
            | None => aborted NoShard distance None
            | Some shard =>
                at_point (AtSetup 4) ≫= fun _ =>       (* the distance *)
                match nonempty (re_live e) with
                | None => aborted NoDistance distance None
                | Some live => measure seed chaos vecs queries live e
                end
            end
        end.
End Truth.

(** ** [main]: the topology refusal *)

Definition refuses (verified absent : bool) : bool := negb verified && negb absent.

(** * Properties *)

(** ** The two corpora *)

Lemma elem_of_zrange n x y : y ∈ zrange n x <-> (x <= y < x + Z.of_nat n)%Z.
Proof.
  revert x. induction n as [|n IH]; intros x; cbn [zrange].
  - rewrite elem_of_nil. lia.
  - rewrite elem_of_cons, IH. lia.
Qed.

Lemma elem_of_corpus seed n off x :
  x ∈ corpus_ids seed n off <->
  (seed * 10000000 + off <= x < seed * 10000000 + off + Z.of_nat n)%Z.
Proof. apply elem_of_zrange. Qed.

Lemma zrange_NoDup n x : NoDup (zrange n x).
Proof.
  revert x. induction n as [|n IH]; intros x; cbn [zrange]; [constructor|].
  apply NoDup_cons. split; [|done]. rewrite elem_of_zrange. lia.
Qed.

Lemma corpus_length seed n off : length (corpus_ids seed n off) = n.
Proof.
  unfold corpus_ids. generalize (seed * 10000000 + off)%Z.
  induction n as [|n IH]; intros x; cbn [zrange length]; auto.
Qed.

(** The divergence set holds only ids the base set does not, so a victim that was
    down while it was written is really missing them; the ids of different seeds never
    meet either; and the presence probe's cap covers both sets. *)
Theorem corpora_disjoint seed :
  NoDup (all_ids seed) /\ length (all_ids seed) <= ID_CAP /\
  (forall x, x ∈ base_ids seed -> x ∉ div_ids seed) /\
  (forall seed' x, seed <> seed' -> x ∈ all_ids seed -> x ∉ all_ids seed').
Proof.
  assert (forall s x, x ∈ all_ids s <->
            (s * 10000000 <= x < s * 10000000 + 10000)%Z) as Hall.
  { intros s x. unfold all_ids, base_ids, div_ids, DIVERGENCE.
    rewrite elem_of_app, !elem_of_corpus. lia. }
  assert (forall x, x ∈ base_ids seed -> x ∉ div_ids seed) as Hd.
  { intros x. unfold base_ids, div_ids. rewrite !elem_of_corpus. lia. }
  split_and!.
  - apply NoDup_app. split_and!; [apply zrange_NoDup|exact Hd|apply zrange_NoDup].
  - unfold all_ids, base_ids, div_ids. rewrite length_app, !corpus_length.
    apply Nat.leb_le. vm_compute. reflexivity.
  - exact Hd.
  - intros s' x Hne. rewrite !Hall. lia.
Qed.

(** ** Recovery *)

Lemma filter_none_inv {A} (p : A -> bool) l :
  List.filter p l = [] <-> forall x, x ∈ l -> p x = false.
Proof.
  split.
  - intros H x Hx. destruct (p x) eqn:E; [|done].
    assert (x ∈ List.filter p l) as Hin by (by apply elem_of_bfilter).
    rewrite H in Hin. by apply not_elem_of_nil in Hin.
  - intros H. destruct (List.filter p l) as [|x r] eqn:E; [done|].
    assert (x ∈ List.filter p l) as Hin by (rewrite E; by left).
    apply elem_of_bfilter in Hin as [Hin Hp]. rewrite (H _ Hin) in Hp. done.
Qed.

Lemma filter_first {A} (p : A -> bool) l x r :
  List.filter p l = x :: r ->
  exists pre post, l = pre ++ x :: post /\ p x = true /\ forall y, y ∈ pre -> p y = false.
Proof.
  induction l as [|y l IH]; simpl; [done|]. destruct (p y) eqn:E.
  - intros [= <- _]. exists [], l. split_and!; [done..|]. intros z Hz. by apply not_elem_of_nil in Hz.
  - intros H. apply IH in H as (pre & post & -> & Hp & Hpre). exists (y :: pre), post.
    split_and!; [done..|]. intros z [->|Hz]%elem_of_cons; [done|auto].
Qed.

(** The recovery of a series is classified as its documentation says, over the
    usable samples: no data exactly when there is none; right-censored exactly when no
    sample is complete; left-censored exactly when the first already is; and only an
    incomplete first sample followed by a complete one yields a time, that of the
    first complete sample. *)
Theorem recovery_with_censoring_spec series :
  let ok := omap usable series in
  let r := recovery_with_censoring series in
  (rc_censored r = NoData <-> ok = []) /\
  (rc_censored r = RightC <-> ok <> [] /\ forall s, s ∈ ok -> s.2 < DIVERGENCE) /\
  (rc_censored r = LeftC <-> exists s rest, ok = s :: rest /\ DIVERGENCE <= s.2) /\
  (rc_censored r = NoneC <-> exists s rest, ok = s :: rest /\ s.2 < DIVERGENCE /\
     exists s', s' ∈ rest /\ DIVERGENCE <= s'.2) /\
  (forall t, rc_recovery r = Some t ->
     exists pre n post, ok = pre ++ (t, n) :: post /\ pre <> [] /\ DIVERGENCE <= n /\
       forall s, s ∈ pre -> s.2 < DIVERGENCE).
Proof.
  cbv zeta. unfold recovery_with_censoring. generalize DIVERGENCE as D. intros D.
  destruct (omap usable series) as [|[t0 n0] rest].
  { simpl. naive_solver. }
  set (ok := (t0, n0) :: rest).
  destruct (List.filter (fun s : Q * nat => D <=? s.2) ok) as [|[tc nc] more] eqn:E.
  - pose proof (proj1 (filter_none_inv _ _) E) as Hno.
    assert (forall s, s ∈ ok -> s.2 < D) as Hlt by (intros s Hs; apply Hno in Hs; by breflect).
    cbn [rc_censored rc_recovery]. split_and!.
    + unfold ok. by split.
    + split; [|done]. intros _. split; [by unfold ok|done].
    + split; [done|]. intros (s & r & Heq & Hs). simplify_eq.
      specialize (Hlt (t0, n0) ltac:(by left)). simpl in *. lia.
    + split; [done|]. intros (s & r & Heq & _ & s' & Hs' & Hd). simplify_eq.
      specialize (Hlt s' ltac:(by right)). lia.
    + done.
  - apply filter_first in E as (pre & post & Hok & Hc & Hpre). simpl in Hc.
    assert ((tc, nc) ∈ ok) as Hin by (rewrite Hok; apply elem_of_app; right; by left).
    destruct (D <=? n0) eqn:En; breflect; cbn [rc_censored rc_recovery]; split_and!.
    + unfold ok. by split.
    + split; [done|]. intros [_ H]. apply H in Hin. simpl in Hin. lia.
    + split; [|done]. intros _. by exists (t0, n0), rest.
    + split; [done|]. intros (s & r & Heq & Hs & _). simplify_eq. simpl in *. lia.
    + done.
    + unfold ok. by split.
    + split; [done|]. intros [_ H]. apply H in Hin. simpl in Hin. lia.
    + split; [done|]. intros (s & r & Heq & Hs). simplify_eq. simpl in *. lia.
    + split; [|done]. intros _. exists (t0, n0), rest. split_and!; [done..|].
      exists (tc, nc). split; [|done].
      apply elem_of_cons in Hin as [[= -> ->]|]; [lia|done].
    + intros t [= <-]. exists pre, nc, post. split_and!; [done| |done|].
      * intros ->. simpl in Hok. unfold ok in Hok. simplify_eq. lia.
      * intros s Hs. apply Hpre in Hs. by breflect.
Qed.

(** ** Runs *)

(** The nodes left paused or stopped after a list of commands. *)
Fixpoint down_after (down : gset nat) (trace : list cmd) : gset nat :=
  match trace with
  | [] => down
  | (Pause n | StopNode n) :: rest => down_after ({[n]} ∪ down) rest
  | (Unpause n | StartNode n) :: rest => down_after (down ∖ {[n]}) rest
  | (WriteAll _ | WriteOne _) :: rest => down_after down rest
  end.

Lemma down_after_app d t1 t2 : down_after d (t1 ++ t2) = down_after (down_after d t1) t2.
Proof. revert d. induction t1 as [|[] t1 IH]; intros d; simpl; auto. Qed.

#[local] Opaque base_ids div_ids all_ids.

(** Points outside a [try], at which a peer may already be paused or the victim
    stopped. *)
Definition unprotected (p : point) : Prop :=
  match p with
  | AtPause _ _ | AtSettle _ | AtUnpause _ _ | AtStopped | AtWriteDiv | AtStart => True
  | _ => False
  end.

(** Commands of the divergence: only these stop the victim or write anything but the
    base corpus. *)
Definition diverges (seed : Z) (c : cmd) : Prop :=
  match c with
  | StopNode _ | StartNode _ | WriteOne _ => True
  | WriteAll ids => ids <> base_ids seed
  | Pause _ | Unpause _ => False
  end.

Section RunProps.
Context {np : Numpy} (norm : vec -> Q) (exns : point -> option exn).

(** The action leaves every node running, unless an exception struck at an
    unprotected point. *)
Definition leaves_running {A} (m : act A) : Prop :=
  down_after ∅ m.1 = ∅ \/ exists p e, exns p = Some e /\ unprotected p /\ m.2 = Raise e.

Definition calm {A} (seed : Z) (m : act A) : Prop := Forall (fun c => ~ diverges seed c) m.1.

Lemma leaves_running_bind {A B} (m : act A) (f : A -> act B) :
  leaves_running m -> (forall x, m.2 = Ok x -> leaves_running (f x)) -> leaves_running (m ≫= f).
Proof.
  unfold leaves_running. destruct m as [t [x|e]]; cbn [mbind act_bind fst snd];
    [|intros [Hd|(p & e' & Hp & Hu & [= ->])] _; [by left|right; eauto]].
  intros [Hd|(p & e & _ & _ & [=])] Hf. destruct (Hf x eq_refl) as [H|H]; [|by right].
  left. by rewrite down_after_app, Hd.
Qed.

Lemma calm_bind {A B} seed (m : act A) (f : A -> act B) :
  calm seed m -> (forall x, m.2 = Ok x -> calm seed (f x)) -> calm seed (m ≫= f).
Proof.
  unfold calm. destruct m as [t [x|e]]; cbn [mbind act_bind fst snd]; intros H Hf; [|done].
  apply Forall_app. auto.
Qed.

Lemma act_bind_Ok {A B} (m : act A) (f : A -> act B) y :
  (m ≫= f).2 = Ok y -> exists x, m.2 = Ok x /\ (f x).2 = Ok y.
Proof. destruct m as [t [x|e]]; cbn [mbind act_bind fst snd]; [eauto|done]. Qed.

Lemma at_point_quiet p : (at_point exns p).1 = [].
Proof. done. Qed.

Lemma at_point_running p : leaves_running (at_point exns p).
Proof. by left. Qed.

Lemma quiet_running {A} (m : act A) : m.1 = [] -> leaves_running m.
Proof. intros H. left. by rewrite H. Qed.

Lemma quiet_calm {A} seed (m : act A) : m.1 = [] -> calm seed m.
Proof. intros H. unfold calm. by rewrite H. Qed.

Lemma quiet_bind {A B} (m : act A) (f : A -> act B) :
  m.1 = [] -> (forall x, (f x).1 = []) -> (m ≫= f).1 = [].
Proof. destruct m as [t [x|e]]; cbn [mbind act_bind fst snd]; intros -> Hf; [by rewrite Hf|done]. Qed.

Lemma amapM_quiet {A B} (f : A -> act B) l : (forall x, (f x).1 = []) -> (amapM f l).1 = [].
Proof.
  intros Hf. induction l as [|x l IH]; [done|]. cbn [amapM]. apply quiet_bind; [done|].
  intros y. by apply quiet_bind.
Qed.

(** The body of the [try] gives no command. *)
Lemma snapshot_body_quiet k ids vecs queries distance e :
  (snapshot_body norm exns k ids vecs queries distance e).1 = [].
Proof.
  unfold snapshot_body. apply quiet_bind; [done|]. intros _. destruct (pr_present e) as [held|]; [|done].
  apply quiet_bind; [|done]. apply amapM_quiet. intros iq. by apply quiet_bind.
Qed.

(** However the body of the [try] ends, the [finally] clause restores the peers that
    were paused. *)
Lemma snapshot_running k ids vecs queries distance e :
  leaves_running (index_recall_snapshot norm exns k VICTIM ids vecs queries distance e).
Proof.
  unfold index_recall_snapshot, restore. change (others_of VICTIM) with [0; 1].
  pose proof (snapshot_body_quiet k ids vecs queries distance e) as Hq.
  destruct (snapshot_body _ _ _ _ _ _ _ _) as [t r]. simpl in Hq. subst t.
  unfold leaves_running, at_point, give. cbn [for_each mbind act_bind].
  destruct (exns (AtPause k 0)) as [x0|] eqn:P0; [by left|].
  destruct (exns (AtPause k 1)) as [x1|] eqn:P1; cbn.
  { right. exists (AtPause k 1), x1. done. }
  destruct (exns (AtSettle k)) as [x2|] eqn:P2; cbn.
  { right. exists (AtSettle k), x2. done. }
  destruct (exns (AtUnpause k 0)) as [x3|] eqn:P3; cbn.
  { right. exists (AtUnpause k 0), x3. done. }
  destruct (exns (AtUnpause k 1)) as [x4|] eqn:P4; cbn.
  { right. exists (AtUnpause k 1), x4. done. }
  left. destruct (exns (AtReady k 0)), (exns (AtReady k 1)); cbn;
    apply leibniz_equiv; set_solver.
Qed.

Lemma for_each_calm {A} seed (f : A -> act unit) l : (forall x, calm seed (f x)) -> calm seed (for_each f l).
Proof. intros Hf. induction l as [|x l IH]; [constructor|]. by apply calm_bind. Qed.

Lemma give_calm seed p c : ~ diverges seed c -> calm seed (give exns p c).
Proof. intros H. unfold calm, give. destruct (exns p); simpl; by repeat constructor. Qed.

Lemma snapshot_calm seed k ids vecs queries distance e :
  calm seed (index_recall_snapshot norm exns k VICTIM ids vecs queries distance e).
Proof.
  unfold index_recall_snapshot. apply calm_bind; [apply for_each_calm; intros p; apply give_calm; by intros []|].
  intros _ _. apply calm_bind; [by apply quiet_calm|]. intros _ _.
  unfold calm, finally. cbn [fst]. rewrite snapshot_body_quiet. cbn [app].
  apply calm_bind; [apply for_each_calm; intros p; apply give_calm; by intros []|].
  intros _ _. apply for_each_calm. intros p. by apply quiet_calm.
Qed.

Lemma diverge_running seed chaos : leaves_running (diverge exns seed chaos).
Proof.
  unfold diverge, leaves_running, at_point, give. destruct chaos; cbn [mbind act_bind].
  - destruct (exns AtStop) as [x0|]; [by left|]. cbn.
    destruct (exns AtStopped) as [x1|] eqn:P1; cbn; [right; by exists AtStopped, x1|].
    destruct (exns AtWriteDiv) as [x2|] eqn:P2; cbn; [right; by exists AtWriteDiv, x2|].
    destruct (exns AtStart) as [x3|] eqn:P3; cbn; [right; by exists AtStart, x3|].
    left. destruct (exns AtSample); cbn; apply leibniz_equiv; set_solver.
  - destruct (exns AtWriteControl); by left.
Qed.

(** The snapshot that has to pass before anything is diverged. *)
Definition baseline_passes (seed : Z) (vecs queries : list vec) (live : string) (e : run_env)
    (before : option snapshot) : Prop :=
  (index_recall_snapshot norm exns 0 VICTIM (all_ids seed) vecs queries live (re_before e)).2 = Ok before /\
  exists s b, before = Some s /\ sn_recall s = Some b /\ (BASELINE_FLOOR <= b)%Q.

Lemma measure_running seed chaos vecs queries live e :
  leaves_running (measure norm exns seed chaos vecs queries live e).
Proof.
  unfold measure. apply leaves_running_bind.
  { unfold give. destruct (exns AtWriteBase); by left. }
  intros _ _. apply leaves_running_bind; [apply snapshot_running|]. intros before _.
  destruct (before ≫= sn_recall) as [b|]; [|by left]. destruct (Qltb b BASELINE_FLOOR); [by left|].
  apply leaves_running_bind; [apply diverge_running|]. intros _ _.
  apply leaves_running_bind; [apply snapshot_running|]. intros after _. by left.
Qed.

Lemma baseline_pass before b :
  before ≫= sn_recall = Some b -> Qltb b BASELINE_FLOOR = false ->
  exists s b, before = Some s /\ sn_recall s = Some b /\ (BASELINE_FLOOR <= b)%Q.
Proof. intros (s & -> & Hs)%bind_Some Hb. qreflect. eauto. Qed.

(** Nothing is diverged unless the undisturbed replica passed. *)
Lemma measure_calm seed chaos vecs queries live e :
  calm seed (measure norm exns seed chaos vecs queries live e) \/
  exists before, baseline_passes seed vecs queries live e before.
Proof.
  unfold measure, baseline_passes.
  destruct (index_recall_snapshot _ _ 0 _ _ _ _ _ _) as [t res] eqn:Es. cbn [snd].
  assert (calm seed (t, res)) as Hc by (rewrite <- Es; apply snapshot_calm).
  assert (forall m, (forall x, res = Ok x -> calm seed (m x : act run_rec)) ->
    calm seed (give exns AtWriteBase (WriteAll (base_ids seed)) ≫= fun _ => (t, res) ≫= m)) as Hb.
  { intros m Hm. apply calm_bind; [apply give_calm; cbn; tauto|]. intros _ _. by apply calm_bind. }
  destruct res as [before|x]; [|left; by apply Hb].
  destruct (before ≫= sn_recall) as [b|] eqn:Eb;
    [destruct (Qltb b BASELINE_FLOOR) eqn:Ef|].
  - left. apply Hb. intros y [= <-]. rewrite Eb, Ef. by apply quiet_calm.
  - right. exists before. split; [done|]. by eapply baseline_pass.
  - left. apply Hb. intros y [= <-]. rewrite Eb. by apply quiet_calm.
Qed.

Lemma measure_result seed chaos vecs queries live e r :
  (measure norm exns seed chaos vecs queries live e).2 = Ok r ->
  rr_distance r = live /\
  (rr_aborted r = None -> baseline_passes seed vecs queries live e (rr_before r)) /\
  (rr_aborted r <> None -> calm seed (measure norm exns seed chaos vecs queries live e)).
Proof.
  intros H. pose proof H as H'. unfold measure in H'. apply act_bind_Ok in H' as (_ & _ & H').
  apply act_bind_Ok in H' as (before & E & H').
  destruct (before ≫= sn_recall) as [b|] eqn:Eb; [destruct (Qltb b BASELINE_FLOOR) eqn:Ef|].
  1,3: injection H' as <-; (split; [done|]); (split; [done|]); intros _;
    destruct (measure_calm seed chaos vecs queries live e) as [|(bf & E' & s & b' & -> & Hs & Hle)]; [done|];
    exfalso; rewrite E in E'; injection E' as ->; cbn in Eb; rewrite Hs in Eb; simplify_eq/=; qreflect; lra.
  apply act_bind_Ok in H' as (_ & _ & H'). apply act_bind_Ok in H' as (after & _ & H').
  injection H' as <-. split; [done|]. split; [|done]. intros _. split; [done|]. by eapply baseline_pass.
Qed.

(** The guards before the base corpus is written. *)
Definition guards_hold (e : run_env) (live : string) : Prop :=
  re_membership e = true /\ re_create_status e = 200%Z /\ re_verify e = true /\
  re_holders e = 3 /\ (re_count e = None \/ re_count e = Some 0) /\ re_live e = Some live.

(** A run either ends without a command in its setup, or the guards hold and it goes on
    to measure. *)
Lemma one_run_cases seed seed_text chaos vecs queries distance e :
  let m := one_run norm exns seed seed_text chaos vecs queries distance e in
  (m.1 = [] /\ forall r, m.2 = Ok r -> rr_aborted r <> None) \/
  exists live, guards_hold e live /\ m = measure norm exns seed chaos vecs queries live e.
Proof.
  unfold one_run, aborted, at_point, guards_hold. cbn zeta.
  destruct (exns (AtSetup 0)); cbn [mbind act_bind fst snd app]; [by left|].
  destruct (re_membership e); cbn [negb mbind act_bind fst snd app mret act_ret]; [|by left; split; [|intros r [= <-]]].
  destruct (exns (AtSetup 1)); cbn [negb mbind act_bind fst snd app mret act_ret]; [by left|].
  destruct (re_create_status e =? 200)%Z eqn:Es; cbn [negb mbind act_bind fst snd app mret act_ret];
    [|by left; split; [|intros r [= <-]]].
  destruct (exns (AtSetup 2)); cbn [negb mbind act_bind fst snd app mret act_ret]; [by left|].
  destruct (re_verify e); cbn [negb orb mbind act_bind fst snd app mret act_ret]; [|by left; split; [|intros r [= <-]]].
  destruct (re_holders e =? 3) eqn:Eh; cbn [negb orb mbind act_bind fst snd app mret act_ret];
    [|by left; split; [|intros r [= <-]]].
  assert (re_count e = None \/ re_count e = Some 0 \/ exists n, re_count e = Some (S n)) as Hc
    by (destruct (re_count e) as [[|n]|]; eauto).
  destruct Hc as [Hc|[Hc|[n Hc]]]; rewrite Hc; [| |by left; split; [|intros r [= <-]]].
  all: destruct (exns (AtSetup 3)); cbn [mbind act_bind fst snd app mret act_ret]; [by left|].
  all: destruct (nonempty (shard_for_class _ _)); cbn [mbind act_bind fst snd app mret act_ret];
    [|by left; split; [|intros r [= <-]]].
  all: destruct (exns (AtSetup 4)); cbn [mbind act_bind fst snd app mret act_ret]; [by left|].
  all: destruct (nonempty (re_live e)) as [live|] eqn:El; [|by left; split; [|intros r [= <-]]].
  all: right; exists live; breflect; split; [split_and!; auto|by destruct (measure _ _ _ _ _ _ _ _)].
  all: unfold nonempty in El; destruct (re_live e) as [lv|]; [|done]; by case_bool_decide; simplify_eq.
Qed.

(** C30. A run measures nothing before its guards hold, and puts back what it took
    down. An exception may be raised at every point of the run, by any call or by the
    user. However the run ends: (1) if a node is left paused or stopped, it raised an
    exception that struck outside a [try] -- while the peers were being paused or
    unpaused, or between stopping and restarting the victim; any other exception, such
    as an unsupported distance or a failing probe inside a snapshot, leaves every node
    running, as does a run that returns; (2) a command of the divergence is given only
    if the cluster had full membership, the class was created and placed on three
    replicas with no known object in it, and the undisturbed replica scored at least
    the floor by the distance the class reports; (3) a run that returns unaborted had
    all that, and an aborted one gave no command of the divergence. *)
Theorem one_run_guarded seed seed_text chaos vecs queries distance e :
  let m := one_run norm exns seed seed_text chaos vecs queries distance e in
  (down_after ∅ m.1 <> ∅ -> exists p x, exns p = Some x /\ unprotected p /\ m.2 = Raise x) /\
  (forall c, c ∈ m.1 -> diverges seed c ->
     exists live before, guards_hold e live /\ baseline_passes seed vecs queries live e before) /\
  (forall r, m.2 = Ok r ->
     (rr_aborted r = None ->
        guards_hold e (rr_distance r) /\
        baseline_passes seed vecs queries (rr_distance r) e (rr_before r)) /\
     (rr_aborted r <> None -> forall c, c ∈ m.1 -> ~ diverges seed c)).
Proof.
  cbv zeta. destruct (one_run_cases seed seed_text chaos vecs queries distance e) as [[E Ha]|(live & Hg & ->)].
  - rewrite E. split_and!; [done|by intros c ?%not_elem_of_nil|].
    intros r Hr. split; [intros Hn; by destruct (Ha r Hr)|]. by intros _ c ?%not_elem_of_nil.
  - pose proof (measure_running seed chaos vecs queries live e) as Hrun. split_and!.
    + intros Hne. by destruct Hrun.
    + intros c Hc Hd. destruct (measure_calm seed chaos vecs queries live e) as [Hcalm|[before Hb]]; [|eauto].
      unfold calm in Hcalm. rewrite Forall_forall in Hcalm. by apply Hcalm in Hc.
    + intros r Hr. destruct (measure_result _ _ _ _ _ _ _ Hr) as (<- & Hn & Hab). split; [auto|].
      intros Ha. specialize (Hab Ha). unfold calm in Hab. by rewrite Forall_forall in Hab.
Qed.
End RunProps.

#[local] Transparent base_ids div_ids all_ids.

(** One base id held, one query about it, answered right before and after. *)
Definition demo_replies : probe_replies :=
  mkPR (Some {[10000000%Z]}) (fun _ => Some [Some 10000000%Z]).
Definition demo_env : run_env :=
  mkEnv true 200 true 3 (Some 0) [[("RrdV1Chaos", "abc")]]%string (Some "dot"%string)
    demo_replies demo_replies [mkSample 1 (Some 0) true; mkSample 30 (Some DIVERGENCE) true].

#[local] Notation demo_run exns :=
  (one_run (np := ref_numpy) (fun _ => 1%Q) exns 1 "1" true [[1%Q]] [[1%Q]] "cosine" demo_env).

(** A run interrupted while it writes what the stopped victim cannot see. *)
Definition at_write (p : point) : option exn :=
  match p with AtWriteDiv => Some (OtherError "KeyboardInterrupt") | _ => None end.

Lemma demo_run_ok : exists r, (demo_run (fun _ => None)).2 = Ok r /\ rr_aborted r = None.
Proof.
  assert (match (demo_run (fun _ => None)).2 with Ok r => rr_aborted r | Raise _ => Some NoShard end = None) as H
    by (vm_compute; reflexivity).
  destruct (demo_run (fun _ => None)).2 as [r|]; [|discriminate H]. by exists r.
Qed.

(** The victim is left stopped: no [finally] restarts it. *)
Lemma interrupted_write_leaves_down :
  down_after ∅ (demo_run at_write).1 = {[VICTIM]} /\
  (demo_run at_write).2 = Raise (OtherError "KeyboardInterrupt").
Proof. by vm_compute. Qed.

Lemma one_run_guarded_witness :
  (exists r, (demo_run (fun _ => None)).2 = Ok r /\ guards_hold demo_env (rr_distance r)) /\
  (exists p x, at_write p = Some x /\ unprotected p /\ (demo_run at_write).2 = Raise x).
Proof.
  split.
  - destruct demo_run_ok as (r & E & Ha). exists r. split; [exact E|].
    exact (proj1 (proj1 (proj2 (proj2 (one_run_guarded (np := ref_numpy) (fun _ => 1%Q) (fun _ => None)
      1 "1" true [[1%Q]] [[1%Q]] "cosine" demo_env)) r E) Ha)).
  - apply (proj1 (one_run_guarded (np := ref_numpy) (fun _ => 1%Q) at_write 1 "1" true [[1%Q]] [[1%Q]] "cosine"
      demo_env)). rewrite (proj1 interrupted_write_leaves_down). apply non_empty_singleton_L.
Defined.

(** ** Membership *)

(** The membership wait says yes only on a round, within the timeout, with enough
    healthy nodes, and answers once the timeout has passed. *)
Lemma wait_full_membership_spec expect t0 timeout_s rounds :
  (wait_full_membership expect t0 timeout_s rounds = Some true ->
     exists now healthy, (now, healthy) ∈ rounds /\ (now - t0 < timeout_s)%Q /\
       expect <= length (List.filter id healthy)) /\
  (forall now healthy, (now, healthy) ∈ rounds -> (timeout_s <= now - t0)%Q ->
     is_Some (wait_full_membership expect t0 timeout_s rounds)).
Proof.
  induction rounds as [|[now h] rounds [IH1 IH2]]; simpl.
  { split; [done|]. by intros now h ?%not_elem_of_nil. }
  destruct (Qltb (now - t0) timeout_s) eqn:E; qreflect.
  - destruct (expect <=? length (List.filter id h)) eqn:Eh; breflect.
    + split; [|eauto]. intros _. exists now, h. split; [by left|done].
    + split.
      * intros H. destruct (IH1 H) as (n' & h' & ? & ?). exists n', h'. split; [by right|done].
      * intros n' h' [[= -> ->]|Hin]%elem_of_cons Hd; [lra|eauto].
  - split; [done|eauto].
Qed.
