(* ===== verification/NanoRun.v ===== *)
(** * One nano-db experiment run

    [research/replica_recall/run_experiment.py]: the pinned and the held-out query sets
    ([make_queries], [make_loo_queries], [loo_pool_coverage]), the sampler's rounds over
    them, and [main]. NumPy's [Generator.choice] is a parameter; children, clocks and
    replies are inputs as in [ChaosHarness]. *)

From stdpp Require Import base list gmap strings sorting.
From Stdlib Require Import QArith Lqa ZArith Lia.
From S2P Require Import Prelude PyFloat Metrics Sampler ChaosHarness Analyze.

Local Open Scope nat_scope.

(** ** Query sets *)

(** [rng.choice(pool, size, replace=False)]; an integer argument [n] is [arange(n)]. *)
Definition chooser : Type := list nat -> nat -> list nat.

(** What NumPy documents: [size] distinct positions of the pool. *)
Definition chooses (c : chooser) : Prop :=
  forall pool size, NoDup pool -> size <= length pool ->
    NoDup (c pool size) /\ length (c pool size) = size /\ forall i, i ∈ c pool size -> i ∈ pool.

(** The writer's fields behind the query sets. *)
Record qstate := mkQS {
  q_nonpinned : bool;                (* loo_query_mode == "nonpinned" *)
  q_pool_size : nat;                 (* loo_pool_size *)
  q_pool_idx : option (list nat);    (* _loo_pool_idx *)
  q_draw_count : nat;
  q_seen : gset nat;
}.

Definition q_init (nonpinned : bool) (pool_size : nat) : qstate :=
  mkQS nonpinned pool_size None 0 ∅.

Definition rows_at (pool : list vec) (idx : list nat) : list vec := (fun i => nth i pool []) <$> idx.

(** [sift_queries] is [None] for the generated distributions, whose queries are [gen]. *)
Definition make_queries (sift_queries : option (list vec)) (pick1 pick2 : chooser)
    (gen : nat -> list vec) (n : nat) (q : qstate) : result (list vec * qstate) :=
  match sift_queries with
  | Some pool =>
      let need := n + (if q_nonpinned q then q_pool_size q else 0) in
      if length pool <? need then Raise ValueError
      else
        let pick := pick1 (seq 0 (length pool)) n in
        let q' :=
          if q_nonpinned q then
            let remaining := List.filter (fun i => negb (bool_decide (i ∈ pick)))
                               (seq 0 (length pool)) in
            mkQS true (q_pool_size q) (Some (pick2 remaining (q_pool_size q)))
              (q_draw_count q) (q_seen q)
          else q in
        Ok (rows_at pool (sorted Nat.leb pick), q')
  | None => Ok (gen n, q)
  end.

Definition make_loo_queries (sift_queries : option (list vec)) (pick : chooser)
    (gen : nat -> list vec) (n : nat) (q : qstate) : result (list vec * qstate) :=
  if negb (q_nonpinned q) then Raise RuntimeError
  else
    match sift_queries with
    | Some pool =>
        match q_pool_idx q with
        | None => Raise RuntimeError
        | Some pool_idx =>
            if length pool_idx <? n then Raise ValueError
            else
              let drawn := (fun i => nth i pool_idx 0) <$> pick (seq 0 (length pool_idx)) n in
              Ok (rows_at pool drawn,
                  mkQS true (q_pool_size q) (Some pool_idx) (S (q_draw_count q))
                    (q_seen q ∪ list_to_set drawn))
        end
    | None =>
        Ok (gen n, mkQS true (q_pool_size q) (q_pool_idx q) (S (q_draw_count q)) (q_seen q))
    end.

Record coverage := mkCov {
  cv_pool_size : nat; cv_draw_rounds : nat; cv_unique_drawn : nat; cv_coverage : float }.

Definition loo_pool_coverage (q : qstate) : option coverage :=
  match q_pool_idx q with
  | None => None
  | Some idx =>
      Some (mkCov (length idx) (q_draw_count q) (size (q_seen q))
              (if Nat.eqb (length idx) 0 then nan else fin (qratio (size (q_seen q)) (length idx))))
  end.

(** ** The sampler's rounds *)

(** A round draws its queries first, when a count is given; a draw that raises costs the
    round, not the run. [sweep] is [sample_once] on the queries drawn. *)
Fixpoint sampler_rounds (sift_queries : option (list vec)) (loo_n : option nat)
    (rounds : list (chooser * (nat -> list vec) * (option (list vec) -> result (list row))))
    (q : qstate) : list row * list exn * qstate :=
  match rounds with
  | [] => ([], [], q)
  | (pick, gen, sweep) :: rest =>
      let '(out, q1) :=
        match loo_n with
        | None => (sweep None, q)
        | Some n =>
            match make_loo_queries sift_queries pick gen n q with
            | Raise e => (Raise e, q)
            | Ok (qs, q1) => (sweep (Some qs), q1)
            end
        end in
      let '(rows, errs, q2) := sampler_rounds sift_queries loo_n rest q1 in
      match out with
      | Ok rs => (rs ++ rows, errs, q2)
      | Raise e => (rows, e :: errs, q2)
      end
  end.

(** ** [main] *)

Record rr_args := mkRA {
  rr_no_chaos : bool;
  rr_chaos_duration : option Q;
  rr_duration : Q;
  rr_pre_chaos_s : Q;
  rr_nonpinned : bool;
  rr_dist_sift : bool;
  rr_queries : nat;
  rr_loo_queries : option nat;
  rr_loo_pool_size : nat;
}.

Definition loo_n_of (a : rr_args) : nat := default (rr_queries a) (rr_loo_queries a).

(** The checks before anything is started. *)
Definition rr_check_args (a : rr_args) : bool :=
  if match rr_chaos_duration a with Some _ => rr_no_chaos a | None => false end then false
  else if rr_nonpinned a && rr_dist_sift a then
    if rr_loo_pool_size a <? loo_n_of a then false
    else negb (10000 <? rr_queries a + rr_loo_pool_size a)
  else true.

Definition loo_queries_n (a : rr_args) : option nat :=
  if rr_nonpinned a then Some (loo_n_of a) else None.

(** What the run meets. [ri_interrupt] is the phase (0, 1, 2) a Ctrl-C arrives in. *)
Record rr_in := mkRI {
  ri_bins_exist : bool;
  ri_sift_queries : option (list vec);
  ri_pick1 : chooser;
  ri_pick2 : chooser;
  ri_gen : nat -> list vec;
  ri_run_dir : string;
  ri_up : string -> bool;
  ri_ready_deadline : Q;
  ri_ready : list (wround unit);
  ri_leader_deadline : Q;
  ri_leader : list (wround string);
  ri_chaos : list chaos_in;
  ri_interrupt : option nat;
  ri_up_again : string -> bool;
  ri_clock_start : Q;               (* chaos_start_rel when it is taken *)
  ri_clock_stop : Q;                (* chaos_stop_rel when it is taken *)
  ri_reaped : string -> bool;
}.

(** The fields of [run_meta.json] that the healing report reads. *)
Record rr_meta := mkRM {
  rm_quiesce : bool;
  rm_chaos_start_rel : option Q;
  rm_chaos_stop_rel : option Q;
  rm_chaos_events : nat;
}.

Record rr_out := mkRO {
  ro_exit : nat;
  ro_procs : list (string * mproc);
  ro_meta : option rr_meta;          (* written with samples.csv and events.json *)
}.

(** How the timed phases end: an early [return 1], or the processes, the events and the
    two chaos times. *)
Inductive phases_end : Type :=
| NoQuiesceWindow
| Finished (procs : list (string * mproc)) (events : list chaos_event) (start stop : option Q).

Definition rr_phases (a : rr_args) (i : rr_in) (procs : list (string * mproc))
    : option phases_end :=
  let hit n := match ri_interrupt i with Some m => Nat.eqb m n | None => false end in
  if rr_no_chaos a then Some (Finished procs [] None None)
  else
    match rr_chaos_duration a with
    | None =>
        match chaos_loop (ri_chaos i) procs [] with
        | Raise _ => None
        | Ok (procs, events) =>
            let stop := if hit 0 then None else Some (round_nd 3 (ri_clock_stop i)) in
            Some (Finished procs events (Some (round_nd 3 (ri_clock_start i))) stop)
        end
    | Some cd =>
        if Qle_bool (rr_duration a - rr_pre_chaos_s a - cd) 0 then Some NoQuiesceWindow
        else if hit 0 then Some (Finished procs [] None None)
        else
          match chaos_loop (ri_chaos i) procs [] with
          | Raise _ => None
          | Ok (procs, events) =>
              let start := Some (round_nd 3 (ri_clock_start i)) in
              if hit 1 then Some (Finished procs events start None)
              else Some (Finished (revive procs (ri_up_again i)) events start
                           (Some (round_nd 3 (ri_clock_stop i))))
          end
    end.

(** [main]; [None]: the inputs are not those of a complete run. *)
Definition rr_main (a : rr_args) (i : rr_in) : option (result rr_out) :=
  if negb (rr_check_args a) then Some (Ok (mkRO 1 [] None))
  else if negb (ri_bins_exist i) then Some (Ok (mkRO 1 [] None))
  else
    match make_queries (ri_sift_queries i) (ri_pick1 i) (ri_pick2 i) (ri_gen i) (rr_queries a)
            (q_init (rr_nonpinned a) (rr_loo_pool_size a)) with
    | Raise e => Some (Raise e)
    | Ok _ =>
        let procs := build_processes (ri_run_dir i) in
        let shard_names := List.filter (String.prefix "shard-") (dkeys procs) in
        let coord_names := List.filter (String.prefix "coordinator-") (dkeys procs) in
        let node_ids := seq 0 NUM_COORDINATORS in
        let '(procs, ok) := start_all shard_names (ri_up i) procs in
        if negb ok then Some (Ok (mkRO 1 procs None))
        else
          let '(procs, ok) := start_all coord_names (ri_up i) procs in
          if negb ok then Some (Ok (mkRO 1 procs None))
          else
            ready ← wait_for_coordinators_ready (ri_ready_deadline i) (ri_ready i) node_ids;
            if negb ready then Some (Ok (mkRO 1 (kill_all (ri_reaped i) procs) None))
            else
              leader ← wait_for_raft_leader (ri_leader_deadline i) (ri_leader i) node_ids;
              match leader with
              | None => Some (Ok (mkRO 1 (kill_all (ri_reaped i) procs) None))
              | Some _ =>
                  ph ← rr_phases a i procs;
                  match ph with
                  | NoQuiesceWindow => Some (Ok (mkRO 1 (kill_all (ri_reaped i) procs) None))
                  | Finished procs events start stop =>
                      Some (Ok (mkRO 0 (kill_all (ri_reaped i) procs)
                        (Some (mkRM (match rr_chaos_duration a with Some _ => true | None => false end)
                                 start stop (length events)))))
                  end
              end
    end.

(** ** The held-out pool *)

(** The pool reserved by [make_queries]: distinct positions of the query file, none of
    them in the pinned set; what has been drawn comes from it. *)
Record pool_inv (len ps : nat) (pinned : list nat) (q : qstate) : Prop := {
  pi_mode : q_nonpinned q = true;
  pi_pool : exists idx, q_pool_idx q = Some idx /\ NoDup idx /\ length idx = ps /\
              (forall i, i ∈ idx -> i < len /\ i ∉ pinned) /\
              (forall i, i ∈ q_seen q -> i ∈ idx);
}.

Lemma remaining_length (l pick : list nat) :
  NoDup l -> NoDup pick -> (forall i, i ∈ pick -> i ∈ l) ->
  length (List.filter (fun i => negb (bool_decide (i ∈ pick))) l) = length l - length pick.
Proof.
  intros Hl Hp Hin.
  assert (length (List.filter (fun i => bool_decide (i ∈ pick)) l) = length pick) as Heq.
  { apply Permutation_length, NoDup_Permutation; [|done|].
    - apply NoDup_ListNoDup, List.NoDup_filter, NoDup_ListNoDup, Hl.
    - intros i. rewrite elem_of_bfilter, bool_decide_eq_true. naive_solver. }
  rewrite <- Heq. pose proof (filter_length (fun i => bool_decide (i ∈ pick)) l). lia.
Qed.

Lemma make_queries_reserves pool pick1 pick2 gen n ps :
  chooses pick1 -> chooses pick2 -> n + ps <= length pool ->
  exists q, make_queries (Some pool) pick1 pick2 gen n (q_init true ps) =
      Ok (rows_at pool (sorted Nat.leb (pick1 (seq 0 (length pool)) n)), q) /\
    q_seen q = ∅ /\ q_draw_count q = 0 /\
    pool_inv (length pool) ps (pick1 (seq 0 (length pool)) n) q.
Proof.
  intros H1 H2 Hn. unfold make_queries. simpl.
  destruct (length pool <? n + ps) eqn:E; breflect; [lia|]. eexists. split; [done|].
  destruct (H1 (seq 0 (length pool)) n) as (N1 & L1 & I1);
    [apply NoDup_seq|rewrite length_seq; lia|].
  set (pick := pick1 _ n) in *.
  set (remaining := List.filter _ _).
  assert (length remaining = length pool - n) as Lr.
  { unfold remaining. rewrite remaining_length, length_seq, L1; auto using NoDup_seq. }
  assert (NoDup remaining) as Nr
    by (apply NoDup_ListNoDup, List.NoDup_filter, NoDup_ListNoDup, NoDup_seq).
  destruct (H2 remaining ps Nr) as (N2 & L2 & I2); [lia|]. split_and!.
  - done.
  - done.
  - split; [done|]. exists (pick2 remaining ps). split_and!; [done..| |].
    + intros i Hi. apply I2, elem_of_bfilter in Hi as [Hi Hni]. apply elem_of_seq in Hi.
      breflect. split; [lia|done].
    + intros i Hi. by apply elem_of_empty in Hi.
Qed.

(** Queries a round may be scored on: [m] distinct positions of the file, none pinned. *)
Record held_out (len m : nat) (pinned drawn : list nat) : Prop := {
  ho_NoDup : NoDup drawn;
  ho_length : length drawn = m;
  ho_range : forall i, i ∈ drawn -> i < len /\ i ∉ pinned;
}.

Lemma make_loo_queries_step pool pick gen m len ps pinned q :
  chooses pick -> m <= ps -> pool_inv len ps pinned q ->
  exists drawn q', make_loo_queries (Some pool) pick gen m q = Ok (rows_at pool drawn, q') /\
    held_out len m pinned drawn /\ q_seen q' = q_seen q ∪ list_to_set drawn /\
    pool_inv len ps pinned q' /\ q_draw_count q' = S (q_draw_count q).
Proof.
  intros Hc Hm [Hmode (idx & Hidx & Nd & Hl & Hin & Hseen)]. unfold make_loo_queries.
  rewrite Hmode, Hidx. simpl. destruct (length idx <? m) eqn:E; breflect; [lia|].
  destruct (Hc (seq 0 (length idx)) m) as (N1 & L1 & I1); [apply NoDup_seq|rewrite length_seq; lia|].
  set (picks := pick _ _) in *. set (drawn := (fun i => nth i idx 0) <$> picks).
  assert (forall j, j ∈ picks -> idx !! j = Some (nth j idx 0)) as Hn.
  { intros j Hj. apply I1, elem_of_seq in Hj.
    destruct (nth_lookup_or_length idx j 0) as [|]; [done|lia]. }
  assert (forall i, i ∈ drawn -> i ∈ idx) as Hd.
  { intros i (j & -> & Hj)%list_elem_of_fmap. eapply list_elem_of_lookup_2, Hn, Hj. }
  exists drawn. eexists. split; [done|]. split_and!; [|done| |done].
  - split; [|unfold drawn; by rewrite length_fmap|intros i Hi; apply Hin, Hd, Hi].
    apply NoDup_fmap_2_strong; [|done]. intros x y Hx Hy E1. simpl in E1. apply Hn in Hx, Hy. rewrite E1 in Hx.
    exact (NoDup_lookup idx _ _ _ Nd Hx Hy).
  - split; [done|]. exists idx. split_and!; [done..|]. simpl.
    intros i [Hi|Hi%elem_of_list_to_set]%elem_of_union; auto.
Qed.

(** What the sweeps of the rounds return on the queries at the drawn positions; the rows
    of those that returned, and what the others raised. *)
Definition round_outcomes (pool : list vec)
    (rounds : list (chooser * (nat -> list vec) * (option (list vec) -> result (list row))))
    (draws : list (list nat)) : list (result (list row)) :=
  zip_with (fun r drawn => r.2 (Some (rows_at pool drawn))) rounds draws.

Definition returned_rows (outs : list (result (list row))) : list row :=
  concat (omap (fun o => match o with Ok rs => Some rs | Raise _ => None end) outs).

Definition raised_errs (outs : list (result (list row))) : list exn :=
  omap (fun o => match o with Ok _ => None | Raise e => Some e end) outs.

(** Every round draws, whatever its sweep does, and its sweep is given the drawn
    queries. *)
Lemma sampler_rounds_inv pool m rounds len ps pinned q :
  Forall (fun r => chooses r.1.1) rounds -> m <= ps -> pool_inv len ps pinned q ->
  exists draws q',
    length draws = length rounds /\ Forall (held_out len m pinned) draws /\
    sampler_rounds (Some pool) (Some m) rounds q =
      (returned_rows (round_outcomes pool rounds draws),
       raised_errs (round_outcomes pool rounds draws), q') /\
    q_seen q' = q_seen q ∪ list_to_set (concat draws) /\
    pool_inv len ps pinned q' /\ q_draw_count q' = q_draw_count q + length rounds.
Proof.
  intros Hc Hm. revert q. induction Hc as [|[[pick gen] sweep] rounds Hp _ IH]; intros q Hi.
  { exists [], q. split_and!; [done|constructor|done|simpl; set_solver|done|simpl; lia]. }
  destruct (make_loo_queries_step pool pick gen m len ps pinned q Hp Hm Hi)
    as (drawn & q1 & E1 & Hho & Hs1 & Hi1 & Hd1).
  destruct (IH q1 Hi1) as (draws & q2 & Hl & Hf & E2 & Hs2 & Hi2 & Hd2).
  exists (drawn :: draws), q2. split_and!; [simpl; lia|by constructor| | |done|simpl; lia].
  - cbn [sampler_rounds]. rewrite E1, E2. unfold round_outcomes, returned_rows, raised_errs.
    cbn [zip_with snd]. destruct (sweep (Some (rows_at pool drawn))) as [rs|e]; done.
  - rewrite Hs2, Hs1. simpl. rewrite list_to_set_app_L. set_solver.
Qed.

(** C13. Agreement is scored on held-out queries. When the pinned and reserved sets fit in
    the query file, [make_queries] pins the rows at [n] positions and reserves a pool;
    then in any number of sampler rounds there are, for each round, [m] distinct
    positions of the file, none of them pinned, such that the sweep of that round is
    given exactly the rows at these positions: the rows recorded are those of the sweeps
    that returned on them, and a round is lost only if its own sweep raised. The coverage
    report counts every round and the distinct positions drawn, and its ratio is a
    proportion. *)
Theorem loo_queries_held_out pool pick1 pick2 gen n m ps rounds :
  chooses pick1 -> chooses pick2 -> Forall (fun r => chooses r.1.1) rounds ->
  n + ps <= length pool -> m <= ps ->
  exists pinned q draws q',
    make_queries (Some pool) pick1 pick2 gen n (q_init true ps) = Ok (rows_at pool pinned, q) /\
    NoDup pinned /\ length pinned = n /\ (forall i, i ∈ pinned -> i < length pool) /\
    length draws = length rounds /\ Forall (held_out (length pool) m pinned) draws /\
    sampler_rounds (Some pool) (Some m) rounds q =
      (returned_rows (round_outcomes pool rounds draws),
       raised_errs (round_outcomes pool rounds draws), q') /\
    exists c, loo_pool_coverage q' = Some c /\ cv_pool_size c = ps /\
      cv_draw_rounds c = length rounds /\
      cv_unique_drawn c = size (list_to_set (concat draws) : gset nat) /\
      unit_or_nan (cv_coverage c).
Proof.
  intros H1 H2 Hr Hn Hm.
  destruct (make_queries_reserves pool pick1 pick2 gen n ps H1 H2 Hn) as (q & -> & Hs & Hd & Hi).
  destruct (H1 (seq 0 (length pool)) n) as (N1 & L1 & I1); [apply NoDup_seq|rewrite length_seq; lia|].
  destruct (sampler_rounds_inv pool m rounds _ _ _ q Hr Hm Hi)
    as (draws & q' & Hl & Hf & E & Hs' & [_ (idx & Hidx & Nd & Hlen & Hin & Hseen)] & Hd').
  exists (sorted Nat.leb (pick1 (seq 0 (length pool)) n)), q, draws, q'. split_and!; [done| | | |done| |done|].
  - by apply sorted_NoDup.
  - by rewrite sorted_length.
  - intros i Hi'. apply elem_of_sorted, I1, elem_of_seq in Hi'. lia.
  - eapply Forall_impl; [exact Hf|]. intros d [? ? Hrg]. split; [done..|]. intros i Hi'.
    rewrite elem_of_sorted. auto.
  - unfold loo_pool_coverage. rewrite Hidx.
    assert (q_seen q' = list_to_set (concat draws)) as Hq by (rewrite Hs', Hs; set_solver).
    assert (size (q_seen q') <= length idx) as Hsz.
    { rewrite <- (size_list_to_set (C := gset nat) idx Nd). apply subseteq_size.
      intros i Hi'. apply elem_of_list_to_set. auto. }
    eexists. split; [done|]. simpl. split_and!; [done|lia|by rewrite Hq|].
    destruct (length idx =? 0) eqn:E0; breflect; [done|]. simpl.
    split; [apply qratio_nonneg|apply qratio_le_1; lia].
Qed.

(** A chooser: the first positions. *)
Definition first_ones : chooser := fun pool size => take size pool.

Lemma first_ones_chooses : chooses first_ones.
Proof.
  intros pool size Nd Hs. unfold first_ones. split_and!.
  - by apply NoDup_take.
  - rewrite length_take. lia.
  - intros i Hi. rewrite <- (take_drop size pool). apply elem_of_app. by left.
Qed.

Definition demo_round : chooser * (nat -> list vec) * (option (list vec) -> result (list row)) :=
  (first_ones, fun _ => [], fun _ => Ok []).

Lemma loo_queries_held_out_witness :
  exists q draws q', length draws = 2 /\ Forall (held_out 4 2 [0]) draws /\
    make_queries (Some [[0]; [1]; [2]; [3]]%Q) first_ones first_ones (fun _ => []) 1 (q_init true 3)
      = Ok ([[0]]%Q, q) /\
    sampler_rounds (Some [[0]; [1]; [2]; [3]]%Q) (Some 2) [demo_round; demo_round] q = ([], [], q').
Proof.
  assert (Forall (fun r : chooser * (nat -> list vec) * (option (list vec) -> result (list row)) =>
            chooses r.1.1) [demo_round; demo_round]) as Hin
    by (repeat (apply Forall_cons; split; [apply first_ones_chooses|]); apply Forall_nil; done).
  destruct (loo_queries_held_out [[0]; [1]; [2]; [3]]%Q first_ones first_ones (fun _ => []) 1 2 3
    [demo_round; demo_round] first_ones_chooses first_ones_chooses Hin ltac:(simpl; lia) ltac:(lia))
    as (pinned & q & draws & q' & Hq & Nd & Hp & Hpr & Hl & Hf & Hs & _).
  destruct pinned as [|p0 [|p1 pinned]]; try discriminate Hp.
  assert (p0 = 0) as ->.
  { pose proof (Hpr p0 ltac:(by left)) as Hp0. simpl in Hp0.
    destruct p0 as [|[|[|[|p0]]]]; [done|..|lia]; exfalso; vm_compute in Hq; discriminate Hq. }
  exists q, draws, q'. split; [done|]. split; [exact Hf|]. split; [exact Hq|].
  rewrite Hs. destruct draws as [|d1 [|d2 [|]]]; done.
Defined.

(** The argument checks of [main] are enough: with the 10,000 queries SIFT ships, a
    non-pinned run that passed them never raises in [make_queries], and no sampler round
    is lost to a draw. *)
Theorem rr_check_args_sound a pool pick1 pick2 gen rounds :
  rr_check_args a = true -> rr_nonpinned a = true -> rr_dist_sift a = true ->
  length pool = 10000 -> chooses pick1 -> chooses pick2 ->
  Forall (fun r => chooses r.1.1) rounds ->
  exists qs q m, loo_queries_n a = Some m /\
    make_queries (Some pool) pick1 pick2 gen (rr_queries a)
      (q_init (rr_nonpinned a) (rr_loo_pool_size a)) = Ok (qs, q) /\
    (Forall (fun r => forall drawn, exists rs, r.2 drawn = Ok rs) rounds ->
       (sampler_rounds (Some pool) (loo_queries_n a) rounds q).1.2 = []).
Proof.
  intros Hc Hnp Hs Hl H1 H2 Hr. unfold rr_check_args in Hc. rewrite Hnp, Hs in Hc. cbn [andb] in Hc.
  destruct (match rr_chaos_duration a with Some _ => _ | None => _ end); [done|].
  destruct (_ <? loo_n_of a) eqn:E1; [done|]. breflect.
  destruct (make_queries_reserves pool pick1 pick2 gen (rr_queries a) (rr_loo_pool_size a) H1 H2)
    as (q & Hq & _ & _ & Hi); [rewrite Hl; exact Hc|].
  unfold loo_queries_n. rewrite Hnp. eexists _, q, (loo_n_of a). split_and!; [done..|].
  intros Hok. destruct (sampler_rounds_inv pool (loo_n_of a) rounds _ _ _ q Hr E1 Hi)
    as (draws & q' & _ & _ & -> & _). simpl. clear - Hok. unfold raised_errs, round_outcomes.
  revert draws. induction Hok as [|r rounds Hx _ IH]; intros [|d draws]; try done.
  cbn [zip_with omap list_omap]. destruct (Hx (Some (rows_at pool d))) as [rs ->]. apply IH.
Qed.

Definition demo_ra : rr_args := mkRA false (Some 60%Q) 180 30 true true 100 None 3000.

Lemma rr_check_args_sound_witness :
  exists qs q m, loo_queries_n demo_ra = Some m /\
    make_queries (Some (replicate 10000 [])) first_ones first_ones (fun _ => []) 100
      (q_init true 3000) = Ok (qs, q) /\
    (Forall (fun r => forall drawn, exists rs, r.2 drawn = Ok rs) [demo_round] ->
       (sampler_rounds (Some (replicate 10000 [])) (loo_queries_n demo_ra) [demo_round] q).1.2 = []).
Proof.
  apply (rr_check_args_sound demo_ra (replicate 10000 []) first_ones first_ones (fun _ => [])
    [demo_round]); [reflexivity|reflexivity|reflexivity|apply length_replicate|
    apply first_ones_chooses|apply first_ones_chooses|apply Forall_singleton, first_ones_chooses].
Defined.

(** ** How a run ends *)

(** A start that failed: the one way out that does not reach a tear-down. *)
Definition start_failed (i : rr_in) : Prop :=
  let procs := build_processes (ri_run_dir i) in
  let shard_names := List.filter (String.prefix "shard-") (dkeys procs) in
  let coord_names := List.filter (String.prefix "coordinator-") (dkeys procs) in
  (start_all shard_names (ri_up i) procs).2 = false \/
  (start_all coord_names (ri_up i) (start_all shard_names (ri_up i) procs).1).2 = false.

Lemma heal_stats_window rows t0 t1 : is_Some (heal_stats rows true (Some t0, Some t1)).
Proof. unfold heal_stats. simpl. repeat case_match; eauto. Qed.

(** A quiesce run that is neither refused nor interrupted records both chaos times. *)
Lemma rr_phases_window a i procs procs' events start stop :
  rr_phases a i procs = Some (Finished procs' events start stop) ->
  is_Some (rr_chaos_duration a) -> ri_interrupt i = None -> rr_no_chaos a = false ->
  is_Some start /\ is_Some stop.
Proof.
  unfold rr_phases. intros H [cd Hcd] Hi Hn. rewrite Hn, Hcd, Hi in H.
  destruct (Qle_bool _ 0); [done|]. destruct (chaos_loop _ _ _) as [[p ev]|]; [|done].
  simplify_eq/=. eauto.
Qed.

(** The property of an early exit: status 1, nothing written, children gone or never there. *)
Local Ltac stopped H :=
  simplify_eq/=; split_and!;
    [split; [done|by intros [??]]|by right| |by intros].

(** A run that gets as far as its phases always tears its children down: when every
    kill is reaped, no process outlives [main] unless one failed to start. Results are
    written exactly when it returns 0. A quiesce run that was not interrupted then
    carries both chaos times, so [heal_stats] has a window to judge; a run without a
    quiesce window never gets a healing verdict. *)
Theorem rr_main_exit a i o :
  rr_main a i = Some (Ok o) ->
  (ro_exit o = 0 <-> is_Some (ro_meta o)) /\ (ro_exit o = 0 \/ ro_exit o = 1) /\
  (start_failed i \/ ((forall n, ri_reaped i n = true) ->
     forall np, np ∈ ro_procs o -> mp_is_alive np.2 = false)) /\
  (forall m rows, ro_meta o = Some m ->
     (rr_chaos_duration a = None ->
        heal_stats rows (rm_quiesce m) (rm_chaos_start_rel m, rm_chaos_stop_rel m) = None) /\
     (is_Some (rr_chaos_duration a) -> ri_interrupt i = None -> rr_no_chaos a = false ->
        is_Some (heal_stats rows (rm_quiesce m) (rm_chaos_start_rel m, rm_chaos_stop_rel m)))).
Proof.
  unfold rr_main. intros H.
  destruct (rr_check_args a); cbn [negb] in H; [|stopped H; right; by intros ? ? ?%not_elem_of_nil].
  destruct (ri_bins_exist i); cbn [negb] in H; [|stopped H; right; by intros ? ? ?%not_elem_of_nil].
  destruct (make_queries _ _ _ _ _ _) as [?|]; [|by simplify_eq]. cbv zeta in H.
  unfold start_failed. cbv zeta.
  destruct (start_all _ (ri_up i) (build_processes _)) as [p1 []]; cbn [negb] in H;
    [|stopped H; left; by left].
  destruct (start_all _ (ri_up i) p1) as [p2 []] eqn:E2; cbn [negb] in H;
    [|stopped H; left; right; cbn [fst]; by rewrite E2].
  apply bind_Some in H as ([] & _ & H); cbn [negb] in H;
    [|stopped H; right; intros; eapply kill_all_dead; eauto].
  apply bind_Some in H as ([leader|] & _ & H);
    [|stopped H; right; intros; eapply kill_all_dead; eauto].
  apply bind_Some in H as ([|p3 ev start stop] & Hph & H);
    [stopped H; right; intros; eapply kill_all_dead; eauto|].
  simplify_eq/=. split_and!; [split; eauto|by left|right; intros; eapply kill_all_dead; eauto|].
  intros m rows [= <-]. simpl. split; [by intros ->|]. intros [cd Hcd] Hi Hn.
  destruct (rr_phases_window _ _ _ _ _ _ _ Hph (ex_intro _ cd Hcd) Hi Hn) as [[t0 ->] [t1 ->]].
  rewrite Hcd. apply heal_stats_window.
Qed.

(** A quiesce run of 180 s: both waits succeed at once, two children are killed, the
    second is still down when the chaos stops. *)
Definition demo_ri : rr_in := {|
  ri_bins_exist := true; ri_sift_queries := None; ri_pick1 := first_ones; ri_pick2 := first_ones;
  ri_gen := fun _ => []; ri_run_dir := "run"; ri_up := fun _ => true;
  ri_ready_deadline := 20; ri_ready := [mkRound 0 (fun _ => HttpResp 200%Z tt);
                                        mkRound 1 (fun _ => HttpExn)];
  ri_leader_deadline := 15; ri_leader := [mkRound 0 (fun _ => HttpResp 200%Z "leader"%string)];
  ri_chaos := demo_chaos; ri_interrupt := None; ri_up_again := fun _ => true;
  ri_clock_start := 45; ri_clock_stop := 105; ri_reaped := fun _ => true |}.

Lemma rr_main_exit_witness :
  exists o m, rr_main demo_ra demo_ri = Some (Ok o) /\ ro_exit o = 0 /\ ro_meta o = Some m /\
    is_Some (heal_stats [] (rm_quiesce m) (rm_chaos_start_rel m, rm_chaos_stop_rel m)).
Proof.
  eexists _, _. split; [vm_compute; reflexivity|]. split; [reflexivity|]. split; [reflexivity|].
  match goal with |- is_Some (heal_stats _ (rm_quiesce ?m) _) =>
    match goal with |- _ =>
      refine (proj2 (proj2 (proj2 (proj2 (rr_main_exit demo_ra demo_ri
        (mkRO 0 _ (Some m)) _))) m [] eq_refl) _ eq_refl eq_refl) end end;
    [vm_compute; reflexivity|by eexists].
Defined.
