(* ===== verification/ForensicsRun.v ===== *)
(** * Paired forensics

    [research/replica_recall/graph_forensics.py], [link_quality] and [main], and
    [research/replica_recall/forensics_experiment.py]: the baseline and chaos runs whose
    index files are dissected, and the report that compares them. A run's directory is
    the list of its entries; what a child process leaves there is an input. *)

From stdpp Require Import base list gmap strings pretty sorting.
From Stdlib Require Import Ascii QArith Qabs Lqa ZArith Lia.
From S2P Require Import Prelude PyFloat Rounding Metrics ChaosHarness Forensics Sift NanoRun.

Local Open Scope nat_scope.

(** ** [link_quality] *)

(** *** [float32] values with infinities and NaN *)

(** A result rounded to [float32]; from [2^128] on it is an infinity. *)
Definition to_f32v (q : Q) : f32v :=
  if Qle_bool (pow2 128) (Qabs (f32 q)) then F32Inf (Qltb q 0) else F32 (f32 q).

(** [2.0 * x] *)
Definition f32v_double (x : f32v) : f32v := match x with F32 q => to_f32v (2 * q) | _ => x end.

(** [x - y] *)
Definition f32v_sub (x y : f32v) : f32v :=
  match x, y with
  | F32Nan, _ | _, F32Nan => F32Nan
  | F32Inf a, F32Inf b => if Bool.eqb a b then F32Nan else F32Inf a
  | F32Inf a, F32 _ => F32Inf a
  | F32 _, F32Inf b => F32Inf (negb b)
  | F32 a, F32 b => to_f32v (a - b)
  end.

(** The order NumPy sorts by: NaN last. *)
Definition f32v_leb (x y : f32v) : bool :=
  match x, y with
  | _, F32Nan => true
  | F32Nan, _ => false
  | _, F32Inf false | F32Inf true, _ => true
  | F32Inf false, _ | _, F32Inf true => false
  | F32 a, F32 b => Qle_bool a b
  end.

Definition xnth (d : list f32v) (i : nat) : f32v := nth i d F32Nan.

(** [np.argpartition], [np.einsum("ij,ij->i", v, v)] and [a @ b.T] on [float32] arrays. *)
Class NumpyPart := {
  argpartition_f32 : list f32v -> nat -> list nat;
  einsum_sq : list (list f32v) -> list f32v;
  matmul_f32 : list (list f32v) -> list (list f32v) -> list (list f32v);
}.

Class NumpyPartLaws (np : NumpyPart) : Prop := {
  argpartition_f32_perm : forall d kth,
    kth < length d -> argpartition_f32 d kth ≡ₚ seq 0 (length d);
  argpartition_f32_split : forall d kth i j a b,
    kth < length d -> i <= kth -> kth <= j ->
    argpartition_f32 d kth !! i = Some a -> argpartition_f32 d kth !! j = Some b ->
    f32v_leb (xnth d a) (xnth d b) = true;
  einsum_length : forall m, length (einsum_sq m) = length m;
  einsum_value : forall m i v,
    m !! i = Some (F32 <$> v) -> in_f32_range (zip v v) ->
    exists s, einsum_sq m !! i = Some (F32 s) /\ f32_sum (zip v v) s;
  matmul_f32_length : forall a b, length (matmul_f32 a b) = length a;
  matmul_f32_row_length : forall a b i r, matmul_f32 a b !! i = Some r -> length r = length b;
  matmul_f32_value : forall a b i j r q v,
    matmul_f32 a b !! i = Some r -> a !! i = Some (F32 <$> q) -> b !! j = Some (F32 <$> v) ->
    length q = length v -> in_f32_range (zip q v) ->
    exists x, r !! j = Some (F32 x) /\ f32_sum (zip q v) x;
}.

Record lq := mkLQ {
  lq_mean : Q;
  lq_p5 : Q;
  lq_zero : nat;
  lq_n : nat;
}.

Section LinkQuality.
Context {np : NumpyPart}.
Context (vecs : list (list f32v)) (nodes : list node) (m : nat).

(** [nbrs[r, :counts[r]]] *)
Definition stored (r : nat) : list Z :=
  match nodes !! r with
  | Some nd => take (deg0 nd) (nth 0 (n_neighbors nd) [])
  | None => []
  end.

(** One row of [d], with [d[j, r] = np.inf]. *)
Definition lq_row (r : nat) (sq prods : list f32v) : list f32v :=
  imap (fun j s => if Nat.eqb j r then F32Inf false else s)
    (zip_with (fun s p => f32v_sub s (f32v_double p)) sq prods).

Definition lq_top (d : list f32v) : list nat := take m (argpartition_f32 d m).

(** For [m >= 1]. *)
Definition lq_score (r : nat) (top : list nat) : Q :=
  if Nat.eqb (length (stored r)) 0 then 0%Q
  else qratio (count (fun t => bool_decide (Z.of_nat t ∈ stored r)) top) m.

(** The body of the loop over batches, for the batch [rows]. *)
Definition lq_batch (sq : list f32v) (rows : list nat) : list Q :=
  let q := (fun r => nth r vecs []) <$> rows in
  zip_with (fun r prods => lq_score r (lq_top (lq_row r sq prods))) rows (matmul_f32 q vecs).

(** [for s in range(0, len(idx), batch)] *)
Fixpoint lq_batches (sq : list f32v) (batch fuel : nat) (idx : list nat) : list Q :=
  match fuel, idx with
  | S fuel', _ :: _ => lq_batch sq (take batch idx) ++ lq_batches sq batch fuel' (drop batch idx)
  | _, _ => []
  end.

(** [None] is the empty dictionary. *)
Definition link_quality (pick : chooser) (sample batch : nat) : option lq :=
  let n := length nodes in
  if n <? m + 2 then None
  else
    let idx := sorted Nat.leb (pick (seq 0 n) (min sample n)) in
    let scores := lq_batches (einsum_sq vecs) batch (length idx) idx in
    Some (mkLQ (np_mean scores) (np_percentile 5 scores)
            (count (fun s => Qeq_bool s 0) scores) (length idx)).
End LinkQuality.

(** ** Dissecting one index *)

(** The stored vector, infinities and NaN included. *)
Definition node_vec (nd : node) : list f32v := f32_val <$> n_vector nd.

(** [analyse] and, when asked for, [link_quality] on one file. An index with no node has
    only the header fields. *)
Record dissection := mkDis {
  ds_element_count : Z;
  ds_nodes : nat;
  ds_report : option report;
  ds_lq : option lq;
}.

Definition LQ_M : nat := 16.
Definition LQ_BATCH : nat := 256.

Definition dissect {np : NumpyPart} (pick : chooser) (sample : option nat) (raw : list Z)
    : result dissection :=
  '(h, nodes, capacity) ← load_index raw;
  Ok (mkDis (h_element_count h) (length nodes) (analyse_nodes h nodes capacity)
        (k ← sample; link_quality (node_vec <$> nodes) nodes LQ_M pick k LQ_BATCH)).

(** A directory: each entry with its [index.ndb], when it has one. *)
Notation shard_dirs := (list (string * option (list Z))).

Definition sorted_dirs (dirs : shard_dirs) : shard_dirs :=
  sorted (fun a b => str_leb a.1 b.1) dirs.

(** The entries with an index whose dissection does not raise, in order. *)
Definition dissect_all {np : NumpyPart} (pick : chooser) (sample : option nat) (dirs : shard_dirs)
    : list (string * dissection) :=
  omap (fun nd => raw ← nd.2;
                  match dissect pick sample raw with
                  | Ok d => Some (nd.1, d)
                  | Raise _ => None
                  end) dirs.

(** [graph_forensics.main]: the exit status and the columns of the table. Without
    [--compare] the one target is taken as it is. *)
Definition graph_forensics_main {np : NumpyPart} (pick : chooser) (compare : bool)
    (link_quality_n : nat) (dirs : shard_dirs) : nat * list (string * dissection) :=
  let targets :=
    if compare
    then List.filter (fun nd => match nd.2 with Some _ => true | None => false end) (sorted_dirs dirs)
    else dirs in
  if compare && Nat.eqb (length targets) 0 then (1, [])
  else
    let sample := if Nat.eqb link_quality_n 0 then None else Some link_quality_n in
    match dissect_all pick sample targets with
    | [] => (1, [])
    | results => (0, results)
    end.

(** ** One run of the experiment *)

Record frow := mkFR {
  fr_seed : Z;
  fr_cond : string;
  fr_replica : string;
  fr_shard : string;
  fr_kill_count : nat;
  fr_dis : dissection;
}.

(** [name.split("-")[1] if "-" in name else "?"]: from after the first dash to the next. *)
Fixpoint after_dash (s : string) : option string :=
  match s with
  | EmptyString => None
  | String c s' => if Ascii.eqb c "-"%char then Some s' else after_dash s'
  end.

Fixpoint upto_dash (s : string) : string :=
  match s with
  | EmptyString => EmptyString
  | String c s' => if Ascii.eqb c "-"%char then EmptyString else String c (upto_dash s')
  end.

Definition shard_of (name : string) : string :=
  match after_dash name with Some rest => upto_dash rest | None => "?" end.

Definition run_cmd (seed : Z) (cond : string) (duration writers : nat) (dist : string)
    (extra : list string) : list string :=
  ["--duration"; pretty duration; "--writers"; pretty writers; "--seed"; pretty seed;
   "--dist"; dist]%string
  ++ (if bool_decide (cond = "baseline"%string) then ["--no-chaos"%string] else []) ++ extra.

(** What a run leaves: its exit status, the decoded [events.json] ([None] when absent or
    unreadable) and the data directory. *)
Record left_behind := mkLeft {
  lb_returncode : Z;
  lb_events : option (list chaos_event);
  lb_data : shard_dirs;
}.

Definition kills_by_target (events : option (list chaos_event)) : list (string * nat) :=
  match events with Some es => by_target es | None => [] end.

Definition run_one {np : NumpyPart} (pick : chooser) (seed : Z) (cond : string) (sample : nat)
    (l : left_behind) : list frow :=
  if negb (Z.eqb (lb_returncode l) 0) then []
  else
    let kills := kills_by_target (lb_events l) in
    (fun nd => mkFR seed cond nd.1 (shard_of nd.1) (default 0 (dget nd.1 kills)) nd.2)
      <$> dissect_all pick (Some sample) (sorted_dirs (lb_data l)).

(** ** The driver *)

(** [main]'s loop: the contents of the results file after each run. *)
Fixpoint run_loop {np : NumpyPart} (pick : chooser) (sample : nat)
    (runs : list (Z * string * left_behind)) (results : list frow) : list (list frow) :=
  match runs with
  | [] => []
  | (seed, cond, l) :: rest =>
      let results := results ++ run_one pick seed cond sample l in
      results :: run_loop pick sample rest results
  end.

(** [for seed in seeds: for cond in args.conditions] *)
Definition schedule (seed_base : Z) (seeds : nat) (conditions : list string) : list (Z * string) :=
  concat ((fun i => (fun c => ((seed_base + Z.of_nat i)%Z, c)) <$> conditions) <$> seq 0 seeds).

(** ** The report *)

Definition unreachable_or_0 (r : frow) : nat :=
  default 0 (rp ← ds_report (fr_dis r); o_unreachable rp).

(** [r.get(key)] for the keys of [REPORT]. *)
Definition metric_of (key : string) (r : frow) : option Q :=
  let d := fr_dis r in
  if String.eqb key "nodes_examined" then Some (Qnat (ds_nodes d))
  else if String.eqb key "uncounted_nodes"
  then Some (inject_Z (Z.of_nat (ds_nodes d) - ds_element_count d))
  else if String.eqb key "link_quality" then lq_mean <$> ds_lq d
  else if String.eqb key "link_quality_p5" then lq_p5 <$> ds_lq d
  else
    rp ← ds_report d;
    if String.eqb key "in_degree_0" then Some (Qnat (o_in_degree_0 rp))
    else if String.eqb key "unreachable_from_entry" then Qnat <$> o_unreachable rp
    else if String.eqb key "out_degree_0" then Some (Qnat (o_out_degree_0 rp))
    else if String.eqb key "dangling_edges" then Some (Qnat (o_dangling rp))
    else if String.eqb key "deg0_mean" then Some (o_deg0_mean rp)
    else if String.eqb key "asymmetric_frac" then Some (o_asymmetric_frac rp)
    else None.

Definition of_cond (c : string) (results : list frow) : list frow :=
  List.filter (fun r => String.eqb (fr_cond r) c) results.

Definition conds (results : list frow) : list string :=
  List.filter (fun c => negb (Nat.eqb (length (of_cond c results)) 0)) ["baseline"; "chaos"]%string.

(** [statistics.mean(xs) if xs else None] *)
Definition cond_mean (key c : string) (results : list frow) : option Q :=
  match omap (metric_of key) (of_cond c results) with
  | [] => None
  | xs => Some (np_mean xs)
  end.

(** The delta column of one metric. *)
Definition delta (key : string) (results : list frow) : option Q :=
  if Nat.eqb (length (conds results)) 2 then
    b ← cond_mean key "baseline" results;
    c ← cond_mean key "chaos" results;
    Some (c - b)%Q
  else None.

(** The gap of the headline, [mean(base) - mean(chao)]. *)
Definition lq_gap (results : list frow) : option Q :=
  b ← cond_mean "link_quality" "baseline" results;
  c ← cond_mean "link_quality" "chaos" results;
  Some (b - c)%Q.

(** The section on disconnection. *)
Record disconnection := mkDisc {
  dc_n_zero : nat;
  dc_total : nat;
  dc_worst : list frow;
  dc_killed : nat;
  dc_intact : list nat;              (* sorted kill counts *)
  dc_broken : list nat;
  dc_disjoint : bool;
}.

(** The rows printed before the [break] at the first with 0. *)
Fixpoint until_zero (rs : list frow) : list frow :=
  match rs with
  | [] => []
  | r :: rest => if Nat.eqb (unreachable_or_0 r) 0 then [] else r :: until_zero rest
  end.

Definition disconnection_of (results : list frow) : option disconnection :=
  let chaos := of_cond "chaos" results in
  let un := sorted (fun a b => Nat.leb (unreachable_or_0 a) (unreachable_or_0 b)) chaos in
  match un with
  | [] => None
  | _ =>
      let killed := List.filter (fun r => 0 <? fr_kill_count r) chaos in
      let intact := fr_kill_count <$> List.filter (fun r => Nat.eqb (unreachable_or_0 r) 0) killed in
      let broken := fr_kill_count <$> List.filter (fun r => 10 <? unreachable_or_0 r) killed in
      Some (mkDisc (count (fun r => Nat.eqb (unreachable_or_0 r) 0) un) (length un)
              (until_zero (take 3 (rev un))) (length killed)
              (sorted Nat.leb intact) (sorted Nat.leb broken)
              (negb (Nat.eqb (length intact) 0) && negb (Nat.eqb (length broken) 0) &&
               forallb (fun k => negb (bool_decide (k ∈ broken))) intact))
  end.

(** ** Link quality counts true neighbours *)

(** [top] lists [m] other rows, and none left out is nearer to row [r], up to [err]. *)
Record is_nearest (dist err : nat -> Q) (n m r : nat) (top : list nat) : Prop := {
  nn_length : length top = m;
  nn_NoDup : NoDup top;
  nn_range : forall a, a ∈ top -> a < n /\ a <> r;
  nn_nearest : forall a b, a ∈ top -> b < n -> b <> r -> b ∉ top ->
    (dist a <= dist b + err a + err b)%Q;
}.

Lemma is_nearest_separated dist err n m r top :
  separated dist err n -> is_nearest dist err n m r top -> is_nearest dist (fun _ => 0%Q) n m r top.
Proof.
  intros Hs [H1 H2 H3 H4]. split; [done..|]. intros a b Ha Hb Hbr Hnb. rewrite !Qplus_0_r.
  specialize (H4 a b Ha Hb Hbr Hnb). apply Qnot_lt_le. intros Hlt.
  specialize (Hs b a Hb (proj1 (H3 a Ha)) Hlt). lra.
Qed.

(** *** The scores stay finite *)

Lemma to_f32v_fin q : (Qabs (f32 q) < pow2 128)%Q -> to_f32v q = F32 (f32 q).
Proof.
  intros H. unfold to_f32v. destruct (Qle_bool _ _) eqn:E; [|done]. apply Qle_bool_iff in E. lra.
Qed.

Lemma Qabs_close a b e : (Qabs (a - b) <= e)%Q -> (Qabs a <= Qabs b + e)%Q.
Proof.
  intros H. assert (a == b + (a - b))%Q as -> by ring. pose proof (Qabs_triangle b (a - b)). lra.
Qed.

Lemma sum_rel_128 : (sum_rel 130 <= 1 # 65536)%Q /\ (sum_abs 128 <= 1)%Q /\ (eta32 <= 1)%Q /\
  (u32 == 1 # 16777216)%Q.
Proof. split_and!; by vm_compute. Qed.

Lemma score_finite q v ss p :
  length q = VECTOR_DIM -> length v = VECTOR_DIM ->
  in_f32_range (zip v v) -> in_f32_range (zip q v) ->
  f32_sum (zip v v) ss -> f32_sum (zip q v) p ->
  f32v_sub (F32 ss) (f32v_double (F32 p)) = F32 (f32 (ss - f32 (2 * p))).
Proof.
  intros Lq Lv Rv Rq Hs Hp. unfold in_f32_range in *.
  destruct sum_rel_128 as (B1 & B2 & B3 & B4). pose proof (sum_rel_le 128 130 ltac:(lia)) as B5.
  pose proof (sum_rel_nonneg 128) as P1. pose proof (sum_rel_nonneg 130) as P2.
  pose proof (prod_abs_nonneg (zip q v)) as NQ. pose proof (prod_abs_nonneg (zip v v)) as NV.
  assert (forall r x b, 0 <= r -> r <= (1 # 65536) -> 0 <= x -> x <= b -> r * x <= (1 # 65536) * b)%Q as Hmul.
  { intros r x b ????. apply Qle_trans with ((1 # 65536) * x)%Q; [nra|apply Qmult_le_l_weak; lra]. }
  pose proof (Hmul _ _ _ P1 ltac:(lra) NQ Rq) as M1.
  assert (pow2 128 == 4 * pow2 126)%Q as E128 by reflexivity.
  assert (1000 <= pow2 126)%Q as Big by (by vm_compute).
  pose proof (l2_score_close q v ss p Hs Hp ltac:(congruence)) as Hc. apply Qabs_close in Hc.
  unfold l2_err in Hc. rewrite Lv in Hc. change (VECTOR_DIM + 2) with 130 in Hc. change VECTOR_DIM with 128 in Hc.
  pose proof (Hmul _ _ (3 * pow2 126)%Q P2 B1 (ltac:(lra) : (0 <= prod_abs (zip v v) + 2 * prod_abs (zip q v))%Q)
    ltac:(lra)) as M2.
  apply f32_sum_error in Hp. fold (dot q v) in Hp.
  assert (length (zip q v) = 128) as Lz by (rewrite length_zip_with, Lq, Lv; reflexivity).
  unfold sum_err in Hp. rewrite Lz in Hp. apply f32_double_close, Qabs_close in Hp.
  rewrite Qabs_Qmult in Hp. change (Qabs 2) with 2%Q in Hp.
  pose proof (prod_sum_le_abs (zip q v)) as Hd. fold (dot q v) in Hd.
  pose proof (prod_sum_le_abs (zip v v)) as Hn. fold (dot v v) in Hn.
  assert (Qabs (dot v v - 2 * dot q v) <= 3 * pow2 126)%Q as Ht.
  { pose proof (Qabs_triangle (dot v v) (- (2 * dot q v))) as Ht.
    rewrite Qabs_opp, Qabs_Qmult in Ht. change (Qabs 2) with 2%Q in Ht. unfold Qminus. lra. }
  clear Hmul. unfold f32v_double. rewrite to_f32v_fin; [unfold f32v_sub; rewrite to_f32v_fin; [done|]|].
  - rewrite B4 in Hc. lra.
  - rewrite B4 in Hp. lra.
Qed.

Section LinkQualityFacts.
Context {np : NumpyPart} {laws : NumpyPartLaws np}.
Context (rows : list vec) (m r : nat) (q : vec) (prods : list f32v).

(** The array, all of it finite, and one row of a product with it. *)
Let vecs : list (list f32v) := (fun v : vec => F32 <$> v) <$> rows.
Context (Hdim : Forall (fun v => length v = VECTOR_DIM) rows) (Hq : rows !! r = Some q).
Context (Hrange : forall v, v ∈ rows -> in_f32_range (zip v v) /\ in_f32_range (zip q v)).
Context (Hlen : length prods = length rows).
Context (Hprods : forall j v, rows !! j = Some v ->
  exists x, prods !! j = Some (F32 x) /\ f32_sum (zip q v) x).

Let d := lq_row r (einsum_sq vecs) prods.
Let dist := distances "l2" rows q.
Let err := errors "l2" rows q.

Lemma lq_row_length : length d = length rows.
Proof.
  unfold d, lq_row. rewrite length_imap, length_zip_with, einsum_length. unfold vecs.
  rewrite length_fmap. lia.
Qed.

(** An entry of the row: infinite at the row itself, elsewhere close to the distance. *)
Lemma lq_row_entry j :
  j < length rows ->
  if Nat.eqb j r then xnth d j = F32Inf false
  else exists s, xnth d j = F32 s /\ (Qabs (s - (dist j - dot q q)) <= err j)%Q.
Proof.
  intros Hj. apply lookup_lt_is_Some_2 in Hj as [v Hv].
  destruct (Hrange v) as [R1 R2]; [by eapply list_elem_of_lookup_2|].
  destruct (Hprods j v Hv) as (x & Ex & Sx).
  destruct (einsum_value vecs j v) as (ss & Es & Ss); [unfold vecs; by rewrite list_lookup_fmap, Hv|done|].
  rewrite Forall_lookup in Hdim. pose proof (Hdim _ _ Hv) as Lv. pose proof (Hdim _ _ Hq) as Lq. simpl in Lv, Lq.
  unfold xnth, d, lq_row. rewrite nth_lookup, list_lookup_imap, lookup_zip_with, Es, Ex.
  destruct (Nat.eqb_spec j r) as [|Hne]; [done|]. exists (f32 (ss - f32 (2 * x))). split.
  - cbn [default from_option option_bind mbind option_fmap option_map fmap]. unfold id.
    by apply (score_finite q v).
  - unfold dist, err, distances, errors. rewrite !(nth_lookup rows), Hv.
    change (metric_score "l2" q (default [] (Some v))) with (sq_dist q v).
    change (metric_err "l2" q (default [] (Some v))) with (l2_err q v).
    rewrite sq_dist_expand by congruence.
    assert (dot q q + (dot v v - 2 * dot q v) - dot q q == dot v v - 2 * dot q v)%Q as -> by ring.
    apply l2_score_close; [done|done|congruence].
Qed.

(** A row before position [m] is not worse than one from there on. *)
Lemma lq_top_le i j a b :
  let p := argpartition_f32 d m in
  m < length rows -> i < m -> m <= j -> p !! i = Some a -> p !! j = Some b ->
  f32v_leb (xnth d a) (xnth d b) = true.
Proof.
  intros p Hm Hi Hj Ha Hb. eapply (argpartition_f32_split d m i j); [by rewrite lq_row_length|lia|done..].
Qed.

(** The row itself is never among its [m] winners. *)
Lemma lq_top_self i : m + 2 <= length rows -> argpartition_f32 d m !! i = Some r -> m <= i.
Proof.
  intros Hn Hi. destruct (decide (i < m)) as [Him|]; [|lia].
  pose proof (argpartition_f32_perm d m ltac:(rewrite lq_row_length; lia)) as Hp. rewrite lq_row_length in Hp.
  assert (NoDup (argpartition_f32 d m)) as Hnd by (rewrite Hp; apply NoDup_seq).
  assert (length (argpartition_f32 d m) = length rows) as Hl by (rewrite Hp; apply length_seq).
  destruct (lookup_lt_is_Some_2 (argpartition_f32 d m) m) as [b Hb]; [lia|].
  destruct (lookup_lt_is_Some_2 (argpartition_f32 d m) (S m)) as [c Hc]; [lia|].
  assert (forall x j, argpartition_f32 d m !! j = Some x -> m <= j -> x = r) as Hr.
  { intros x j Hx Hj. pose proof (lq_top_le i j r x ltac:(lia) Him Hj Hi Hx) as Hle.
    assert (x < length rows) as Hlt.
    { apply list_elem_of_lookup_2 in Hx. rewrite Hp in Hx. apply elem_of_seq in Hx. lia. }
    apply lookup_lt_Some in Hq as Hr. pose proof (lq_row_entry r Hr) as E1.
    rewrite Nat.eqb_refl in E1. rewrite E1 in Hle. pose proof (lq_row_entry x Hlt) as E2.
    destruct (Nat.eqb_spec x r); [done|]. destruct E2 as (s & E2 & _). by rewrite E2 in Hle. }
  pose proof (Hr b m Hb ltac:(lia)). pose proof (Hr c (S m) Hc ltac:(lia)). subst.
  pose proof (NoDup_lookup _ m (S m) r Hnd Hb Hc). lia.
Qed.

Lemma lq_top_correct :
  m + 2 <= length rows -> is_nearest dist err (length rows) m r (lq_top m d).
Proof.
  intros Hn. unfold lq_top.
  pose proof (argpartition_f32_perm d m ltac:(rewrite lq_row_length; lia)) as Hp. rewrite lq_row_length in Hp.
  pose proof (fun i => lq_top_self i Hn) as Hself. pose proof (lq_top_le) as Hle. cbv zeta in Hle.
  set (p := argpartition_f32 d m) in *.
  assert (length p = length rows) as Hl by (rewrite Hp; apply length_seq).
  assert (NoDup p) as Hnd by (rewrite Hp; apply NoDup_seq).
  assert (forall a, a ∈ p <-> a < length rows) as Hin by (intros a; rewrite Hp, elem_of_seq; lia).
  split.
  - rewrite length_take. lia.
  - by apply NoDup_take.
  - intros a [i Hi]%list_elem_of_lookup_1. apply lookup_take_Some in Hi as [Hi Him].
    split; [apply Hin; by eapply list_elem_of_lookup_2|]. intros ->. specialize (Hself _ Hi). lia.
  - intros a b [i Hi]%list_elem_of_lookup_1 Hb Hbr Hnb.
    apply lookup_take_Some in Hi as [Hi Him].
    assert (b ∈ p) as [j Hj]%list_elem_of_lookup_1 by by apply Hin.
    destruct (decide (j < m)) as [Hjm|Hjm].
    { destruct Hnb. apply list_elem_of_lookup. exists j. by rewrite lookup_take_lt. }
    pose proof (Hle i j a b ltac:(lia) Him ltac:(lia) Hi Hj) as H.
    assert (a <> r) as Har by (intros ->; specialize (Hself _ Hi); lia).
    assert (a < length rows) as Ha by (apply Hin; by eapply list_elem_of_lookup_2).
    pose proof (lq_row_entry a Ha) as Ea. pose proof (lq_row_entry b Hb) as Eb.
    destruct (Nat.eqb_spec a r), (Nat.eqb_spec b r); try done.
    destruct Ea as (sa & Ea & Ca), Eb as (sb & Eb & Cb). rewrite Ea, Eb in H. apply Qle_bool_iff in H.
    apply Qabs_Qle_condition in Ca, Cb. lra.
Qed.
End LinkQualityFacts.

(** The batches cover the sample in order, whatever their size. *)
Lemma lq_batches_spec {np : NumpyPart} vecs nodes m sq batch fuel idx (P : nat -> Q -> Prop) :
  0 < batch -> length idx <= fuel ->
  (forall rows, (forall r, r ∈ rows -> r ∈ idx) -> Forall2 P rows (lq_batch vecs nodes m sq rows)) ->
  Forall2 P idx (lq_batches vecs nodes m sq batch fuel idx).
Proof.
  intros Hb. revert idx. induction fuel as [|fuel IH]; intros [|r idx] Hl HP; simpl in Hl; try constructor; [lia|].
  cbn [lq_batches]. rewrite <- (take_drop batch (r :: idx)) at 1. apply Forall2_app.
  - apply HP. intros x Hx. by apply elem_of_take in Hx as (i & ?%list_elem_of_lookup_2 & _).
  - apply IH; [rewrite length_drop; simpl; lia|]. intros rows Hr. apply HP. intros x Hx.
    rewrite <- (take_drop batch (r :: idx)). apply elem_of_app. right. by apply Hr.
Qed.

Lemma count_all {A} (p : A -> bool) l : count p l = length l <-> forall x, x ∈ l -> p x = true.
Proof.
  unfold count. induction l as [|y l IH]; simpl; [by split; [intros _ x ?%not_elem_of_nil|]|].
  pose proof (List.filter_length_le p l). destruct (p y) eqn:E; simpl; split.
  - intros [= Hl] x [->|Hx]%elem_of_cons; [done|]. by apply IH.
  - intros Hall. f_equal. apply IH. intros x Hx. apply Hall. by right.
  - lia.
  - intros Hall. rewrite Hall in E; [done|by left].
Qed.

Lemma count_none {A} (p : A -> bool) l : (forall x, x ∈ l -> p x = false) -> count p l = 0.
Proof.
  unfold count. induction l as [|y l IH]; intros H; simpl; [done|].
  rewrite (H y) by (by left). apply IH. intros x Hx. apply H. by right.
Qed.

(** [s] is the share of [top] that node [r] stores, and 1 exactly when it stores all. *)
Definition share_stored (nodes : list node) (m r : nat) (top : list nat) (s : Q) : Prop :=
  (s * inject_Z (Z.of_nat m) ==
     inject_Z (Z.of_nat (count (fun t => bool_decide (Z.of_nat t ∈ stored nodes r)) top)))%Q /\
  (0 <= s <= 1)%Q /\
  ((s == 1)%Q <-> forall t, t ∈ top -> Z.of_nat t ∈ stored nodes r).

Lemma lq_score_spec nodes m r top :
  0 < m -> length top = m -> share_stored nodes m r top (lq_score nodes m r top).
Proof.
  intros Hm Hl. unfold share_stored, lq_score. set (p := fun t => bool_decide _).
  assert (count p top = m <-> forall t, t ∈ top -> Z.of_nat t ∈ stored nodes r) as Hall.
  { rewrite <- Hl at 1. rewrite count_all. unfold p. by setoid_rewrite bool_decide_eq_true. }
  destruct (stored nodes r) as [|z zs] eqn:E; cbn [length Nat.eqb].
  - assert (count p top = 0) as H0
      by (apply count_none; intros t _; apply bool_decide_eq_false, not_elem_of_nil).
    rewrite <- Hall, H0. split; [simpl; ring|]. split; [lra|]. split; [done|lia].
  - rewrite <- Hall. split; [by apply qratio_mul|]. split; [|by apply qratio_eq_1].
    split; [apply qratio_nonneg|]. apply qratio_le_1; [done|]. unfold count.
    etrans; [apply List.filter_length_le|]. by rewrite Hl.
Qed.

(** A finite array as [link_quality] holds it. *)
Definition f32_rows (rows : list vec) : list (list f32v) := (fun v : vec => F32 <$> v) <$> rows.

Lemma f32_rows_lookup rows i v : rows !! i = Some v -> f32_rows rows !! i = Some (F32 <$> v).
Proof. intros H. unfold f32_rows. by rewrite list_lookup_fmap, H. Qed.

Section BatchFacts.
Context {np : NumpyPart} {laws : NumpyPartLaws np}.
Context (rows : list vec) (nodes : list node) (m : nat).
Context (Hdim : Forall (fun v => length v = VECTOR_DIM) rows) (Hm : 0 < m) (Hn : m + 2 <= length rows).
Context (Hrange : forall u v, u ∈ rows -> v ∈ rows -> in_f32_range (zip u v)).

(** What a node's score is. *)
Definition lq_meaning (i : nat) (s : Q) : Prop :=
  exists q top, rows !! i = Some q /\
    is_nearest (distances "l2" rows q) (errors "l2" rows q) (length rows) m i top /\
    share_stored nodes m i top s.

Lemma lq_batch_spec idx :
  (forall r, r ∈ idx -> r < length rows) ->
  Forall2 lq_meaning idx (lq_batch (f32_rows rows) nodes m (einsum_sq (f32_rows rows)) idx).
Proof.
  intros Hidx. unfold lq_batch. set (qs := (fun r => nth r (f32_rows rows) []) <$> idx).
  assert (length (matmul_f32 qs (f32_rows rows)) = length idx) as Hl
    by (rewrite matmul_f32_length; unfold qs; apply length_fmap).
  apply Forall2_same_length_lookup. split; [rewrite length_zip_with; lia|].
  intros i r s Hr Hs. apply lookup_zip_with_Some in Hs as (r' & prods & -> & Hr' & Hp).
  rewrite Hr in Hr'. simplify_eq.
  destruct (lookup_lt_is_Some_2 rows r') as [q Hq]; [apply Hidx; by eapply list_elem_of_lookup_2|].
  assert (qs !! i = Some (F32 <$> q)) as Hqs.
  { unfold qs. rewrite list_lookup_fmap, Hr. simpl. by rewrite nth_lookup, (f32_rows_lookup _ _ _ Hq). }
  apply list_elem_of_lookup_2 in Hq as Hqin.
  assert (is_nearest (distances "l2" rows q) (errors "l2" rows q) (length rows) m r'
    (lq_top m (lq_row r' (einsum_sq (f32_rows rows)) prods))) as Hnn.
  { apply lq_top_correct; [done|done|by auto| | |done].
    - apply matmul_f32_row_length in Hp. unfold f32_rows in Hp. by rewrite length_fmap in Hp.
    - intros j v Hv. eapply matmul_f32_value; [exact Hp|exact Hqs|by apply f32_rows_lookup| |].
      + rewrite Forall_lookup in Hdim. by rewrite (Hdim _ _ Hq), (Hdim _ _ Hv).
      + apply Hrange; [done|by eapply list_elem_of_lookup_2]. }
  exists q. eexists. split; [done|]. split; [exact Hnn|]. apply lq_score_spec; [done|apply Hnn].
Qed.
End BatchFacts.

(** A reference instance: sort the positions by distance, add the products one by one. *)
#[export] Instance ref_part : NumpyPart := {
  argpartition_f32 d _ := sorted (fun i j => f32v_leb (xnth d i) (xnth d j)) (seq 0 (length d));
  einsum_sq m := (fun v => match mapM f32_finite v with
                           | Some x => F32 (f32_fold (zip x x))
                           | None => F32Nan
                           end) <$> m;
  matmul_f32 a b := (fun u => (fun v => match mapM f32_finite u, mapM f32_finite v with
                                        | Some x, Some y => F32 (f32_fold (zip x y))
                                        | _, _ => F32Nan
                                        end) <$> b) <$> a;
}.

Lemma f32_finite_row (v : vec) : mapM f32_finite (F32 <$> v) = Some v.
Proof. apply mapM_Some, Forall2_fmap_l, Forall_Forall2_diag, Forall_true. done. Qed.

#[export] Instance ref_part_laws : NumpyPartLaws ref_part.
Proof.
  constructor; simpl.
  - intros d kth _. apply sorted_perm.
  - intros d kth i j a b _ ? ? Ha Hb.
    eapply (sorted_lookup_le (fun i j => f32v_leb (xnth d i) (xnth d j))); [| | |done..]; [..|lia].
    + intros x y. unfold f32v_leb. repeat case_match; auto using Qle_bool_total.
    + intros x y z. unfold f32v_leb. repeat case_match; try done. apply Qle_bool_trans.
  - intros l. apply length_fmap.
  - intros l i v Hv _. rewrite list_lookup_fmap, Hv. simpl. rewrite f32_finite_row.
    eexists. split; [done|]. apply f32_fold_sum.
  - intros a b. apply length_fmap.
  - intros a b i r Hr. apply list_lookup_fmap_Some in Hr as (u & -> & _). apply length_fmap.
  - intros a b i j r q v Hr Hq Hv _ _. apply list_lookup_fmap_Some in Hr as (u & -> & Hu).
    rewrite Hq in Hu. simplify_eq. rewrite list_lookup_fmap, Hv. simpl. rewrite !f32_finite_row.
    eexists. split; [done|]. apply f32_fold_sum.
Qed.

(** C19. Link quality measures what it says, in the code's own arithmetic. On an index
    of at least [m + 2] nodes with finite 128-dimensional vectors whose products do not
    overflow, it scores [min sample n] distinct nodes, whatever the batch size; each
    score is the share, stored in the node's layer-0 list, of [m] other nodes such that
    no node left out is nearer by euclidean distance over the replica's own vectors --
    up to the [float32] rounding errors of the two nodes compared, and exactly when
    different distances differ by more than these errors. A node is scored 1 exactly
    when all [m] are stored, and every reported number is a proportion. *)
Theorem link_quality_exact {np : NumpyPart} {laws : NumpyPartLaws np} rows nodes m pick sample batch :
  chooses pick -> 0 < m -> 0 < batch -> 0 < sample -> m + 2 <= length nodes ->
  length rows = length nodes -> Forall (fun v => length v = VECTOR_DIM) rows ->
  (forall u v, u ∈ rows -> v ∈ rows -> in_f32_range (zip u v)) ->
  exists idx scores r, link_quality (f32_rows rows) nodes m pick sample batch = Some r /\
    NoDup idx /\ length idx = min sample (length nodes) /\ lq_n r = length idx /\
    Forall2 (fun i s => exists q top, rows !! i = Some q /\
      is_nearest (distances "l2" rows q) (errors "l2" rows q) (length rows) m i top /\
      (separated (distances "l2" rows q) (errors "l2" rows q) (length rows) ->
       is_nearest (distances "l2" rows q) (fun _ => 0%Q) (length rows) m i top) /\
      share_stored nodes m i top s) idx scores /\
    lq_mean r = np_mean scores /\ (0 <= lq_mean r <= 1)%Q /\ (0 <= lq_p5 r <= 1)%Q.
Proof.
  intros Hc Hm Hb Hs Hn Hv Hdim Hrange. unfold link_quality.
  destruct (length nodes <? m + 2) eqn:E; breflect; [lia|].
  destruct (Hc (seq 0 (length nodes)) (min sample (length nodes))) as (Nd & Hl & Hin);
    [apply NoDup_seq|rewrite length_seq; lia|].
  set (picked := pick _ _) in *. set (idx := sorted Nat.leb picked).
  assert (length idx = min sample (length nodes)) as Hli by (unfold idx; by rewrite sorted_length).
  set (scores := lq_batches _ _ _ _ _ _ _).
  assert (Forall2 (lq_meaning rows nodes m) idx scores) as HF.
  { apply lq_batches_spec; [done|lia|]. intros l Hsub. apply lq_batch_spec; [done|done|lia|done|].
    intros r Hr. apply Hsub, elem_of_sorted, Hin, elem_of_seq in Hr. lia. }
  assert (Forall (fun q => 0 <= q <= 1)%Q scores) as Hunit.
  { eapply Forall2_Forall_r; [exact HF|]. apply Forall_true. by intros i s (q & top & _ & _ & _ & ? & _). }
  exists idx, scores. eexists. split; [done|]. simpl. pose proof (Forall2_length _ _ _ HF).
  split; [by apply sorted_NoDup|]. split; [done|]. split; [done|].
  split; [|split; [done|split; [|by apply np_percentile_unit]]].
  - eapply Forall2_impl; [exact HF|]. intros i s (q & top & Hq & Hnn & Hsh). exists q, top.
    split_and!; [done|done| |done]. intros Hsep. by eapply is_nearest_separated.
  - apply np_mean_bounds; [|done]. intros H0%(f_equal length). simpl in H0. lia.
Qed.

(** Four nodes on a line; the second stores only its right neighbour. *)
Definition lq_node (c : Z) (nbrs : list Z) : node := mkNode 0 0 0 [] [nbrs] [c].
Definition lq_demo : list node :=
  [lq_node 1 [1]; lq_node 1 [2]; lq_node 1 [3]; lq_node 0 [NO_NEIGHBOR]]%Z.
Definition lq_vec (x : Q) : vec := x :: replicate 127 0%Q.

Lemma link_quality_exact_witness :
  exists r, link_quality (f32_rows (lq_vec <$> [0; 1; 3; 7]%Q)) lq_demo 1 first_ones 2000 3 = Some r /\
    lq_n r = 4 /\ (0 <= lq_mean r <= 1)%Q /\ (lq_mean r == 1 # 4)%Q.
Proof.
  destruct (link_quality_exact (lq_vec <$> [0; 1; 3; 7]%Q) lq_demo 1 first_ones 2000 3)
    as (idx & scores & r & Hr & _ & Hl & Hn & _ & _ & Hm & _);
    [apply first_ones_chooses|lia|lia|lia|simpl; lia|reflexivity|
     apply Forall_fmap, Forall_forall; intros; reflexivity| |].
  - intros u v Hu Hv. apply list_elem_of_fmap in Hu as (x & -> & Hx), Hv as (y & -> & Hy).
    rewrite !elem_of_cons in Hx, Hy.
    destruct Hx as [->|[->|[->|[->|[]%not_elem_of_nil]]]];
      destruct Hy as [->|[->|[->|[->|[]%not_elem_of_nil]]]]; by vm_compute.
  - exists r. split; [done|]. split; [rewrite Hn, Hl; reflexivity|]. split; [done|].
    vm_compute in Hr. injection Hr as <-. reflexivity.
Defined.

(** ** The rows of a run *)

Section RunFacts.
Context {np : NumpyPart}.

Lemma elem_of_dissect_all pick sample dirs name d :
  (name, d) ∈ dissect_all pick sample dirs <->
  exists raw, (name, Some raw) ∈ dirs /\ dissect pick sample raw = Ok d.
Proof.
  unfold dissect_all. rewrite list_elem_of_omap. split.
  - intros ([n [raw|]] & Hin & H); [|done]. simpl in H.
    destruct (dissect pick sample raw) eqn:E; simplify_eq/=. eauto.
  - intros (raw & Hin & H). exists (name, Some raw). split; [done|]. simpl. by rewrite H.
Qed.

Lemma dissect_all_names pick sample dirs :
  (dissect_all pick sample dirs).*1 `sublist_of` dirs.*1.
Proof.
  induction dirs as [|[n [raw|]] dirs IH]; simpl; [constructor| |by constructor].
  unfold dissect_all. simpl. destruct (dissect _ _ _); simpl; by constructor.
Qed.

Lemma kills_by_target_count events n :
  default 0 (dget n (kills_by_target events)) =
    length (filter (fun e => ce_target e = n) (default [] events)).
Proof. destruct events as [es|]; [apply by_target_spec|done]. Qed.
End RunFacts.

(** The rows a run contributes are its replicas. After a run that exits 0 there is one
    row for each data directory whose index can be read, and for no other; it carries
    that file's dissection, the run's seed and condition, and as its kill count the
    number of recorded kills of exactly that replica. A run that failed contributes
    nothing. *)
Theorem run_one_rows {np : NumpyPart} pick seed cond sample l :
  NoDup (lb_data l).*1 ->
  NoDup (fr_replica <$> run_one pick seed cond sample l) /\
  (lb_returncode l <> 0%Z -> run_one pick seed cond sample l = []) /\
  (lb_returncode l = 0%Z ->
     (forall r, r ∈ run_one pick seed cond sample l ->
        fr_seed r = seed /\ fr_cond r = cond /\
        fr_kill_count r =
          length (filter (fun e => ce_target e = fr_replica r) (default [] (lb_events l)))) /\
     (forall name d, (exists r, r ∈ run_one pick seed cond sample l /\
                                fr_replica r = name /\ fr_dis r = d) <->
        exists raw, (name, Some raw) ∈ lb_data l /\ dissect pick (Some sample) raw = Ok d)).
Proof.
  intros Hnd. unfold run_one. destruct (Z.eqb_spec (lb_returncode l) 0) as [E|E]; simpl;
    [|split_and!; [constructor|done|done]].
  set (rows := dissect_all _ _ _).
  assert (NoDup rows.*1) as Hrows.
  { eapply sublist_NoDup; [|apply dissect_all_names]. unfold sorted_dirs. by rewrite sorted_perm. }
  split_and!; [|done|].
  - by rewrite <- list_fmap_compose.
  - intros _. split.
    + intros r ([n d] & -> & Hin)%list_elem_of_fmap. simpl. split_and!; [done..|].
      apply kills_by_target_count.
    + intros name d. transitivity ((name, d) ∈ rows).
      * split.
        -- intros (r & ([n d'] & -> & Hin)%list_elem_of_fmap & <- & <-). done.
        -- intros Hin. eexists. split; [by apply list_elem_of_fmap; exists (name, d)|done].
      * unfold rows. rewrite elem_of_dissect_all. unfold sorted_dirs. by setoid_rewrite elem_of_sorted.
Qed.

(** ** The results file *)

(** Nothing a run contributed is lost to a later one: the file after run [k] is the rows
    that were there and those of the first [k + 1] runs, in order. *)
Lemma run_loop_checkpoint {np : NumpyPart} pick sample runs results k file :
  run_loop pick sample runs results !! k = Some file ->
  file = results ++ concat ((fun x => run_one pick x.1.1 x.1.2 sample x.2) <$> take (S k) runs).
Proof.
  revert results k. induction runs as [|[[seed cond] l] runs IH]; intros results k H; [done|].
  destruct k as [|k]; simpl in H; simplify_eq/=.
  - by rewrite app_nil_r.
  - apply IH in H as ->. simpl. by rewrite <- app_assoc.
Qed.

Lemma run_loop_length {np : NumpyPart} pick sample runs results :
  length (run_loop pick sample runs results) = length runs.
Proof. revert results. induction runs as [|[[] ?] runs IH]; intros; simpl; [done|by rewrite IH]. Qed.

(** A run that left one index with no node and killed its replica once. *)
Definition demo_left : left_behind :=
  mkLeft 0 (Some [mkCE 1%Q "shard-0-1" true 5%Q 1; mkCE 9%Q "shard-0-0" true 5%Q 1]%string)
    [("shard-0-1", Some [1%Z]); ("shard-0-0", Some (encode_header demo_header (replicate 48 0%Z)));
     ("logs", None)]%string.

Lemma run_one_rows_witness :
  exists r, run_one first_ones 7 "chaos" 2000 demo_left = [r] /\ fr_replica r = "shard-0-0"%string /\
    fr_shard r = "0"%string /\ fr_kill_count r = 1.
Proof.
  destruct (run_one_rows first_ones 7 "chaos" 2000 demo_left) as (_ & _ & H);
    [decide_now|]. destruct (H eq_refl) as [Hr _].
  eexists. split; [vm_compute; reflexivity|]. split; [reflexivity|]. split; [reflexivity|].
  etrans; [apply Hr; vm_compute; left|reflexivity].
Defined.

(** ** Disconnection *)

Lemma until_zero_split rs :
  exists rest, rs = until_zero rs ++ rest /\
    (forall r, r ∈ until_zero rs -> 0 < unreachable_or_0 r) /\
    (rest = [] \/ exists r rest', rest = r :: rest' /\ unreachable_or_0 r = 0).
Proof.
  induction rs as [|r rs (rest & Heq & Hpos & Hrest)]; simpl.
  { exists []. split_and!; [done|by intros ? ?%not_elem_of_nil|by left]. }
  destruct (Nat.eqb_spec (unreachable_or_0 r) 0) as [E|E].
  - exists (r :: rs). split_and!; [done|by intros ? ?%not_elem_of_nil|right; eauto].
  - exists rest. split_and!; [simpl; by rewrite <- Heq| |done].
    intros x [->|Hx]%elem_of_cons; [lia|auto].
Qed.

Lemma elem_of_reverse_rev {A} (x : A) l : x ∈ rev l <-> x ∈ l.
Proof. by rewrite <- Permutation_rev. Qed.

(** The section on disconnection shows the worst replicas. It counts the chaos
    replicas with no node reported unreachable; it lists at most three, each with some,
    and no chaos replica it leaves out is worse than one it lists; when it lists fewer
    than three, those it leaves out all report zero. *)
Theorem disconnection_shows_worst results d :
  disconnection_of results = Some d ->
  let chaos := of_cond "chaos" results in
  dc_total d = length chaos /\
  dc_n_zero d = count (fun r => Nat.eqb (unreachable_or_0 r) 0) chaos /\
  length (dc_worst d) <= 3 /\
  (forall r, r ∈ dc_worst d -> 0 < unreachable_or_0 r) /\
  exists rest, chaos ≡ₚ dc_worst d ++ rest /\
    (forall r x, r ∈ dc_worst d -> x ∈ rest -> unreachable_or_0 x <= unreachable_or_0 r) /\
    (length (dc_worst d) < 3 -> forall x, x ∈ rest -> unreachable_or_0 x = 0).
Proof.
  unfold disconnection_of. set (chaos := of_cond "chaos" results). set (un := sorted _ chaos).
  intros H. assert (un ≡ₚ chaos) as Hp by apply sorted_perm.
  destruct (until_zero_split (take 3 (rev un))) as (R & HT & Hpos & HR).
  set (W := until_zero (take 3 (rev un))) in *.
  assert (un = rev (R ++ drop 3 (rev un)) ++ rev W) as Hun.
  { rewrite <- rev_app_distr, app_assoc, <- HT, take_drop. by rewrite rev_involutive. }
  assert (forall l1 l2 x y, un = l1 ++ l2 -> x ∈ l1 -> y ∈ l2 ->
            unreachable_or_0 x <= unreachable_or_0 y) as Hord.
  { intros l1 l2 x y E Hx Hy. apply Nat.leb_le.
    pose proof (sorted_StronglySorted (fun a b => Nat.leb (unreachable_or_0 a) (unreachable_or_0 b))
      ltac:(intros a b; rewrite !Nat.leb_le; lia) ltac:(intros a b c; rewrite !Nat.leb_le; lia) chaos)
      as HS. fold un in HS. rewrite E in HS.
    by apply (StronglySorted_app_1_elem_of _ l1 l2 x y HS). }
  assert (length W <= 3) as HW by (apply (f_equal length) in HT; rewrite length_app, length_take in HT; lia).
  clearbody W un. destruct un as [|u0 us]; [done|]. injection H as <-.
  set (un := u0 :: us) in *. cbn [dc_total dc_n_zero dc_worst].
  split; [exact (Permutation_length Hp)|]. split; [by apply filter_length_perm|].
  split; [done|]. split; [done|].
  exists (R ++ drop 3 (rev un)). split; [|split].
  - rewrite <- Hp, Hun at 1. rewrite Permutation_app_comm.
    by rewrite <- !Permutation_rev.
  - intros r x Hr Hx. eapply Hord; [exact Hun|by rewrite elem_of_reverse_rev|by rewrite elem_of_reverse_rev].
  - intros Hlt x Hx. destruct HR as [->|(r0 & R' & -> & Hr0)].
    + rewrite app_nil_r in HT. apply (f_equal length) in HT. rewrite length_take in HT.
      rewrite app_nil_l, drop_ge in Hx by lia. by apply not_elem_of_nil in Hx.
    + rewrite <- app_comm_cons in Hx, Hun. cbn [rev] in Hun. rewrite <- app_assoc in Hun. apply elem_of_cons in Hx as [->|Hx]; [done|].
      enough (unreachable_or_0 x <= unreachable_or_0 r0) by lia.
      eapply Hord; [exact Hun|by rewrite elem_of_reverse_rev|by left].
Qed.

(** A chaos row with [u] unreachable nodes out of a valid entry point's reach. *)
Definition demo_row (name : string) (kills : nat) (entry : Z) (nodes : list node) : frow :=
  mkFR 7 "chaos" name (shard_of name) kills
    (mkDis 3 (length nodes) (analyse_nodes (mkHeader NANODB_MAGIC 3 entry 0) nodes 4) None).

Definition demo_results : list frow :=
  [demo_row "shard-0-0" 2 0 demo_nodes; demo_row "shard-0-1" 1 0 [demo_node []; demo_node []; demo_node []];
   demo_row "shard-1-0" 0 0 [demo_node [1%Z]; demo_node []]].

Lemma disconnection_shows_worst_witness :
  exists d, disconnection_of demo_results = Some d /\ dc_total d = 3 /\ dc_n_zero d = 1 /\
    unreachable_or_0 <$> dc_worst d = [2; 1].
Proof.
  eexists. split; [vm_compute; reflexivity|].
  match goal with |- dc_total ?d = _ /\ _ =>
    destruct (disconnection_shows_worst demo_results d eq_refl) as (H1 & H2 & _) end.
  split; [exact H1|]. split; [exact H2|reflexivity].
Defined.

(** A replica whose header names no valid entry point, so that no search can start on
    it, is counted among those with "zero nodes unreachable from entry" and, when it was
    killed, among the intact: [r.get(...) or 0] reads its [None] as 0. *)
Lemma no_entry_counts_as_intact :
  exists r d, r = demo_row "shard-0-0" 1 (-1) demo_nodes /\
    o_reachable <$> ds_report (fr_dis r) = Some None /\
    disconnection_of [r] = Some d /\ dc_n_zero d = 1 /\ dc_intact d = [1] /\ dc_broken d = [].
Proof. eexists _, _. split; [reflexivity|]. split; [vm_compute; reflexivity|]. split; [vm_compute; reflexivity|]. done. Qed.
