(* ===== verification/Text.v ===== *)
(** * Text

    Python's [str] as the list of its code points, and the string methods and regular
    expressions the checkers of the research record use. The Unicode tables outside
    ASCII are a parameter. *)

From stdpp Require Import base list strings.
From Stdlib Require Import Ascii NArith Lia.
From S2P Require Import Prelude.

Local Open Scope nat_scope.

Notation text := (list N).

(** A literal. *)
Definition lit (s : string) : text := N_of_ascii <$> String.list_ascii_of_string s.
Arguments lit : simpl never.

(** Case and word characters beyond ASCII. *)
Class Unicode := {
  u_lower : N -> text;
  u_word : N -> bool;
}.

#[export] Instance ascii_unicode : Unicode := { u_lower c := [c]; u_word _ := false }.

Definition between (lo hi c : N) : bool := ((lo <=? c) && (c <=? hi))%N.

Section Chars.
Context {uc : Unicode}.

Definition lower_char (c : N) : text :=
  if (c <? 128)%N then [if between 65 90 c then (c + 32)%N else c] else u_lower c.

(** [s.lower()] *)
Definition lower (s : text) : text := concat (lower_char <$> s).

(** [\w] *)
Definition word_char (c : N) : bool :=
  if (c <? 128)%N
  then between 48 57 c || between 65 90 c || between 97 122 c || (c =? 95)%N
  else u_word c.
End Chars.

(** [str.isspace], and [\s] in a pattern. *)
Definition space (c : N) : bool :=
  between 9 13 c || between 28 32 c || (c =? 0x85)%N || (c =? 0xA0)%N || (c =? 0x1680)%N ||
  between 0x2000 0x200A c || between 0x2028 0x2029 c || (c =? 0x202F)%N || (c =? 0x205F)%N ||
  (c =? 0x3000)%N.

Fixpoint lstrip_by (p : N -> bool) (s : text) : text :=
  match s with
  | c :: s' => if p c then lstrip_by p s' else s
  | [] => []
  end.

(** [s.strip(chars)], [s.strip()] *)
Definition strip_by (p : N -> bool) (s : text) : text := rev (lstrip_by p (rev (lstrip_by p s))).
Definition strip (s : text) : text := strip_by space s.

(** [s.startswith(p)], and what follows the prefix. *)
Fixpoint drop_prefix (p s : text) : option text :=
  match p, s with
  | [], _ => Some s
  | a :: p', b :: s' => if (a =? b)%N then drop_prefix p' s' else None
  | _ :: _, [] => None
  end.

Definition starts_with (p s : text) : bool :=
  match drop_prefix p s with Some _ => true | None => false end.

Definition ends_with (p s : text) : bool := starts_with (rev p) (rev s).

(** [p in s] *)
Fixpoint infixb (p s : text) : bool :=
  starts_with p s || match s with [] => false | _ :: s' => infixb p s' end.

(** [s.partition(sep)], the separator dropped. *)
Fixpoint partition_at (sep s : text) : text * text :=
  match drop_prefix sep s with
  | Some rest => ([], rest)
  | None =>
      match s with
      | [] => ([], [])
      | c :: s' => let '(a, b) := partition_at sep s' in (c :: a, b)
      end
  end.

(** Pieces between the characters that satisfy [p]; there is always one. *)
Fixpoint split_by (p : N -> bool) (s : text) : text * list text :=
  match s with
  | [] => ([], [])
  | c :: s' =>
      let '(hd, tl) := split_by p s' in
      if p c then ([], hd :: tl) else (c :: hd, tl)
  end.

Definition pieces (p : N -> bool) (s : text) : list text :=
  let '(hd, tl) := split_by p s in hd :: tl.

(** [sep.join(xs)] *)
Fixpoint join (sep : text) (xs : list text) : text :=
  match xs with
  | [] => []
  | [x] => x
  | x :: rest => x ++ sep ++ join sep rest
  end.

(** The lines a pattern with [re.M] sees. *)
Definition newline : N := 10%N.
Definition re_lines (s : text) : list text := pieces (N.eqb newline) s.

(** [s.splitlines()]; [open] has already translated the carriage returns. *)
Definition line_end (c : N) : bool :=
  between 10 13 c || between 28 30 c || (c =? 0x85)%N || between 0x2028 0x2029 c.

Definition splitlines (s : text) : list text :=
  let ls := pieces line_end s in
  match rev ls with
  | [] :: rest => rev rest
  | _ => ls
  end.

(** Comparison of two strings. *)
Fixpoint text_leb (a b : text) : bool :=
  match a, b with
  | [], _ => true
  | _ :: _, [] => false
  | x :: a', y :: b' => (x <? y)%N || ((x =? y)%N && text_leb a' b')
  end.

(** ** Facts *)

Lemma drop_prefix_Some p s r : drop_prefix p s = Some r <-> s = p ++ r.
Proof.
  revert s. induction p as [|a p IH]; intros s; simpl; [naive_solver|].
  destruct s as [|b s]; [naive_solver|]. destruct (N.eqb_spec a b) as [->|Hne]; [|naive_solver].
  rewrite IH. naive_solver.
Qed.

Lemma starts_with_spec p s : starts_with p s = true <-> exists r, s = p ++ r.
Proof.
  unfold starts_with. destruct (drop_prefix p s) as [r|] eqn:E.
  - apply drop_prefix_Some in E. naive_solver.
  - split; [done|]. intros [r Hr]. by apply drop_prefix_Some in Hr; rewrite Hr in E.
Qed.

Lemma infixb_spec p s : infixb p s = true <-> exists a b, s = a ++ p ++ b.
Proof.
  induction s as [|c s IH]; cbn [infixb]; rewrite orb_true_iff, starts_with_spec.
  - split; [|intros (a & b & H)].
    + intros [[r H]|]; [|done]. by exists [], r.
    + left. exists b. by destruct a.
  - rewrite IH. split.
    + intros [[r H]|(a & b & ->)]; [by exists [], r|by exists (c :: a), b].
    + intros ([|x a] & b & H); [left; by exists b|right]. simplify_eq/=. eauto.
Qed.

Lemma infixb_trans p q s : infixb p q = true -> infixb q s = true -> infixb p s = true.
Proof.
  rewrite !infixb_spec. intros (a & b & ->) (c & d & ->). exists (c ++ a), (b ++ d).
  by rewrite !app_assoc.
Qed.

Lemma lstrip_by_fix p s : match s with c :: _ => p c = false | [] => True end -> lstrip_by p s = s.
Proof. destruct s as [|c s]; simpl; [done|]. by intros ->. Qed.

(** What [strip] leaves alone: no strippable character at either end. *)
Definition stripped_by (p : N -> bool) (s : text) : Prop :=
  match s with c :: _ => p c = false | [] => True end /\
  match rev s with c :: _ => p c = false | [] => True end.

Lemma strip_by_fix p s : stripped_by p s -> strip_by p s = s.
Proof.
  intros [H1 H2]. unfold strip_by. rewrite (lstrip_by_fix p s H1), (lstrip_by_fix p (rev s) H2).
  apply rev_involutive.
Qed.

Lemma lstrip_by_head p s : match lstrip_by p s with c :: _ => p c = false | [] => True end.
Proof. induction s as [|c s IH]; simpl; [done|]. by destruct (p c) eqn:E. Qed.

Lemma lstrip_by_suffix p s : exists a, s = a ++ lstrip_by p s /\ Forall (fun c => p c = true) a.
Proof.
  induction s as [|c s (a & Heq & Ha)]; simpl; [by exists []|].
  destruct (p c) eqn:E; [|by exists []]. exists (c :: a). split; [simpl; by f_equal|by constructor].
Qed.

(** Stripping leaves nothing to strip. *)
Lemma strip_by_stripped p s : stripped_by p (strip_by p s).
Proof.
  unfold stripped_by, strip_by. rewrite rev_involutive. split; [|apply lstrip_by_head].
  destruct (lstrip_by_suffix p (rev (lstrip_by p s))) as (a & Heq & Ha).
  set (t := lstrip_by p (rev (lstrip_by p s))) in *.
  apply (f_equal (@rev N)) in Heq. rewrite rev_involutive, rev_app_distr in Heq.
  pose proof (lstrip_by_head p s) as Hh. rewrite Heq in Hh.
  by destruct (rev t) as [|c r].
Qed.

Lemma strip_by_spaces p a b s :
  Forall (fun c => p c = true) a -> Forall (fun c => p c = true) b -> stripped_by p s -> s <> [] ->
  strip_by p (a ++ s ++ b) = s.
Proof.
  intros Ha Hb Hs Hne.
  assert (forall l t, Forall (fun c => p c = true) l -> lstrip_by p (l ++ t) = lstrip_by p t) as Hl.
  { intros l t. induction 1 as [|c l Hc _ IH]; [done|]. simpl. by rewrite Hc. }
  destruct Hs as [H1 H2]. unfold strip_by. rewrite Hl by done.
  rewrite (lstrip_by_fix p (s ++ b)) by (by destruct s).
  rewrite rev_app_distr, Hl by (by rewrite <- Permutation_rev).
  rewrite (lstrip_by_fix p (rev s) H2). apply rev_involutive.
Qed.

(** [a] contains no occurrence of [sep], even one that runs into what follows. *)
Lemma partition_at_spec sep a b :
  sep <> [] -> (forall l c r, a = l ++ c :: r -> starts_with sep ((c :: r) ++ sep ++ b) = false) ->
  partition_at sep (a ++ sep ++ b) = (a, b).
Proof.
  intros Hne. induction a as [|c a IH]; intros H.
  - destruct sep as [|x sep]; [done|]. cbn [app partition_at].
    by rewrite (proj2 (drop_prefix_Some (x :: sep) (x :: sep ++ b) b)).
  - cbn [partition_at app].
    pose proof (H [] c a eq_refl) as H0. unfold starts_with in H0. cbn [app] in H0.
    destruct (drop_prefix sep (c :: a ++ sep ++ b)); [done|]. rewrite IH; [done|].
    intros l c' r ->. by apply (H (c :: l)).
Qed.

(** A pattern without the separator that occurs in a joined text occurs in one of the
    pieces. *)
Lemma infixb_join_one sep p xs :
  p <> [] -> (forall c, c ∈ p -> c <> sep) ->
  infixb p (join [sep] xs) = true -> exists x, x ∈ xs /\ infixb p x = true.
Proof.
  intros Hne Hsep. induction xs as [|x xs IH]; intros H.
  { apply infixb_spec in H as (a & b & H). destruct a, p; done. }
  destruct xs as [|y ys]; [exists x; split; [by left|exact H]|].
  cbn [join] in H. apply infixb_spec in H as (a & b & H).
  change (x ++ [sep] ++ join [sep] (y :: ys)) with (x ++ sep :: join [sep] (y :: ys)) in H.
  apply app_eq_inv in H as [(k & -> & H)|(k & -> & H)].
  - apply app_eq_inv in H as [(k' & -> & H)|(k' & -> & H)].
    + destruct k' as [|c k']; simplify_eq/=.
      * exists (a ++ k). split; [by left|]. apply infixb_spec. exists a, []. by rewrite !app_nil_r.
      * destruct (Hsep c); [apply elem_of_app; right; by left|done].
    + exists (a ++ p ++ k'). split; [by left|]. apply infixb_spec. eauto.
  - destruct k as [|c k]; simpl in H; simplify_eq/=.
    + destruct p as [|c p]; [done|]. simplify_eq/=. destruct (Hsep c); [by left|done].
    + assert (infixb p (join [c] (y :: ys)) = true) as Hi by (apply infixb_spec; eauto).
      destruct (IH Hi) as (z & Hz & ?). exists z. split; [by right|done].
Qed.

Lemma split_by_spec p s t c :
  (forall x, x ∈ s -> p x = false) -> p c = true ->
  split_by p (s ++ c :: t) = (s, pieces p t).
Proof.
  intros Hs Hc. induction s as [|x s IH]; simpl.
  - unfold pieces. destruct (split_by p t). by rewrite Hc.
  - rewrite IH by (intros; apply Hs; by right). by rewrite (Hs x) by (by left).
Qed.

Lemma split_by_none p s : (forall x, x ∈ s -> p x = false) -> split_by p s = (s, []).
Proof.
  intros Hs. induction s as [|x s IH]; simpl; [done|].
  rewrite IH by (intros; apply Hs; by right). by rewrite (Hs x) by (by left).
Qed.

Lemma re_lines_join ls :
  ls <> [] -> Forall (fun l => newline ∉ l) ls -> re_lines (join [newline] ls) = ls.
Proof.
  intros Hne H. assert (forall l : text, newline ∉ l -> forall x, x ∈ l -> N.eqb newline x = false) as Hn.
  { intros l Hl x Hx. apply N.eqb_neq. by intros <-. }
  induction H as [|l ls Hl H IH]; [done|]. destruct ls as [|l2 ls].
  - unfold re_lines, pieces. simpl join. by rewrite split_by_none by (by apply Hn).
  - change (join [newline] (l :: l2 :: ls)) with (l ++ newline :: join [newline] (l2 :: ls)).
    unfold re_lines, pieces at 1. rewrite split_by_spec; [|by apply Hn|done].
    f_equal. by apply IH.
Qed.
