(* ===== verification/CheckResearch.v ===== *)
(** * The checks on the research record

    [research/check_research.py]: the per-study checks, the search for retired claims
    that are still stated, and [main]. The tree under [research/] and the repository's
    files are inputs. *)

From stdpp Require Import base list strings.
From Stdlib Require Import Ascii NArith Lia.
From S2P Require Import Prelude Text.

Local Open Scope nat_scope.

Definition NOT_A_STUDY : list text :=
  [lit "__pycache__"; lit "postmortems"; lit "claim_corrections"].

Definition WINDOW : nat := 4.

Definition WITHDRAWAL_MARKERS : list text :=
  lit <$> ["withdraw"; "corrected"; "supersed"; "retired"; "struck"; "~~";
           "must not"; "do not claim"; "no longer"; "was wrong"; "falsified";
           "void"; "amended"; "not established"; "refuted";
           "did not hold"; "not observed"; "not confirmed"; "did not reproduce";
           "was tested and"; "predicted"]%string.

Definition REQUIRED_WHEN_COMPLETE : list text :=
  lit <$> ["Results"; "Interpretation"; "Decision"]%string.

Definition INSTRUMENT_RULE_DATE : text := lit "2026-09-03".

(** ** Reading a SPEC *)

Definition hash (c : N) : bool := (c =? 35)%N.

(** [^#+ (.+)$] on one line. *)
Definition heading (l : text) : option text :=
  match l with
  | c :: l' =>
      if hash c then
        match lstrip_by hash l' with
        | sp :: ((_ :: _) as rest) => if (sp =? 32)%N then Some rest else None
        | _ => None
        end
      else None
  | [] => None
  end.

Definition sections_of (s : text) : list text := strip <$> omap heading (re_lines s).

(** What follows each [^label\s*]: [\s] also matches the end of the line. *)
Fixpoint labelled (label : text) (ls : list text) : list text :=
  match ls with
  | [] => []
  | l :: rest =>
      match drop_prefix label l with
      | Some r => [lstrip_by space (join [newline] (r :: rest))]
      | None => []
      end ++ labelled label rest
  end.

Definition digit (c : N) : bool := between 48 57 c.

(** [[0-9]{4}-[0-9]{2}-[0-9]{2}] at the start. *)
Definition date_prefix (s : text) : option text :=
  let d := take 10 s in
  match d with
  | [a; b; c; e; h1; f; g; h2; x; y] =>
      if forallb digit [a; b; c; e; f; g; x; y] && (h1 =? 45)%N && (h2 =? 45)%N
      then Some d else None
  | _ => None
  end.

Definition date_opened (s : text) : text :=
  match omap date_prefix (labelled (lit "**Date opened:**") (re_lines s)) with
  | d :: _ => d
  | [] => []
  end.

Definition status_of (s : text) : text :=
  match labelled (lit "**Status:**") (re_lines s) with
  | t :: _ => strip (split_by (N.eqb newline) t).1
  | [] => []
  end.

(** A file that is looked for: absent, there but not readable (undecodable text raises
    [UnicodeDecodeError]), or its text. *)
Inductive docfile : Type :=
| Missing
| Unreadable (e : exn)
| Text (s : text).

Section Checks.
Context {uc : Unicode}.

Definition has_section (secs : list text) (want : text) : bool :=
  existsb (fun h => starts_with (lower want) (lower h)) secs.

(** [re.match(r"^DRAFT\b", status, re.I)] *)
Definition is_draft (status : text) : bool :=
  starts_with (lit "draft") ((fun c => if between 65 90 c then (c + 32)%N else c) <$> status)
  && match drop 5 status with c :: _ => negb (word_char c) | [] => true end.

(** ** Quotation *)

Definition closer (c : N) : option N :=
  if (c =? 34)%N then Some 34%N
  else if (c =? 0x201C)%N then Some 0x201D%N
  else if (c =? 96)%N then Some 96%N
  else if (c =? 39)%N then Some 39%N
  else None.

Fixpoint find_close (q : N) (s : text) : option (text * text) :=
  match s with
  | [] => None
  | c :: s' => if (c =? q)%N then Some ([], s')
               else '(body, rest) ← find_close q s'; Some (c :: body, rest)
  end.

(** [re.finditer] of the four kinds of span; the length is fuel enough. *)
Fixpoint spans (fuel : nat) (s : text) : list text :=
  match fuel, s with
  | S fuel', c :: s' =>
      match closer c with
      | Some q =>
          match find_close q s' with
          | Some (body, rest) => (c :: body ++ [q]) :: spans fuel' rest
          | None => spans fuel' s'
          end
      | None => spans fuel' s'
      end
  | _, _ => []
  end.

Definition quoted (line phrase : text) : bool :=
  existsb (infixb (lower phrase)) (spans (length (lower line)) (lower line)).

(** ** The registry of retired claims *)

Definition retired_entry (l : text) : option (text * text) :=
  let l := strip l in
  if bool_decide (l = []) || starts_with (lit "#") l then None
  else
    let '(phrase, prov) := partition_at (lit "::") l in
    let phrase := strip phrase in
    if bool_decide (phrase = []) then None else Some (phrase, strip prov).

Definition retired_of (s : text) : list (text * text) := omap retired_entry (re_lines s).

Definition load_retired (file : docfile) : result (list (text * text)) :=
  match file with
  | Missing => Ok []
  | Unreadable e => Raise e
  | Text s => Ok (retired_of s)
  end.

(** ** The files searched *)

(** A directory: its files, [None] for one that cannot be decoded, and its
    subdirectories. *)
Inductive dtree : Type :=
| DNode (files : list (text * option text)) (subs : list (text * dtree)).

Definition SKIP : list text :=
  lit <$> [".git"; "__pycache__"; "extern"; "build"; "node_modules"]%string.

Definition pruned (d : text) : bool := bool_decide (d ∈ SKIP) || starts_with (lit ".") d.

Definition slash : N := 47%N.

(** [os.walk], top down; [rel] is the path so far with its final slash. *)
Fixpoint markdown_files (rel : text) (t : dtree) : list (text * option text) :=
  match t with
  | DNode files subs =>
      ((fun f => (rel ++ f.1, f.2)) <$> List.filter (fun f => ends_with (lit ".md") f.1) files)
      ++ concat ((fun nd => match nd with
                            | (n, t') => if pruned n then []
                                         else markdown_files (rel ++ n ++ [slash]) t'
                            end) <$> subs)
  end.

(** ** Failures and warnings *)

Inductive failure : Type :=
| DraftOverDecision (study : text)
| MissingSection (study want : text)
| NoInstrument (study opened : text)
| NoReadme (study : text)
| NoProducer (study results : text)
| RetiredClaim (rel : text) (line : nat) (phrase prov : text).

Inductive warning : Type :=
| LogSilent (study : text)
| NothingRetired.

(** A study directory: its entries, with whether each is a directory, and its SPEC. *)
Record study_dir := mkStudy {
  sd_entries : list (text * bool);
  sd_spec : docfile;
}.

(** [study_dirs]: [None] for an entry of [research/] that is not a directory. *)
Definition study_dirs (entries : list (text * option study_dir)) : list (text * study_dir) :=
  omap (fun e => d ← e.2;
                 if bool_decide (e.1 ∈ NOT_A_STUDY) || starts_with (lit ".") e.1 then None
                 else Some (e.1, d))
    (sorted (fun a b => text_leb a.1 b.1) entries).

Definition carries_decision (secs : list text) : bool :=
  has_section secs (lit "Results") && has_section secs (lit "Decision").

Definition has_results (spec : text) : bool :=
  carries_decision (sections_of spec) && infixb (lit "complete") (lower (status_of spec)).

(** Checks 1 and 2. *)
Definition check_spec (name spec : text) : list failure :=
  let secs := sections_of spec in
  (if carries_decision secs && is_draft (status_of spec) then [DraftOverDecision name] else [])
  ++ (if has_results spec then
        (MissingSection name <$>
           List.filter (fun want => negb (has_section secs want)) REQUIRED_WHEN_COMPLETE)
        ++ (let opened := date_opened spec in
            let has_instr := has_section secs (lit "Instrument characterization")
                             || infixb (lit "instrument characterization") (lower spec) in
            if negb (bool_decide (opened = [])) && text_leb INSTRUMENT_RULE_DATE opened
               && negb has_instr
            then [NoInstrument name opened] else [])
      else []).

(** Check 3. *)
Definition check_readme (name : text) (d : study_dir) : list failure :=
  if bool_decide (lit "README.md" ∈ (sd_entries d).*1) then [] else [NoReadme name].

(** Check 4. *)
Definition check_producer (name : text) (d : study_dir) : list failure :=
  match List.filter (fun e => starts_with (lit "results") e.1 && e.2) (sd_entries d) with
  | [] => []
  | res :: _ => if existsb (ends_with (lit ".py")) (sd_entries d).*1 then [] else [NoProducer name res.1]
  end.

(** Check 6; the log is read only for a completed study. *)
Definition check_log (log : docfile) (name spec : text) : result (list warning) :=
  if has_results spec then
    match log with
    | Missing => Ok []
    | Unreadable e => Raise e
    | Text l => Ok (if infixb name l then [] else [LogSilent name])
    end
  else Ok [].

(** One study. Without a SPEC it is not looked at further. *)
Definition check_study (log : docfile) (name : text) (d : study_dir)
    : result (list failure * list warning) :=
  match sd_spec d with
  | Missing => Ok (check_readme name d, [])
  | Unreadable e => Raise e
  | Text spec =>
      match check_log log name spec with
      | Raise e => Raise e
      | Ok ws => Ok (check_readme name d ++ check_spec name spec ++ check_producer name d, ws)
      end
  end.

(** Check 5 on one file; [i] counts from 0. *)
Definition window_lines (lines : list text) (i : nat) : list text :=
  take (i + 1 + WINDOW - (i - WINDOW)) (drop (i - WINDOW) lines).

Definition marker_window (lines : list text) (i : nat) : text :=
  lower (join [32%N] (window_lines lines i)).

Definition exempt_file (rel : text) : bool :=
  ends_with (lit "retired_claims.txt") rel || infixb (lit "/claim_corrections/") (slash :: rel).

Definition states_live (rel : text) (lines : list text) (i : nat) (line phrase : text) : bool :=
  infixb (lower phrase) (lower line)
  && negb (existsb (fun m => infixb m (marker_window lines i)) WITHDRAWAL_MARKERS)
  && negb (ends_with (lit "SPEC.md") rel && quoted line phrase).

Definition check_file (retired : list (text * text)) (f : text * option text) : list failure :=
  if exempt_file f.1 then []
  else
    match f.2 with
    | None => []
    | Some content =>
        let lines := splitlines content in
        concat (imap (fun i line =>
          (fun e => RetiredClaim f.1 (S i) e.1 e.2)
            <$> List.filter (fun e => states_live f.1 lines i line e.1) retired) lines)
    end.

(** ** [main] *)

Record tree := mkTree {
  tr_entries : list (text * option study_dir);
  tr_template : docfile;
  tr_log : docfile;
  tr_retired : docfile;
  tr_repo : dtree;
}.

(** [template_sections]: read, and then not used. *)
Definition read_template (f : docfile) : result unit :=
  match f with Unreadable e => Raise e | _ => Ok () end.

Definition research_report (t : tree) : result (list failure * list warning) :=
  match read_template (tr_template t) with
  | Raise e => Raise e
  | Ok _ =>
      match rmapM (fun s => check_study (tr_log t) s.1 s.2) (study_dirs (tr_entries t)) with
      | Raise e => Raise e
      | Ok per =>
          match load_retired (tr_retired t) with
          | Raise e => Raise e
          | Ok retired =>
              Ok (concat (per.*1) ++ concat (check_file retired <$> markdown_files [] (tr_repo t)),
                  concat (per.*2) ++ (if bool_decide (retired = []) then [NothingRetired] else []))
          end
      end
  end.

Definition check_research (list_only : bool) (t : tree) : result (nat * list failure * list warning) :=
  match research_report t with
  | Raise e => Raise e
  | Ok (fails, warns) =>
      Ok (match fails with
          | [] => 0
          | _ => if list_only then 0 else 1
          end, fails, warns)
  end.
End Checks.

(** A text of several lines. *)
Definition doc (ls : list string) : text := join [newline] (lit <$> ls).

Example headings_read :
  sections_of (doc ["# Ramp"; "##  Results (pilot)"; "#none"; "## "; "text # no"; "### Decision"]%string)
  = [lit "Ramp"; lit "Results (pilot)"; lit "Decision"].
Proof. vm_compute. reflexivity. Qed.

Example header_read :
  let s := doc ["x **Status:** no"; "**Date opened:** soon"; "**Status:**"; " "; "  Draft, v2 ";
                "**Date opened:**2026-09-10x"]%string in
  status_of s = lit "Draft, v2" /\ is_draft (status_of s) = true /\ date_opened s = lit "2026-09-10".
Proof. vm_compute. done. Qed.

(** * Properties *)

(** ** Windows *)

Section WindowFacts.
Context {uc : Unicode}.

Lemma lower_app a b : lower (a ++ b) = lower a ++ lower b.
Proof. unfold lower. by rewrite fmap_app, concat_app. Qed.

Lemma lower_join xs : lower (join [32%N] xs) = join [32%N] (lower <$> xs).
Proof.
  induction xs as [|x [|y ys] IH]; [done|done|].
  change (join [32%N] (x :: y :: ys)) with (x ++ [32%N] ++ join [32%N] (y :: ys)).
  by rewrite !lower_app, IH.
Qed.

Lemma window_lines_lookup lines i l :
  l ∈ window_lines lines i -> exists j, lines !! j = Some l /\ i - WINDOW <= j <= i + WINDOW.
Proof.
  unfold window_lines. intros [k Hk]%list_elem_of_lookup_1.
  apply lookup_take_Some in Hk as [Hk Hlt]. rewrite lookup_drop in Hk.
  exists (i - WINDOW + k). split; [done|]. unfold WINDOW in *. lia.
Qed.

(** A marker found in the window is on one of its lines, unless it has a space and may
    run over a line end. *)
Lemma window_marker lines i m :
  m <> [] -> infixb m (marker_window lines i) = true ->
  (32%N ∈ m /\ infixb m (marker_window lines i) = true) \/
  exists j l, lines !! j = Some l /\ i - WINDOW <= j <= i + WINDOW /\ infixb m (lower l) = true.
Proof.
  intros Hne Hm. destruct (decide (32%N ∈ m)) as [Hs|Hs]; [by left|right].
  unfold marker_window in Hm. rewrite lower_join in Hm.
  apply infixb_join_one in Hm as (x & Hx & Hi); [|done|by intros c Hc ->].
  apply list_elem_of_fmap in Hx as (l & -> & Hl).
  apply window_lines_lookup in Hl as (j & Hj & ?). eauto.
Qed.
End WindowFacts.

Lemma markers_not_empty m : m ∈ WITHDRAWAL_MARKERS -> m <> [].
Proof.
  assert (Forall (fun m => m <> []) WITHDRAWAL_MARKERS) as H by decide_now.
  rewrite Forall_forall in H. apply H.
Qed.

(** ** A clean report *)

Section CleanFacts.
Context {uc : Unicode}.

Lemma concat_nil_elem {A} (xs : list (list A)) x : concat xs = [] -> x ∈ xs -> x = [].
Proof.
  induction xs as [|y ys IH]; simpl; [by intros _ ?%not_elem_of_nil|].
  intros [H1 H2]%app_eq_nil [->|Hx]%elem_of_cons; auto.
Qed.

(** Status 0 without [--list]: every study was checked, the registry was read, and neither
    gave a failure. *)
Lemma check_research_zero t fails warns :
  check_research false t = Ok (0, fails, warns) ->
  (forall name d, (name, d) ∈ study_dirs (tr_entries t) ->
     exists ws, check_study (tr_log t) name d = Ok ([], ws)) /\
  exists retired, load_retired (tr_retired t) = Ok retired /\
    forall f, f ∈ markdown_files [] (tr_repo t) -> check_file retired f = [].
Proof.
  unfold check_research, research_report. intros H.
  destruct (read_template _); [|done]. destruct (rmapM _ _) as [per|] eqn:Ep; [|done].
  destruct (load_retired _) as [retired|] eqn:Er; [|done].
  destruct (concat (per.*1) ++ _) as [|x l] eqn:Ef; [|done]. apply app_eq_nil in Ef as [E1 E2]. split.
  - intros name d [i Hi]%list_elem_of_lookup_1. apply rmapM_Ok in Ep.
    destruct (Forall2_lookup_l _ _ _ _ _ Ep Hi) as ([fs ws] & Hp & E). exists ws. simpl in E. rewrite E.
    rewrite (concat_nil_elem _ fs E1); [done|]. apply list_elem_of_fmap. exists (fs, ws).
    split; [done|]. by eapply list_elem_of_lookup_2.
  - exists retired. split; [done|]. intros f Hf. apply (concat_nil_elem _ _ E2).
    apply list_elem_of_fmap. eauto.
Qed.

(** A study with a SPEC that passed. *)
Lemma check_study_clean log name d spec ws :
  check_study log name d = Ok ([], ws) -> sd_spec d = Text spec ->
  check_spec name spec = [] /\ check_producer name d = [].
Proof.
  unfold check_study. intros H E. rewrite E in H. destruct (check_log _ _ _); [|done].
  injection H as H _. apply app_eq_nil in H as [_ H]. by apply app_eq_nil in H.
Qed.

Lemma check_study_readme log name d ws :
  check_study log name d = Ok ([], ws) -> lit "README.md" ∈ (sd_entries d).*1.
Proof.
  unfold check_study, check_readme. destruct (sd_spec d); [|done|destruct (check_log _ _ _); [|done]];
    case_bool_decide; simpl; congruence.
Qed.

Lemma check_spec_clean name spec :
  check_spec name spec = [] ->
  (carries_decision (sections_of spec) = true -> is_draft (status_of spec) = false) /\
  (has_results spec = true ->
     has_section (sections_of spec) (lit "Interpretation") = true /\
     (date_opened spec <> [] -> text_leb INSTRUMENT_RULE_DATE (date_opened spec) = true ->
      has_section (sections_of spec) (lit "Instrument characterization") = true \/
      infixb (lit "instrument characterization") (lower spec) = true)).
Proof.
  unfold check_spec. intros [Hd Hm]%app_eq_nil. split.
  - intros Hcd. rewrite Hcd in Hd. by destruct (is_draft _).
  - intros Hres. rewrite Hres in Hm. apply app_eq_nil in Hm as [Hm Hi]. split.
    + apply fmap_nil_inv in Hm. apply not_false_iff_true. intros E.
      assert (lit "Interpretation" ∈ @nil text) as Hx; [|by apply not_elem_of_nil in Hx].
      rewrite <- Hm. apply elem_of_bfilter. split; [right; by left|by rewrite E].
    + intros Ho Hdate. cbv zeta in Hi. rewrite Hdate, bool_decide_false in Hi by done. cbn [negb andb] in Hi.
      apply orb_true_iff, not_false_iff_true. intros E. by rewrite E in Hi.
Qed.

Lemma check_producer_clean name d r :
  check_producer name d = [] -> (r, true) ∈ sd_entries d -> starts_with (lit "results") r = true ->
  exists p, p ∈ (sd_entries d).*1 /\ ends_with (lit ".py") p = true.
Proof.
  unfold check_producer. intros H Hr Hst.
  assert ((r, true) ∈ List.filter (fun e => starts_with (lit "results") e.1 && e.2) (sd_entries d))
    as Hf by (apply elem_of_bfilter; simpl; by rewrite Hst).
  destruct (List.filter _ (sd_entries d)) as [|res ?]; [by apply not_elem_of_nil in Hf|].
  destruct (existsb _ _) eqn:E; [|done]. apply existsb_exists in E as (p & Hp1 & Hp2).
  exists p. by rewrite list_elem_of_In.
Qed.

Lemma clean_line retired rel content i line phrase prov :
  check_file retired (rel, Some content) = [] -> exempt_file rel = false ->
  (phrase, prov) ∈ retired -> splitlines content !! i = Some line ->
  states_live rel (splitlines content) i line phrase = false.
Proof.
  unfold check_file. simpl. intros H He Hin Hl. rewrite He in H.
  destruct (states_live _ _ _ _ _) eqn:E; [|done]. exfalso.
  assert (RetiredClaim rel (S i) phrase prov ∈ @nil failure) as Hx; [|by apply not_elem_of_nil in Hx].
  rewrite <- H. apply elem_of_concat. eexists. split.
  - apply elem_of_lookup_imap. eexists i, line. split; [reflexivity|done].
  - apply list_elem_of_fmap. exists (phrase, prov). split; [done|].
    by apply elem_of_bfilter.
Qed.
End CleanFacts.

(** C23. What exit status 0 of the record checks guarantees. Every study has a README, and
    its SPEC, if it has one, could be read. Of a study with a SPEC: one with Results and a
    Decision is not marked DRAFT; a completed one has an Interpretation and, if it was
    opened on or after the date of the rule, characterizes its instrument; committed
    results have a script beside them. (Of a study without a SPEC only the README is
    checked.) The registry of retired claims could be read, and a retired claim on any line
    of a Markdown file outside the exempt ones is either quoted in a SPEC or has a
    withdrawal marker on one of the four lines before or after it (or one with a space in
    it that runs over a line end). *)
Theorem check_research_clean {uc : Unicode} t fails warns :
  check_research false t = Ok (0, fails, warns) ->
  (forall name d, (name, d) ∈ study_dirs (tr_entries t) ->
     lit "README.md" ∈ (sd_entries d).*1 /\ (forall e, sd_spec d <> Unreadable e) /\
     forall spec, sd_spec d = Text spec ->
       (carries_decision (sections_of spec) = true -> is_draft (status_of spec) = false) /\
       (has_results spec = true ->
          has_section (sections_of spec) (lit "Interpretation") = true /\
          (date_opened spec <> [] -> text_leb INSTRUMENT_RULE_DATE (date_opened spec) = true ->
           has_section (sections_of spec) (lit "Instrument characterization") = true \/
           infixb (lit "instrument characterization") (lower spec) = true)) /\
       (forall r, (r, true) ∈ sd_entries d -> starts_with (lit "results") r = true ->
          exists p, p ∈ (sd_entries d).*1 /\ ends_with (lit ".py") p = true)) /\
  exists retired, load_retired (tr_retired t) = Ok retired /\
   forall rel content i line phrase prov,
     (rel, Some content) ∈ markdown_files [] (tr_repo t) -> exempt_file rel = false ->
     (phrase, prov) ∈ retired -> splitlines content !! i = Some line ->
     infixb (lower phrase) (lower line) = true ->
     (ends_with (lit "SPEC.md") rel = true /\ quoted line phrase = true) \/
     exists m, m ∈ WITHDRAWAL_MARKERS /\
       ((32%N ∈ m /\ infixb m (marker_window (splitlines content) i) = true) \/
        exists j l, splitlines content !! j = Some l /\ i - 4 <= j <= i + 4 /\
          infixb m (lower l) = true).
Proof.
  intros (Hstudies & retired & Hret & Hfiles)%check_research_zero. split.
  - intros name d Hin. destruct (Hstudies name d Hin) as [ws Hs].
    split; [by eapply check_study_readme|]. split; [intros e He; unfold check_study in Hs; by rewrite He in Hs|].
    intros spec Hspec. destruct (check_study_clean _ _ _ _ _ Hs Hspec) as [Hc Hp].
    apply check_spec_clean in Hc as [H1 H2]. split_and!; [done|done|].
    intros r Hr Hst. by eapply check_producer_clean.
  - exists retired. split; [done|]. intros rel content i line phrase prov Hf He Hr Hl Hi.
    pose proof (clean_line _ _ _ _ _ _ _ (Hfiles _ Hf) He Hr Hl) as Hs.
    unfold states_live in Hs. rewrite Hi in Hs. cbn [andb] in Hs.
    apply andb_false_iff in Hs as [Hs|Hs]; apply negb_false_iff in Hs.
    + right. apply existsb_exists in Hs as (m & Hm & Hw). apply list_elem_of_In in Hm.
      exists m. split; [done|]. apply (window_marker _ _ _ (markers_not_empty m Hm) Hw).
    + left. by apply andb_true_iff in Hs.
Qed.

Definition demo_spec : text :=
  doc ["# Ramp"; "**Status:** Complete"; "**Date opened:** 2026-09-10"; "## Results"; "";
       "The ramp is 'a 6 s ramp'."; "## Interpretation (current)"; "## Decision";
       "Instrument characterization: above."]%string.

Definition demo_notes : text :=
  doc ["Recovery shows A 6 s Ramp."; ""; "That claim was withdrawn."]%string.

Definition demo_tree : tree := {|
  tr_entries := [(lit "ramp", Some (mkStudy [(lit "README.md", false); (lit "run.py", false);
                                             (lit "results_a", true)] (Text demo_spec)));
                 (lit "README.md", None)];
  tr_template := Missing;
  tr_log := Text (lit "ramp: stop");
  tr_retired := Text (doc ["# dead claims"; "a 6 s ramp :: #48"]%string);
  tr_repo := DNode [(lit "notes.md", Some demo_notes)]
               [(lit "build", DNode [(lit "x.md", Some (lit "a 6 s ramp"))] []);
                (lit "ramp", DNode [(lit "SPEC.md", Some demo_spec)] [])];
|}.

Lemma check_research_clean_witness :
  check_research false demo_tree = Ok (0, [], []) /\
  exists m j l, m ∈ WITHDRAWAL_MARKERS /\ splitlines demo_notes !! j = Some l /\ j <= 4 /\
    infixb m (lower l) = true.
Proof.
  split; [vm_compute; reflexivity|].
  destruct (check_research_clean demo_tree [] [] ltac:(vm_compute; reflexivity)) as (_ & ret & Hret & H).
  vm_compute in Hret. injection Hret as <-.
  destruct (H (lit "notes.md") demo_notes 0 (lit "Recovery shows A 6 s Ramp.")
              (lit "a 6 s ramp") (lit "#48")) as [[Hx _]|(m & Hm & [[_ Hx]|(j & l & Hj & ? & Hi)])].
  - vm_compute. left.
  - reflexivity.
  - vm_compute. left.
  - reflexivity.
  - reflexivity.
  - vm_compute in Hx. done.
  - exists (lit "withdraw"), 2, (lit "That claim was withdrawn.").
    split; [left|]. split; [reflexivity|]. split; [lia|reflexivity].
  - exists m, j, l. split_and!; [done|done|lia|done].
Defined.

(** ** What the checks do not see *)

(** Of the sections required of a completed SPEC only Interpretation can be reported
    missing: having the other two is part of what "completed" means here. And the
    template has no influence on the report. *)
Lemma missing_only_interpretation {uc : Unicode} name spec want :
  MissingSection name want ∈ check_spec name spec -> want = lit "Interpretation".
Proof.
  intros [H|H]%elem_of_app.
  { destruct (_ && _); [by apply list_elem_of_singleton in H|by apply not_elem_of_nil in H]. }
  destruct (has_results spec) eqn:E; [|by apply not_elem_of_nil in H].
  apply elem_of_app in H as [H|H].
  - apply list_elem_of_fmap in H as (w & [= <-] & Hw).
    apply elem_of_bfilter in Hw as [Hw Hn]. unfold has_results, carries_decision in E. breflect.
    unfold REQUIRED_WHEN_COMPLETE in Hw. simpl in Hw.
    repeat (apply elem_of_cons in Hw as [->|Hw]); [congruence|done|congruence|].
    by apply not_elem_of_nil in Hw.
  - cbv zeta in H. destruct (_ && _); [by apply list_elem_of_singleton in H|by apply not_elem_of_nil in H].
Qed.

Lemma template_unused {uc : Unicode} e tmpl log retired repo b :
  (forall x, tmpl <> Unreadable x) ->
  check_research b (mkTree e tmpl log retired repo) = check_research b (mkTree e Missing log retired repo).
Proof. intros H. destruct tmpl as [|x|s]; [done|by destruct (H x)|done]. Qed.

(** A study without a SPEC may commit results that no script produces. *)
Example no_spec_no_producer_check :
  let t := mkTree [(lit "old", Some (mkStudy [(lit "README.md", false); (lit "results", true)] Missing))]
             Missing Missing Missing (DNode [] []) in
  check_research false t = Ok (0, [], [NothingRetired]).
Proof. vm_compute. reflexivity. Qed.

(** A SPEC that cannot be decoded ends the check with its exception. *)
Example undecodable_spec_raises :
  let t := mkTree [(lit "bad", Some (mkStudy [(lit "README.md", false)] (Unreadable (OtherError "UnicodeDecodeError"))))]
             Missing Missing Missing (DNode [] []) in
  check_research false t = Raise (OtherError "UnicodeDecodeError").
Proof. vm_compute. reflexivity. Qed.

(** Two apostrophes are taken for quotation marks: a claim asserted between them in a
    SPEC is exempt. *)
Lemma apostrophes_quote :
  quoted (lit "It's recovered with a 6 s ramp, and that's final.") (lit "a 6 s ramp") = true.
Proof. vm_compute. reflexivity. Qed.

(** ** The registry round trip *)

(** A registry line as it is written by hand. *)
Definition render_entry (e : text * text) : text := e.1 ++ lit " :: " ++ e.2.

(** An entry that can be written: a phrase and its provenance, neither empty nor with
    space at an end, on one line, the phrase no comment and without the separator. *)
Record wf_entry (e : text * text) : Prop := {
  we_phrase : e.1 <> [] /\ stripped_by space e.1;
  we_prov : e.2 <> [] /\ stripped_by space e.2;
  we_line : newline ∉ e.1 /\ newline ∉ e.2;
  we_comment : starts_with (lit "#") e.1 = false;
  we_sep : infixb (lit "::") e.1 = false;
}.

Lemma infixb_app_r p s t : infixb p (s ++ t) = false -> infixb p t = false.
Proof.
  intros H. destruct (infixb p t) eqn:E; [|done].
  rewrite <- H. symmetry. apply infixb_spec in E as (a & b & ->).
  apply infixb_spec. exists (s ++ a), b. by rewrite <- app_assoc.
Qed.

Lemma starts_with_infixb p s : infixb p s = false -> starts_with p s = false.
Proof. destruct s; cbn [infixb]; by intros [H _]%orb_false_iff. Qed.

Lemma retired_entry_render e : wf_entry e -> retired_entry (render_entry e) = Some e.
Proof.
  destruct e as [p v]. intros [[Hp Hps] [Hv Hvs] _ Hc Hsep]; simpl in *.
  unfold retired_entry, render_entry. simpl fst. simpl snd.
  assert (stripped_by space (p ++ lit " :: " ++ v)) as Hst.
  { split; [by destruct p; [|apply Hps]|]. rewrite !rev_app_distr.
    destruct Hvs as [_ Hvs]. destruct (rev v) as [|c r] eqn:E; [|done].
    apply (f_equal (@rev N)) in E. by rewrite rev_involutive in E. }
  rewrite (strip_by_fix _ _ Hst : strip _ = _).
  rewrite bool_decide_false by (by destruct p).
  replace (starts_with (lit "#") (p ++ lit " :: " ++ v)) with false.
  2:{ destruct p as [|c p]; [done|]. change (lit "#") with [35%N] in *.
      unfold starts_with in *. cbn [app drop_prefix] in *. by destruct (N.eqb 35 c). }
  replace (p ++ lit " :: " ++ v) with ((p ++ [32%N]) ++ lit "::" ++ [32%N] ++ v)
    by (by rewrite <- !app_assoc).
  simpl orb. cbv iota. rewrite partition_at_spec.
  - assert (strip (p ++ [32%N]) = p) as ->.
    { apply (strip_by_spaces space [] [32%N] p); [done|by repeat constructor|done|done]. }
    assert (strip ([32%N] ++ v) = v) as ->.
    { rewrite <- (app_nil_r v) at 1.
      apply (strip_by_spaces space [32%N] [] v); [by repeat constructor|done|done|done]. }
    by rewrite bool_decide_false.
  - done.
  - intros l c r E. apply app_eq_inv in E as [(k & -> & E)|(k & -> & E)].
    + destruct k as [|c' k]; simplify_eq/=; [done|].
      apply infixb_app_r, starts_with_infixb in Hsep. change (lit "::") with [58%N; 58%N] in *.
      unfold starts_with in *. destruct k as [|c'' k]; cbn [app drop_prefix] in *; by repeat case_match.
    + destruct k as [|c' [|]]; simplify_eq/=. done.
Qed.

(** A retirement cannot be lost in writing it down: the registry written one entry a
    line, phrase, [::], provenance, is read back entry for entry. *)
Theorem load_retired_roundtrip entries :
  Forall wf_entry entries ->
  load_retired (Text (join [newline] (render_entry <$> entries))) = Ok entries.
Proof.
  intros H. unfold load_retired, retired_of. f_equal. destruct entries as [|e es]; [done|].
  rewrite re_lines_join; [|done|].
  - induction H as [|e' es' He _ IH]; [done|].
    rewrite fmap_cons. simpl. rewrite retired_entry_render by done. f_equal. exact IH.
  - apply Forall_fmap. eapply Forall_impl; [exact H|]. intros [p v] [_ _ [H1 H2] _ _].
    unfold compose, render_entry. rewrite !elem_of_app. intros [?|[Hx|?]]; [done| |done].
    revert Hx. decide_now.
Qed.

Lemma load_retired_roundtrip_witness :
  load_retired (Text (join [newline] (render_entry <$>
    [(lit "a 6 s ramp", lit "#48"); (lit "~0.3 s bound", lit "PR #51")]))) =
  Ok [(lit "a 6 s ramp", lit "#48"); (lit "~0.3 s bound", lit "PR #51")].
Proof.
  apply (load_retired_roundtrip [(lit "a 6 s ramp", lit "#48"); (lit "~0.3 s bound", lit "PR #51")]).
  repeat (apply Forall_cons; split); [..|by apply Forall_nil].
  all: split; simpl; try done; try (split; [done|split; reflexivity]); split; decide_now.
Defined.

(** ** The walk *)

(** A file of the tree, by the directories above it. *)
Inductive file_at : dtree -> list text -> text -> option text -> Prop :=
| file_here files subs f c : (f, c) ∈ files -> file_at (DNode files subs) [] f c
| file_below files subs d t ds f c :
    (d, t) ∈ subs -> file_at t ds f c -> file_at (DNode files subs) (d :: ds) f c.

Definition path_of (ds : list text) (f : text) : text := concat ((fun d => d ++ [slash]) <$> ds) ++ f.

(** Induction over the nested directories. *)
Lemma dtree_nested_ind (P : dtree -> Prop) :
  (forall files subs, (forall d t, (d, t) ∈ subs -> P t) -> P (DNode files subs)) ->
  forall t, P t.
Proof.
  intros H. fix IH 1. intros [files subs]. apply H.
  assert (Forall (fun nd : text * dtree => P nd.2) subs) as Hall.
  { induction subs as [|[d t] subs IHs]; [apply Forall_nil; exact I|].
    apply Forall_cons. split; [exact (IH t)|exact IHs]. }
  clear IH. intros d t Hin. rewrite Forall_forall in Hall. apply (Hall (d, t) Hin).
Qed.

(** Every Markdown file is searched for retired claims, and only those: the walk
    yields the files with the extension that have no skipped or hidden directory above
    them, each under its path from the root. *)
Theorem markdown_files_exact t rel path c :
  (path, c) ∈ markdown_files rel t <->
  exists ds f, file_at t ds f c /\ Forall (fun d => pruned d = false) ds /\
    ends_with (lit ".md") f = true /\ path = rel ++ path_of ds f.
Proof.
  revert rel path c. induction t as [files subs IH] using dtree_nested_ind. intros rel path c.
  cbn [markdown_files]. rewrite elem_of_app, elem_of_concat. split.
  - intros [H|(l & ([d t] & -> & Hin)%list_elem_of_fmap & H)].
    + apply list_elem_of_fmap in H as ([f c'] & [= -> ->] & [Hf He]%elem_of_bfilter).
      exists [], f. split; [by constructor|done].
    + destruct (pruned d) eqn:E; [by apply not_elem_of_nil in H|].
      apply (IH d t Hin) in H as (ds & f & Hf & Hds & He & ->).
      exists (d :: ds), f. split; [by econstructor|]. split; [by constructor|]. split; [done|].
      unfold path_of. simpl. by rewrite <- !app_assoc.
  - intros (ds & f & Hf & Hds & He & ->). inversion Hf as [? ? ? ? Hin|? ? d t ds' ? ? Hin Hf']; subst.
    + left. apply list_elem_of_fmap. exists (f, c). split; [done|]. by apply elem_of_bfilter.
    + apply Forall_cons in Hds as [Hd Hds]. right. eexists. split.
      { apply list_elem_of_fmap. exists (d, t). split; [reflexivity|done]. }
      rewrite Hd. apply (IH d t Hin). exists ds', f. split_and!; try done.
      unfold path_of. simpl. by rewrite <- !app_assoc.
Qed.
