(* ===== verification/CheckIndex.v ===== *)
(** * The check of the experiment index

    [research/check_index.py]: the directories of [research/] against those its README
    names and links to. *)

From stdpp Require Import base list strings.
From Stdlib Require Import Ascii NArith Lia.
From S2P Require Import Prelude Text.

Local Open Scope nat_scope.

Definition EXEMPT : list text := [lit "__pycache__"].

(** The entries of [research/], with whether each is a directory. *)
Definition research_dirs (entries : list (text * bool)) : list text :=
  (List.filter (fun e => e.2 && negb (bool_decide (e.1 ∈ EXEMPT)) && negb (starts_with (lit ".") e.1))
     (sorted (fun a b => text_leb a.1 b.1) entries)).*1.

(** ** The patterns *)

(** [[A-Za-z0-9_-]], and with a dot, and with a slash. *)
Definition name_char (c : N) : bool :=
  between 48 57 c || between 65 90 c || between 97 122 c || (c =? 95)%N || (c =? 45)%N.
Definition file_char (c : N) : bool := name_char c || (c =? 46)%N.
Definition path_char (c : N) : bool := file_char c || (c =? 47)%N.

(** The longest run of [p]; no class here contains the character that must follow it. *)
Fixpoint span (p : N -> bool) (s : text) : text * text :=
  match s with
  | c :: s' => if p c then let '(a, b) := span p s' in (c :: a, b) else ([], s)
  | [] => ([], [])
  end.

(** A pattern tried at one position: the group and what follows the match. *)
Abbreviation matcher := (text -> option (text * text)).

(** [\]\(([A-Za-z0-9_./-]+)/\)]: the class contains the slash, so the group is the run
    without its last one. *)
Definition link (s : text) : option (text * text) :=
  r ← drop_prefix (lit "](") s;
  let '(run, rest) := span path_char r in
  match rev run, rest with
  | 47%N :: ((_ :: _) as g), 41%N :: rest' => Some (rev g, rest')
  | _, _ => None
  end.

(** The same behind [(?!https?:)]. *)
Definition rel_link (s : text) : option (text * text) :=
  r ← drop_prefix (lit "](") s;
  if starts_with (lit "http:") r || starts_with (lit "https:") r then None else link s.

(** [`([A-Za-z0-9_-]+)/`] *)
Definition tick_dir (s : text) : option (text * text) :=
  r ← drop_prefix (lit "`") s;
  let '(g, rest) := span name_char r in
  match g with
  | [] => None
  | _ => rest' ← drop_prefix (lit "/`") rest; Some (g, rest')
  end.

(** [`([A-Za-z0-9_-]+)/[A-Za-z0-9_.-]+`] *)
Definition tick_file (s : text) : option (text * text) :=
  r ← drop_prefix (lit "`") s;
  let '(g, rest) := span name_char r in
  match g with
  | [] => None
  | _ =>
      r2 ← drop_prefix (lit "/") rest;
      let '(f, rest2) := span file_char r2 in
      match f with
      | [] => None
      | _ => rest' ← drop_prefix (lit "`") rest2; Some (g, rest')
      end
  end.

(** [re.findall]: the groups, left to right, without overlap. *)
Fixpoint findall (m : matcher) (fuel : nat) (s : text) : list text :=
  match fuel, s with
  | S fuel', _ :: s' =>
      match m s with
      | Some (g, rest) => g :: findall m fuel' rest
      | None => findall m fuel' s'
      end
  | _, _ => []
  end.

Definition find_in (m : matcher) (s : text) : list text := findall m (length s) s.

(** [m.strip("./").split("/")[0]] *)
Definition first_dir (g : text) : text :=
  (split_by (N.eqb 47) (strip_by (fun c => (c =? 46) || (c =? 47))%N g)).1.

Definition mentioned_dirs (s : text) : list text :=
  (first_dir <$> find_in link s) ++ find_in tick_dir s ++ find_in tick_file s.

Definition linked_dirs (s : text) : list text :=
  List.filter (fun d => negb (bool_decide (d ∈ [lit ".."; lit "."])))
    (first_dir <$> find_in rel_link s).

(** ** [main] *)

Definition missing (entries : list (text * bool)) (s : text) : list text :=
  List.filter (fun d => negb (bool_decide (d ∈ mentioned_dirs s))) (research_dirs entries).

Definition dangling_dirs (entries : list (text * bool)) (s : text) : list text :=
  sorted text_leb (List.filter (fun d => negb (bool_decide (d ∈ research_dirs entries ++ EXEMPT)))
                     (remove_dups (linked_dirs s))).

Definition check_index (list_only : bool) (index : option text) (entries : list (text * bool)) : nat :=
  match index with
  | None => 1
  | Some s =>
      match missing entries s, dangling_dirs entries s with
      | [], [] => 0
      | _, _ => if list_only then 0 else 1
      end
  end.

(** * Properties *)

Lemma span_stop p a c b : Forall (fun x => p x = true) a -> p c = false -> span p (a ++ c :: b) = (a, c :: b).
Proof. induction 1 as [|x a Hx _ IH]; intros Hc; simpl; [by rewrite Hc|]. by rewrite Hx, IH. Qed.

Lemma span_spec p s : s = (span p s).1 ++ (span p s).2 /\ Forall (fun x => p x = true) (span p s).1.
Proof.
  induction s as [|c s [Heq Hall]]; simpl; [done|]. destruct (p c) eqn:E; [|done].
  destruct (span p s) as [a b]. simpl in *. split; [by f_equal|by constructor].
Qed.

(** What a link match consumes: no bracket opens inside it. *)
Lemma rel_link_consumed s g rest :
  rel_link s = Some (g, rest) ->
  exists run, s = lit "](" ++ run ++ 41%N :: rest /\ Forall (fun x => path_char x = true) run.
Proof.
  unfold rel_link, link. intros H. apply bind_Some in H as (r & Hr & H).
  destruct (_ || _); [done|]. apply bind_Some in H as (r' & Hr' & H). simplify_eq.
  apply drop_prefix_Some in Hr. subst s. destruct (span_spec path_char r) as [Heq Hall].
  destruct (span path_char r) as [run rest0]. simpl in *.
  exists run. split; [|done]. rewrite Heq. f_equal. f_equal.
  destruct (rev run) as [|x xs]; [done|]. repeat case_match; simplify_eq/=; done.
Qed.

Definition plain_name (d : text) : Prop := d <> [] /\ Forall (fun x => name_char x = true) d.

Lemma name_path c : name_char c = true -> path_char c = true.
Proof. unfold path_char, file_char. by intros ->. Qed.

(** A name is followed by its slash before any colon. *)
Lemma no_scheme q d b :
  47%N ∉ q -> Forall (fun x => name_char x = true) d -> starts_with (q ++ [58%N]) (d ++ 47%N :: b) = false.
Proof.
  intros Hq Hd. destruct (starts_with _ _) eqn:E; [|done]. exfalso.
  apply starts_with_spec in E as [r E]. rewrite <- app_assoc in E. rewrite Forall_forall in Hd.
  apply app_eq_inv in E as [(k & -> & E)|(k & -> & E)]; destruct k as [|c k]; simplify_eq/=.
  - assert (name_char 58 = true) by (apply Hd, elem_of_app; right; by left). done.
  - destruct Hq. apply elem_of_app. right. by left.
Qed.

Lemma rel_link_here d b : plain_name d -> rel_link (lit "](" ++ d ++ lit "/)" ++ b) = Some (d, b).
Proof.
  intros [Hne Hd]. unfold rel_link, link. change (lit "/)" ++ b) with (47%N :: 41%N :: b).
  rewrite (proj2 (drop_prefix_Some (lit "](") _ _) eq_refl). simpl.
  change (lit "http:") with (lit "http" ++ [58%N]). change (lit "https:") with (lit "https" ++ [58%N]).
  rewrite !no_scheme by (done || decide_now). simpl.
  replace (d ++ 47%N :: 41%N :: b) with ((d ++ [47%N]) ++ 41%N :: b) by (by rewrite <- app_assoc).
  rewrite (span_stop path_char (d ++ [47%N])); [|apply Forall_app_2; [|by repeat constructor]|done].
  - rewrite rev_app_distr. simpl. destruct (rev d) as [|x xs] eqn:E.
    + apply (f_equal (@rev N)) in E. by rewrite rev_involutive in E.
    + change (rev xs ++ [x]) with (rev (x :: xs)). by rewrite <- E, rev_involutive.
  - eapply Forall_impl; [exact Hd|]. apply name_path.
Qed.

(** A match that starts earlier ends before the next link opens. *)
Lemma link_not_crossed c a x run rest :
  c :: a ++ lit "](" ++ x = lit "](" ++ run ++ 41%N :: rest ->
  Forall (fun x => path_char x = true) run ->
  exists a', rest = a' ++ lit "](" ++ x /\ length a' <= length a.
Proof.
  change (lit "](") with [93%N; 40%N]. intros E Hrun. injection E as -> E.
  replace (40%N :: run ++ 41%N :: rest) with ((40%N :: run ++ [41%N]) ++ rest) in E
    by (simpl; by rewrite <- app_assoc).
  apply app_eq_inv in E as [(k & -> & E)|(k & Hk & E)].
  - exists k. split; [done|]. rewrite length_app. lia.
  - destruct k as [|y k]; [by exists []; split; [|simpl; lia]|]. simplify_eq/=.
    assert (93%N ∈ 40%N :: run ++ [41%N]) as Hin by (rewrite Hk; apply elem_of_app; right; by left).
    apply elem_of_cons in Hin as [?|[Hin|Hin%list_elem_of_singleton]%elem_of_app]; [done| |done].
    rewrite Forall_forall in Hrun. by specialize (Hrun _ Hin).
Qed.

(** Every link to a directory by a plain name is found, wherever it stands. *)
Lemma find_link a d b fuel :
  plain_name d -> length (a ++ lit "](" ++ d ++ lit "/)" ++ b) <= fuel ->
  d ∈ findall rel_link fuel (a ++ lit "](" ++ d ++ lit "/)" ++ b).
Proof.
  intros Hd. set (x := d ++ lit "/)" ++ b). revert a. induction fuel as [|fuel IH]; intros a Hl.
  { rewrite !length_app in Hl. change (length (lit "](")) with 2 in Hl. lia. }
  destruct a as [|c a].
  { pose proof (rel_link_here d b Hd) as H. fold x in H.
    change ([] ++ lit "](" ++ x) with (93%N :: 40%N :: x).
    change (lit "](" ++ x) with (93%N :: 40%N :: x) in H. cbn [findall]. rewrite H. by left. }
  cbn [app length] in Hl. cbn [app findall]. destruct (rel_link (c :: a ++ _)) as [[g rest]|] eqn:E.
  - apply rel_link_consumed in E as (run & E & Hrun). right.
    destruct (link_not_crossed _ _ _ _ _ E Hrun) as (a' & -> & Hlen).
    apply IH. rewrite !length_app in *. lia.
  - apply IH. lia.
Qed.

Lemma first_dir_plain d : plain_name d -> first_dir d = d.
Proof.
  intros [Hne Hd]. unfold first_dir. rewrite Forall_forall in Hd.
  assert (forall c, c ∈ d -> ((c =? 46) || (c =? 47))%N = false) as Hc.
  { intros c Hin. specialize (Hd c Hin).
    destruct (N.eqb_spec c 46) as [->|]; [done|]. by destruct (N.eqb_spec c 47) as [->|]. }
  rewrite strip_by_fix.
  - rewrite split_by_none; [done|]. intros c Hin. specialize (Hc c Hin).
    apply orb_false_iff in Hc as [_ Hc]. by rewrite N.eqb_sym.
  - split.
    + destruct d; [done|]. apply Hc. by left.
    + destruct (rev d) as [|c r] eqn:E; [done|]. apply Hc. rewrite (Permutation_rev d), E. by left.
Qed.

Lemma linked_plain a d b :
  plain_name d -> d ∈ linked_dirs (a ++ lit "](" ++ d ++ lit "/)" ++ b).
Proof.
  intros Hd. unfold linked_dirs. apply elem_of_bfilter. split.
  - apply list_elem_of_fmap. exists d. split; [by rewrite first_dir_plain|]. by apply find_link.
  - apply negb_true_iff, bool_decide_eq_false. intros Hin. destruct Hd as [_ Hd].
    repeat (apply elem_of_cons in Hin as [->|Hin]); [by inversion Hd..|by apply not_elem_of_nil in Hin].
Qed.

(** A clean index agrees with the tree. The check passes exactly when the index
    exists, names every research directory, and links to no directory that is not there;
    and a Markdown link to a plain directory name is seen wherever it stands in the
    text, so after a pass its directory exists. *)
Theorem check_index_exact index entries :
  (check_index false index entries = 0 <->
     exists s, index = Some s /\
       (forall d, d ∈ research_dirs entries -> d ∈ mentioned_dirs s) /\
       (forall d, d ∈ linked_dirs s -> d ∈ research_dirs entries \/ d ∈ EXEMPT)) /\
  (check_index false index entries = 0 -> forall a d b, plain_name d ->
     index = Some (a ++ lit "](" ++ d ++ lit "/)" ++ b) ->
     d ∈ research_dirs entries \/ d ∈ EXEMPT).
Proof.
  assert (check_index false index entries = 0 <->
     exists s, index = Some s /\
       (forall d, d ∈ research_dirs entries -> d ∈ mentioned_dirs s) /\
       (forall d, d ∈ linked_dirs s -> d ∈ research_dirs entries \/ d ∈ EXEMPT)) as H.
  { unfold check_index. destruct index as [s|]; [|naive_solver].
    assert (missing entries s = [] <-> forall d, d ∈ research_dirs entries -> d ∈ mentioned_dirs s) as H1.
    { unfold missing. rewrite bfilter_nil. setoid_rewrite negb_false_iff.
      by setoid_rewrite bool_decide_eq_true. }
    assert (dangling_dirs entries s = [] <->
              forall d, d ∈ linked_dirs s -> d ∈ research_dirs entries \/ d ∈ EXEMPT) as H2.
    { unfold dangling_dirs. rewrite sorted_nil, bfilter_nil. setoid_rewrite negb_false_iff.
      setoid_rewrite bool_decide_eq_true. setoid_rewrite elem_of_remove_dups.
      by setoid_rewrite elem_of_app. }
    destruct (missing entries s), (dangling_dirs entries s); naive_solver. }
  split; [exact H|]. intros Hc a d b Hd Hi. apply H in Hc as (s & Hs & _ & Hl).
  apply Hl. simplify_eq. by apply linked_plain.
Qed.

Definition demo_index : text := lit "see [the ramp](ramp/) and `gate/run.py`, [top](https://x.y/z/)".

Lemma check_index_exact_witness :
  check_index false (Some demo_index) [(lit "gate", true); (lit "ramp", true); (lit "a.txt", false)] = 0 /\
  (lit "ramp" ∈ research_dirs [(lit "gate", true); (lit "ramp", true); (lit "a.txt", false)] \/
   lit "ramp" ∈ EXEMPT).
Proof.
  destruct (check_index_exact (Some demo_index)
    [(lit "gate", true); (lit "ramp", true); (lit "a.txt", false)]) as [_ H].
  split; [vm_compute; reflexivity|].
  apply (H ltac:(vm_compute; reflexivity) (lit "see [the ramp") (lit "ramp")
    (lit " and `gate/run.py`, [top](https://x.y/z/)")); [|reflexivity].
  split; [done|decide_now].
Defined.

(** The test for [".."] and ["."] comes after [strip("./")] and never fires: a link to
    the parent directory is reported as a missing directory with an empty name, and one
    to a sibling of [research/] as a missing [research/] directory. *)
Lemma linked_dots_dead s :
  linked_dirs s = first_dir <$> find_in rel_link s.
Proof.
  unfold linked_dirs. induction (find_in rel_link s) as [|g gs IH]; [done|].
  rewrite fmap_cons. cbn [List.filter]. rewrite IH. rewrite bool_decide_false; [done|].
  intros Hin.
  assert (forall d, d = lit ".." \/ d = lit "." -> first_dir g <> d) as Hd.
  { intros d Hdd E. unfold first_dir in E.
    pose proof (strip_by_stripped (fun c => (c =? 46) || (c =? 47))%N g) as [Hh _].
    set (t := strip_by _ g) in *. destruct t as [|c t]; [by destruct Hdd; subst|].
    cbn [split_by] in E. destruct (split_by (N.eqb 47) t) as [hd tl].
    destruct (N.eqb 47 c) eqn:E47; cbn [fst] in E; destruct Hdd as [Hdd|Hdd]; rewrite Hdd in E;
      [discriminate E|discriminate E|injection E as -> _..]; done. }
  apply elem_of_cons in Hin as [Hin|Hin%list_elem_of_singleton].
  - exact (Hd _ (or_introl eq_refl) Hin).
  - exact (Hd _ (or_intror eq_refl) Hin).
Qed.

Lemma parent_links_dangle :
  dangling_dirs [] (lit "[up](../) and [docs](../docs/)") = [[]; lit "docs"].
Proof. vm_compute. reflexivity. Qed.
