(* ===== verification/Detector.v ===== *)
(** * Scoring the detector on recorded runs

    [research/loo_agreement_qdrant/score_qdrant_detector.py]: the condition of a run, the
    guard on it, the truth axes, the second implementation of the Mann-Whitney test and
    the comparison of chaos with baseline. The detection statistics are those of
    [Analyze]; the shuffles of the permutation test are a parameter. *)

From stdpp Require Import base list strings sorting.
From Stdlib Require Import QArith Qabs Lqa ZArith NArith Lia.
From S2P Require Import Prelude PyFloat Metrics Analyze Aggregate Text.

Local Open Scope nat_scope.

(** ** The condition of a run *)

Inductive dcond : Type := DBaseline | DQuiesce | DChaos | DOther.

#[export] Instance dcond_eq_dec : EqDecision dcond.
Proof. solve_decision. Defined.

(** [run_meta.json]: [dm_chaos] is [None] when the key is absent or null. *)
Record dmeta := mkDM {
  dm_chaos : option bool;
  dm_quiesce : bool;
  dm_k : option Z;
  dm_queries : option Z;
}.

Definition NOCHAOS : list text := lit <$> ["nochaos"; "no_chaos"; "no-chaos"]%string.

Definition names_nochaos {uc : Unicode} (s : text) : bool :=
  existsb (fun t => infixb t (lower s)) NOCHAOS.

(** [dir] is the name of the run's directory. *)
Definition run_condition {uc : Unicode} (dir : text) (meta : dmeta) : dcond :=
  match dm_chaos meta with
  | Some false => DBaseline
  | Some true => if dm_quiesce meta then DQuiesce else DChaos
  | None =>
      if names_nochaos dir then DBaseline
      else if infixb (lit "baseline") (lower dir) then DBaseline
      else if infixb (lit "quiesce") (lower dir) then DQuiesce
      else if infixb (lit "chaos") (lower dir) then DChaos
      else DOther
  end.

(** A run: its path, the name of its directory, its metadata and its samples. *)
Record drun := mkDR {
  dr_path : text;
  dr_dir : text;
  dr_meta : dmeta;
  dr_rows : list srow;
}.

Definition cond_of_run {uc : Unicode} (r : drun) : dcond := run_condition (dr_dir r) (dr_meta r).

(** [_assert_no_nochaos_in_chaos] *)
Definition assert_no_nochaos {uc : Unicode} (runs : list drun) : result unit :=
  if existsb (fun r => bool_decide (cond_of_run r = DChaos) && names_nochaos (dr_path r)) runs
  then Raise (OtherError "AssertionError") else Ok ().

(** ** The truth axes *)

Inductive axis : Type := AxE2E | AxIndex | AxCompl.

Definition AXES : list axis := [AxE2E; AxIndex; AxCompl].

Definition axis_cell (a : axis) (r : srow) : cell :=
  match a with AxE2E => s_e2e r | AxIndex => s_index r | AxCompl => s_compl r end.

Definition with_e2e (c : cell) (r : srow) : srow :=
  mkS (s_name r) (s_shard r) (s_reachable r) (s_t_rel r) (s_n_local r) (s_n_intended r)
    (s_index r) (s_compl r) c (s_loo r).

Definition rows_for_axis (a : axis) (rows : list srow) : list srow :=
  match a with
  | AxE2E => rows
  | _ => (fun r => with_e2e (axis_cell a r) r) <$> rows
  end.

Definition score_run {np : Numpy} (a : axis) (r : drun) : option detection :=
  detection_stats (rows_for_axis a (dr_rows r)) (resolution_eps (dm_k (dr_meta r)) (dm_queries (dr_meta r))).

(** ** [mann_whitney] *)

Definition EXACT_LIMIT : N := 200000.
Definition RESAMPLES : nat := N.to_nat 200000.

(** [math.comb], by Pascal's rows. *)
Fixpoint pascal (n : nat) : list N :=
  match n with
  | 0 => [1%N]
  | S n' => let row := pascal n' in zip_with N.add (row ++ [0%N]) (0%N :: row)
  end.

Definition comb (n k : nat) : N := nth k (pascal n) 0%N.

(** Python's [min] of two. *)
Definition qmin2 (x y : Q) : Q := if Qltb y x then y else x.

Inductive mw_method : Type := MwNone | MwExact | MwPerm.

(** [min(uu, n1 * n2 - uu) <= obs + 1e-9] *)
Definition as_extreme (n12 obs : Q) (s : list Q * list Q) : bool :=
  let uu := u_stat s.1 s.2 in Qle_bool (qmin2 uu (n12 - uu)) (obs + (1 # 1000000000)).

(** [shuffled i] is the pool after the [i]-th shuffle. *)
Definition det_mann_whitney (shuffled : nat -> list Q) (resamples : nat) (a b : list Q)
    : float * float * mw_method :=
  let n1 := length a in
  let n2 := length b in
  if Nat.eqb n1 0 || Nat.eqb n2 0 then (nan, nan, MwNone)
  else
    let u := u_stat a b in
    let n12 := Qn (n1 * n2) in
    let obs := qmin2 u (n12 - u) in
    let pool := a ++ b in
    if (comb (n1 + n2) n1 <=? EXACT_LIMIT)%N then
      let all := splits n1 pool in
      (fin u, fin (qratio (length (List.filter (as_extreme n12 obs) all)) (length all)), MwExact)
    else
      let ex := length (List.filter (fun i => as_extreme n12 obs
                  (take n1 (shuffled i), drop n1 (shuffled i))) (seq 0 resamples)) in
      (fin u, fin (qratio (ex + 1) (resamples + 1)), MwPerm).

(** ** The comparison *)

(** A run counts when it has five scored groups; its hit rate is then a number. *)
Definition usable_rate (d : detection) : option Q :=
  if 5 <=? d_groups d then match d_hit_rate d with fin q => Some q | nan => None end else None.

Section Compare.
Context {uc : Unicode} {np : Numpy}.

Definition of_cond_runs (c : dcond) (runs : list drun) : list drun :=
  List.filter (fun r => bool_decide (cond_of_run r = c)) runs.

Definition hit_rates (a : axis) (c : dcond) (runs : list drun) : list Q :=
  omap (fun r => d ← score_run a r; usable_rate d) (of_cond_runs c runs).

(** One line of the table: runs, usable ones, mean hit rate and the share of candidate
    groups that were tied. *)
Record table_line := mkLine {
  tl_runs : nat; tl_usable : nat; tl_hit_rate : float; tl_chance : float; tl_groups : nat;
  tl_tied : float }.

Definition table_of (a : axis) (c : dcond) (runs : list drun) : table_line :=
  let stats := omap (score_run a) (of_cond_runs c runs) in
  let usable := List.filter (fun d => match usable_rate d with Some _ => true | None => false end) stats in
  let cand := sum_list (d_candidates <$> stats) in
  let tied := sum_list (d_tied_excluded <$> stats) in
  mkLine (length (of_cond_runs c runs)) (length usable)
    (mean_or_nan (omap usable_rate usable)) (mean_or_nan (drop_nan (d_chance <$> usable)))
    (sum_list (d_groups <$> usable))
    (if Nat.eqb cand 0 then nan else fin (qratio tied cand)).

Inductive flag : Type := NoFlag | SeparatesFlag | WrongDirection.

(** [None]: a condition has no scoreable run. *)
Definition compare_axis (shuffled : nat -> list Q) (a : axis) (runs : list drun)
    : option (float * float * mw_method * flag) :=
  let b := hit_rates a DBaseline runs in
  let c := hit_rates a DChaos runs in
  match b, c with
  | [], _ | _, [] => None
  | _, _ =>
      let '(u, p, how) := det_mann_whitney shuffled RESAMPLES c b in
      let fl := match p with
                | fin q => if Qltb q (5 # 100)
                           then if Qltb (np_mean b) (np_mean c) then SeparatesFlag else WrongDirection
                           else NoFlag
                | nan => NoFlag
                end in
      Some (u, p, how, fl)
  end.

(** [main]: the exit status and the comparisons, or the guard's exception. *)
Definition detector_main (shuffled : nat -> list Q) (runs : list drun)
    : result (nat * list (option (float * float * mw_method * flag))) :=
  match runs with
  | [] => Ok (1, [])
  | _ => _ ← assert_no_nochaos runs; Ok (0, (fun a => compare_axis shuffled a runs) <$> AXES)
  end.
End Compare.

(** * Properties *)

(** ** The two implementations of the test *)

(** Twice the statistic, an integer. *)
Definition u2 (a b : list Q) : Z := (2 * Z.of_nat (wins a b) + Z.of_nat (draws a b))%Z.

Lemma u_stat_u2 a b : (u_stat a b == inject_Z (u2 a b) * (1 # 2))%Q.
Proof.
  unfold u_stat, u2, Qn. rewrite inject_Z_plus, inject_Z_mult. change (inject_Z 2) with 2%Q. ring.
Qed.

Lemma half_le x y (eps : Q) :
  (0 <= eps)%Q -> (eps < 1 # 2)%Q ->
  (inject_Z x * (1 # 2) <= inject_Z y * (1 # 2) + eps)%Q <-> (x <= y)%Z.
Proof.
  intros H0 H1. split.
  - intros H. destruct (Z_le_gt_dec x y) as [|Hgt]; [done|exfalso].
    assert (inject_Z y + 1 <= inject_Z x)%Q as Hq.
    { change 1%Q with (inject_Z 1). rewrite <- inject_Z_plus, <- Zle_Qle. lia. }
    lra.
  - intros H. rewrite Zle_Qle in H. lra.
Qed.

(** The distance of the statistic from its centre, both ways round. *)
Lemma dev_eq a b n :
  (Qabs (u_stat a b - Qn n / 2) == inject_Z (Z.abs (u2 a b - Z.of_nat n)) * (1 # 2))%Q.
Proof.
  unfold Qn. rewrite u_stat_u2.
  assert (inject_Z (u2 a b) * (1 # 2) - inject_Z (Z.of_nat n) / 2 ==
            inject_Z (u2 a b - Z.of_nat n) * (1 # 2))%Q as ->.
  { unfold Z.sub, Qdiv. rewrite inject_Z_plus, inject_Z_opp. change (/ 2)%Q with (1 # 2). ring. }
  rewrite Qabs_Qmult. done.
Qed.

Lemma qmin2_dev a b n :
  (qmin2 (u_stat a b) (Qn n - u_stat a b) ==
     Qn n * (1 # 2) - inject_Z (Z.abs (u2 a b - Z.of_nat n)) * (1 # 2))%Q.
Proof.
  unfold qmin2, Qn.
  assert (inject_Z (u2 a b - Z.of_nat n) == inject_Z (u2 a b) - inject_Z (Z.of_nat n))%Q as Hs
    by (unfold Z.sub; by rewrite inject_Z_plus, inject_Z_opp).
  pose proof (u_stat_u2 a b) as Hu.
  destruct (Qltb _ _) eqn:E; qreflect.
  - assert (0 <= u2 a b - Z.of_nat n)%Z as Hz by (rewrite Zle_Qle, Hs; change (inject_Z 0) with 0%Q; lra).
    rewrite Z.abs_eq by done. rewrite Hs. lra.
  - assert (u2 a b - Z.of_nat n <= 0)%Z as Hz by (rewrite Zle_Qle, Hs; change (inject_Z 0) with 0%Q; lra).
    rewrite Z.abs_neq by done. rewrite inject_Z_opp, Hs. lra.
Qed.

(** Both extremeness tests compare the same integers. *)
Lemma extreme_agree a b s :
  let n := length a * length b in
  as_extreme (Qn n) (qmin2 (u_stat a b) (Qn n - u_stat a b)) s = extreme (u_stat a b) (Qn n / 2) s.
Proof.
  intros n. apply eq_true_iff_eq. unfold as_extreme, extreme. rewrite !Qle_bool_iff.
  rewrite !qmin2_dev, !dev_eq.
  transitivity (Z.abs (u2 a b - Z.of_nat n) <= Z.abs (u2 s.1 s.2 - Z.of_nat n))%Z.
  - rewrite <- (half_le _ _ (1 # 1000000000)) by lra. split; intros; lra.
  - rewrite <- (half_le _ _ (1 # 1000000000000)) by lra. split; intros; lra.
Qed.

Lemma filter_fmap_length {A B} (P : B -> bool) (f : A -> B) xs :
  length (List.filter P (f <$> xs)) = length (List.filter (fun x => P (f x)) xs).
Proof. induction xs as [|x xs IH]; [done|]. rewrite fmap_cons. simpl. destruct (P (f x)); simpl; by rewrite IH. Qed.

Lemma filter_ext_length {A} (P P' : A -> bool) xs :
  (forall x, P x = P' x) -> length (List.filter P xs) = length (List.filter P' xs).
Proof. intros H. induction xs as [|x xs IH]; [done|]. simpl. rewrite H. destruct (P' x); simpl; by rewrite IH. Qed.

(** Counting the splits with a property that ignores order does not depend on the order
    of the pool. *)
Lemma count_splits_perm {A} (l l' : list A) k (P : list A * list A -> bool) :
  l ≡ₚ l' ->
  (forall a a' b b', a ≡ₚ a' -> b ≡ₚ b' -> P (a, b) = P (a', b')) ->
  length (List.filter P (splits k l)) = length (List.filter P (splits k l')).
Proof.
  intros Hp. revert k P. induction Hp as [|x l l' _ IH|x y l|l l1 l2 _ IH1 _ IH2]; intros k P HP.
  - done.
  - cbn [splits]. rewrite !List.filter_app, !length_app. f_equal.
    + destruct k as [|k]; [done|]. rewrite !filter_fmap_length. apply IH.
      intros a a' b b' Ha Hb. simpl. apply HP; [by constructor|done].
    + rewrite !filter_fmap_length. apply IH. intros a a' b b' Ha Hb. simpl. apply HP; [done|by constructor].
  - assert (forall u v n, length (List.filter (fun s => P (u :: v :: s.1, s.2)) (splits n l)) =
              length (List.filter (fun s => P (v :: u :: s.1, s.2)) (splits n l))) as H1.
    { intros u v n. apply filter_ext_length. intros s. apply HP; [constructor|done]. }
    assert (forall u v n, length (List.filter (fun s => P (s.1, u :: v :: s.2)) (splits n l)) =
              length (List.filter (fun s => P (s.1, v :: u :: s.2)) (splits n l))) as H2.
    { intros u v n. apply filter_ext_length. intros s. apply HP; [done|constructor]. }
    destruct k as [|[|k]]; cbn [splits]; rewrite ?fmap_app, ?List.filter_app, ?length_app,
      ?filter_fmap_length; cbn [fst snd]; rewrite ?(H1 y x), ?(H2 y x); cbn; lia.
  - rewrite IH1 by done. by apply IH2.
Qed.

(** Twenty values or fewer are always enumerated. *)
Lemma comb_small n k : n <= 20 -> k <= n -> (comb n k <= EXACT_LIMIT)%N.
Proof.
  intros Hn Hk.
  assert (Forall (fun n => Forall (fun k => (comb n k <=? EXACT_LIMIT)%N = true) (seq 0 21)) (seq 0 21))
    as H by decide_now.
  rewrite Forall_forall in H. specialize (H n). rewrite elem_of_seq, Forall_forall in H.
  apply N.leb_le, H; [lia|]. apply elem_of_seq. lia.
Qed.

Lemma det_mann_whitney_agree tail shuffled resamples a b :
  0 < length a -> 0 < length b -> length a + length b <= 20 ->
  det_mann_whitney shuffled resamples a b =
    (mann_whitney tail (fin <$> a) (fin <$> b), MwExact).
Proof.
  intros Ha Hb Hn.
  assert (forall l, drop_nan (fin <$> l) = l) as Hd.
  { intros l. induction l as [|x l IH]; [done|]. rewrite fmap_cons. simpl. by f_equal. }
  unfold det_mann_whitney, mann_whitney. rewrite !Hd.
  destruct (Nat.eqb_spec (length a) 0), (Nat.eqb_spec (length b) 0); try lia. cbn [orb].
  destruct (length a + length b <=? 20) eqn:E; breflect; [|lia].
  rewrite (proj2 (N.leb_le _ _)) by (apply comb_small; lia).
  f_equal. f_equal. f_equal. f_equal.
  - rewrite (filter_ext_length _ _ _ (extreme_agree a b)). apply count_splits_perm.
    + symmetry. apply sorted_perm.
    + intros x x' y y' Hx Hy. unfold extreme. cbn [fst snd]. by rewrite (u_stat_perm x x' y y' Hx Hy).
  - apply splits_length_binomial. by rewrite sorted_length.
Qed.

(** C11. The second Mann-Whitney implementation agrees with the first. On up to twenty
    values without NaN both enumerate, and although one sorts the pool, measures the
    distance from the centre and allows 1e-12 while the other keeps the order given,
    compares the smaller tail and allows 1e-9, they return the same statistic and the
    same p-value. *)
Theorem mann_whitney_agree tail shuffled resamples a b :
  0 < length a -> 0 < length b -> length a + length b <= 20 ->
  det_mann_whitney shuffled resamples a b =
    (mann_whitney tail (fin <$> a) (fin <$> b), MwExact).
Proof. apply det_mann_whitney_agree. Qed.

Lemma mann_whitney_agree_witness :
  det_mann_whitney (fun _ => []) 0 [3 # 4; 1 # 2; 1]%Q [1 # 2; 1 # 4]%Q =
  (mann_whitney (fun _ _ _ => nan) [fin (3 # 4); fin (1 # 2); fin 1] [fin (1 # 2); fin (1 # 4)], MwExact).
Proof. apply (mann_whitney_agree _ _ _ [3 # 4; 1 # 2; 1]%Q [1 # 2; 1 # 4]%Q); simpl; lia. Defined.

(** ** The condition and its guard *)

(** A no-chaos run is not scored as chaos. Metadata that records the chaos flag
    decides alone; without it a directory named "nochaos" in any of its spellings is a
    baseline. When the guard passes, no run classified as chaos has such a name in its
    path. *)
Theorem nochaos_not_chaos {uc : Unicode} runs :
  (forall dir meta, run_condition dir meta = DChaos ->
     (dm_chaos meta = Some true /\ dm_quiesce meta = false) \/
     (dm_chaos meta = None /\ names_nochaos dir = false)) /\
  (forall dir meta, dm_chaos meta = Some false -> run_condition dir meta = DBaseline) /\
  (assert_no_nochaos runs = Ok () <->
     forall r, r ∈ runs -> cond_of_run r = DChaos -> names_nochaos (dr_path r) = false).
Proof.
  split; [|split].
  - intros dir meta. unfold run_condition. destruct (dm_chaos meta) as [[]|].
    + destruct (dm_quiesce meta); [done|auto].
    + done.
    + destruct (names_nochaos dir); [done|auto].
  - intros dir meta H. unfold run_condition. by rewrite H.
  - unfold assert_no_nochaos. destruct (existsb _ runs) eqn:E.
    + split; [done|]. intros H. apply existsb_exists in E as (r & Hr & E).
      apply andb_true_iff in E as [Hc Hn]. apply bool_decide_eq_true in Hc.
      rewrite (H r) in Hn; [done|by apply list_elem_of_In|done].
    + split; [|done]. intros _ r Hr Hc. destruct (names_nochaos (dr_path r)) eqn:En; [|done].
      rewrite <- E. symmetry. apply existsb_exists. exists r. split; [by apply list_elem_of_In|].
      by rewrite bool_decide_true, En.
Qed.

(** The guard looks at the whole path, the condition at the directory alone: a chaos run
    stored under a study whose name says "no_chaos" stops the scoring. *)
Lemma guard_stops_on_study_name :
  let r := mkDR (lit "research/qdrant_no_chaos_study/results/chaos_1/samples.csv") (lit "chaos_1")
             (mkDM (Some true) false None None) [] in
  cond_of_run r = DChaos /\ assert_no_nochaos [r] = Raise (OtherError "AssertionError").
Proof. vm_compute. done. Qed.

(** ** What the comparison reports *)

(** The truth axis moves; what the detector says does not. *)
Lemma rows_for_axis_spec a rows :
  s_loo <$> rows_for_axis a rows = s_loo <$> rows /\
  ts_key <$> rows_for_axis a rows = ts_key <$> rows /\
  s_e2e <$> rows_for_axis a rows = axis_cell a <$> rows.
Proof. destruct a; simpl; rewrite <- ?list_fmap_compose; done. Qed.

Lemma as_extreme_observed a b :
  1 <= length (List.filter (as_extreme (Qn (length a * length b))
         (qmin2 (u_stat a b) (Qn (length a * length b) - u_stat a b))) (splits (length a) (a ++ b))).
Proof.
  destruct (splits_complete (a ++ b) a b) as (a' & b' & Hin & Ha & Hb); [done|].
  assert ((a', b') ∈ List.filter (as_extreme (Qn (length a * length b))
            (qmin2 (u_stat a b) (Qn (length a * length b) - u_stat a b))) (splits (length a) (a ++ b)))
    as Hf.
  { apply elem_of_bfilter. split; [done|]. unfold as_extreme. cbn [fst snd].
    rewrite (u_stat_perm a' a b' b Ha Hb). apply Qle_bool_iff. lra. }
  destruct (List.filter _ _); [by apply not_elem_of_nil in Hf|simpl; lia].
Qed.

(** The comparison never reports an impossible p-value. Whenever both conditions have
    a scoreable run it returns one in (0, 1], by enumeration or by resampling, whatever
    the shuffles were, and it flags a separation only below 0.05, in the direction the
    means have. *)
Theorem compare_axis_sound {uc : Unicode} {np : Numpy} shuffled a runs :
  match compare_axis shuffled a runs with
  | None => hit_rates a DBaseline runs = [] \/ hit_rates a DChaos runs = []
  | Some (u, p, how, fl) =>
      exists q, p = fin q /\ (0 < q <= 1)%Q /\ how <> MwNone /\
        (fl <> NoFlag <-> (q < 5 # 100)%Q) /\
        (fl = SeparatesFlag ->
           (np_mean (hit_rates a DBaseline runs) < np_mean (hit_rates a DChaos runs))%Q)
  end.
Proof.
  unfold compare_axis. destruct (hit_rates a DBaseline runs) as [|b0 b]; [by left|].
  destruct (hit_rates a DChaos runs) as [|c0 c]; [by right|].
  set (B := b0 :: b). set (C := c0 :: c).
  assert (exists q, (det_mann_whitney shuffled RESAMPLES C B).1.2 = fin q /\ (0 < q <= 1)%Q /\
            (det_mann_whitney shuffled RESAMPLES C B).2 <> MwNone) as (q & Hq & Hr & Hm).
  { unfold det_mann_whitney. cbn [length C B Nat.eqb orb]. fold C. fold B.
    pose proof (as_extreme_observed C B) as Hobs.
    destruct (comb _ _ <=? _)%N; cbn [fst snd]; eexists; (split; [reflexivity|]); (split; [|done]).
    - apply qratio_pos_le_1; [exact Hobs|apply List.filter_length_le].
    - apply qratio_pos_le_1; [lia|]. rewrite <- Nat.add_le_mono_r.
      etrans; [apply List.filter_length_le|]. by rewrite length_seq. }
  destruct (det_mann_whitney shuffled RESAMPLES C B) as [[u p] how]. simpl in Hq, Hm. subst p.
  exists q. split; [done|]. split; [done|]. split; [done|].
  destruct (Qltb q (5 # 100)) eqn:E; qreflect.
  - destruct (Qltb (np_mean B) (np_mean C)) eqn:E2; qreflect; split; try done; split; done.
  - split; [split; [done|lra]|done].
Qed.
