(* ===== verification/Reproduction.v ===== *)
(** * The reproduction sweep

    [research/layer1_reproduction/run_reproduction.py]: the stages, the resumable sweep
    over seeds and conditions inside a container, the copy of its results back to the
    mount, and the detached cell with its completion marker. What a command or a cell
    does is an input. *)

From stdpp Require Import base list gmap strings pretty.
From Stdlib Require Import ZArith Lia.
From S2P Require Import Prelude.

Local Open Scope nat_scope.

(** ** Cells *)

Definition SEEDS : list Z := [20260800; 20260801; 20260802; 20260803; 20260804]%Z.

Inductive cell_cond : Type := CellBaseline | CellChaos.

#[export] Instance cell_cond_eq_dec : EqDecision cell_cond.
Proof. solve_decision. Defined.
#[export] Instance cell_cond_countable : Countable cell_cond.
Proof.
  refine (inj_countable' (fun c => match c with CellBaseline => false | CellChaos => true end)
            (fun b => if b then CellChaos else CellBaseline) _). by intros [].
Defined.

Notation rcell := (Z * cell_cond)%type.

(** [for seed in SEEDS: for cond, flag, dur in (...)] *)
Definition cells : list rcell :=
  concat ((fun s => [(s, CellBaseline); (s, CellChaos)]) <$> SEEDS).

Definition cond_name (c : cell_cond) : string :=
  match c with CellBaseline => "baseline" | CellChaos => "chaos" end.
Definition cell_flag (c : cell_cond) : string :=
  match c with CellBaseline => "--no-chaos" | CellChaos => "" end.
Definition cell_duration (c : cell_cond) : nat :=
  match c with CellBaseline => 180 | CellChaos => 300 end.

Definition SRC_RESULTS : string := "research/replica_recall/results".
Definition DEST_SWEEP : string := "research/layer1_reproduction/results_sweep".

Definition dest (c : rcell) : string :=
  (DEST_SWEEP +:+ "/seed" +:+ pretty c.1 +:+ "_" +:+ cond_name c.2)%string.

Definition cell_cmd (c : rcell) : string :=
  let cmd := ("python3 research/replica_recall/run_experiment.py --seed " +:+ pretty c.1
              +:+ " --dist sift --duration " +:+ pretty (cell_duration c.2))%string in
  if bool_decide (cell_flag c.2 = EmptyString) then cmd else (cmd +:+ " " +:+ cell_flag c.2)%string.

Definition marker (c : rcell) : string :=
  ("/tmp/cell_" +:+ pretty c.1 +:+ "_" +:+ cond_name c.2 +:+ ".done")%string.

(** ** The sweep *)

(** What a sweep finds and leaves: the cells with a [samples.csv] in the working copy and
    on the mount, the cells whose marker may be in the container because they were
    launched before, and the cells whose shell was left running. *)
Record container := mkCont {
  ct_work : gset rcell;
  ct_mount : gset rcell;
  ct_marked : gset rcell;
  ct_stray : gset rcell;
}.

(** What the sweep meets at one cell. *)
Record cell_att := mkAtt {
  ca_probe : bool;              (* the first [test -f] reaches the container *)
  ca_launch : Z;                (* the status of [docker exec -d] *)
  ca_stale : bool;              (* the first poll comes before the shell removes an old marker *)
  ca_ends : bool;               (* the marker appears in the end *)
  ca_yields : bool;             (* the cell's shell files a [samples.csv] *)
  ca_stray : gset rcell;        (* what shells left running file meanwhile *)
  ca_recheck : bool;            (* the second [test -f] reaches the container *)
  ca_sync : Z;                  (* the status of the copy *)
  ca_copied : gset rcell;       (* what a copy that fails has copied *)
}.

Record sweep := mkSweep {
  sw_ct : container;
  sw_ran : list rcell;          (* launched, in order *)
  sw_produced : nat;
  sw_skipped : nat;
  sw_failed : nat;
}.

Definition CalledProcessError : exn := OtherError "CalledProcessError".

(** The [rsync] of the results, with [check=True]. *)
Definition sync_results_back (a : cell_att) (ct : container) : container * result unit :=
  if Z.eqb (ca_sync a) 0
  then (mkCont (ct_work ct) (ct_mount ct ∪ ct_work ct) (ct_marked ct) (ct_stray ct), Ok ())
  else (mkCont (ct_work ct) (ct_mount ct ∪ (ca_copied a ∩ ct_work ct)) (ct_marked ct) (ct_stray ct),
        Raise CalledProcessError).

(** How waiting for a launched cell ends: on a marker of this run, on an old one, or not. *)
Inductive awaited : Type := CellEnded | LeftEarly | StillPolling.

Definition run_cell_detached (a : cell_att) (ct : container) (c : rcell) : container * awaited :=
  let work := ct_work ct ∪ (ca_stray a ∩ ct_stray ct) in
  let marked := {[c]} ∪ ct_marked ct in
  if ca_stale a && bool_decide (c ∈ ct_marked ct)
  then (mkCont work (ct_mount ct) marked ({[c]} ∪ ct_stray ct), LeftEarly)
  else if negb (ca_ends a)
  then (mkCont work (ct_mount ct) marked ({[c]} ∪ ct_stray ct), StillPolling)
  else (mkCont (if ca_yields a then {[c]} ∪ work else work) (ct_mount ct) marked (ct_stray ct), CellEnded).

(** One cell; [None]: the host polls for ever. *)
Definition sweep_cell (y : rcell -> cell_att) (s : sweep) (c : rcell) : sweep * option (result unit) :=
  let a := y c in
  if bool_decide (c ∈ ct_work (sw_ct s)) && ca_probe a
  then (mkSweep (sw_ct s) (sw_ran s) (sw_produced s) (S (sw_skipped s)) (sw_failed s), Some (Ok ()))
  else if negb (Z.eqb (ca_launch a) 0) then (s, Some (Raise CalledProcessError))
  else
    let '(ct, w) := run_cell_detached a (sw_ct s) c in
    match w with
    | StillPolling => (mkSweep ct (sw_ran s ++ [c]) (sw_produced s) (sw_skipped s) (sw_failed s), None)
    | _ =>
        let done := bool_decide (c ∈ ct_work ct) && ca_recheck a in
        let '(ct', r) := sync_results_back a ct in
        (mkSweep ct' (sw_ran s ++ [c])
           (if done then S (sw_produced s) else sw_produced s) (sw_skipped s)
           (if done then sw_failed s else S (sw_failed s)), Some r)
    end.

(** The loop over the cells; an exception ends it. *)
Fixpoint sweep_loop (y : rcell -> cell_att) (s : sweep) (todo : list rcell) : sweep * option (result unit) :=
  match todo with
  | [] => (s, Some (Ok ()))
  | c :: rest =>
      match sweep_cell y s c with
      | (s', Some (Ok _)) => sweep_loop y s' rest
      | (s', r) => (s', r)
      end
  end.

(** [stage_sweep]: [SystemExit] when a cell failed. *)
Definition stage_sweep (y : rcell -> cell_att) (ct : container) : sweep * option (result unit) :=
  match sweep_loop y (mkSweep ct [] 0 0 0) cells with
  | (s, Some (Ok _)) =>
      (s, Some (if Nat.eqb (sw_failed s) 0 then Ok () else Raise (OtherError "SystemExit")))
  | (s, r) => (s, r)
  end.

Arguments stage_sweep : simpl never.
Arguments cells : simpl never.

(** ** Stages *)

Inductive stage : Type := StDeps | StBuild | StCorpus | StSweep | StAnalyse.

#[export] Instance stage_eq_dec : EqDecision stage.
Proof. solve_decision. Defined.

Definition STAGES : list (string * stage) :=
  [("deps", StDeps); ("build", StBuild); ("corpus", StCorpus); ("sweep", StSweep);
   ("analyse", StAnalyse)]%string.

Definition CONTAINER : string := "rrd-layer1".
Definition IMAGE : string := "ubuntu:24.04".
Definition MOUNT : string := "/repo".
Definition WORK : string := "/work".
Definition APT : string :=
  "cmake g++ libomp-dev protobuf-compiler protobuf-compiler-grpc libprotobuf-dev libgrpc++-dev libgrpc-dev pkg-config git python3 python3-pip python3-numpy curl ca-certificates python3-grpcio python3-grpc-tools rsync".
Definition CMAKE : string :=
  "cmake -B build -DCMAKE_BUILD_TYPE=Release -DNANODB_BUILD_SERVER=ON -DNANODB_BUILD_CLUSTER=ON".

(** One argument list. *)
Notation argv := (list string).

Definition indocker (cwd inner : string) : argv :=
  ["docker"; "exec"; "-w"; cwd; CONTAINER; "bash"; "-lc"; inner]%string.

(** [ensure_container], with whether a failure raises. *)
Definition ensure_container (exists_ : bool) (root : string) : argv * bool :=
  if exists_ then (["docker"; "start"; CONTAINER]%string, false)
  else (["docker"; "run"; "-d"; "--name"; CONTAINER; "--network"; "host"; "-v";
         root +:+ ":/repo"; "-w"; "/repo"; IMAGE; "sleep"; "infinity"]%string, true).

Definition sync_to_work_cmd : argv :=
  indocker "/" ("mkdir -p " +:+ WORK +:+ " && rsync -a --delete --exclude build/ --exclude .fsbench/ --exclude research/layer1_reproduction/results_sweep/ " +:+ MOUNT +:+ "/ " +:+ WORK +:+ "/").

Definition sync_back_cmd : argv :=
  indocker "/" ("mkdir -p " +:+ MOUNT +:+ "/" +:+ DEST_SWEEP +:+ " && if [ -d " +:+ WORK +:+ "/"
    +:+ DEST_SWEEP +:+ " ]; then rsync -a " +:+ WORK +:+ "/" +:+ DEST_SWEEP +:+ "/ " +:+ MOUNT +:+ "/"
    +:+ DEST_SWEEP +:+ "/; else echo 'no results to sync'; fi").

Definition ctest_cmd : argv := indocker WORK "cd build && ctest --output-on-failure".
Definition verify_cmd : argv :=
  indocker WORK "python3 research/layer1_reproduction/verify_corpus.py".
Definition aggregate_cmd : argv :=
  indocker WORK ("python3 research/replica_recall/aggregate.py --sweep-dir " +:+ DEST_SWEEP
                 +:+ " | tee " +:+ DEST_SWEEP +:+ "/aggregate_output.txt").

(** The commands of each stage, with whether a failure raises. *)
Definition deps_cmds (exists_ : bool) (root : string) : list (argv * bool) :=
  [ensure_container exists_ root;
   (indocker "/" ("apt-get update -qq && DEBIAN_FRONTEND=noninteractive apt-get install -y -qq " +:+ APT), true);
   (indocker "/" "python3 -c 'import grpc, grpc_tools.protoc' && echo 'grpc bindings present'", true);
   (indocker MOUNT ("git config --global --add safe.directory " +:+ MOUNT
                    +:+ " && git submodule update --init --recursive"), true);
   (sync_to_work_cmd, true)]%string.

Definition build_cmds : list (argv * bool) :=
  [(indocker WORK CMAKE, true); (indocker WORK "cmake --build build -j$(nproc)", true); (ctest_cmd, true)].

Definition corpus_cmds : list (argv * bool) :=
  [(indocker WORK "python3 research/replica_recall/sift.py", false); (verify_cmd, true)].

Definition analyse_cmds : list (argv * bool) := [(aggregate_cmd, false); (sync_back_cmd, true)].

Definition stage_cmds (exists_ : bool) (root : string) (st : stage) : list (argv * bool) :=
  match st with
  | StDeps => deps_cmds exists_ root
  | StBuild => build_cmds
  | StCorpus => corpus_cmds
  | StSweep => []
  | StAnalyse => analyse_cmds
  end.

(** A stage's commands in order; [rc] is what each returns. *)
Fixpoint run_cmds (rc : argv -> Z) (cmds : list (argv * bool)) : list argv * result unit :=
  match cmds with
  | [] => ([], Ok ())
  | (c, check) :: rest =>
      if check && negb (Z.eqb (rc c) 0) then ([c], Raise (OtherError "CalledProcessError"))
      else let '(done, r) := run_cmds rc rest in (c :: done, r)
  end.

(** What exists, and the commands run. *)
Record rep_state := mkRep {
  rs_ct : container;
  rs_log : list argv;
}.

(** What a run meets. *)
Record rep_env := mkEnv {
  re_exists : bool;
  re_root : string;
  re_rc : argv -> Z;
  re_cells : rcell -> cell_att;
}.

(** [None]: the sweep polls for ever. *)
Definition run_stage (e : rep_env) (st : stage) (s : rep_state) : rep_state * option (result unit) :=
  match st with
  | StSweep =>
      let '(sw, r) := stage_sweep (re_cells e) (rs_ct s) in
      (mkRep (sw_ct sw) (rs_log s), r)
  | _ =>
      let '(log, r) := run_cmds (re_rc e) (stage_cmds (re_exists e) (re_root e) st) in
      let ct := rs_ct s in
      let synced := match st, r with StAnalyse, Ok _ => ct_work ct | _, _ => ∅ end in
      (mkRep (mkCont (ct_work ct) (ct_mount ct ∪ synced) (ct_marked ct) (ct_stray ct)) (rs_log s ++ log), Some r)
  end.

Fixpoint run_stages (e : rep_env) (sts : list stage) (s : rep_state) : rep_state * option (result unit) :=
  match sts with
  | [] => (s, Some (Ok ()))
  | st :: rest =>
      match run_stage e st s with
      | (s', Some (Ok _)) => run_stages e rest s'
      | (s', r) => (s', r)
      end
  end.

(** [main]: status 2 for an unknown stage; a dry run only prints. *)
Definition rep_main (dry : bool) (e : rep_env) (name : string) (s : rep_state)
    : rep_state * option (result nat) :=
  let go sts :=
    if dry then (s, Some (Ok 0))
    else let '(s', r) := run_stages e sts s in
         (s', match r with Some (Ok _) => Some (Ok 0) | Some (Raise x) => Some (Raise x) | None => None end) in
  if bool_decide (name = "all"%string) then go (STAGES.*2)
  else match dget name STAGES with
       | None => (s, Some (Ok 2))
       | Some st => go [st]
       end.

(** ** A detached cell *)

(** The cell's shell and the polling host, interleaved. The shell removes the marker,
    runs the command, files its output and touches the marker. *)
Inductive cpc : Type := CRemove | CRun | CFile | CTouch | CExit.

Record detached := mkDet {
  dt_pc : cpc;
  dt_marker : bool;
  dt_filed : bool;
  dt_left : bool;                    (* the host has left its loop *)
}.

Inductive dact : Type := Shell | Poll.

Definition dstep (d : detached) (a : dact) : detached :=
  match a with
  | Shell =>
      match dt_pc d with
      | CRemove => mkDet CRun false (dt_filed d) (dt_left d)
      | CRun => mkDet CFile (dt_marker d) (dt_filed d) (dt_left d)
      | CFile => mkDet CTouch (dt_marker d) true (dt_left d)
      | CTouch => mkDet CExit true (dt_filed d) (dt_left d)
      | CExit => d
      end
  | Poll => mkDet (dt_pc d) (dt_marker d) (dt_filed d) (dt_left d || dt_marker d)
  end.

Definition drun_sched (stale : bool) (acts : list dact) : detached :=
  foldl dstep (mkDet CRemove stale false false) acts.

(** * Properties *)

(** ** The sweep *)

Definition is_ok (r : option (result unit)) : bool := match r with Some (Ok _) => true | _ => false end.

Lemma sync_work a ct : ct_work (sync_results_back a ct).1 = ct_work ct.
Proof. unfold sync_results_back. by destruct (Z.eqb _ 0). Qed.

Lemma run_cell_keeps a ct c : ct_work ct ⊆ ct_work (run_cell_detached a ct c).1.
Proof. unfold run_cell_detached. repeat case_match; simpl; set_solver. Qed.

(** A result is never lost, whatever goes wrong. *)
Lemma sweep_cell_keeps y s c : ct_work (sw_ct s) ⊆ ct_work (sw_ct (sweep_cell y s c).1).
Proof.
  unfold sweep_cell. destruct (_ && _); [done|]. destruct (negb _); [done|].
  pose proof (run_cell_keeps (y c) (sw_ct s) c) as Hk.
  destruct (run_cell_detached (y c) (sw_ct s) c) as [ct w]. cbn [fst] in Hk.
  pose proof (sync_work (y c) ct) as Hs. destruct (sync_results_back (y c) ct) as [ct' r]. cbn [fst] in Hs.
  destruct w; cbn [fst sw_ct]; rewrite ?Hs; done.
Qed.

Lemma sweep_loop_keeps y s todo : ct_work (sw_ct s) ⊆ ct_work (sw_ct (sweep_loop y s todo).1).
Proof.
  revert s. induction todo as [|c todo IH]; intros s; [done|]. cbn [sweep_loop].
  pose proof (sweep_cell_keeps y s c) as Hk. destruct (sweep_cell y s c) as [s' [[[]|]|]]; cbn [fst] in *;
    [|done..]. etrans; [exact Hk|apply IH].
Qed.

Lemma sweep_loop_app y s l1 l2 :
  is_ok (sweep_loop y s l1).2 = true -> sweep_loop y s (l1 ++ l2) = sweep_loop y (sweep_loop y s l1).1 l2.
Proof.
  revert s. induction l1 as [|c l1 IH]; intros s; [done|]. cbn [app sweep_loop].
  destruct (sweep_cell y s c) as [s' [[[]|]|]]; cbn [snd is_ok]; [apply IH|done..].
Qed.

(** The calls at a cell go through: it is launched, it ends, its results are copied. *)
Definition cell_passes (a : cell_att) : Prop := ca_launch a = 0%Z /\ ca_ends a = true /\ ca_sync a = 0%Z.

(** The cell itself is launched, awaited on its own marker, and files a result. *)
Definition cell_files (a : cell_att) : Prop :=
  ca_launch a = 0%Z /\ ca_stale a = false /\ ca_ends a = true /\ ca_yields a = true.

Lemma sweep_cell_passes y s c : cell_passes (y c) -> is_ok (sweep_cell y s c).2 = true.
Proof.
  intros (Hl & He & Hs). unfold sweep_cell, run_cell_detached, sync_results_back.
  rewrite Hl, He, Hs. cbn [negb Z.eqb]. repeat case_match; simplify_eq/=; done.
Qed.

Lemma sweep_cell_files y s c : cell_files (y c) -> c ∈ ct_work (sw_ct (sweep_cell y s c).1).
Proof.
  intros (Hl & Hst & He & Hy). unfold sweep_cell, run_cell_detached, sync_results_back.
  destruct (bool_decide (c ∈ ct_work (sw_ct s)) && ca_probe (y c)) eqn:E.
  - apply andb_true_iff in E as [E _]. by apply bool_decide_eq_true in E.
  - rewrite Hl, Hst, He, Hy. cbn [negb Z.eqb andb]. destruct (Z.eqb _ 0); simpl; set_solver.
Qed.

Lemma sweep_loop_passes y s todo :
  Forall (fun c => cell_passes (y c)) todo -> is_ok (sweep_loop y s todo).2 = true.
Proof.
  intros H. revert s. induction H as [|c todo Hc _ IH]; intros s; [done|]. cbn [sweep_loop].
  pose proof (sweep_cell_passes y s c Hc) as Ho. destruct (sweep_cell y s c) as [s' [[[]|]|]]; [apply IH|done..].
Qed.

(** An attempt leaves a result of [c] when it gets to the cell and the cell files one. *)
Definition attempt_files (y : rcell -> cell_att) (c : rcell) : Prop :=
  exists before after, cells = before ++ c :: after /\
    Forall (fun d => cell_passes (y d)) before /\ cell_files (y c).

Lemma stage_sweep_loop y ct :
  sw_ct (stage_sweep y ct).1 = sw_ct (sweep_loop y (mkSweep ct [] 0 0 0) cells).1.
Proof. unfold stage_sweep. by destruct (sweep_loop _ _ _) as [s [[[]|]|]]. Qed.

Lemma attempt_files_work y ct c : attempt_files y c -> c ∈ ct_work (sw_ct (stage_sweep y ct).1).
Proof.
  intros (before & after & Ecells & Hb & Hc). rewrite stage_sweep_loop, Ecells.
  rewrite sweep_loop_app by (by apply sweep_loop_passes).
  set (s := (sweep_loop y _ before).1). cbn [sweep_loop].
  pose proof (sweep_cell_files y s c Hc) as Hf. destruct (sweep_cell y s c) as [s' [[[]|]|]]; cbn [fst] in *;
    [|done..]. by apply sweep_loop_keeps.
Qed.

Lemma stage_sweep_keeps y ct : ct_work ct ⊆ ct_work (sw_ct (stage_sweep y ct).1).
Proof. rewrite stage_sweep_loop. apply (sweep_loop_keeps y (mkSweep ct [] 0 0 0)). Qed.

(** A sweep that finds every cell done. *)
Lemma sweep_loop_skips y s todo :
  (forall c, c ∈ todo -> c ∈ ct_work (sw_ct s) /\ ca_probe (y c) = true) ->
  sweep_loop y s todo =
    (mkSweep (sw_ct s) (sw_ran s) (sw_produced s) (sw_skipped s + length todo) (sw_failed s), Some (Ok ())).
Proof.
  revert s. induction todo as [|c todo IH]; intros s H; [destruct s; simpl; by rewrite Nat.add_0_r|].
  cbn [sweep_loop]. unfold sweep_cell. destruct (H c ltac:(by left)) as [Hw ->].
  rewrite bool_decide_true by done. cbn [andb]. rewrite IH by (intros d Hd; apply H; by right).
  cbn [sw_ct sw_ran sw_produced sw_skipped sw_failed length]. by rewrite <- Nat.add_succ_comm.
Qed.

(** Successive sweeps over one container. *)
Definition sweeps (ys : list (rcell -> cell_att)) (ct : container) : container :=
  foldl (fun ct y => sw_ct (stage_sweep y ct).1) ct ys.

Lemma sweeps_keep ys ct : ct_work ct ⊆ ct_work (sweeps ys ct).
Proof.
  revert ct. induction ys as [|y ys IH]; intros ct; [done|]. cbn [sweeps foldl].
  etrans; [apply (stage_sweep_keeps y)|apply IH].
Qed.

Lemma sweeps_work ys ct c : (exists y, y ∈ ys /\ attempt_files y c) -> c ∈ ct_work (sweeps ys ct).
Proof.
  intros (y & Hy & Ha). revert ct. induction ys as [|y' ys IH]; intros ct; [by apply not_elem_of_nil in Hy|].
  cbn [sweeps foldl]. apply elem_of_cons in Hy as [<-|Hy]; [|by apply IH].
  apply (sweeps_keep ys), attempt_files_work, Ha.
Qed.

(** C22. Repeating the sweep ends it. Any call may fail in any attempt: a launch or a copy
    that fails raises and ends the sweep before the later cells, a cell may never end, the
    host may leave early on the marker of an earlier attempt, and shells left running may
    file at any time. No attempt loses a result that is there. If for every cell some
    attempt got to it, every call at the earlier cells going through, and the cell was
    awaited on its own marker and filed a result, then after all the attempts the ten
    results are there, and the next sweep that can read the working copy launches nothing,
    changes nothing and succeeds. *)
Theorem sweep_converges ys ct :
  ct_work ct ⊆ ct_work (sweeps ys ct) /\
  ((forall c, c ∈ cells -> exists y, y ∈ ys /\ attempt_files y c) ->
   (forall c, c ∈ cells -> c ∈ ct_work (sweeps ys ct)) /\
   forall y, (forall c, ca_probe (y c) = true) ->
     stage_sweep y (sweeps ys ct) = (mkSweep (sweeps ys ct) [] 0 10 0, Some (Ok ()))).
Proof.
  split; [apply sweeps_keep|]. intros H.
  assert (forall c, c ∈ cells -> c ∈ ct_work (sweeps ys ct)) as Hall by (intros c Hc; apply sweeps_work; auto).
  split; [done|]. intros y Hp. unfold stage_sweep.
  rewrite sweep_loop_skips by (intros c Hc; split; [by apply Hall|done]). done.
Qed.

(** Everything goes through; the cell yields or not. *)
Definition calm_att (yields : bool) : cell_att := mkAtt true 0 false true yields ∅ true 0 ∅.

(** In the first attempt the chaos cells fail; in the second the copy after the first chaos
    cell raises; in the third all goes well. *)
Definition demo_attempts : list (rcell -> cell_att) :=
  [(fun c => calm_att (bool_decide (c.2 = CellBaseline)));
   (fun _ => mkAtt true 0 false true true ∅ true 12 ∅);
   (fun _ => calm_att true)].

Lemma calm_files c : c ∈ cells -> attempt_files (fun _ => calm_att true) c.
Proof.
  intros (before & after & E)%list_elem_of_split. exists before, after. split; [done|]. split; [|done].
  apply Forall_true. done.
Qed.

Lemma sweep_converges_witness :
  (forall c, c ∈ cells -> c ∈ ct_work (sweeps demo_attempts (mkCont ∅ ∅ ∅ ∅))) /\
  (stage_sweep (fun _ => calm_att false) (sweeps demo_attempts (mkCont ∅ ∅ ∅ ∅))).2 = Some (Ok ()).
Proof.
  assert (forall c, c ∈ cells -> exists y, y ∈ demo_attempts /\ attempt_files y c) as H.
  { intros c Hc. exists (fun _ => calm_att true). split; [right; right; left|by apply calm_files]. }
  destruct (proj2 (sweep_converges demo_attempts (mkCont ∅ ∅ ∅ ∅)) H) as [H1 H2].
  split; [exact H1|]. by rewrite (H2 (fun _ => calm_att false) (fun _ => eq_refl)).
Defined.

(** On an empty container the second attempt of the three ends at its first cell. *)
Example copy_failure_ends_sweep :
  let '(s, r) := stage_sweep (fun _ => mkAtt true 0 false true true ∅ true 12 ∅) (mkCont ∅ ∅ ∅ ∅) in
  r = Some (Raise CalledProcessError) /\ sw_ran s = [(20260800%Z, CellBaseline)].
Proof. by vm_compute. Qed.

(** What holds of a sweep that gets to its end, after a prefix of the cells. *)
Record sweep_inv (seen : list rcell) (s : sweep) : Prop := {
  si_count : sw_produced s + sw_skipped s + sw_failed s = length seen;
  si_failed : sw_failed s = 0 -> forall c, c ∈ seen -> c ∈ ct_work (sw_ct s);
  si_mount : sw_ran s <> [] -> ct_work (sw_ct s) ⊆ ct_mount (sw_ct s);
}.

Lemma sweep_cell_inv y seen s c s' :
  sweep_inv seen s -> sweep_cell y s c = (s', Some (Ok ())) -> sweep_inv (seen ++ [c]) s'.
Proof.
  intros [Hn Hf Hm] E. pose proof (sweep_cell_keeps y s c) as Hk. rewrite E in Hk. cbn [fst] in Hk.
  unfold sweep_cell in E.
  destruct (bool_decide (c ∈ ct_work (sw_ct s)) && ca_probe (y c)) eqn:Eb.
  - simplify_eq. apply andb_true_iff in Eb as [Eb%bool_decide_eq_true _].
    split; simpl; [rewrite length_app; simpl; lia| |done].
    intros H0 d [Hd|Hd]%elem_of_app; [auto|]. apply list_elem_of_singleton in Hd. by subst.
  - destruct (negb _); [done|]. destruct (run_cell_detached (y c) (sw_ct s) c) as [ct w].
    destruct w; [| |done].
    all: unfold sync_results_back in E; destruct (Z.eqb (ca_sync (y c)) 0); [|done]; simplify_eq; simpl in Hk.
    all: destruct (bool_decide (c ∈ ct_work ct) && ca_recheck (y c)) eqn:Ed;
      (split; simpl; [rewrite length_app; simpl; lia| |set_solver]); [|lia].
    all: apply andb_true_iff in Ed as [Ed%bool_decide_eq_true _].
    all: intros H0 d [Hd|Hd]%elem_of_app; [apply Hk; auto|].
    all: apply list_elem_of_singleton in Hd; by subst.
Qed.

Lemma sweep_loop_inv y seen s todo s' :
  sweep_inv seen s -> sweep_loop y s todo = (s', Some (Ok ())) -> sweep_inv (seen ++ todo) s'.
Proof.
  revert seen s. induction todo as [|c todo IH]; intros seen s Hi E; cbn [sweep_loop] in E.
  { simplify_eq. by rewrite app_nil_r. }
  destruct (sweep_cell y s c) as [s1 [[[]|]|]] eqn:Ec; [|done..].
  rewrite cons_middle, app_assoc. eapply IH; [|exact E]. by eapply sweep_cell_inv.
Qed.

(** A sweep that returns is complete: the counters of the ten cells add up, all ten have a
    result, and once it has launched anything every result is on the mount. *)
Lemma stage_sweep_ok y ct s :
  stage_sweep y ct = (s, Some (Ok ())) ->
  sw_produced s + sw_skipped s = 10 /\ (forall c, c ∈ cells -> c ∈ ct_work (sw_ct s)) /\
  (sw_ran s <> [] -> ct_work (sw_ct s) ⊆ ct_mount (sw_ct s)).
Proof.
  unfold stage_sweep. destruct (sweep_loop _ _ _) as [s1 [[[]|]|]] eqn:E; [|done..].
  intros H. destruct (Nat.eqb_spec (sw_failed s1) 0) as [H0|]; [|done]. simplify_eq.
  assert (sweep_inv [] (mkSweep ct [] 0 0 0)) as Hi by (split; [done|by intros _ c ?%not_elem_of_nil|done]).
  destruct (sweep_loop_inv _ _ _ _ _ Hi E) as [H1 H2 H3]. change (length ([] ++ cells)) with 10 in H1.
  split; [lia|]. split; [by apply H2|done].
Qed.

(** Nothing is copied back by a sweep that finds every cell done: results that an
    interruption left in the working copy stay off the mount until [analyse]. *)
Lemma complete_sweep_copies_nothing mount :
  let ct := mkCont (list_to_set cells) mount ∅ ∅ in
  stage_sweep (fun _ => calm_att true) ct = (mkSweep ct [] 0 10 0, Some (Ok ())).
Proof. vm_compute. reflexivity. Qed.

(** ** A detached cell *)

Definition shell_steps (acts : list dact) : nat :=
  length (List.filter (fun a => match a with Shell => true | Poll => false end) acts).

Definition pc_index (p : cpc) : nat :=
  match p with CRemove => 0 | CRun => 1 | CFile => 2 | CTouch => 3 | CExit => 4 end.

(** Without a stale marker, the marker is there only after the last step, and the host
    has left its loop only if it was. *)
Record detached_inv (n : nat) (d : detached) : Prop := {
  di_pc : pc_index (dt_pc d) = min 4 n;
  di_marker : dt_marker d = true -> dt_pc d = CExit;
  di_exit : dt_pc d = CExit -> dt_marker d = true /\ dt_filed d = true;
  di_touch : dt_pc d = CTouch -> dt_filed d = true;
  di_left : dt_left d = true -> dt_pc d = CExit;
}.

Lemma drun_sched_inv acts : detached_inv (shell_steps acts) (drun_sched false acts).
Proof.
  unfold drun_sched. induction acts as [|a acts [H1 H2 H3 H4 H5]] using rev_ind; [by split|].
  rewrite foldl_app. unfold shell_steps. rewrite List.filter_app, length_app. fold (shell_steps acts).
  set (d := foldl dstep _ acts) in *. clearbody d. destruct d as [pc m f l]. cbn [foldl].
  destruct a, pc; cbn [List.filter length dstep dt_pc dt_marker dt_filed dt_left pc_index] in *;
    split; cbn [dt_pc dt_marker dt_filed dt_left pc_index];
    try lia; destruct m, l; intuition congruence.
Qed.

(** C40. The host waits for the cell and does not wait for ever. When no marker is left
    from an earlier attempt, in every interleaving of the cell's shell with the polls the
    host leaves its loop only after the cell has run to its end and filed its output; and
    once the shell has taken its four steps the next poll ends the loop. *)
Theorem detached_cell_awaited acts :
  (dt_left (drun_sched false acts) = true ->
     dt_pc (drun_sched false acts) = CExit /\ dt_filed (drun_sched false acts) = true) /\
  (4 <= shell_steps acts -> dt_left (drun_sched false (acts ++ [Poll])) = true).
Proof.
  destruct (drun_sched_inv acts) as [H1 _ H3 _ H5]. split.
  - intros H. split; [auto|]. apply H3. auto.
  - intros Hn. unfold drun_sched in *. rewrite foldl_app. set (d := foldl dstep _ acts) in *.
    assert (dt_pc d = CExit) as Hp by (destruct (dt_pc d); cbn [pc_index] in H1; done || lia).
    cbn. destruct (H3 Hp) as [-> _]. apply orb_true_r.
Qed.

(** With a marker left from an earlier attempt the first poll can come before the shell
    has removed it: the host goes on to the next cell, whose shell clears the results
    directory, while this one has not started. *)
Lemma stale_marker_race :
  dt_left (drun_sched true [Poll]) = true /\ dt_pc (drun_sched true [Poll]) = CRemove.
Proof. done. Qed.

(** ** The whole reproduction *)

Lemma run_cmds_ok rc cmds log :
  run_cmds rc cmds = (log, Ok ()) -> log = cmds.*1 /\ forall c, (c, true) ∈ cmds -> rc c = 0%Z.
Proof.
  revert log. induction cmds as [|[c b] cmds IH]; intros log H; simpl in H.
  { simplify_eq. split; [done|]. by intros c ?%not_elem_of_nil. }
  destruct (b && negb (rc c =? 0)%Z) eqn:E; [done|].
  destruct (run_cmds rc cmds) as [l r]. simplify_eq. destruct (IH l eq_refl) as [-> Hall].
  split; [done|]. intros x [[= -> <-]|Hx]%elem_of_cons; [|auto].
  simpl in E. by apply negb_false_iff, Z.eqb_eq in E.
Qed.

Lemma run_stages_app e a b s s' :
  run_stages e (a ++ b) s = (s', Some (Ok ())) ->
  exists s1, run_stages e a s = (s1, Some (Ok ())) /\ run_stages e b s1 = (s', Some (Ok ())).
Proof.
  revert s. induction a as [|st a IH]; intros s H; [by exists s|].
  cbn [app run_stages] in *. destruct (run_stage e st s) as [s1 [[[]|]|]]; [auto|done..].
Qed.

Lemma run_stages_one e st s s' :
  run_stages e [st] s = (s', Some (Ok ())) -> run_stage e st s = (s', Some (Ok ())).
Proof. cbn [run_stages]. by destruct (run_stage e st s) as [s1 [[[]|]|]]. Qed.

(** A reproduction that ends well is complete. When every stage runs and [main]
    returns 0, the tests passed and the corpus was verified, and all ten cells have a
    result, in the working copy and on the mount. A sweep with a failed cell, or with a
    failed launch or copy, stops it before the analysis. *)
Theorem reproduction_complete e s s' :
  rep_main false e "all" s = (s', Some (Ok 0)) ->
  re_rc e ctest_cmd = 0%Z /\ re_rc e verify_cmd = 0%Z /\
  (forall c, c ∈ cells -> c ∈ ct_work (rs_ct s') /\ c ∈ ct_mount (rs_ct s')).
Proof.
  unfold rep_main. rewrite bool_decide_true by done. intros H.
  destruct (run_stages e (STAGES.*2) s) as [s1 [[[]|x]|]] eqn:E; [|done..]. injection H as ->.
  change (STAGES.*2) with ([StDeps] ++ [StBuild] ++ [StCorpus] ++ [StSweep] ++ [StAnalyse]) in E.
  apply run_stages_app in E as (a & _ & E). apply run_stages_app in E as (b & Hb & E).
  apply run_stages_app in E as (c & Hc & E). apply run_stages_app in E as (d & Hd & E).
  apply run_stages_one in Hb, Hc, Hd, E. unfold run_stage in Hb, Hc, Hd, E.
  destruct (run_cmds (re_rc e) (stage_cmds _ _ StBuild)) as [lb [[]|]] eqn:Rb; [|done].
  destruct (run_cmds (re_rc e) (stage_cmds _ _ StCorpus)) as [lc [[]|]] eqn:Rc; [|done].
  destruct (run_cmds (re_rc e) (stage_cmds _ _ StAnalyse)) as [la [[]|]] eqn:Ra; [|done].
  apply run_cmds_ok in Rb as [_ Rb], Rc as [_ Rc]. split; [|split].
  - apply Rb. right. right. left.
  - apply Rc. right. left.
  - intros x Hx. destruct (stage_sweep (re_cells e) (rs_ct c)) as [sw r] eqn:Es. injection Hd as <- ->.
    apply stage_sweep_ok in Es as (_ & Hall & _). injection E as <-. cbn [rs_ct ct_work ct_mount] in *.
    specialize (Hall x Hx). set_solver.
Qed.

(** A first reproduction on a fresh container in which everything works. *)
Definition demo_rep : rep_env := mkEnv false "/home/r/repo" (fun _ => 0%Z) (fun _ => calm_att true).
Definition fresh_rep : rep_state := mkRep (mkCont ∅ ∅ ∅ ∅) [].

Lemma reproduction_complete_witness :
  exists s', rep_main false demo_rep "all" fresh_rep = (s', Some (Ok 0)) /\
    forall c, c ∈ cells -> c ∈ ct_work (rs_ct s') /\ c ∈ ct_mount (rs_ct s').
Proof.
  destruct (rep_main false demo_rep "all" fresh_rep) as [s' r] eqn:E.
  assert (r = Some (Ok 0)) as -> by (apply (f_equal snd) in E; cbn [snd] in E; rewrite <- E; vm_compute; reflexivity).
  exists s'. split; [reflexivity|].
  exact (proj2 (proj2 (reproduction_complete demo_rep fresh_rep s' E))).
Defined.

Lemma detached_cell_awaited_witness :
  dt_left (drun_sched false [Poll; Shell; Shell; Poll; Shell; Shell; Poll]) = true.
Proof.
  exact (proj2 (detached_cell_awaited [Poll; Shell; Shell; Poll; Shell; Shell]) ltac:(vm_compute; lia)).
Defined.
