(* ===== verification/KillStudies.v ===== *)
(** * The kill-scheduler studies

    [research/qdrant_kill_scheduler/check_realized_schedule.py]: requested against
    realized kills of a scheduled run, on the events [QdrantHarness] records.
    [research/qdrant_kill_scheduler/derive_catchup_time.py]: how long a killed node takes
    to be level with its peers. *)

From stdpp Require Import base list strings sorting.
From Stdlib Require Import QArith Qabs Lqa ZArith Lia.
From S2P Require Import Prelude PyFloat QdrantHarness.

Local Open Scope nat_scope.

(** ** [check_run] *)

(** An entry of [events.json]: of a random run, or of a scheduled one with its condition
    and its down-time. *)
Inductive kevent : Type :=
| KRandom (e : qevent)
| KSched (condition : string) (e : sevent) (down_for : Q).

Record krow := mkKRow {
  kr_seq : nat;
  kr_target : string;
  kr_req_at : Q;
  kr_real_at : Q;
  kr_at_drift : Q;
  kr_real_gap : option Q;
  kr_gap_drift : option Q;
  kr_down_for : Q;
  kr_killed_while_down : option bool;
  kr_alive : option bool;
}.

Definition gap_drift (e : sevent) : option Q :=
  match se_requested_gap e, se_realized_gap e with
  | Some rq, Some rl => Some (rl - rq)%Q
  | _, _ => None
  end.

Definition krow_of (e : sevent) (down_for : Q) : krow :=
  mkKRow (se_seq e) (se_target e) (se_requested_at e) (se_realized_at e)
    (se_realized_at e - se_requested_at e)%Q (se_realized_gap e) (gap_drift e) down_for
    (se_killed_while_down e) (se_alive e).

Definition scheduled (events : list kevent) : list (string * krow) :=
  omap (fun e => match e with
                 | KRandom _ => None
                 | KSched c e d => Some (c, krow_of e d)
                 end) events.

Inductive checked : Type :=
| NoKills
| NotScheduled (n_events : nat)
| Checked (condition : string) (rows : list krow).

Definition check_run (events : list kevent) : checked :=
  match events with
  | [] => NoKills
  | _ =>
      match scheduled events with
      | [] => NotScheduled (length events)
      | (c, r) :: rest => Checked c (r :: rest.*2)
      end
  end.

Definition drifts (rows : list krow) : list Q := omap kr_gap_drift rows.

Definition n_killed_while_down (rows : list krow) : nat :=
  length (List.filter (fun r => bool_decide (kr_killed_while_down r = Some true)) rows).

(** The implied restart latency: [by_seq] keeps the last row of a number. *)
Definition by_seq (rows : list krow) : list (nat * krow) :=
  foldl (fun d r => dset (kr_seq r) r d) [] rows.

Definition latency_of (rows : list krow) (w : krow) : option Q :=
  match kr_seq w with
  | 0 => None
  | S s =>
      prev ← dget s (by_seq rows);
      gap ← kr_real_gap w;
      Some ((kr_real_at w - gap) - (kr_real_at prev + kr_down_for prev))%Q
  end.

Definition latencies (rows : list krow) : list Q := omap (latency_of rows) rows.

Definition targeting_ok (condition : string) (rows : list krow) : bool :=
  let n_targets := length (remove_dups (kr_target <$> rows)) in
  if bool_decide (condition = "spread"%string) then Nat.eqb n_targets (length rows)
  else Nat.eqb n_targets 1.

Inductive problem : Type :=
| PNoKills
| PTargeting (condition : string)
| PDown (condition : string) (n : nat).

Definition problems_of (r : checked) : list problem :=
  match r with
  | NoKills => [PNoKills]
  | NotScheduled _ => []
  | Checked c rows =>
      (if targeting_ok c rows then [] else [PTargeting c])
      ++ (if Nat.eqb (n_killed_while_down rows) 0 then [] else [PDown c (n_killed_while_down rows)])
  end.

Definition DRIFT_TOLERANCE_S : Q := 2.

(** [max(xs, key=abs)]: the first of the largest. *)
Fixpoint max_abs (best : Q) (xs : list Q) : Q :=
  match xs with
  | [] => best
  | x :: xs' => max_abs (if Qltb (Qabs best) (Qabs x) then x else best) xs'
  end.

Definition drifts_of (r : checked) : list Q := match r with Checked _ rows => drifts rows | _ => [] end.

(** The verdict on the drift: [None] when there is none to judge. *)
Definition drift_verdict (all : list Q) : option bool :=
  match all with
  | [] => None
  | x :: xs => Some (Qle_bool (Qabs (max_abs x xs)) DRIFT_TOLERANCE_S)
  end.

(** [main]: the exit status, the verdict on the drift and the problems. *)
Definition schedule_main (runs : list (list kevent)) : nat * option bool * list problem :=
  match runs with
  | [] => (1, None, [])
  | _ =>
      let checks := check_run <$> runs in
      (0, drift_verdict (concat (drifts_of <$> checks)), concat (problems_of <$> checks))
  end.

(** ** Catch-up *)

Record skill := mkKill { sk_node : nat; sk_t_rel : Q }.

Record srep := mkRepl { sr_shard : nat; sr_replica : nat; sr_completeness : Q }.

(** A sample row: its time, whether it is usable, and the replica. *)
Definition rounds_by_time (samples : list (Q * bool * srep)) : list (Q * list srep) :=
  let usable := List.filter (fun s => s.1.2) samples in
  sorted (fun a b => Qle_bool a.1 b.1)
    (foldl (fun d s =>
       (fix add d := match d with
          | [] => [(s.1.1, [s.2])]
          | (t, l) :: d' => if Qeq_bool t s.1.1 then (t, l ++ [s.2]) :: d' else (t, l) :: add d'
          end) d) [] usable).

(** [max(peers)] of a non-empty list. *)
Definition best_of (x : Q) (xs : list Q) : Q := Qmax_list x xs.

(** Is this replica of the node level with its peers in this round? *)
Definition level_row (node : nat) (eps : Q) (rows : list srep) (r : srep) : bool :=
  match sr_completeness <$> List.filter (fun p => Nat.eqb (sr_shard p) (sr_shard r)
                                           && negb (Nat.eqb (sr_replica p) node)) rows with
  | [] => true
  | x :: xs => negb (Qltb (sr_completeness r) (best_of x xs - eps))
  end.

Definition level_round (node : nat) (eps : Q) (rows : list srep) : bool :=
  let mine := List.filter (fun r => Nat.eqb (sr_replica r) node) rows in
  negb (Nat.eqb (length mine) 0) && forallb (level_row node eps rows) mine.

(** The seconds, and whether they are a catch-up or a censored window. *)
Fixpoint catchup (k : skill) (next : option Q) (eps : Q) (last_seen : Q)
    (rounds : list (Q * list srep)) : Q * bool :=
  match rounds with
  | [] => ((last_seen - sk_t_rel k)%Q, false)
  | (t, rows) :: rest =>
      if Qle_bool t (sk_t_rel k) then catchup k next eps last_seen rest
      else if match next with Some n => Qle_bool n t | None => false end
      then ((last_seen - sk_t_rel k)%Q, false)
      else if level_round (sk_node k) eps rows then ((t - sk_t_rel k)%Q, true)
      else catchup k next eps t rest
  end.

Definition catchup_for_kill (k : skill) (next : option Q) (rounds : list (Q * list srep)) (eps : Q)
    : Q * bool := catchup k next eps (sk_t_rel k) rounds.

(** The next kill of the same node. *)
Definition next_same (k : skill) (later : list skill) : option Q :=
  sk_t_rel <$> List.find (fun x => Nat.eqb (sk_node x) (sk_node k)) later.

(** The loop over the kills of one run, in time order. *)
Fixpoint catchups (kills : list skill) (rounds : list (Q * list srep)) (eps : Q) : list (Q * bool) :=
  match kills with
  | [] => []
  | k :: later => catchup_for_kill k (next_same k later) rounds eps :: catchups later rounds eps
  end.

Definition run_catchups (kills : list skill) (samples : list (Q * bool * srep)) (eps : Q)
    : list (Q * bool) :=
  catchups (sorted (fun a b => Qle_bool (sk_t_rel a) (sk_t_rel b)) kills) (rounds_by_time samples) eps.

(** * Properties *)

(** ** Drift *)

Lemma max_abs_bound tol best xs :
  (Qabs (max_abs best xs) <= tol)%Q <-> (Qabs best <= tol)%Q /\ Forall (fun x => Qabs x <= tol)%Q xs.
Proof.
  revert best. induction xs as [|x xs IH]; intros best; simpl.
  - rewrite Forall_nil. tauto.
  - rewrite IH, Forall_cons. destruct (Qltb (Qabs best) (Qabs x)) eqn:E; qreflect.
    + split; [intros [? ?]; split_and!; [lra|done|done]|tauto].
    + split; [intros [? ?]; split_and!; [done|lra|done]|tauto].
Qed.

(** The requested spacing is said to describe what happened exactly when every gap of
    every run drifted by at most the tolerance. *)
Lemma drift_verdict_spec all b :
  drift_verdict all = Some b -> (b = true <-> Forall (fun d => Qabs d <= DRIFT_TOLERANCE_S)%Q all).
Proof.
  destruct all as [|x xs]; [done|]. intros [= <-]. rewrite Qle_bool_iff, max_abs_bound, Forall_cons.
  done.
Qed.

(** ** Implied latency *)

(** A step that is carried out: no stop signal, and no Docker call raises. *)
Definition carried_out (started : Q) (ki : kstep * sched_in) : Prop :=
  (Qltb 0 (k_at_s ki.1 - (si_now ki.2 - started)) && si_stop_wait ki.2)%Q = false /\
  si_stop ki.2 = false /\ exists w a, try_kill ki.2 = DOk (Some (w, a)).

(** The events of steps that are all carried out on one node. *)
Fixpoint ok_events (started : Q) (c : container) (prev : option Q) (steps : list (kstep * sched_in))
    : list sevent :=
  match steps with
  | [] => []
  | (k, i) :: rest =>
      match try_kill i with
      | DOk (Some (w, a)) =>
          ok_event started k i c prev w a :: ok_events started c (Some (si_t_restart i)) rest
      | _ => []
      end
  end.

Lemma scheduled_ok_events started containers name c steps last events :
  dget name containers = Some c ->
  Forall (fun ki => k_target ki.1 = name /\ carried_out started ki) steps ->
  chaos_loop_scheduled started containers steps last events =
    Ok (events ++ ok_events started c (dget name last) steps).
Proof.
  intros Hc Hall. revert last events.
  induction Hall as [|[k i] steps [Hk (H1 & H2 & w & a & H3)] _ IH]; intros last events; simpl in *.
  { by rewrite app_nil_r. }
  rewrite H1, H2, Hk, Hc, H3, IH, dget_dset. rewrite decide_True by done. by rewrite <- app_assoc.
Qed.

Lemma ok_events_lookup started c prev steps j k i :
  Forall (carried_out started) steps -> steps !! j = Some (k, i) ->
  exists w a, ok_events started c prev steps !! j =
    Some (ok_event started k i c
            (match j with 0 => prev | S j' => (fun ki => si_t_restart ki.2) <$> steps !! j' end) w a).
Proof.
  intros Hall. revert prev j. induction Hall as [|[k0 i0] steps (_ & _ & w & a & H) _ IH];
    intros prev j Hj; [done|]. simpl in H. cbn [ok_events]. rewrite H.
  destruct j as [|j]; simpl in Hj; [simplify_eq; by exists w, a|].
  destruct (IH (Some (si_t_restart i0)) j Hj) as (w' & a' & Hl). exists w', a'.
  rewrite lookup_cons. rewrite Hl. by destruct j.
Qed.

Lemma ok_events_length started c prev steps :
  Forall (carried_out started) steps -> length (ok_events started c prev steps) = length steps.
Proof.
  intros Hall. revert prev. induction Hall as [|[k i] steps (_ & _ & w & a & H) _ IH]; intros prev; [done|].
  simpl in H. cbn [ok_events]. rewrite H. simpl. by rewrite IH.
Qed.

Lemma by_seq_get rows r : NoDup (kr_seq <$> rows) -> r ∈ rows -> dget (kr_seq r) (by_seq rows) = Some r.
Proof.
  unfold by_seq. induction rows as [|x rows IH] using rev_ind; [by intros _ ?%not_elem_of_nil|].
  rewrite fmap_app, NoDup_app. intros (Hnd & Hx & _) Hr. rewrite foldl_app. simpl. rewrite dget_dset.
  apply elem_of_app in Hr as [Hr|Hr%list_elem_of_singleton]; [|subst; by rewrite decide_True].
  rewrite decide_False; [by apply IH|]. intros Heq. apply (Hx (kr_seq r)); [by apply list_elem_of_fmap_2|].
  rewrite Heq. by left.
Qed.

(** The rows [check_run] builds from a run's events and the down-times of its steps. *)
Definition rows_of_run (events : list sevent) (steps : list (kstep * sched_in)) : list krow :=
  zip_with krow_of events ((fun ki => k_down_for_s ki.1) <$> steps).

(** The latency the checker infers is the lateness of the restart. On a schedule for
    one node, carried out without a failure, every kill but the first yields a latency,
    and it is the time from when the node was due back after the previous kill to when
    it was back, up to the rounding of the recorded times. *)
Theorem implied_latency_is_lateness started containers name c steps j k1 i1 k2 i2 :
  dget name containers = Some c ->
  Forall (fun ki => k_target ki.1 = name /\ carried_out started ki) steps ->
  k_seq <$> steps.*1 = seq 0 (length steps) ->
  steps !! j = Some (k1, i1) -> steps !! S j = Some (k2, i2) ->
  exists events w lat,
    chaos_loop_scheduled started containers steps [] [] = Ok events /\
    rows_of_run events steps !! S j = Some w /\
    latency_of (rows_of_run events steps) w = Some lat /\
    (Qabs (lat - (si_t_restart i1 - (si_t0 i1 + k_down_for_s k1))) <= 3 # 2000)%Q.
Proof.
  intros Hc Hall Hseq H1 H2.
  assert (Forall (carried_out started) steps) as Hco by (eapply Forall_impl; [exact Hall|]; by intros ? []).
  rewrite (scheduled_ok_events _ _ _ _ _ _ _ Hc Hall). simpl app. set (events := ok_events _ _ _ _).
  assert (forall m k i, steps !! m = Some (k, i) -> exists e, events !! m = Some e /\
            rows_of_run events steps !! m = Some (krow_of e (k_down_for_s k)) /\
            se_seq e = m /\ se_realized_at e = round_nd 3 (si_t0 i - started)%Q /\
            se_realized_gap e = realized_gap (si_t0 i)
              (match m with 0 => None | S m' => (fun ki => si_t_restart ki.2) <$> steps !! m' end))
    as Hrow.
  { intros m k i Hm. destruct (ok_events_lookup started c None steps m k i Hco Hm) as (w & a & He).
    eexists. split; [exact He|]. split; [|split; [|done]].
    - unfold rows_of_run. rewrite lookup_zip_with. unfold events. rewrite He. simpl.
      by rewrite list_lookup_fmap, Hm.
    - simpl. apply (f_equal (.!! m)) in Hseq. rewrite !list_lookup_fmap, Hm in Hseq. simpl in Hseq.
      rewrite lookup_seq_lt in Hseq by (by eapply lookup_lt_Some). by simplify_eq/=. }
  destruct (Hrow _ _ _ H1) as (e1 & _ & Hr1 & Hs1 & Ha1 & _).
  destruct (Hrow _ _ _ H2) as (e2 & _ & Hr2 & Hs2 & Ha2 & Hg2).
  rewrite H1 in Hg2. simpl in Hg2.
  assert (NoDup (kr_seq <$> rows_of_run events steps)) as Hnd.
  { assert (forall m x, (kr_seq <$> rows_of_run events steps) !! m = Some x -> x = m) as Hid.
    { intros m x Hx. rewrite list_lookup_fmap in Hx. apply fmap_Some in Hx as (r & Hr & ->).
      assert (m < length steps) as Hm.
      { apply lookup_lt_Some in Hr. unfold rows_of_run in Hr.
        rewrite length_zip_with, length_fmap in Hr. lia. }
      apply lookup_lt_is_Some_2 in Hm as [[k i] Hm]. destruct (Hrow _ _ _ Hm) as (e & _ & Hr' & <- & _).
      rewrite Hr in Hr'. by injection Hr' as ->. }
    apply NoDup_alt. intros m m' x Hx Hx'. by rewrite <- (Hid _ _ Hx), <- (Hid _ _ Hx'). }
  exists events. eexists _, _. split; [done|]. split; [exact Hr2|]. split.
  { unfold latency_of. simpl kr_seq. rewrite Hs2. rewrite <- Hs1 at 1.
    change (se_seq e1) with (kr_seq (krow_of e1 (k_down_for_s k1))).
    rewrite by_seq_get; [|done|by eapply list_elem_of_lookup_2]. simpl. rewrite Hg2. simpl. reflexivity. }
  cbn [kr_real_at kr_down_for krow_of]. rewrite Ha1, Ha2.
  pose proof (round_nd_close 3 (si_t0 i1 - started)) as R1.
  pose proof (round_nd_close 3 (si_t0 i2 - started)) as R2.
  pose proof (round_nd_close 3 (si_t0 i2 - si_t_restart i1)) as R3.
  assert ((1 # 2) / inject_Z (10 ^ Z.of_nat 3) == 1 # 2000)%Q as E3 by reflexivity.
  rewrite E3 in R1, R2, R3.
  apply Qabs_Qle_condition in R1 as [], R2 as [], R3 as []. apply (proj2 (Qabs_Qle_condition _ _)). split; lra.
Qed.

(** Two kills of one node; the container is back two seconds later than due. *)
Definition demo_latency_steps : list (kstep * sched_in) :=
  [(mkK 0 "n0" 0 None 5, mkSI 100 false false 100 (DOk true) (DOk tt) false (DOk true) 107);
   (mkK 1 "n0" 10 (Some 5%Q) 5, mkSI 110 false false 112 (DOk true) (DOk tt) false (DOk true) 119)]%Q.

Lemma implied_latency_is_lateness_witness :
  exists events w lat,
    chaos_loop_scheduled 100 (build_containers (fun _ => "n0"%string) [0]) demo_latency_steps [] []
      = Ok events /\
    rows_of_run events demo_latency_steps !! 1 = Some w /\
    latency_of (rows_of_run events demo_latency_steps) w = Some lat /\
    (Qabs (lat - (107 - (100 + 5))) <= 3 # 2000)%Q.
Proof.
  destruct (dget "n0"%string (build_containers (fun _ => "n0"%string) [0])) as [c|] eqn:E;
    [|vm_compute in E; done].
  apply (implied_latency_is_lateness 100 (build_containers (fun _ => "n0"%string) [0]) "n0" c
    demo_latency_steps 0 (mkK 0 "n0" 0 None 5)
    (mkSI 100 false false 100 (DOk true) (DOk tt) false (DOk true) 107)
    (mkK 1 "n0" 10 (Some 5%Q) 5)
    (mkSI 110 false false 112 (DOk true) (DOk tt) false (DOk true) 119)); try reflexivity.
  - exact E.
  - apply Forall_cons. split; [|apply Forall_singleton].
    all: split; [reflexivity|split; [reflexivity|split; [reflexivity|by eexists _, _]]].
Defined.


(** After a kill that failed the latency is measured from a kill that restarted nothing:
    with the second of three kills failed, the checker infers that the node was back 9.5 s
    before it was due. *)
Lemma latency_after_failed_kill :
  exists events, chaos_loop_scheduled 100 (build_containers (fun _ => "n0"%string) [0]) demo_steps [] []
      = Ok events /\ Qred <$> latencies (rows_of_run events demo_steps) = [1 # 2; -19 # 2]%Q.
Proof. eexists. split; [vm_compute; reflexivity|]. vm_compute. reflexivity. Qed.

(** ** Catch-up *)

(** A round that counts for the kill: after it and before the next one of the node. *)
Definition in_window (k : skill) (next : option Q) (t : Q) : Prop :=
  (sk_t_rel k < t)%Q /\ match next with Some n => (t < n)%Q | None => True end.

Definition time_sorted (rounds : list (Q * list srep)) : Prop :=
  StronglySorted (fun a b => (a.1 <= b.1)%Q) rounds.

Lemma catchup_spec k next eps last rounds s b :
  time_sorted rounds -> catchup k next eps last rounds = (s, b) ->
  if b then
    exists before t rows after, rounds = before ++ (t, rows) :: after /\ (s == t - sk_t_rel k)%Q /\
      in_window k next t /\ level_round (sk_node k) eps rows = true /\
      (forall t' rows', (t', rows') ∈ before -> in_window k next t' ->
         level_round (sk_node k) eps rows' = false)
  else
    (forall t rows, (t, rows) ∈ rounds -> in_window k next t ->
       level_round (sk_node k) eps rows = false) /\
    (s == last - sk_t_rel k \/
     exists t rows, (t, rows) ∈ rounds /\ in_window k next t /\ s == t - sk_t_rel k)%Q.
Proof.
  intros Hs. revert last. induction Hs as [|[t rows] rounds Hs IH Hall]; intros last H; simpl in H.
  { simplify_eq. split; [by intros ? ? ?%not_elem_of_nil|left; reflexivity]. }
  destruct (Qle_bool t (sk_t_rel k)) eqn:E1; qreflect.
  { apply IH in H. destruct b.
    - destruct H as (before & t' & rows' & after & -> & ? & ? & ? & Hb).
      exists ((t, rows) :: before), t', rows', after. split_and!; try done.
      intros t2 r2 [[= -> ->]|Hin]%elem_of_cons Hw; [|by eapply Hb]. destruct Hw. lra.
    - destruct H as [Hb Hl]. split.
      + intros t2 r2 [[= -> ->]|Hin]%elem_of_cons Hw; [destruct Hw; lra|by eapply Hb].
      + destruct Hl as [?|(t2 & r2 & ? & ? & ?)]; [by left|right]. exists t2, r2. split_and!; try done.
        by right. }
  destruct (match next with Some n => Qle_bool n t | None => false end) eqn:E2.
  { simplify_eq. split; [|left; reflexivity]. destruct next as [n|]; [|done]. qreflect.
    rewrite Forall_forall in Hall.
    intros t2 r2 [[= -> ->]|Hin]%elem_of_cons [_ Hw]; [lra|]. specialize (Hall _ Hin). simpl in Hall. lra. }
  assert (in_window k next t) as Hin.
  { split; [done|]. destruct next; [|done]. by qreflect. }
  destruct (level_round _ _ _) eqn:E3.
  { simplify_eq. exists [], t, rows, rounds. split; [done|]. split; [reflexivity|]. split; [done|]. split; [done|].
    by intros ? ? ?%not_elem_of_nil. }
  apply IH in H. destruct b.
  - destruct H as (before & t' & rows' & after & -> & ? & ? & ? & Hb).
    exists ((t, rows) :: before), t', rows', after. split_and!; try done.
    intros t2 r2 [[= -> ->]|Hx]%elem_of_cons Hw; [done|by eapply Hb].
  - destruct H as [Hb Hl]. split.
    + intros t2 r2 [[= -> ->]|Hx]%elem_of_cons Hw; [done|by eapply Hb].
    + right. destruct Hl as [?|(t2 & r2 & ? & ? & ?)].
      * exists t, rows. split_and!; try done. by left.
      * exists t2, r2. split_and!; try done. by right.
Qed.

Lemma rounds_by_time_sorted samples : time_sorted (rounds_by_time samples).
Proof.
  unfold rounds_by_time. set (d := foldl _ [] _). unfold time_sorted.
  pose proof (sorted_StronglySorted (fun a b : Q * list srep => Qle_bool a.1 b.1)
    ltac:(intros; apply Qle_bool_total) ltac:(intros x y z; apply Qle_bool_trans) d) as HS.
  induction HS as [|x l HS IH Hall]; constructor; [done|].
  eapply Forall_impl; [exact Hall|]. intros y Hy. by apply Qle_bool_iff.
Qed.

(** A catch-up time is neither early nor borrowed. For a kill of a run, a measured time
    ends at the first sampled round after the kill, and before the next kill of the same
    node, in which the node is level with its peers; a censored one means that no such
    round was sampled, and its window is that of the last round looked at. In both cases
    the time is not negative and the next kill of the node is not inside it. *)
Theorem catchup_sound k next samples eps s b :
  match next with Some n => (sk_t_rel k <= n)%Q | None => True end ->
  catchup_for_kill k next (rounds_by_time samples) eps = (s, b) ->
  (0 <= s)%Q /\ (forall n, next = Some n -> (s <= n - sk_t_rel k)%Q) /\
  if b then
    exists before t rows after, rounds_by_time samples = before ++ (t, rows) :: after /\
      (s == t - sk_t_rel k)%Q /\ in_window k next t /\ level_round (sk_node k) eps rows = true /\
      (forall t' rows', (t', rows') ∈ before -> in_window k next t' ->
         level_round (sk_node k) eps rows' = false)
  else
    forall t rows, (t, rows) ∈ rounds_by_time samples -> in_window k next t ->
      level_round (sk_node k) eps rows = false.
Proof.
  intros Hn H. pose proof (catchup_spec k next eps _ _ s b (rounds_by_time_sorted samples) H) as Hc.
  assert (forall t, in_window k next t -> (s == t - sk_t_rel k)%Q ->
            (0 <= s)%Q /\ forall n, next = Some n -> (s <= n - sk_t_rel k)%Q) as Hw.
  { intros t [Hw1 Hw2] Hs. split; [lra|]. intros n ->. lra. }
  destruct b.
  - pose proof Hc as (before & t & rows & after & _ & Hs & Hi & _). destruct (Hw t Hi Hs). done.
  - destruct Hc as [Hc [Hs|(t & rows & _ & Hi & Hs)]].
    + split; [lra|]. split; [|done]. intros n ->. lra.
    + destruct (Hw t Hi Hs). done.
Qed.

Definition demo_samples : list (Q * bool * srep) :=
  [(1, true, mkRepl 0 0 1); (1, true, mkRepl 0 1 1);
   (7, true, mkRepl 0 0 1); (7, true, mkRepl 0 1 (9 # 10));
   (12, true, mkRepl 0 0 1); (12, true, mkRepl 0 1 (999 # 1000))]%Q.

Lemma catchup_sound_witness :
  catchup_for_kill (mkKill 1 5) (Some 20%Q) (rounds_by_time demo_samples) (5 # 1000) = ((12 - 5)%Q, true) /\
  (0 <= 12 - 5)%Q /\ (forall n, Some 20%Q = Some n -> (12 - 5 <= n - 5)%Q).
Proof.
  split; [vm_compute; reflexivity|].
  destruct (catchup_sound (mkKill 1 5) (Some 20%Q) demo_samples (5 # 1000) (12 - 5) true)
    as (H1 & H2 & _); [simpl; lra|vm_compute; reflexivity|]. split; [exact H1|exact H2].
Defined.

(** A round in which no peer of the node's shard was reachable counts as level. *)
Lemma no_peer_counts_as_level :
  catchup_for_kill (mkKill 1 5) None (rounds_by_time [(7, true, mkRepl 0 1 (1 # 10))]%Q) (5 # 1000)
    = ((7 - 5)%Q, true).
Proof. vm_compute. reflexivity. Qed.
