(* ===== verification/SweepDriver.v ===== *)
(** * The nano-db sweep driver

    [research/replica_recall/sweep.py]: the runs of a sweep over seeds and conditions, the
    directory each is filed under, and what a failed or repeated sweep leaves. What a run
    of the experiment does is an input. *)

From stdpp Require Import base list gmap strings pretty.
From Stdlib Require Import ZArith NArith Lia Ascii.
From S2P Require Import Prelude QdrantCluster Aggregate.

Local Open Scope nat_scope.

#[export] Instance condition_countable : Countable condition.
Proof.
  refine (inj_countable'
    (fun c => match c with Baseline => 0 | Chaos => 1 | Quiesce => 2 end)
    (fun n => match n with 0 => Baseline | 1 => Chaos | _ => Quiesce end) _). by intros [].
Defined.

Notation run_id := (N * condition)%type.

Definition condition_str (c : condition) : string :=
  match c with Baseline => "baseline" | Chaos => "chaos" | Quiesce => "quiesce" end.

(** [f"seed{seed}_{cond}"] *)
Definition run_name (r : run_id) : string :=
  ("seed" +:+ pretty r.1 +:+ "_" +:+ condition_str r.2)%string.

Definition sweep_cmd (duration writers chaos_duration : N) (extra : list string) (r : run_id)
    : list string :=
  ["--duration"; pretty duration; "--writers"; pretty writers; "--seed"; pretty r.1]%string
  ++ (match r.2 with
      | Baseline => ["--no-chaos"]
      | Quiesce => ["--chaos-duration"; pretty chaos_duration]
      | Chaos => []
      end)%string
  ++ extra.

Section Driver.
Context {A : Type}.

(** The shared results directory and the filed runs, by their samples. *)
Record sweep_fs := mkFS {
  fs_results : option A;
  fs_filed : gmap run_id A;
}.

(** What a run does: its exit status and the samples it writes, if any. *)
Record outcome := mkOut { oc_status : Z; oc_samples : option A }.

Definition sweep_run_one (force : bool) (run : run_id -> outcome) (f : sweep_fs) (r : run_id)
    : sweep_fs * bool :=
  match fs_filed f !! r, force with
  | Some _, false => (f, true)
  | _, _ =>
      let o := run r in
      let f1 := mkFS (oc_samples o) (fs_filed f) in
      if negb (Z.eqb (oc_status o) 0) then (f1, false)
      else
        match fs_results f1 with
        | None => (f1, false)
        | Some a => (mkFS None (<[r := a]> (fs_filed f)), true)
        end
  end.

(** [for seed in seeds: for cond in conditions] *)
Definition sweep_plan (seed_base : N) (seeds : nat) (only : option condition) (with_quiesce : bool)
    : list run_id :=
  let conditions := match only with
                    | Some c => [c]
                    | None => [Baseline; Chaos] ++ (if with_quiesce then [Quiesce] else [])
                    end in
  concat ((fun i => (fun c => ((seed_base + N.of_nat i)%N, c)) <$> conditions) <$> seq 0 seeds).

(** [main]: the file system and the number of failures. *)
Fixpoint sweep_loop (force : bool) (run : run_id -> outcome) (plan : list run_id) (f : sweep_fs)
    (failures : nat) : sweep_fs * nat :=
  match plan with
  | [] => (f, failures)
  | r :: rest =>
      let '(f', ok) := sweep_run_one force run f r in
      sweep_loop force run rest f' (if ok then failures else S failures)
  end.

Definition sweep_main (force : bool) (run : run_id -> outcome) (plan : list run_id) (f : sweep_fs)
    : sweep_fs * nat :=
  let '(f', failures) := sweep_loop force run plan f 0 in
  (f', if Nat.eqb failures 0 then 0 else 1).
End Driver.
Arguments sweep_fs : clear implicits.
Arguments outcome : clear implicits.

(** * Properties *)

(** ** Filing *)

(** What should be filed for a run: what was there, unless it is redone, and otherwise
    its own samples if it succeeded. *)
Definition filed_after {A} (force : bool) (run : run_id -> outcome A) (old : option A) (r : run_id)
    : option A :=
  match old, force with
  | Some a, false => Some a
  | _, _ =>
      match oc_samples (run r) with
      | Some a => if Z.eqb (oc_status (run r)) 0 then Some a else old
      | None => old
      end
  end.

Lemma sweep_run_one_spec {A} force (run : run_id -> outcome A) f r :
  (forall r', fs_filed (sweep_run_one force run f r).1 !! r' =
     if decide (r' = r) then filed_after force run (fs_filed f !! r) r else fs_filed f !! r') /\
  ((sweep_run_one force run f r).2 = true <->
     (is_Some (fs_filed f !! r) /\ force = false) \/
     (oc_status (run r) = 0%Z /\ is_Some (oc_samples (run r)))).
Proof.
  unfold sweep_run_one, filed_after.
  destruct (fs_filed f !! r) as [a|] eqn:E, force; simpl;
    try (destruct (Z.eqb_spec (oc_status (run r)) 0); simpl; destruct (oc_samples (run r)); simpl);
    (split; [intros r'; case_decide; subst; rewrite ?lookup_insert_eq, ?lookup_insert_ne by done; done|]);
    unfold is_Some; naive_solver.
Qed.

Lemma sweep_loop_spec {A} force (run : run_id -> outcome A) plan f n :
  NoDup plan ->
  (forall r, fs_filed (sweep_loop force run plan f n).1 !! r =
     if decide (r ∈ plan) then filed_after force run (fs_filed f !! r) r else fs_filed f !! r) /\
  ((sweep_loop force run plan f n).2 = n <->
     forall r, r ∈ plan -> (is_Some (fs_filed f !! r) /\ force = false) \/
       (oc_status (run r) = 0%Z /\ is_Some (oc_samples (run r)))) /\
  n <= (sweep_loop force run plan f n).2.
Proof.
  intros Hnd. revert f n. induction Hnd as [|r plan Hr Hnd IH]; intros f n; simpl.
  { split; [done|]. split; [|lia]. split; [by intros _ r ?%not_elem_of_nil|done]. }
  destruct (sweep_run_one_spec force run f r) as [H1 H2].
  destruct (sweep_run_one force run f r) as [f' ok]. simpl in *.
  destruct (IH f' (if ok then n else S n)) as (IH1 & IH2 & IH3).
  assert (forall r', r' ∈ plan -> fs_filed f' !! r' = fs_filed f !! r') as Hsame.
  { intros r' Hr'. rewrite H1. rewrite decide_False; [done|]. by intros ->. }
  split; [|split].
  - intros r'. rewrite IH1. destruct (decide (r' ∈ plan)) as [Hp|Hp].
    + rewrite (Hsame r' Hp), decide_True; [done|]. by right.
    + rewrite H1. destruct (decide (r' = r)) as [->|Hne].
      * rewrite decide_True; [done|by left].
      * rewrite decide_False; [done|]. rewrite elem_of_cons. tauto.
  - destruct ok.
    + rewrite IH2. setoid_rewrite elem_of_cons. split.
      * intros H r' [->|Hp]; [by apply H2|]. rewrite <- (Hsame r' Hp). auto.
      * intros H r' Hp. rewrite (Hsame r' Hp). auto.
    + split; [lia|]. intros H. exfalso. assert (false = true) as Hx; [|done].
      apply H2, H. by left.
  - destruct ok; lia.
Qed.

(** A sweep files each run's own samples and loses none. After it, a planned run holds
    what it held before, if that was kept, and otherwise the samples of its own
    successful execution; a failed execution leaves what was filed untouched, and
    nothing outside the plan changes. The exit status is 0 exactly when every planned
    run was present or succeeded, and then repeating the sweep changes nothing. *)
Theorem sweep_files_own_runs {A} force (run : run_id -> outcome A) plan f f' code :
  NoDup plan -> sweep_main force run plan f = (f', code) ->
  (forall r, fs_filed f' !! r =
     if decide (r ∈ plan) then filed_after force run (fs_filed f !! r) r else fs_filed f !! r) /\
  (code = 0 <-> forall r, r ∈ plan -> (is_Some (fs_filed f !! r) /\ force = false) \/
     (oc_status (run r) = 0%Z /\ is_Some (oc_samples (run r)))) /\
  (code = 0 -> forall run', sweep_main false run' plan f' = (f', 0)).
Proof.
  intros Hnd H. unfold sweep_main in H.
  destruct (sweep_loop_spec force run plan f 0 Hnd) as (H1 & H2 & _).
  destruct (sweep_loop force run plan f 0) as [f1 n]. cbn [fst snd] in *. injection H as <- <-.
  assert ((if Nat.eqb n 0 then 0 else 1) = 0 <-> n = 0) as Hn by (by destruct (Nat.eqb_spec n 0)).
  rewrite Hn, H2. split; [done|]. split; [done|]. intros Hall run'.
  assert (forall r, r ∈ plan -> is_Some (fs_filed f1 !! r)) as Hfiled.
  { intros r Hr. rewrite H1, decide_True by done. unfold filed_after.
    destruct (Hall r Hr) as [[[a ->] ->]|[Hz [a Ha]]]; [by eexists|].
    rewrite Ha, Hz. destruct (fs_filed f !! r), force; by eexists. }
  assert (forall m, sweep_loop false run' plan f1 m = (f1, m)) as Hskip.
  { clear -Hfiled. induction plan as [|r plan IH]; intros m; [done|]. cbn [sweep_loop].
    unfold sweep_run_one. destruct (Hfiled r) as [a ->]; [by left|]. apply IH.
    intros r' Hr'. apply Hfiled. by right. }
  unfold sweep_main. by rewrite Hskip.
Qed.

Lemma sweep_plan_NoDup seed_base seeds only q : NoDup (sweep_plan seed_base seeds only q).
Proof.
  unfold sweep_plan. set (cs := match only with Some _ => _ | None => _ end).
  assert (NoDup cs) as Hcs by (unfold cs; destruct only as [[]|], q; decide_now).
  generalize (NoDup_seq 0 seeds). generalize (seq 0 seeds) as l. intros l.
  induction 1 as [|i l Hi _ IH]; [constructor|]. rewrite fmap_cons. simpl concat.
  apply NoDup_app. split; [|split; [|done]].
  - apply NoDup_fmap_2; [|done]. by intros c c' [= ->].
  - intros r (c & -> & _)%list_elem_of_fmap (x & (j & -> & Hj)%list_elem_of_fmap & Hr)%elem_of_concat.
    apply list_elem_of_fmap in Hr as (c' & [= Hij _] & _).
    assert (i = j) as -> by lia. done.
Qed.

Definition demo_sweep_fs : sweep_fs nat := mkFS (Some 1) (<[(7%N, Chaos) := 5]> ∅).

Lemma sweep_files_own_runs_witness :
  let plan := sweep_plan 7 1 None false in
  let run := fun r : run_id => mkOut (if decide (r.2 = Chaos) then 1%Z else 0%Z) (Some 42) in
  exists f', sweep_main false run plan demo_sweep_fs = (f', 0) /\
    fs_filed f' !! (7%N, Baseline) = Some 42 /\ fs_filed f' !! (7%N, Chaos) = Some 5.
Proof.
  intros plan run. eexists. split; [vm_compute; reflexivity|].
  match goal with |- fs_filed ?f' !! _ = _ /\ _ =>
    destruct (sweep_files_own_runs false run plan demo_sweep_fs f' 0
      (sweep_plan_NoDup 7 1 None false) ltac:(vm_compute; reflexivity)) as (H & _) end.
  split; (etrans; [apply H|vm_compute; reflexivity]).
Defined.

(** ** The names are those the aggregation reads *)

Lemma digit_val_is_digit c : is_digit c = match digit_val c with Some _ => true | None => false end.
Proof. by destruct c as [[] [] [] [] [] [] [] []]. Qed.

Lemma span_digits_app d s :
  all_digits d = true -> (forall c s', s = String c s' -> is_digit c = false) ->
  span_digits (d +:+ s) = (d, s).
Proof.
  induction d as [|c d IH]; intros Hd Hs; simpl in *.
  - destruct s as [|c s]; [done|]. simpl. by rewrite (Hs c s eq_refl).
  - rewrite digit_val_is_digit. destruct (digit_val c); [|done]. by rewrite IH.
Qed.

Lemma strip_prefix_app p s : strip_prefix p (p +:+ s) = Some s.
Proof. induction p as [|c p IH]; [done|]. simpl. by rewrite Ascii.eqb_refl. Qed.

(** What the sweep writes the aggregation finds: the name of every run parses back to
    its seed and its condition. *)
Theorem run_name_roundtrip r : run_re (run_name r) = Some (pretty r.1, r.2).
Proof.
  destruct r as [n c]. unfold run_re, run_name. cbn [fst snd]. rewrite strip_prefix_app.
  pose proof (isdigit_pretty n) as Hd. unfold isdigit in Hd.
  rewrite span_digits_app; [| |by intros ? ? [= <- _]].
  - destruct (pretty n) as [|d ds]; [done|]. rewrite strip_prefix_app. by destruct c.
  - by destruct (pretty n).
Qed.
