(* ===== verification/Json.v ===== *)
(** * JSON values as Python sees them

    What [json.loads] returns, with the operations the Weaviate scripts use on it:
    [dict.get], [x or default], iteration and comparison with a number. An operation that
    Python refuses on the value at hand raises as it does there. *)

From stdpp Require Import base list strings.
From Stdlib Require Import QArith ZArith.
From S2P Require Import Prelude PyFloat.

Local Open Scope nat_scope.

Inductive json : Type :=
| JNull
| JBool (b : bool)
| JNum (q : Q)
| JStr (s : string)
| JList (l : list json)
| JDict (d : list (string * json)).

Definition AttributeError : exn := OtherError "AttributeError".

(** [bool(x)] *)
Definition truthy (j : json) : bool :=
  match j with
  | JNull => false
  | JBool b => b
  | JNum q => negb (Qeq_bool q 0)
  | JStr s => negb (bool_decide (s = ""%string))
  | JList l => match l with [] => false | _ => true end
  | JDict d => match d with [] => false | _ => true end
  end.

(** [x or d] *)
Definition j_or (j d : json) : json := if truthy j then j else d.

(** [x.get(k, d)]: only a dictionary has it. *)
Definition jget_or (k : string) (d j : json) : result json :=
  match j with
  | JDict m => Ok (default d (dget k m))
  | _ => Raise AttributeError
  end.
Definition jget (k : string) (j : json) : result json := jget_or k JNull j.

(** [x[k]] with a string key. *)
Definition jitem (k : string) (j : json) : result json :=
  match j with
  | JDict m => match dget k m with Some v => Ok v | None => Raise KeyError end
  | _ => Raise TypeError
  end.

(** [x[0]] *)
Definition jfirst (j : json) : result json :=
  match j with
  | JList (x :: _) => Ok x
  | JList [] => Raise IndexError
  | JDict _ => Raise KeyError
  | JStr (String c _) => Ok (JStr (String c EmptyString))
  | JStr EmptyString => Raise IndexError
  | _ => Raise TypeError
  end.

(** [for y in x] *)
Definition jiter (j : json) : result (list json) :=
  match j with
  | JList l => Ok l
  | JDict d => Ok (JStr <$> d.*1)
  | JStr s => Ok ((fun c => JStr (String c EmptyString)) <$> String.list_ascii_of_string s)
  | _ => Raise TypeError
  end.

(** [x == n] for a number: booleans are integers. *)
Definition jeq_num (j : json) (n : Q) : bool :=
  match j with
  | JNum q => Qeq_bool q n
  | JBool b => Qeq_bool (if b then 1 else 0) n
  | _ => false
  end.

Arguments jget_or : simpl never.
Arguments jget : simpl never.

Definition is_dict (j : json) : bool := match j with JDict _ => true | _ => false end.

(** ** A reply of an HTTP helper: a status and JSON or text *)

Inductive raw : Type := RawEmpty | RawJson (j : json) | RawText (s : string).

(** What the request meets: an answer, an HTTP error with a body, or no server. *)
Inductive http_outcome : Type :=
| HAnswer (status : Z) (r : raw)
| HError (code : Z) (r : raw)
| HFailed (message : string).

(** Text that is not JSON is a [str], which is a JSON string to the callers. *)
Definition decode_raw (r : raw) : json :=
  match r with RawEmpty => JDict [] | RawJson j => j | RawText s => JStr s end.

Lemma decode_text_not_dict s : is_dict (decode_raw (RawText s)) = false.
Proof. done. Qed.

Lemma jget_dict k j v : jget k j = Ok v -> is_dict j = true.
Proof. by destruct j. Qed.

Lemma jget_not_dict k j : is_dict j = false -> jget k j = Raise AttributeError.
Proof. by destruct j. Qed.
