(* ===== verification/WeaviateTopology.v ===== *)
(** * The Weaviate cluster

    [research/weaviate_probe/weaviate_topology.py]: names and ports, the compose file and
    its YAML writer, the HTTP helper and the class that every study writes into. *)

From stdpp Require Import base list strings pretty.
From Stdlib Require Import QArith ZArith Lia Ascii.
From S2P Require Import Prelude PyFloat Json.

Local Open Scope nat_scope.

Definition N_NODES : nat := 3.
Definition REPLICATION_FACTOR : Z := 3.
Definition CLASS_NAME : string := "RrdVector".
Definition PROJECT : string := "rrd-weaviate".

Definition node_service_name (n : nat) : string := ("weaviate-node" +:+ pretty n)%string.
Definition container_name (n : nat) : string := (PROJECT +:+ "-node" +:+ pretty n)%string.
Definition http_port (n : nat) : N := (8080 + N.of_nat n)%N.
Definition grpc_port (n : nat) : N := (50551 + N.of_nat n)%N.
Definition internal_port (n : nat) : N := (7947 + N.of_nat n)%N.
Definition data_volume (n : nat) : string := (PROJECT +:+ "-data" +:+ pretty n)%string.

(** ** [_write_yaml] *)

Inductive yaml : Type :=
| YNone
| YStr (s : string)
| YList (l : list yaml)
| YDict (d : list (string * yaml)).

Definition nested (o : yaml) : bool := match o with YList _ | YDict _ => true | _ => false end.

Fixpoint pad (indent : nat) : string :=
  match indent with 0 => "" | S i => ("  " +:+ pad i)%string end.

(** [str.strip()], for ASCII. *)
Definition blank (c : ascii) : bool :=
  let n := nat_of_ascii c in ((9 <=? n) && (n <=? 13)) || ((28 <=? n) && (n <=? 32)).
Fixpoint lstrip (s : string) : string :=
  match s with
  | String c s' => if blank c then lstrip s' else s
  | EmptyString => EmptyString
  end.
Fixpoint rstrip (s : string) : string :=
  match s with
  | String c s' =>
      match rstrip s' with
      | EmptyString => if blank c then EmptyString else String c EmptyString
      | s'' => String c s''
      end
  | EmptyString => EmptyString
  end.
Definition strip (s : string) : string := lstrip (rstrip s).

(** An item that is a container: its first line is moved behind the dash; an empty one
    has no first line. *)
Definition dashed (indent : nat) (sub : list string) : result (list string) :=
  match sub with
  | [] => Raise IndexError
  | l :: rest => Ok ((pad indent +:+ "- " +:+ strip l)%string :: rest)
  end.

(** The lines of one entry of a dictionary and of one item of a list, given those of the
    container it holds. *)
Definition entry_lines (indent : nat) (k : string) (v : yaml) (sub : result (list string))
    : result (list string) :=
  match v with
  | YNone => Ok [(pad indent +:+ k +:+ ":")%string]
  | YStr s => Ok [(pad indent +:+ k +:+ ": " +:+ s)%string]
  | _ => ls ← sub; Ok ((pad indent +:+ k +:+ ":")%string :: ls)
  end.

Definition item_lines (indent : nat) (item : yaml) (sub : result (list string)) : result (list string) :=
  match item with
  | YNone => Ok [(pad indent +:+ "- None")%string]
  | YStr s => Ok [(pad indent +:+ "- " +:+ s)%string]
  | _ => ls ← sub; dashed indent ls
  end.

Fixpoint emit (o : yaml) (indent : nat) {struct o} : result (list string) :=
  match o with
  | YDict d => @List.concat _ <$> rmapM (fun kv => entry_lines indent kv.1 kv.2 (emit kv.2 (S indent))) d
  | YList l => @List.concat _ <$> rmapM (fun item => item_lines indent item (emit item (S indent))) l
  | _ => Ok []
  end.

(** ** [write_compose_file] *)

Fixpoint join (sep : string) (l : list string) : string :=
  match l with
  | [] => ""
  | [x] => x
  | x :: l' => (x +:+ sep +:+ join sep l')%string
  end.

Definition raft_join : string :=
  ("RAFT_JOIN=" +:+ join "," ((fun i => "node" +:+ pretty i +:+ ":8300") <$> seq 0 N_NODES))%string.

Definition service_env (n : nat) : list string :=
  ["QUERY_DEFAULTS_LIMIT=25"; "AUTHENTICATION_ANONYMOUS_ACCESS_ENABLED=true";
   "PERSISTENCE_DATA_PATH=/var/lib/weaviate"; "DEFAULT_VECTORIZER_MODULE=none";
   "ENABLE_MODULES="; "CLUSTER_GOSSIP_BIND_PORT=7946"; "CLUSTER_DATA_BIND_PORT=7947";
   ("CLUSTER_HOSTNAME=node" +:+ pretty n); ("RAFT_BOOTSTRAP_EXPECT=" +:+ pretty N_NODES);
   "RAFT_PORT=8300"; "RAFT_INTERNAL_RPC_PORT=8301"; raft_join; "ASYNC_INDEXING=false"]%string
  ++ (if 0 <? n then [("CLUSTER_JOIN=" +:+ node_service_name 0 +:+ ":7946")%string] else []).

Definition service_ports (n : nat) : list string :=
  [(pretty (http_port n) +:+ ":8080"); (pretty (grpc_port n) +:+ ":50051");
   (pretty (internal_port n) +:+ ":7947")]%string.

Definition compose_service (image : string) (n : nat) : yaml :=
  YDict ([("image", YStr image); ("container_name", YStr (container_name n));
          ("environment", YList (YStr <$> service_env n));
          ("ports", YList (YStr <$> service_ports n));
          ("volumes", YList [YStr (data_volume n +:+ ":/var/lib/weaviate")])]%string
         ++ (if 0 <? n then [("depends_on"%string, YList [YStr (node_service_name 0)])] else [])).

Definition compose_file (image : string) : yaml :=
  YDict [("services", YDict ((fun n => (node_service_name n, compose_service image n)) <$> seq 0 N_NODES));
         ("volumes", YDict ((fun n => (data_volume n, YNone)) <$> seq 0 N_NODES))]%string.

Definition write_compose_file (image : string) : result (list string) := emit (compose_file image) 0.

(** ** [http_request] *)

(** An unreachable endpoint is status 0 with the text of the exception. *)
Definition http_request (o : http_outcome) : Z * json :=
  match o with
  | HAnswer st r => (st, decode_raw r)
  | HError code r => (code, decode_raw r)
  | HFailed m => (0%Z, JStr m)
  end.

(** ** [verify_class], [create_class] *)

Record class_actual := mkActual { ac_factor : json; ac_async : json; ac_shards : json }.

(** The schema of the class: whether it is as expected, and what it is ([None] when the
    server did not give one). *)
Definition verify_class (o : http_outcome) : result (bool * option class_actual) :=
  let '(st, sch) := http_request o in
  if negb (Z.eqb st 200) || negb (is_dict sch) then Ok (false, None)
  else
    rep ← jget "replicationConfig" sch;
    shard ← jget "shardingConfig" sch;
    factor ← jget "factor" (j_or rep (JDict []));
    async ← jget "asyncEnabled" (j_or rep (JDict []));
    shards ← jget "actualCount" (j_or shard (JDict []));
    Ok (jeq_num factor (inject_Z REPLICATION_FACTOR) && jeq_num shards 1,
        Some (mkActual factor async shards)).

Inductive created : Type := Created (resp : json) | Existed | Differs (resp : json).

(** The POST; only when it is refused the schema is read. *)
Definition create_class (post get : http_outcome) : result (Z * created) :=
  let '(st, resp) := http_request post in
  if Z.eqb st 200 then Ok (st, Created resp)
  else
    gv ← verify_class get;
    Ok (if (fst gv : bool) then (200%Z, Existed) else (st, Differs resp)).

(** ** [nodes_status] *)
Definition nodes_status (o : http_outcome) : Z * json := http_request o.

(** * Properties *)

(** ** The writer *)

(** Induction over a value and everything in it. *)
Section YamlInd.
Context (P : yaml -> Prop).
Context (HN : P YNone) (HS : forall s, P (YStr s)).
Context (HL : forall l, Forall P l -> P (YList l)).
Context (HD : forall d, Forall (fun kv => P kv.2) d -> P (YDict d)).

Fixpoint yaml_ind' (o : yaml) : P o :=
  match o with
  | YNone => HN
  | YStr s => HS s
  | YList l =>
      HL l ((fix go l := match l return Forall P l with
                         | [] => Forall_nil_2 P
                         | x :: l' => Forall_cons_2 P x l' (yaml_ind' x) (go l')
                         end) l)
  | YDict d =>
      HD d ((fix go d := match d return Forall (fun kv => P kv.2) d with
                         | [] => Forall_nil_2 _
                         | kv :: d' => Forall_cons_2 _ kv d' (yaml_ind' kv.2) (go d')
                         end) d)
  end.
End YamlInd.

(** A value the writer accepts: no item of a list, at any depth, is an empty container. *)
Definition empty_container (o : yaml) : bool :=
  match o with YList [] | YDict [] => true | _ => false end.

Fixpoint writable (o : yaml) : bool :=
  match o with
  | YDict d => forallb (fun kv => writable kv.2) d
  | YList l => forallb (fun v => negb (empty_container v) && writable v) l
  | _ => true
  end.

(** What the writer does with one value: it writes it exactly when it is writable, and
    then a container that is not empty has a first line. *)
Definition emits (o : yaml) : Prop :=
  forall indent,
    if writable o
    then exists ls, emit o indent = Ok ls /\ (nested o = true -> empty_container o = false -> ls <> [])
    else emit o indent = Raise IndexError.

(** Lines gathered from parts that each have one or raise. *)
Lemma gather {A} (f : A -> result (list string)) (ok : A -> bool) l :
  Forall (fun x => if ok x then exists ls, f x = Ok ls /\ ls <> [] else f x = Raise IndexError) l ->
  if forallb ok l
  then exists ls, @List.concat _ <$> rmapM f l = Ok ls /\ (l <> [] -> ls <> [])
  else @List.concat _ <$> rmapM f l = Raise IndexError.
Proof.
  induction 1 as [|x l Hx _ IH]; [by exists []|]. simpl.
  destruct (ok x); [|by rewrite Hx]. destruct Hx as (ls & -> & Hne). simpl in *.
  destruct (forallb ok l).
  - destruct IH as (ls' & E & _). destruct (rmapM f l) as [ys|]; [|done]. simpl.
    eexists. split; [done|]. intros _. by destruct ls.
  - by destruct (rmapM f l); simplify_eq/=.
Qed.

Lemma entry_emits indent k v :
  emits v ->
  if writable v
  then exists ls, entry_lines indent k v (emit v (S indent)) = Ok ls /\ ls <> []
  else entry_lines indent k v (emit v (S indent)) = Raise IndexError.
Proof.
  intros H. specialize (H (S indent)). unfold entry_lines.
  destruct v as [|s|l|d]; try (by eexists); destruct (writable _);
    try (destruct H as (ls & -> & _); by eexists); by rewrite H.
Qed.

Lemma item_emits indent v :
  emits v ->
  if negb (empty_container v) && writable v
  then exists ls, item_lines indent v (emit v (S indent)) = Ok ls /\ ls <> []
  else item_lines indent v (emit v (S indent)) = Raise IndexError.
Proof.
  intros H. specialize (H (S indent)). unfold item_lines.
  destruct v as [|s|[|x l]|[|x d]]; try (by eexists); try done; cbn [empty_container negb andb];
    destruct (writable _); try (by rewrite H);
    destruct H as ([|y ls] & -> & Hne); try (by eexists); exfalso; by apply Hne.
Qed.

(** The writer refuses a value exactly when a list of it, however deep, has an empty
    container as an item; the refusal is the [IndexError] of the first-line rewrite. *)
Lemma emit_exact o : emits o.
Proof.
  induction o as [|s|l IH|d IH] using yaml_ind'; intros indent; try (eexists; by split).
  - pose proof (gather (fun v => item_lines indent v (emit v (S indent)))
      (fun v => negb (empty_container v) && writable v) l) as G.
    cbn [writable emit]. destruct (forallb _ l); [|apply G].
    + destruct G as (ls & -> & Hne). { eapply Forall_impl; [exact IH|]. intros v. apply item_emits. }
      exists ls. split; [done|]. intros _ He. apply Hne. by intros ->.
    + eapply Forall_impl; [exact IH|]. intros v. apply item_emits.
  - pose proof (gather (fun kv => entry_lines indent kv.1 kv.2 (emit kv.2 (S indent)))
      (fun kv => writable kv.2) d) as G.
    cbn [writable emit]. destruct (forallb _ d); [|apply G].
    + destruct G as (ls & -> & Hne). { eapply Forall_impl; [exact IH|]. intros v. apply entry_emits. }
      exists ls. split; [done|]. intros _ He. apply Hne. by intros ->.
    + eapply Forall_impl; [exact IH|]. intros v. apply entry_emits.
Qed.

(** ** The compose file *)

(** The cluster that is written down is one cluster: the file can be written for any
    image, no two nodes publish the same host port or share a container or a volume,
    every node is told of all three, and exactly the others join node 0. *)
Theorem compose_one_cluster image :
  (exists ls, write_compose_file image = Ok ls /\ ls <> []) /\
  NoDup (@List.concat _ ((fun n => [http_port n; grpc_port n; internal_port n]) <$> seq 0 N_NODES)) /\
  NoDup (container_name <$> seq 0 N_NODES) /\ NoDup (data_volume <$> seq 0 N_NODES) /\
  (forall n, n < N_NODES ->
     raft_join ∈ service_env n /\
     raft_join = "RAFT_JOIN=node0:8300,node1:8300,node2:8300"%string /\
     ("CLUSTER_JOIN=weaviate-node0:7946"%string ∈ service_env n <-> n <> 0)).
Proof.
  split; [|split; [decide_now|split; [decide_now|split; [decide_now|]]]].
  - pose proof (emit_exact (compose_file image) 0) as H.
    replace (writable (compose_file image)) with true in H by reflexivity.
    destruct H as (ls & H & Hne). exists ls. split; [done|]. by apply Hne.
  - intros n Hn. unfold N_NODES in Hn.
    destruct n as [|[|[|n]]]; [| | |lia]; (split; [decide_now|split; [reflexivity|]]);
      (split; [intros H; try done|intros H; try done; try decide_now]).
    exfalso. revert H. apply (bool_decide_unpack _). vm_compute. exact I.
Qed.

(** ** The class *)

(** Whatever refuses the creation, [create_class] reports success only for a class that it
    made or that has one shard replicated on every node: a class left over by another
    writer with another layout is never taken for the study's own. *)
Theorem create_class_sound post get st c :
  create_class post get = Ok (st, c) -> st = 200%Z ->
  (exists resp, c = Created resp /\ (http_request post).1 = 200%Z) \/
  (c = Existed /\ exists a, verify_class get = Ok (true, Some a) /\
     jeq_num (ac_factor a) 3 = true /\ jeq_num (ac_shards a) 1 = true).
Proof.
  unfold create_class. destruct (http_request post) as [s resp] eqn:E. simpl.
  destruct (Z.eqb_spec s 200) as [->|Hs]; [intros ? ?; simplify_eq; left; eauto|].
  destruct (verify_class get) as [[b a]|] eqn:V; simpl; [|done].
  destruct b; intros ? ?; simplify_eq; try done. right. split; [done|].
  unfold verify_class in V. destruct (http_request get) as [s' sch].
  destruct (_ || _); [done|].
  bind_inv V. simplify_eq.
  match goal with H : _ && _ = true |- _ => apply andb_true_iff in H as [? ?] end. eauto.
Qed.

(** A server that cannot be reached, or that answers in text, is a class that does not
    match, never an exception. *)
Lemma verify_class_unreachable o :
  is_dict (http_request o).2 = false -> verify_class o = Ok (false, None).
Proof.
  unfold verify_class. destruct (http_request o) as [st sch]. simpl. intros ->.
  by rewrite orb_true_r.
Qed.
