(* ===== verification/WeaviateProbe.v ===== *)
(** * Reading one Weaviate replica

    [research/weaviate_nonperturbing_probe/internal_api.py]: the internal endpoint, the
    encoding of the ids asked for and the size-based probe.
    [research/weaviate_probe_per_id/per_id.py]: which of the ids a replica holds, decided by
    scanning its binary answer for each id's sixteen bytes, and the validation of that
    decoder on a live cluster. *)

From stdpp Require Import base list gmap strings.
From Stdlib Require Import QArith ZArith Lia Ascii.
From S2P Require Import Prelude PyFloat Json WeaviateTopology Dissociation.

Local Open Scope nat_scope.

(** ** [uuid.UUID] *)

(** The [k] digits of [x] in base [b], most significant first, and back. *)
Fixpoint be_digits (b : Z) (k : nat) (x : Z) : list Z :=
  match k with
  | 0 => []
  | S k' => be_digits b k' (x / b)%Z ++ [(x mod b)%Z]
  end.

Definition be_val (b : Z) (ds : list Z) : Z := foldl (fun a d => a * b + d)%Z 0%Z ds.

Definition hex_char (d : Z) : ascii :=
  ascii_of_nat (Z.to_nat (if (d <? 10)%Z then 48 + d else 87 + d)).

Definition hex_val (c : ascii) : option Z :=
  let n := Z.of_nat (nat_of_ascii c) in
  if ((48 <=? n) && (n <=? 57))%Z then Some (n - 48)%Z
  else if ((97 <=? n) && (n <=? 102))%Z then Some (n - 87)%Z
  else if ((65 <=? n) && (n <=? 70))%Z then Some (n - 55)%Z
  else None.

Definition dash : ascii := "-".

(** [str(uuid.UUID(int=x))] *)
Definition uuid_chars (x : Z) : list ascii :=
  let h := hex_char <$> be_digits 16 32 x in
  take 8 h ++ dash :: take 4 (drop 8 h) ++ dash :: take 4 (drop 12 h)
  ++ dash :: take 4 (drop 16 h) ++ dash :: drop 20 h.
Definition uuid_str (x : Z) : string := String.string_of_list_ascii (uuid_chars x).

(** [uuid.UUID(s)], for the hyphenated form that these scripts write: 32 hexadecimal
    digits once the hyphens are removed. *)
Definition uuid_of (s : string) : result Z :=
  let h := List.filter (fun c => negb (Ascii.eqb c dash)) (String.list_ascii_of_string s) in
  if negb (Nat.eqb (length h) 32) then Raise ValueError
  else match mapM hex_val h with
       | Some ds => Ok (be_val 16 ds)
       | None => Raise ValueError
       end.

(** [uuid.UUID(s).bytes] *)
Definition uuid_bytes (x : Z) : list Z := be_digits 256 16 x.

(** ** [encode_ids] *)

(** [base64.b64encode] *)
Definition b64_alphabet : list ascii :=
  String.list_ascii_of_string "ABCDEFGHIJKLMNOPQRSTUVWXYZabcdefghijklmnopqrstuvwxyz0123456789+/".
Definition b64_char (v : Z) : ascii := nth (Z.to_nat v) b64_alphabet "="%char.

Fixpoint b64encode (bs : list Z) : list ascii :=
  match bs with
  | a :: b :: c :: rest =>
      b64_char (a / 4) :: b64_char (a mod 4 * 16 + b / 16) :: b64_char (b mod 16 * 4 + c / 64)
      :: b64_char (c mod 64) :: b64encode rest
  | [a; b] => [b64_char (a / 4); b64_char (a mod 4 * 16 + b / 16); b64_char (b mod 16 * 4); "="%char]
  | [a] => [b64_char (a / 4); b64_char (a mod 4 * 16); "="%char; "="%char]
  | [] => []
  end%Z.

(** [json.dumps] of a list of strings that need no escape. *)
Definition dquote : ascii := ascii_of_nat 34.
Fixpoint comma_sep (l : list (list ascii)) : list ascii :=
  match l with
  | [] => []
  | [x] => x
  | x :: l' => x ++ ","%char :: " "%char :: comma_sep l'
  end.
Definition dumps (ids : list string) : list ascii :=
  "["%char :: comma_sep ((fun s => dquote :: String.list_ascii_of_string s ++ [dquote]) <$> ids)
  ++ ["]"%char].

Definition byte_of (c : ascii) : Z := Z.of_nat (nat_of_ascii c).
Definition encode_ids (ids : list string) : list ascii := b64encode (byte_of <$> dumps ids).

(** [urllib.parse.quote], with its default safe set. *)
Definition url_safe (c : ascii) : bool :=
  let n := nat_of_ascii c in
  ((65 <=? n) && (n <=? 90)) || ((97 <=? n) && (n <=? 122)) || ((48 <=? n) && (n <=? 57))
  || bool_decide (c ∈ String.list_ascii_of_string "_.-~/").
Definition upper_hex (d : Z) : ascii :=
  ascii_of_nat (Z.to_nat (if (d <? 10)%Z then 48 + d else 55 + d)).
Definition quote_char (c : ascii) : list ascii :=
  if url_safe c then [c]
  else ["%"%char; upper_hex (byte_of c / 16); upper_hex (byte_of c mod 16)].
Definition quote (s : list ascii) : list ascii := mjoin (quote_char <$> s).

(** ** [raw_get], [shard_name], [objects_present] *)

Inductive raw_outcome : Type :=
| GotBytes (status : Z) (body : list Z)
| GotError (code : Z) (body : list Z)
| NoServer (message : list Z).

Definition raw_get (o : raw_outcome) : Z * list Z :=
  match o with
  | GotBytes st b => (st, b)
  | GotError c b => (c, b)
  | NoServer m => (0%Z, m)
  end.

(** The first shard of the first node that lists one. *)
Fixpoint first_shard (nodes : list json) : result json :=
  match nodes with
  | [] => Ok JNull
  | n :: rest =>
      shards ← jget "shards" n;
      ss ← jiter (j_or shards (JList []));
      match ss with
      | s :: _ => jget "name" s
      | [] => first_shard rest
      end
  end.

Definition shard_name (o : http_outcome) : result json :=
  nodes ← jget "nodes" (nodes_status o).2;
  ns ← jiter (j_or nodes (JList []));
  first_shard ns.

(** The path asked for. *)
Definition objects_path (shard : string) (ids : list string) : string :=
  ("/indices/" +:+ CLASS_NAME +:+ "/shards/" +:+ shard +:+ "/objects?ids="
   +:+ String.string_of_list_ascii (quote (encode_ids ids)))%string.

Definition objects_present (o : raw_outcome) : bool * nat :=
  let '(st, body) := raw_get o in (Z.eqb st 200, length body).

(** ** [objects_present_ids] *)

(** [needle in body] on bytes. *)
Fixpoint occurs (p s : list Z) : bool :=
  bool_decide (p `prefix_of` s) || match s with [] => false | _ :: s' => occurs p s' end.

Definition objects_present_ids (o : raw_outcome) (ids : list string) : result (bool * gset string) :=
  let '(st, body) := raw_get o in
  if negb (Z.eqb st 200) then Ok (false, ∅)
  else
    found ← rmapM (fun i => x ← uuid_of i; Ok (if occurs (uuid_bytes x) body then [i] else [])) ids;
    Ok (true, list_to_set (mjoin found)).

(** ** [validate] *)

Definition PRESENT : list string := uuid_str <$> zrange 20 0.
Definition ABSENT : list string := uuid_str <$> zrange 10 900000.
Definition PEERONLY : list string := uuid_str <$> zrange 10 910000.

(** What the validation meets, in program order: the status of the nodes, from which the
    shard is named, the answers of the three nodes to the
    mixed request, those of node 0 and of the stopped node 2, the polls of node 2 after
    its restart, its answer to the full mix, and the four answers of the cross-check. *)
Record vld_env := mkVld {
  ve_status : http_outcome;
  ve_nodes : list raw_outcome;
  ve_up : raw_outcome;
  ve_down : raw_outcome;
  ve_polls : list (Q * raw_outcome);
  ve_mix : raw_outcome;
  ve_sizeA : raw_outcome; ve_sizeB : raw_outcome;
  ve_gotA : raw_outcome; ve_gotB : raw_outcome;
}.

(** The commands it gives, in order. *)
Definition validate_trace : list cmd :=
  [WriteAll (zrange 20 0); StopNode 2; WriteOne (zrange 10 910000); StartNode 2].

(** [while time.time() < deadline]: whether node 2 answered; [None] when the rounds end
    first. *)
Fixpoint first_answer (deadline : Q) (polls : list (Q * raw_outcome)) : option (result bool) :=
  match polls with
  | [] => None
  | (now, o) :: rest =>
      if Qltb now deadline then
        match objects_present_ids o PEERONLY with
        | Ok (true, _) => Some (Ok true)
        | Ok (false, _) => first_answer deadline rest
        | Raise e => Some (Raise e)
        end
      else Some (Ok false)
  end.

Definition meets (s : gset string) (ids : list string) : bool :=
  negb (bool_decide (s ∩ list_to_set ids = ∅)).

Definition mix_checks (mix : gset string) : list bool :=
  let converged := Nat.eqb (size (mix ∩ list_to_set PEERONLY)) (length PEERONLY) in
  let expected : gset string := list_to_set PRESENT ∪ (if converged then list_to_set PEERONLY else ∅) in
  [bool_decide (mix = expected)]
  ++ (if converged then [] else [negb (meets mix PEERONLY)])
  ++ [negb (meets mix ABSENT)].

Definition validate_checks (answered : bool) (e : vld_env) : result (list bool) :=
  sets ← rmapM (fun o => objects_present_ids o (PRESENT ++ ABSENT)) (ve_nodes e);
  up ← objects_present_ids (ve_up e) PEERONLY;
  down ← objects_present_ids (ve_down e) PEERONLY;
  first ← py_index (sets.*2) 0;
  mixed ← (if answered
           then m ← objects_present_ids (ve_mix e) (PRESENT ++ ABSENT ++ PEERONLY); Ok (mix_checks m.2)
           else Ok [false]);
  gotA ← objects_present_ids (ve_gotA e) PRESENT;
  gotB ← objects_present_ids (ve_gotB e) ABSENT;
  let sA := (objects_present (ve_sizeA e)).2 in
  let sB := (objects_present (ve_sizeB e)).2 in
  Ok ([Nat.eqb (length (remove_dups (sets.*2))) 1;
       bool_decide (list_to_set PRESENT ⊆ first);
       negb (meets first ABSENT);
       fst up && bool_decide (snd up = list_to_set PEERONLY);
       negb (fst down)]
      ++ mixed
      ++ [Bool.eqb (0 <? sA) (0 <? size (snd gotA)) && Bool.eqb (Nat.eqb sB 0) (Nat.eqb (size (snd gotB)) 0)]).

(** The exit status; a node that cannot be asked for its shards ends the run at once. *)
Definition validate (deadline : Q) (e : vld_env) : option (result nat) :=
  match shard_name (ve_status e) with
  | Raise x => Some (Raise x)
  | Ok _ =>
      match first_answer deadline (ve_polls e) with
      | None => None
      | Some (Raise x) => Some (Raise x)
      | Some (Ok a) =>
          Some (checks ← validate_checks a e; Ok (if forallb id checks then 0 else 1))
      end
  end.

(** * Properties *)

(** ** Digits *)

Lemma be_digits_length b k x : length (be_digits b k x) = k.
Proof. revert x. induction k as [|k IH]; intros x; simpl; [done|]. rewrite length_app, IH. simpl. lia. Qed.

Lemma be_digits_range b k x : (0 < b)%Z -> Forall (fun d => 0 <= d < b)%Z (be_digits b k x).
Proof.
  intros Hb. revert x. induction k as [|k IH]; intros x; simpl; [constructor|].
  apply Forall_app. split; [done|]. constructor; [|constructor]. by apply Z.mod_pos_bound.
Qed.

Lemma be_val_digits b k x : (0 < b)%Z -> be_val b (be_digits b k x) = (x mod b ^ Z.of_nat k)%Z.
Proof.
  intros Hb. revert x. induction k as [|k IH]; intros x; [by rewrite Z.mod_1_r|].
  cbn [be_digits]. unfold be_val in *. rewrite foldl_app, IH. cbn [foldl].
  rewrite Nat2Z.inj_succ, Z.pow_succ_r by lia. rewrite Z.rem_mul_r by lia. lia.
Qed.

(** ** Identifiers *)

Definition is_uuid (x : Z) : Prop := (0 <= x < 2 ^ 128)%Z.

Lemma hex_val_char d : (0 <= d < 16)%Z -> hex_val (hex_char d) = Some d /\ hex_char d <> dash.
Proof.
  intros H.
  assert (Forall (fun n => hex_val (hex_char (Z.of_nat n)) = Some (Z.of_nat n)
                           /\ hex_char (Z.of_nat n) <> dash) (seq 0 16)) as F by decide_now.
  rewrite Forall_forall in F. rewrite <- (Z2Nat.id d) by lia. apply F, elem_of_seq. lia.
Qed.

Lemma hex_filter ds :
  Forall (fun d => 0 <= d < 16)%Z ds ->
  List.filter (fun c => negb (Ascii.eqb c dash)) (hex_char <$> ds) = hex_char <$> ds.
Proof.
  induction 1 as [|d ds Hd _ IH]; [done|]. rewrite fmap_cons. simpl.
  destruct (hex_val_char d Hd) as [_ Hne]. apply Ascii.eqb_neq in Hne. rewrite Hne. simpl. by rewrite IH.
Qed.

Lemma mapM_hex ds :
  Forall (fun d => 0 <= d < 16)%Z ds -> mapM hex_val (hex_char <$> ds) = Some ds.
Proof.
  intros H. apply mapM_Some. induction H as [|d ds Hd _ IH]; [constructor|].
  rewrite fmap_cons. constructor; [by apply hex_val_char|done].
Qed.

Lemma uuid_chars_hex x :
  List.filter (fun c => negb (Ascii.eqb c dash)) (uuid_chars x) = hex_char <$> be_digits 16 32 x.
Proof.
  unfold uuid_chars. set (ds := be_digits 16 32 x).
  assert (Forall (fun d => 0 <= d < 16)%Z ds) as Hr by (apply be_digits_range; lia).
  repeat (rewrite List.filter_app; cbn [List.filter]; rewrite ?Ascii.eqb_refl; cbn [negb]).
  rewrite <- !fmap_drop, <- !fmap_take.
  rewrite !hex_filter by (repeat first [apply Forall_take|apply Forall_drop]; done).
  by rewrite <- !fmap_app.
Qed.

(** Reading a printed identifier gives it back, and identifiers that print alike or have
    the same sixteen bytes are the same. *)
Lemma uuid_of_str x : is_uuid x -> uuid_of (uuid_str x) = Ok x.
Proof.
  intros Hx. unfold uuid_of, uuid_str. rewrite String.list_ascii_of_string_of_list_ascii.
  rewrite uuid_chars_hex, length_fmap, be_digits_length. simpl negb. cbn iota.
  rewrite mapM_hex by (apply be_digits_range; lia). rewrite be_val_digits by lia.
  by rewrite Z.mod_small.
Qed.

Lemma uuid_str_inj x y : is_uuid x -> is_uuid y -> uuid_str x = uuid_str y -> x = y.
Proof. intros Hx Hy E. apply Ok_inj. by rewrite <- (uuid_of_str x), <- (uuid_of_str y), E. Qed.

Lemma uuid_bytes_inj x y : is_uuid x -> is_uuid y -> uuid_bytes x = uuid_bytes y -> x = y.
Proof.
  intros Hx Hy E%(f_equal (be_val 256)). unfold uuid_bytes in E. rewrite !be_val_digits in E by lia.
  rewrite !Z.mod_small in E; done.
Qed.

(** ** The request *)

(** The inverse of [b64encode] that a server applies. *)
Fixpoint b64_index (c : ascii) (l : list ascii) (i : Z) : option Z :=
  match l with
  | [] => None
  | c' :: l' => if Ascii.eqb c c' then Some i else b64_index c l' (i + 1)%Z
  end.
Definition b64_val (c : ascii) : option Z := b64_index c b64_alphabet 0.

Fixpoint b64decode (s : list ascii) : option (list Z) :=
  match s with
  | [] => Some []
  | p :: q :: r :: t :: rest =>
      a ← b64_val p; b ← b64_val q;
      match b64_val r, b64_val t with
      | Some c, Some d =>
          bs ← b64decode rest;
          Some ((a * 4 + b / 16)%Z :: (b mod 16 * 16 + c / 4)%Z :: (c mod 4 * 64 + d)%Z :: bs)
      | Some c, None => Some [(a * 4 + b / 16)%Z; (b mod 16 * 16 + c / 4)%Z]
      | None, _ => Some [(a * 4 + b / 16)%Z]
      end
  | _ => None
  end.

Lemma b64_val_char v : (0 <= v < 64)%Z -> b64_val (b64_char v) = Some v.
Proof.
  intros H.
  assert (Forall (fun n => b64_val (b64_char (Z.of_nat n)) = Some (Z.of_nat n)) (seq 0 64)) as F
    by decide_now.
  rewrite Forall_forall in F. rewrite <- (Z2Nat.id v) by lia. apply F, elem_of_seq. lia.
Qed.

Definition is_byte (x : Z) : Prop := (0 <= x < 256)%Z.

Ltac b64_step := repeat (rewrite b64_val_char by (Z.to_euclidean_division_equations; lia)); cbn [mbind option_bind].

(** Induction by threes. *)
Lemma list_ind3 {A} (P : list A -> Prop) :
  P [] -> (forall a, P [a]) -> (forall a b, P [a; b]) ->
  (forall a b c l, P l -> P (a :: b :: c :: l)) -> forall l, P l.
Proof.
  intros H0 H1 H2 H3. fix go 1. intros [|a [|b [|c l]]]; [done|done|done|apply H3, go].
Qed.

(** What the server decodes is what was encoded. *)
Lemma b64_roundtrip bs : Forall is_byte bs -> b64decode (b64encode bs) = Some bs.
Proof.
  assert (b64_val "="%char = None) as Hpad by reflexivity. unfold is_byte.
  induction bs as [|a|a b|a b c l IH] using list_ind3; intros H.
  - done.
  - apply Forall_cons in H as [Ha _]. cbn [b64encode b64decode]. b64_step. rewrite Hpad.
    do 2 f_equal. Z.to_euclidean_division_equations; lia.
  - do 2 (apply Forall_cons in H as [? H]). cbn [b64encode b64decode]. b64_step. rewrite Hpad.
    do 2 f_equal; [|f_equal]; Z.to_euclidean_division_equations; lia.
  - do 3 (apply Forall_cons in H as [? H]). cbn [b64encode b64decode]. b64_step.
    rewrite IH by done. cbn [mbind option_bind].
    do 2 f_equal; [|f_equal; [|f_equal]]; Z.to_euclidean_division_equations; lia.
Qed.

Lemma b64_length bs : length (b64encode bs) = 4 * ((length bs + 2) / 3).
Proof.
  induction bs as [|a|a b|a b c l IH] using list_ind3; try done.
  cbn [b64encode length]. rewrite IH. replace (S (S (S (length l))) + 2) with (length l + 2 + 1 * 3) by lia.
  rewrite Nat.div_add by lia. lia.
Qed.

Lemma list_ascii_length s : length (String.list_ascii_of_string s) = String.length s.
Proof. induction s; simpl; auto. Qed.

Lemma dumps_length ids :
  Forall (fun s => String.length s = 36) ids -> ids <> [] -> length (dumps ids) = 40 * length ids.
Proof.
  intros H Hne. unfold dumps. cbn [length]. rewrite length_app. cbn [length].
  assert (length (comma_sep ((fun s => dquote :: String.list_ascii_of_string s ++ [dquote]) <$> ids)) + 2
          = 40 * length ids) as E; [|lia].
  induction H as [|s ids Hs H IH]; [done|]. rewrite fmap_cons.
  destruct ids as [|s' ids]; [|specialize (IH ltac:(done))]; cbn [comma_sep fmap list_fmap length] in *;
    rewrite ?length_app; cbn [length]; rewrite ?length_app, list_ascii_length, Hs; cbn [length] in *; lia.
Qed.

Lemma uuid_str_length x : String.length (uuid_str x) = 36.
Proof.
  unfold uuid_str. rewrite <- list_ascii_length, String.list_ascii_of_string_of_list_ascii.
  done.
Qed.

Lemma byte_of_range c : is_byte (byte_of c).
Proof. unfold is_byte, byte_of. pose proof (nat_ascii_bounded c). lia. Qed.

Lemma upper_hex_safe d : (0 <= d < 16)%Z -> url_safe (upper_hex d) = true.
Proof.
  intros H.
  assert (Forall (fun n => url_safe (upper_hex (Z.of_nat n)) = true) (seq 0 16)) as F by decide_now.
  rewrite Forall_forall in F. rewrite <- (Z2Nat.id d) by lia. apply F, elem_of_seq. lia.
Qed.

Lemma quote_safe s c : c ∈ quote s -> url_safe c = true \/ c = "%"%char.
Proof.
  unfold quote. intros (l & Hl & (c' & -> & _)%list_elem_of_fmap)%list_elem_of_join.
  unfold quote_char in Hl. destruct (url_safe c') eqn:E.
  - apply list_elem_of_singleton in Hl as ->. by left.
  - pose proof (byte_of_range c') as Hb. unfold is_byte in Hb.
    repeat (apply elem_of_cons in Hl as [->|Hl]); [by right|left|left|by apply not_elem_of_nil in Hl];
      apply upper_hex_safe; Z.to_euclidean_division_equations; lia.
Qed.

(** The identifiers asked for reach the server: the parameter decodes to the JSON array
    that was written, contains no character that a URL would change, and [n] identifiers
    make exactly [4 * ceil (40 n / 3)] characters of it before quoting, so the length of a
    request is known before it is sent. *)
Theorem request_decodes xs :
  b64decode (encode_ids (uuid_str <$> xs)) = Some (byte_of <$> dumps (uuid_str <$> xs)) /\
  (forall c, c ∈ quote (encode_ids (uuid_str <$> xs)) -> url_safe c = true \/ c = "%"%char) /\
  (xs <> [] -> length (encode_ids (uuid_str <$> xs)) = 4 * ((40 * length xs + 2) / 3)).
Proof.
  split; [|split].
  - apply b64_roundtrip, Forall_fmap, Forall_true. intros c. apply byte_of_range.
  - intros c. apply quote_safe.
  - intros Hne. unfold encode_ids. rewrite b64_length, length_fmap, dumps_length, length_fmap; [done| |].
    + apply Forall_fmap, Forall_true. intros x. apply uuid_str_length.
    + by destruct xs.
Qed.

(** ** The answer *)

Lemma occurs_spec p s : occurs p s = true <-> exists a b, s = a ++ p ++ b.
Proof.
  induction s as [|x s IH]; cbn [occurs]; rewrite orb_true_iff, bool_decide_eq_true.
  - split.
    + intros [[b H]|H]; [|done]. by exists [], b.
    + intros (a & b & H). left. destruct a; [|done]. by exists b.
  - rewrite IH. split.
    + intros [[b H]|(a & b & ->)]; [by exists [], b|by exists (x :: a), b].
    + intros ([|y a] & b & H); [left; by exists b|]. injection H as -> ->. right. by exists a, b.
Qed.

Lemma found_ids xs body :
  Forall is_uuid xs ->
  rmapM (fun i => x ← uuid_of i; Ok (if occurs (uuid_bytes x) body then [i] else [])) (uuid_str <$> xs)
  = Ok ((fun x => if occurs (uuid_bytes x) body then [uuid_str x] else []) <$> xs).
Proof.
  induction 1 as [|x xs Hx _ IH]; [done|]. rewrite !fmap_cons. cbn [rmapM].
  rewrite (uuid_of_str x Hx). cbn [mbind result_bind]. by rewrite IH.
Qed.

(** One record of an answer: the bytes before the identifier, the identifier, the rest. *)
Definition record_bytes (r : list Z * Z * list Z) : list Z := r.1.1 ++ uuid_bytes r.1.2 ++ r.2.

(** C24. The decoder answers for every request. It separates "did not serve" from "holds
    none"; what it reports was asked for; an identifier is reported exactly when its sixteen
    bytes are somewhere in the answer; so every requested object the replica returned is
    reported, wherever its record puts the identifier and whatever surrounds it. *)
Theorem objects_present_ids_spec o xs :
  Forall is_uuid xs ->
  exists s, objects_present_ids o (uuid_str <$> xs) = Ok (Z.eqb (raw_get o).1 200, s) /\
    (Z.eqb (raw_get o).1 200 = false -> s = ∅) /\
    (forall i, i ∈ s -> exists x, x ∈ xs /\ i = uuid_str x) /\
    (Z.eqb (raw_get o).1 200 = true -> forall x, x ∈ xs ->
       (uuid_str x ∈ s <-> exists a b, (raw_get o).2 = a ++ uuid_bytes x ++ b)) /\
    (Z.eqb (raw_get o).1 200 = true -> forall records, (raw_get o).2 = mjoin (record_bytes <$> records) ->
       forall r, r ∈ records -> r.1.2 ∈ xs -> uuid_str r.1.2 ∈ s).
Proof.
  intros Hxs. unfold objects_present_ids. destruct (raw_get o) as [st body]. cbn [fst snd].
  destruct (Z.eqb st 200) eqn:E; cbn [negb].
  2: { exists ∅. split_and!; try done; intros; set_solver. }
  rewrite (found_ids xs body Hxs). cbn [mbind result_bind]. eexists. split; [done|].
  set (s := list_to_set _).
  assert (forall i, i ∈ s <-> exists x, x ∈ xs /\ occurs (uuid_bytes x) body = true /\ i = uuid_str x) as Hs.
  { intros i. unfold s. rewrite elem_of_list_to_set, list_elem_of_join. split.
    - intros (l & Hl & (x & -> & Hx)%list_elem_of_fmap). destruct (occurs _ _) eqn:Eo.
      + apply list_elem_of_singleton in Hl as ->. eauto.
      + by apply not_elem_of_nil in Hl.
    - intros (x & Hx & Ho & ->). eexists. split; [|apply list_elem_of_fmap; by exists x].
      rewrite Ho. apply list_elem_of_singleton. done. }
  assert (forall x, x ∈ xs -> (uuid_str x ∈ s <-> exists a b, body = a ++ uuid_bytes x ++ b)) as Hx.
  { intros x Hx. rewrite <- occurs_spec, Hs. split; [|by eauto].
    intros (y & Hy & Ho & Hxy). rewrite Forall_forall in Hxs. apply uuid_str_inj in Hxy; auto. by subst. }
  split_and!; [done| |done|].
  - intros i Hi. apply Hs in Hi as (x & ? & _ & ?). eauto.
  - intros _ records -> r Hr Hin. apply Hx; [done|].
    apply list_elem_of_split in Hr as (l1 & l2 & ->). rewrite fmap_app, fmap_cons, join_app. cbn [mjoin list_join].
    exists (mjoin (record_bytes <$> l1) ++ r.1.1), (r.2 ++ mjoin (record_bytes <$> l2)).
    unfold record_bytes at 2. by rewrite <- !app_assoc.
Qed.

Definition demo_answer : raw_outcome :=
  GotBytes 200 (mjoin (record_bytes <$> [([7; 7]%Z, 41%Z, [9]%Z); ([1]%Z, 43%Z, [])])).

Lemma objects_present_ids_spec_witness :
  exists s, objects_present_ids demo_answer (uuid_str <$> [41; 42; 43]%Z) = Ok (true, s) /\
    uuid_str 41 ∈ s /\ uuid_str 42 ∉ s /\ uuid_str 43 ∈ s.
Proof.
  destruct (objects_present_ids_spec demo_answer [41; 42; 43]%Z
    ltac:(repeat constructor; unfold is_uuid; lia)) as (s & H & _ & _ & Hx & _).
  exists s. split; [exact H|].
  split; [|split]; (rewrite Hx by (first [reflexivity|decide_now]); rewrite <- occurs_spec; vm_compute; done).
Defined.

Lemma be_digits_leading b k y :
  (1 < b)%Z -> (0 <= y < b ^ Z.of_nat k)%Z -> be_digits b (S k) y = 0%Z :: be_digits b k y.
Proof.
  intros Hb. revert y. induction k as [|k IH]; intros y Hy; cbn [be_digits].
  - change (b ^ Z.of_nat 0)%Z with 1%Z in Hy. by rewrite Z.mod_small by lia; replace y with 0%Z by lia.
  - cbn [be_digits] in IH. rewrite IH; [done|].
    rewrite Nat2Z.inj_succ, Z.pow_succ_r in Hy by lia.
    split; [apply Z.div_pos; lia|apply Z.div_lt_upper_bound; lia].
Qed.

Lemma be_digits_shift b k y : (0 < b)%Z -> be_digits b (S k) (b * y) = be_digits b k y ++ [0%Z].
Proof. intros Hb. cbn [be_digits]. by rewrite Z.mul_comm, Z.div_mul, Z_mod_mult by lia. Qed.

(** The scan is not exact for the small consecutive numbers these studies use: the object
    numbered [x] followed by a zero byte looks like the object numbered [256 x]. *)
Lemma shifted_id_reported x pre post :
  (0 <= x < 2 ^ 120)%Z -> occurs (uuid_bytes (256 * x)) (pre ++ uuid_bytes x ++ 0%Z :: post) = true.
Proof.
  intros Hx. apply occurs_spec. unfold uuid_bytes.
  rewrite be_digits_shift, (be_digits_leading 256 15 x) by lia.
  exists (pre ++ [0%Z]), post. by rewrite <- !app_assoc.
Qed.

(** ** The validation *)

Lemma zrange_uuids n x : (0 <= x)%Z -> (x + Z.of_nat n <= 2 ^ 128)%Z -> Forall is_uuid (zrange n x).
Proof. intros H1 H2. apply Forall_forall. intros y Hy. apply elem_of_zrange in Hy. unfold is_uuid. lia. Qed.

(** The three groups of identifiers do not meet. *)
Lemma groups_disjoint n m x y i :
  (0 <= x)%Z -> (x + Z.of_nat n <= y)%Z -> (y + Z.of_nat m <= 2 ^ 128)%Z ->
  i ∈ uuid_str <$> zrange n x -> i ∉ uuid_str <$> zrange m y.
Proof.
  intros H1 H2 H3 (a & -> & Ha)%list_elem_of_fmap (b & E & Hb)%list_elem_of_fmap.
  apply elem_of_zrange in Ha, Hb. apply uuid_str_inj in E; unfold is_uuid; lia.
Qed.

Lemma remove_dups_eq_one {A} `{EqDecision A} (l : list A) x :
  length (remove_dups l) = 1 -> head l = Some x -> forall y, y ∈ l -> y = x.
Proof.
  intros H Hx y Hy. destruct l as [|x' l]; [done|]. injection Hx as ->.
  apply elem_of_remove_dups in Hy.
  assert (x ∈ remove_dups (x :: l)) as Hx by (apply elem_of_remove_dups; by left).
  destruct (remove_dups (x :: l)) as [|z [|? ?]]; [done| |done].
  apply list_elem_of_singleton in Hx, Hy. congruence.
Qed.

(** A report asked of a replica holds only what was asked. *)
Lemma present_subset o ids ok s :
  objects_present_ids o ids = Ok (ok, s) -> s ⊆ list_to_set ids.
Proof.
  unfold objects_present_ids. destruct (raw_get o) as [st body]. destruct (negb _).
  { intros [= <- <-]. set_solver. }
  destruct (rmapM _ ids) as [found|] eqn:E; cbn [mbind result_bind]; [|done]. intros [= <- <-].
  apply rmapM_Ok in E. intros i. rewrite !elem_of_list_to_set. induction E as [|x y ids found Hxy _ IH]; [done|].
  cbn [mjoin list_join]. rewrite elem_of_app, elem_of_cons.
  destruct (uuid_of x); simplify_eq/=. destruct (occurs _ _); [rewrite list_elem_of_singleton|]; set_solver.
Qed.

Lemma meets_false s ids : meets s ids = false -> forall i, i ∈ s -> i ∉ ids.
Proof.
  unfold meets. rewrite negb_false_iff, bool_decide_eq_true. set_solver.
Qed.

Local Opaque PRESENT ABSENT PEERONLY.

Lemma present_absent_disjoint i : i ∈ PRESENT -> i ∉ ABSENT.
Proof. Local Transparent PRESENT ABSENT. apply groups_disjoint; lia. Qed.
Local Opaque PRESENT ABSENT.

(** The first three checks leave one possible report. *)
Lemma control_exact (s : gset string) :
  s ⊆ list_to_set (PRESENT ++ ABSENT) -> list_to_set PRESENT ⊆ s -> meets s ABSENT = false ->
  s = list_to_set PRESENT.
Proof.
  intros Hs Hp Ha. apply set_eq. intros i. split; [|set_solver]. intros Hi.
  pose proof (meets_false _ _ Ha i Hi). apply Hs in Hi. rewrite elem_of_list_to_set, elem_of_app in Hi.
  rewrite elem_of_list_to_set. tauto.
Qed.

(** C25. A validation that passes has compared the decoder with a constructed expectation and
    found it equal at every point: each replica of the healthy cluster reported exactly the
    objects written and none of the objects never written, the live peer exactly those
    written during the outage, the stopped node did not serve, and the restarted one
    reported either exactly what it had or exactly that with all of the missing objects.
    A decoder that says yes to whatever it is asked cannot pass. *)
Theorem validate_sound deadline e :
  validate deadline e = Some (Ok 0) ->
  (forall o, o ∈ ve_nodes e ->
     exists ok, objects_present_ids o (PRESENT ++ ABSENT) = Ok (ok, list_to_set PRESENT)) /\
  objects_present_ids (ve_up e) PEERONLY = Ok (true, list_to_set PEERONLY) /\
  (exists s, objects_present_ids (ve_down e) PEERONLY = Ok (false, s)) /\
  exists ok m, objects_present_ids (ve_mix e) (PRESENT ++ ABSENT ++ PEERONLY) = Ok (ok, m) /\
    (m = list_to_set PRESENT \/ m = list_to_set PRESENT ∪ list_to_set PEERONLY).
Proof.
  unfold validate. destruct (shard_name _) as [shard|]; [|done]. destruct (first_answer _ _) as [[answered|]|]; [|done|done].
  destruct (validate_checks answered e) as [checks|] eqn:V; cbn [mbind result_bind]; [|done].
  destruct (forallb id checks) eqn:F; [|done]. intros _. unfold validate_checks in V. bind_inv V.
  injection V as <-. cbn [app forallb id] in F. rewrite forallb_app in F. cbn [forallb id] in F.
  rewrite !andb_true_iff in F. destruct F as (F1 & F2 & F3 & (F4 & F4') & F5 & F6 & _).
  apply Nat.eqb_eq in F1. apply bool_decide_eq_true in F2, F4'. apply negb_true_iff in F3, F5.
  repeat match goal with p : (bool * gset string)%type |- _ => destruct p end. cbn [fst snd] in *. subst.
  assert (forall o ok s, o ∈ ve_nodes e -> objects_present_ids o (PRESENT ++ ABSENT) = Ok (ok, s) ->
            s ∈ a.*2) as Hin.
  { intros o ok s Ho Hs. match goal with H : rmapM _ _ = Ok a |- _ => apply rmapM_Ok in H as Hall end.
    apply list_elem_of_lookup in Ho as [i Hi]. destruct (Forall2_lookup_l _ _ _ _ _ Hall Hi) as (y & Hy & Hoy).
    simpl in Hoy. rewrite Hs in Hoy. injection Hoy as <-. apply list_elem_of_fmap.
    exists (ok, s). split; [done|]. by eapply list_elem_of_lookup_2. }
  match goal with H : py_index _ 0 = Ok ?g |- _ => rename H into Hfirst; rename g into first end.
  assert (head (a.*2) = Some first) as Hhead.
  { unfold py_index in Hfirst. destruct (a.*2); [done|]. by injection Hfirst as ->. }
  pose proof (remove_dups_eq_one _ _ F1 Hhead) as Hone.
  split_and!.
  - intros o Ho. match goal with H : rmapM _ _ = Ok a |- _ => apply rmapM_Ok in H as Hall end.
    apply list_elem_of_lookup in Ho as [i Hi]. destruct (Forall2_lookup_l _ _ _ _ _ Hall Hi) as ([ok s] & Hy & Hoy).
    simpl in Hoy. exists ok. rewrite Hoy. do 2 f_equal.
    assert (s = first) as ->. { apply Hone, (Hin o ok); [by eapply list_elem_of_lookup_2|done]. }
    apply control_exact; [|done|done]. eapply present_subset, Hoy.
  - done.
  - eauto.
  - destruct answered.
    + match goal with H : (_ ≫= _) = Ok _ |- _ => rename H into Hm end.
      bind_inv Hm. injection Hm as <-. match goal with p : (bool * gset string)%type |- _ => destruct p as [ok m] end.
      exists ok, m. split; [done|]. unfold mix_checks in F6. cbn [snd] in F6.
      rewrite forallb_app in F6. cbn [forallb id] in F6. rewrite !andb_true_iff in F6.
      destruct F6 as ((F6 & _) & _). apply bool_decide_eq_true in F6.
      destruct (Nat.eqb _ _) in F6; [right; exact F6|left]. rewrite F6. set_solver.
    + match goal with H : Ok [false] = Ok ?m |- _ => injection H as <- end. done.
Qed.

Definition demo_reply (xs : list Z) : raw_outcome :=
  GotBytes 200 (mjoin (record_bytes <$> ((fun x => ([9]%Z, x, [9]%Z)) <$> xs))).

Definition demo_status : http_outcome :=
  HAnswer 200 (RawJson (JDict [("nodes", JList [JDict [("shards", JList [JDict [("name", JStr "s0")]])]])]%string)).

Definition demo_vld : vld_env :=
  let all := demo_reply (zrange 20 0) in
  let down := NoServer [] in
  mkVld demo_status [all; all; all] (demo_reply (zrange 10 910000)) down
    [(1%Q, down); (2%Q, demo_reply [])] (demo_reply (zrange 20 0)) all (demo_reply []) all (demo_reply []).

Lemma validate_sound_witness :
  validate 120 demo_vld = Some (Ok 0) /\
  objects_present_ids (ve_up demo_vld) PEERONLY = Ok (true, list_to_set PEERONLY).
Proof.
  assert (validate 120 demo_vld = Some (Ok 0)) as H by (vm_compute; reflexivity).
  split; [exact H|]. apply (validate_sound 120 demo_vld H).
Defined.

(** An unreachable node 0 stops the validation before its first write. *)
Example validate_unreachable :
  validate 120 (mkVld (HFailed "refused") [] (NoServer []) (NoServer []) [] (NoServer []) (NoServer [])
                  (NoServer []) (NoServer []) (NoServer [])) = Some (Raise AttributeError).
Proof. by vm_compute. Qed.

(** Waiting for the restarted node ends: by the deadline at the latest. *)
Lemma first_answer_decides deadline polls now o :
  (now, o) ∈ polls -> Qltb now deadline = false -> is_Some (first_answer deadline polls).
Proof.
  intros Hin Hnow. induction polls as [|[now' o'] polls IH]; [by apply not_elem_of_nil in Hin|].
  cbn [first_answer]. apply elem_of_cons in Hin as [[= <- <-]|Hin]; [rewrite Hnow; eauto|].
  destruct (Qltb now' deadline); [|eauto].
  destruct (objects_present_ids o' PEERONLY) as [[[] ?]|]; eauto.
Qed.

(** [shard_name] is annotated as returning [None] when there is no shard; a node that does
    not answer makes it raise instead. *)
Lemma shard_name_unreachable m : shard_name (HFailed m) = Raise AttributeError.
Proof. done. Qed.
