(* ===== verification/WeaviateChecks.v ===== *)
(** * Can a Weaviate replica be read on its own?

    [research/weaviate_probe/feasibility_check.py]: the verdicts on isolation probing and on
    the per-shard counts. [research/weaviate_probe/divergence_check.py]: whether the isolation
    probe sees a divergence made on purpose. Server replies and clocks are inputs; commands
    that change the cluster are recorded, also when the script dies. *)

From stdpp Require Import base list strings sorting.
From Stdlib Require Import QArith ZArith Lia.
From S2P Require Import Prelude PyFloat Json WeaviateTopology Dissociation.

Local Open Scope nat_scope.

(** ** Equality of decoded values *)

Fixpoint jeqb (a b : json) {struct a} : bool :=
  match a, b with
  | JNull, JNull => true
  | (JBool _ | JNum _), (JBool _ | JNum _) =>
      match a, b with
      | JBool x, _ => jeq_num b (if x then 1 else 0)
      | JNum x, _ => jeq_num b x
      | _, _ => false
      end
  | JStr s, JStr t => bool_decide (s = t)
  | JList l, JList m =>
      (fix go (l m : list json) : bool :=
         match l, m with
         | [], [] => true
         | x :: l', y :: m' => jeqb x y && go l' m'
         | _, _ => false
         end) l m
  | JDict d, JDict e =>
      Nat.eqb (length d) (length e)
      && forallb (fun kv => match dget kv.1 e with Some v => jeqb kv.2 v | None => false end) d
  | _, _ => false
  end.

(** ** [search], [object_ids] *)

Definition wv_search (o : http_outcome) : result (bool * json) :=
  let '(st, body) := http_request o in
  if negb (Z.eqb st 200) || negb (is_dict body) then Ok (false, JList [])
  else
    errors ← jget "errors" body;
    if truthy errors then Ok (false, errors)
    else
      data ← jget "data" body;
      get ← jget_or "Get" (JDict []) (j_or data (JDict []));
      cls ← jget CLASS_NAME get;
      got ← jiter (j_or cls (JList []));
      vids ← rmapM (jget "vid") got;
      Ok (true, JList vids).

(** [sorted(...)] of identifiers: strings; a missing one compares with nothing. *)
Definition sort_ids (ids : list json) : result (list json) :=
  match mapM (fun j => match j with JStr s => Some s | _ => None end) ids with
  | Some ss => Ok (JStr <$> sorted str_leb ss)
  | None => match ids with [x] => Ok [x] | _ => Raise TypeError end
  end.

Definition object_ids (o : http_outcome) : result (bool * list json) :=
  let '(st, body) := http_request o in
  if negb (Z.eqb st 200) || negb (is_dict body) then Ok (false, [])
  else
    objects ← jget_or "objects" (JList []) body;
    os ← jiter objects;
    ids ← rmapM (jget "id") os;
    l ← sort_ids ids;
    Ok (true, l).

(** ** [feasibility_check.main] *)

Inductive verdict_a : Type := ADoesNotWork | AInvalid | AWorks.
Inductive verdict_b : Type := BWorks | BBroken.

Record feas_env := mkFeas {
  fe_control : list http_outcome;     (* the same search, one node after the other *)
  fe_nodes : http_outcome;
  fe_aggregate : http_outcome;
  fe_isolated : http_outcome;
  fe_listed : http_outcome;
}.

Definition node_counts (n : json) : result (list json) :=
  shards ← jget "shards" n;
  ss ← jiter (j_or shards (JList []));
  rmapM (fun s => _ ← jitem "name" n; jget "objectCount" s) ss.

Definition shard_counts (o : http_outcome) : result (list json) :=
  nodes ← jget_or "nodes" (JList []) (nodes_status o).2;
  ns ← jiter nodes;
  cs ← rmapM node_counts ns;
  Ok (@mjoin list _ _ cs).

Definition aggregate_count (o : http_outcome) : result json :=
  data ← jget "data" (http_request o).2;
  agg ← jget "Aggregate" (j_or data (JDict []));
  cls ← jget CLASS_NAME (j_or agg (JDict []));
  first ← jfirst (j_or cls (JList [JDict []]));
  meta ← jget_or "meta" (JDict []) first;
  jget "count" meta.

Definition judge_b (counts : list json) (true_count : json) : verdict_b :=
  match counts with
  | [] => BBroken
  | _ => if forallb (fun c => jeqb c true_count) counts then BWorks else BBroken
  end.

Definition judge_a (ok_iso : bool) (iso : json) (control0 : option json) : verdict_a :=
  if negb ok_iso then ADoesNotWork
  else match control0 with
       | Some v => if jeqb iso v then AWorks else AInvalid
       | None => AInvalid
       end.

(** The commands given, and the two verdicts. *)
Definition feasibility_main (e : feas_env) : list cmd * result (verdict_a * verdict_b) :=
  let others := seq 1 (N_NODES - 1) in
  match (control ← rmapM wv_search (fe_control e);
         counts ← shard_counts (fe_nodes e);
         tc ← aggregate_count (fe_aggregate e);
         Ok (control, judge_b counts tc)) with
  | Raise x => ([], Raise x)
  | Ok (control, vb) =>
      match (iso ← wv_search (fe_isolated e); listed ← object_ids (fe_listed e); Ok iso) with
      | Raise x => (StopNode <$> others, Raise x)
      | Ok (ok_iso, ids_iso) =>
          let control0 := match control with (true, v) :: _ => Some v | _ => None end in
          ((StopNode <$> others) ++ (StartNode <$> others), Ok (judge_a ok_iso ids_iso control0, vb))
      end
  end.

(** ** [divergence_check] *)

Definition count_via_list (o : http_outcome) : result (option nat) :=
  l ← object_ids o; Ok (if (fst l : bool) then Some (length (snd l)) else None).

(** [wait_ready]: one status a round. *)
Definition wait_ready (deadline : Q) (rounds : list (Q * http_outcome)) : option bool :=
  poll_until deadline rounds (fun o => Z.eqb (http_request o).1 200).

Inductive dverdict : Type := DInconclusive | DSees | DBlind | DUnexpected.

Definition judge_divergence (n_before n_peer n_victim : option nat) : dverdict :=
  match n_victim with
  | None => DInconclusive
  | Some v =>
      if match n_before, n_peer with
         | Some b, Some p => Nat.eqb v b && (b <? p)
         | _, _ => false
         end then DSees
      else if bool_decide (n_victim = n_peer) then DBlind
      else DUnexpected
  end.

Record dvg_env := mkDvg {
  dv_before : http_outcome;
  dv_batch : http_outcome;
  dv_peer : http_outcome;
  dv_victim : http_outcome;
  dv_nodes : http_outcome;
  dv_polls : list (Q * http_outcome);      (* seconds since the peers were restarted *)
}.

(** The objects of the batch reply that carry errors; a reply that is no list has none. *)
Definition batch_errors (body : json) : result (list json) :=
  match body with
  | JList os =>
      es ← rmapM (fun o => r ← jget "result" o; e ← jget "errors" (j_or r (JDict [])); Ok (truthy e, o)) os;
      Ok (snd <$> List.filter fst es)
  | _ => Ok []
  end.

(** The log of [/v1/nodes]: the names it reads. *)
Definition log_nodes (o : http_outcome) : result unit :=
  nodes ← jget "nodes" (nodes_status o).2;
  ns ← jiter (j_or nodes (JList []));
  _ ← rmapM (fun n => shards ← jget "shards" n; ss ← jiter (j_or shards (JList []));
                      rmapM (fun s => _ ← jitem "name" n; jget "name" s) ss) ns;
  Ok tt.

(** [while time.time() - t0 < 180]: when the count was that of the peers. *)
Fixpoint converge (n_peer : option nat) (polls : list (Q * http_outcome)) : option (result (option Q)) :=
  match polls with
  | [] => None
  | (t, o) :: rest =>
      if Qltb t 180 then
        match count_via_list o with
        | Raise x => Some (Raise x)
        | Ok c => if bool_decide (c = n_peer) then Some (Ok (Some (round_nd 1 t))) else converge n_peer rest
        end
      else Some (Ok None)
  end.

Definition divergence_main (extra : list Z) (e : dvg_env)
    : list cmd * option (result (dverdict * option Q)) :=
  match count_via_list (dv_before e) with
  | Raise x => ([], Some (Raise x))
  | Ok n_before =>
      match (_ ← batch_errors (http_request (dv_batch e)).2; count_via_list (dv_peer e)) with
      | Raise x => ([StopNode VICTIM; WriteOne extra], Some (Raise x))
      | Ok n_peer =>
          let t3 := [StopNode VICTIM; WriteOne extra; StartNode VICTIM] ++ (StopNode <$> PEERS) in
          match (n_victim ← count_via_list (dv_victim e); _ ← log_nodes (dv_nodes e); Ok n_victim) with
          | Raise x => (t3, Some (Raise x))
          | Ok n_victim =>
              let v := judge_divergence n_before n_peer n_victim in
              (t3 ++ (StartNode <$> PEERS),
               (fun r => c ← r; Ok (v, c)) <$> converge n_peer (dv_polls e))
          end
      end
  end.

(** * Properties *)

(** The nodes a sequence of commands leaves stopped. *)
Definition down_after (tr : list cmd) : list nat :=
  foldl (fun d c => match c with
                    | StopNode n => n :: d
                    | StartNode n => List.filter (fun m => negb (Nat.eqb m n)) d
                    | _ => d
                    end) [] tr.

(** The verdict that the isolation probe sees a divergence is given exactly when the
    victim lists what was there before the outage and its peers list strictly more; and a
    check that ends leaves no node stopped, whatever it concludes. *)
Theorem divergence_check_sound extra e tr v conv :
  divergence_main extra e = (tr, Some (Ok (v, conv))) ->
  down_after tr = [] /\
  exists nb np nv,
    count_via_list (dv_before e) = Ok nb /\ count_via_list (dv_peer e) = Ok np /\
    count_via_list (dv_victim e) = Ok nv /\
    (v = DSees <-> exists b p, nb = Some b /\ nv = Some b /\ np = Some p /\ b < p).
Proof.
  unfold divergence_main. destruct (count_via_list (dv_before e)) as [nb|]; [|done].
  destruct (batch_errors _); cbn [mbind result_bind]; [|done].
  destruct (count_via_list (dv_peer e)) as [np|]; [|done].
  destruct (count_via_list (dv_victim e)) as [nv|]; cbn [mbind result_bind]; [|done].
  destruct (log_nodes _); cbn [mbind result_bind]; [|done].
  destruct (converge np (dv_polls e)) as [[c|]|]; cbn; intros H; simplify_eq.
  split; [done|]. exists nb, np, nv. split_and!; [done..|]. unfold judge_divergence.
  destruct nv as [n|]; [|split; [done|by intros (? & ? & ? & ? & _)]].
  destruct nb as [b|], np as [p|]; try (case_bool_decide; naive_solver).
  destruct (Nat.eqb n b && (b <? p)) eqn:E; breflect.
  - split; [|done]. intros _. exists b, p. naive_solver.
  - split; [case_bool_decide; done|]. intros (b' & p' & ? & ? & ? & ?). simplify_eq.
    rewrite Nat.eqb_refl in E. simpl in E. breflect. lia.
Qed.

Definition demo_list (ids : list string) : http_outcome :=
  HAnswer 200 (RawJson (JDict [("objects", JList ((fun i => JDict [("id", JStr i)]) <$> ids))]%string)).
Definition demo_dvg : dvg_env :=
  mkDvg (demo_list ["a"%string]) (HAnswer 200 (RawJson (JList [])))
    (demo_list ["a"; "b"]%string) (demo_list ["a"%string]) (HAnswer 200 (RawJson (JDict [])))
    [(1%Q, demo_list ["b"; "a"]%string)].

Lemma divergence_check_sound_witness :
  divergence_main [100000%Z] demo_dvg =
    ([StopNode 2; WriteOne [100000%Z]; StartNode 2; StopNode 0; StopNode 1; StartNode 0; StartNode 1],
     Some (Ok (DSees, Some (10 # 10)%Q))) /\
  down_after [StopNode 2; WriteOne [100000%Z]; StartNode 2; StopNode 0; StopNode 1; StartNode 0; StartNode 1]
  = [].
Proof.
  assert (divergence_main [100000%Z] demo_dvg =
    ([StopNode 2; WriteOne [100000%Z]; StartNode 2; StopNode 0; StopNode 1; StartNode 0; StartNode 1],
     Some (Ok (DSees, Some (10 # 10)%Q)))) as H by (vm_compute; reflexivity).
  split; [exact H|]. apply (divergence_check_sound _ _ _ _ _ H).
Defined.

(** An isolated victim that does not answer [/v1/nodes] is no verdict: reading its status as
    a dictionary raises, and the peers, stopped for the probe, stay stopped. *)
Lemma divergence_crash_leaves_peers_down :
  exists e, divergence_main [] e =
    ([StopNode 2; WriteOne []; StartNode 2; StopNode 0; StopNode 1], Some (Raise AttributeError)) /\
  down_after (divergence_main [] e).1 = [1; 0].
Proof.
  exists (mkDvg (demo_list []) (HAnswer 200 (RawJson (JList []))) (demo_list []) (HFailed "refused")
            (HFailed "refused") []).
  by vm_compute.
Qed.

(** When the write of the extra objects failed there is no divergence to see, and the probe
    is called blind. *)
Lemma no_divergence_is_blind n : judge_divergence (Some n) (Some n) (Some n) = DBlind.
Proof.
  unfold judge_divergence. rewrite Nat.eqb_refl, Nat.ltb_irrefl. cbn. by rewrite bool_decide_true.
Qed.

(** Isolation probing is reported to work only when the isolated node served the search
    and gave the answer it had given in the healthy cluster; and a check that ends has
    restarted every node that it stopped, and never stopped the one it asked. *)
Theorem feasibility_sound e tr va vb :
  feasibility_main e = (tr, Ok (va, vb)) ->
  down_after tr = [] /\ StopNode 0 ∉ tr /\
  (va = AWorks -> exists healthy iso rest,
     rmapM wv_search (fe_control e) = Ok ((true, healthy) :: rest) /\
     wv_search (fe_isolated e) = Ok (true, iso) /\ jeqb iso healthy = true).
Proof.
  unfold feasibility_main. destruct (rmapM wv_search (fe_control e)) as [control|]; cbn [mbind result_bind]; [|done].
  destruct (shard_counts _); cbn [mbind result_bind]; [|done].
  destruct (aggregate_count _); cbn [mbind result_bind]; [|done].
  destruct (wv_search (fe_isolated e)) as [[ok iso]|]; cbn [mbind result_bind]; [|done].
  destruct (object_ids _); cbn [mbind result_bind]; [|done].
  intros H. injection H as <- <- _. split; [done|]. split; [rewrite !not_elem_of_cons; split_and!; try done; apply not_elem_of_nil|].
  unfold judge_a. destruct ok; [|done]. cbn [negb].
  destruct control as [|[[] v] rest]; [done| |done].
  destruct (jeqb iso v) eqn:E; [|done]. intros _. by exists v, iso, rest.
Qed.

Definition demo_hits (vid : string) : http_outcome :=
  HAnswer 200 (RawJson (JDict [("data", JDict [("Get", JDict [(CLASS_NAME,
    JList [JDict [("vid", JStr vid)]])])])]%string)).
Definition demo_feas : feas_env :=
  mkFeas [demo_hits "x"; demo_hits "x"; demo_hits "x"]
    (HAnswer 200 (RawJson (JDict []))) (HAnswer 200 (RawJson (JDict []))) (demo_hits "x") (demo_list []).

Lemma feasibility_sound_witness :
  feasibility_main demo_feas =
    ([StopNode 1; StopNode 2; StartNode 1; StartNode 2], Ok (AWorks, BBroken)) /\
  down_after [StopNode 1; StopNode 2; StartNode 1; StartNode 2] = [].
Proof.
  assert (feasibility_main demo_feas =
    ([StopNode 1; StopNode 2; StartNode 1; StartNode 2], Ok (AWorks, BBroken))) as H by (vm_compute; reflexivity).
  split; [exact H|]. apply (feasibility_sound _ _ _ _ H).
Defined.

(** Counts that are all missing agree with an aggregate that failed: the path is reported
    to work although nothing was read. *)
Lemma missing_counts_work : judge_b [JNull; JNull] JNull = BWorks.
Proof. done. Qed.
