(* ===== verification/Dispersion.v ===== *)
(** * Spread and correlation

    What [statistics.mean], [statistics.pstdev] and a coefficient of variation compute in
    the Weaviate clock study, in doubles as Python does (overflow apart), and the sums and the
    least-squares line of the trajectory study, exact. *)

From stdpp Require Import base list.
From Stdlib Require Import QArith Qabs Lqa ZArith Lia.
From S2P Require Import Prelude PyFloat Rounding.

Local Open Scope nat_scope.

(** ** Definitions *)

(** [sum((x - m) ** 2 for x in xs)] and the population variance. *)
Definition sq_dev (xs : list Q) : Q := Qsum ((fun x => (x - np_mean xs) * (x - np_mean xs))%Q <$> xs).
Definition pvariance (xs : list Q) : Q := (sq_dev xs / inject_Z (Z.of_nat (length xs)))%Q.

(** [sum((x - mx) * (y - my) for x, y in zip(xs, ys))] *)
Definition co_dev (xs ys : list Q) : Q :=
  Qsum (zip_with (fun x y => (x - np_mean xs) * (y - np_mean ys))%Q xs ys).

(** [statistics.pstdev] computes the variance exactly and rounds its root correctly: an
    integer root with its last bit set when it is not exact ([_integer_sqrt_of_frac_rto]), of
    more bits than a double has, then a division rounded to the nearest double
    ([_float_sqrt_of_frac], Python 3.11 on). *)
Definition bit_length (n : Z) : Z := if (n =? 0)%Z then 0%Z else (Z.log2 n + 1)%Z.

Definition isqrt_rto (n m : Z) : Z :=
  let a := Z.sqrt (n / m) in Z.lor a (if (a * a * m =? n)%Z then 0 else 1)%Z.

Definition float_sqrt (x : Q) : Q :=
  let n := Qnum (Qred x) in
  let m := Z.pos (Qden (Qred x)) in
  let q := ((bit_length n - bit_length m - 109) / 2)%Z in
  if (0 <=? q)%Z
  then f64 (inject_Z (Z.shiftl (isqrt_rto n (Z.shiftl m (2 * q))) q))
  else f64 (inject_Z (isqrt_rto (Z.shiftl n (- (2 * q))) m) / inject_Z (Z.shiftl 1 (- q)))%Q.

Definition pstdev (xs : list Q) : Q := float_sqrt (pvariance xs).

(** [statistics.mean]: the exact mean, rounded once. *)
Definition py_mean (xs : list Q) : Q := f64 (np_mean xs).

(** [cv]: the coefficient of variation. *)
Definition cv (xs : list Q) : float :=
  if length xs <? 2 then nan
  else if Qeq_bool (py_mean xs) 0 then nan
  else fin (f64 (pstdev xs / py_mean xs)).

(** Slope and intercept of the least-squares line, and the squared standard deviation of
    the residuals. *)
Definition residuals (slope inter : Q) (xs ys : list Q) : list Q :=
  zip_with (fun x y => y - (slope * x + inter))%Q xs ys.

Definition ols (xs ys : list Q) : option (Q * Q * Q) :=
  if length xs <? 3 then None
  else if Qeq_bool (sq_dev xs) 0 then None
  else
    let slope := (co_dev xs ys / sq_dev xs)%Q in
    let inter := (np_mean ys - slope * np_mean xs)%Q in
    Some (slope, inter, pvariance (residuals slope inter xs ys)).

(** ** Sums *)

Lemma Qsq_nonneg q : (0 <= q * q)%Q.
Proof. destruct (Qlt_le_dec q 0) as [H|H]; [|by apply Qmult_le_0_compat].
  assert (q * q == (- q) * (- q))%Q as -> by ring. apply Qmult_le_0_compat; lra. Qed.

Lemma Qsum_nonneg l : Forall (fun q => 0 <= q)%Q l -> (0 <= Qsum l)%Q.
Proof. induction 1 as [|x l Hx _ IH]; [cbn; lra|]. rewrite Qsum_cons. lra. Qed.

Lemma Qsum_const c (l : list Q) :
  (Qsum ((fun _ => c) <$> l) == c * inject_Z (Z.of_nat (length l)))%Q.
Proof.
  induction l as [|x l IH]; [cbn; ring|]. rewrite fmap_cons, Qsum_cons, IH. cbn [length].
  rewrite Nat2Z.inj_succ. unfold Z.succ. rewrite inject_Z_plus. ring.
Qed.

Lemma Qsum_fmap_plus {A} (f g : A -> Q) l :
  (Qsum ((fun x => f x + g x) <$> l) == Qsum (f <$> l) + Qsum (g <$> l))%Q.
Proof. induction l as [|x l IH]; [reflexivity|]. rewrite !fmap_cons, !Qsum_cons, IH. ring. Qed.

Lemma Qsum_fmap_scale {A} (c : Q) (f : A -> Q) l : (Qsum ((fun x => c * f x) <$> l) == c * Qsum (f <$> l))%Q.
Proof. induction l as [|x l IH]; [cbn; ring|]. rewrite !fmap_cons, !Qsum_cons, IH. ring. Qed.

Lemma Qsum_fmap_ext {A} (f g : A -> Q) l : (forall x, f x == g x)%Q -> (Qsum (f <$> l) == Qsum (g <$> l))%Q.
Proof. intros H. induction l as [|x l IH]; [reflexivity|]. rewrite !fmap_cons, !Qsum_cons, IH, H. reflexivity. Qed.

Lemma Qsum_fmap_id l : Qsum ((fun x => x) <$> l) = Qsum l.
Proof. induction l as [|x l IH]; [done|]. by rewrite fmap_cons, !Qsum_cons, IH. Qed.

Lemma length_pos {A} (l : list A) : l <> [] -> (0 < inject_Z (Z.of_nat (length l)))%Q.
Proof. intros H. apply inject_nat_pos. destruct l; [done|simpl; lia]. Qed.

Lemma mean_sum l : l <> [] -> (Qsum l == np_mean l * inject_Z (Z.of_nat (length l)))%Q.
Proof. intros H%length_pos. unfold np_mean. field. lra. Qed.

(** ** Shifts and constants *)

Lemma np_mean_shift c l : l <> [] -> (np_mean ((fun x => x + c) <$> l) == np_mean l + c)%Q.
Proof.
  intros H. pose proof (length_pos l H). unfold np_mean. rewrite length_fmap.
  rewrite (Qsum_fmap_plus (fun x => x) (fun _ => c)), Qsum_const, Qsum_fmap_id. field. lra.
Qed.

Lemma sq_dev_nonneg l : (0 <= sq_dev l)%Q.
Proof.
  unfold sq_dev. generalize (np_mean l) as m. intros m. clear. induction l as [|x l IH]; [cbn; lra|].
  rewrite fmap_cons, Qsum_cons. cbv beta. pose proof (Qsq_nonneg (x - m)). lra.
Qed.

Lemma sq_dev_shift c l : (sq_dev ((fun x => x + c) <$> l) == sq_dev l)%Q.
Proof.
  destruct l as [|x0 l0]; [reflexivity|]. set (l := x0 :: l0). unfold sq_dev. rewrite <- list_fmap_compose.
  apply Qsum_fmap_ext. intros x. cbn [compose]. rewrite np_mean_shift by done. ring.
Qed.

(** No spread means one value. *)
Lemma sum_sq_zero m l : (Qsum ((fun x => (x - m) * (x - m)) <$> l) == 0)%Q <-> Forall (fun x => x == m)%Q l.
Proof.
  induction l as [|x l IH]; [split; [constructor|reflexivity]|]. rewrite fmap_cons, Qsum_cons, Forall_cons, <- IH.
  assert (0 <= Qsum ((fun x => (x - m) * (x - m)) <$> l))%Q as Hn.
  { clear. induction l as [|x l IH]; [cbn; lra|]. rewrite fmap_cons, Qsum_cons. cbv beta. pose proof (Qsq_nonneg (x - m)). lra. }
  split.
  - pose proof (Qsq_nonneg (x - m)). cbv beta. intros H'. assert ((x - m) * (x - m) == 0)%Q as Hz by lra.
    split; [|lra]. apply Qmult_integral in Hz. lra.
  - intros [Hx H]. rewrite H, Hx. ring.
Qed.

Lemma sq_dev_zero l : (sq_dev l == 0)%Q <-> Forall (fun x => x == np_mean l)%Q l.
Proof. apply sum_sq_zero. Qed.

Lemma sq_dev_const c l : l <> [] -> Forall (fun x => x == c)%Q l -> (sq_dev l == 0)%Q.
Proof.
  intros Hne H. apply sq_dev_zero. eapply Forall_impl; [exact H|]. intros x Hx. simpl in *.
  by rewrite Hx, (np_mean_const c l).
Qed.

(** ** Least squares *)

Lemma zip_with_fmap_zip {A B C} (h : A -> B -> C) l k : zip_with h l k = (fun p => h p.1 p.2) <$> zip l k.
Proof. revert k. induction l as [|x l IH]; intros [|y k]; [done..|]. cbn. by rewrite IH. Qed.

Lemma fmap_zip_fst {C} (f : Q -> C) (xs ys : list Q) :
  length xs = length ys -> (fun p => f p.1) <$> zip xs ys = f <$> xs.
Proof. intros H. rewrite <- (fst_zip xs ys) at 2 by lia. by rewrite <- list_fmap_compose. Qed.

Lemma fmap_zip_snd {C} (f : Q -> C) (xs ys : list Q) :
  length xs = length ys -> (fun p => f p.2) <$> zip xs ys = f <$> ys.
Proof. intros H. rewrite <- (snd_zip xs ys) at 2 by lia. by rewrite <- list_fmap_compose. Qed.

Lemma dev_sum_zero l : l <> [] -> (Qsum ((fun x => x - np_mean l) <$> l) == 0)%Q.
Proof.
  intros H. unfold Qminus. rewrite (Qsum_fmap_plus (fun x => x) (fun _ => - np_mean l)%Q), Qsum_const, Qsum_fmap_id.
  rewrite (mean_sum l H). ring.
Qed.

Section Line.
Context (xs ys : list Q) (Hl : length xs = length ys) (Hne : xs <> []).

Definition Qlen : Q := inject_Z (Z.of_nat (length xs)).

(** The sum of the squared distances from a line. *)
Definition rss (a b : Q) : Q :=
  Qsum ((fun e => e * e)%Q <$> residuals a b xs ys).

Lemma sums_over_zip :
  (sq_dev xs == Qsum ((fun p => (p.1 - np_mean xs) * (p.1 - np_mean xs)) <$> zip xs ys))%Q /\
  (sq_dev ys == Qsum ((fun p => (p.2 - np_mean ys) * (p.2 - np_mean ys)) <$> zip xs ys))%Q /\
  (Qsum ((fun p => p.1 - np_mean xs) <$> zip xs ys) == 0)%Q /\
  (Qsum ((fun p => p.2 - np_mean ys) <$> zip xs ys) == 0)%Q.
Proof.
  assert (ys <> []) as Hy by (by destruct ys, xs).
  rewrite (fmap_zip_fst (fun x => (x - np_mean xs) * (x - np_mean xs))%Q) by done.
  rewrite (fmap_zip_fst (fun x => x - np_mean xs)%Q) by done.
  rewrite (fmap_zip_snd (fun x => (x - np_mean ys) * (x - np_mean ys))%Q) by done.
  rewrite (fmap_zip_snd (fun x => x - np_mean ys)%Q) by done.
  split_and!; [reflexivity|reflexivity|by apply dev_sum_zero|by apply dev_sum_zero].
Qed.

Lemma rss_quadratic a b :
  (rss a b == sq_dev ys - 2 * a * co_dev xs ys + a * a * sq_dev xs
     + Qlen * ((np_mean ys - a * np_mean xs - b) * (np_mean ys - a * np_mean xs - b)))%Q.
Proof.
  destruct sums_over_zip as (Hx & Hy & Hx0 & Hy0). rewrite Hx, Hy. unfold rss, residuals, co_dev.
  rewrite (zip_with_fmap_zip (fun x y => y - (a * x + b))%Q), <- list_fmap_compose.
  rewrite (zip_with_fmap_zip (fun x y => (x - np_mean xs) * (y - np_mean ys))%Q).
  assert (Qlen == Qsum ((fun _ : Q * Q => 1) <$> zip xs ys))%Q as ->.
  { unfold Qlen. rewrite <- (length_zip_with_l_eq pair xs ys) by done. fold (zip xs ys).
    clear. induction (zip xs ys) as [|p l IH]; [reflexivity|]. rewrite fmap_cons, Qsum_cons, <- IH. cbn [length].
    rewrite Nat2Z.inj_succ. unfold Z.succ. rewrite inject_Z_plus. ring. }
  set (mx := np_mean xs) in *. set (my := np_mean ys) in *. set (e := (my - a * mx - b)%Q).
  transitivity (Qsum ((fun p : Q * Q => (p.2 - my) * (p.2 - my)) <$> zip xs ys)
    - 2 * a * Qsum ((fun p : Q * Q => (p.1 - mx) * (p.2 - my)) <$> zip xs ys)
    + a * a * Qsum ((fun p : Q * Q => (p.1 - mx) * (p.1 - mx)) <$> zip xs ys)
    + 2 * e * (Qsum ((fun p : Q * Q => p.2 - my) <$> zip xs ys)
               - a * Qsum ((fun p : Q * Q => p.1 - mx) <$> zip xs ys))
    + Qsum ((fun _ : Q * Q => 1) <$> zip xs ys) * (e * e))%Q.
  - clear Hx Hy Hx0 Hy0. unfold e. clearbody mx my. clear. induction (zip xs ys) as [|p l IH]; [cbn; ring|].
    rewrite !fmap_cons, !Qsum_cons, IH. cbn [compose]. ring.
  - rewrite Hx0, Hy0. ring.
Qed.

(** The fitted line is a least-squares line: no other line is closer to the points. *)
Lemma ols_optimal slope inter v a b :
  ols xs ys = Some (slope, inter, v) -> (rss slope inter <= rss a b)%Q.
Proof.
  unfold ols. destruct (length xs <? 3); [done|]. destruct (Qeq_bool (sq_dev xs) 0) eqn:E; [done|].
  intros [= <- <- _]. apply Qeq_bool_neq in E. pose proof (sq_dev_nonneg xs) as Hs.
  rewrite !rss_quadratic. set (S := sq_dev xs) in *. set (C := co_dev xs ys).
  assert (0 < S)%Q as Hpos by lra.
  assert (0 < Qlen)%Q as Hn by (by apply length_pos).
  set (k := (C / S)%Q). assert (C == k * S)%Q as HC by (unfold k; field; lra). rewrite HC.
  set (e := (np_mean ys - a * np_mean xs - b)%Q).
  assert (np_mean ys - k * np_mean xs - (np_mean ys - k * np_mean xs) == 0)%Q as Hz by ring. rewrite Hz.
  assert (0 <= S * ((a - k) * (a - k)))%Q by (apply Qmult_le_0_compat; [lra|apply Qsq_nonneg]).
  assert (0 <= Qlen * (e * e))%Q by (apply Qmult_le_0_compat; [lra|apply Qsq_nonneg]). lra.
Qed.
End Line.

(** ** The coefficient of variation *)

Lemma Qsum_fmap_perm (f g : Q -> Q) l l' :
  l ≡ₚ l' -> (forall x, f x == g x)%Q -> (Qsum (f <$> l) == Qsum (g <$> l'))%Q.
Proof. intros H E. rewrite (Qsum_perm _ _ (fmap_Permutation f _ _ H)). by apply Qsum_fmap_ext. Qed.

Lemma np_mean_perm l l' : l ≡ₚ l' -> (np_mean l == np_mean l')%Q.
Proof. intros H. unfold np_mean. by rewrite (Qsum_perm _ _ H), (Permutation_length H). Qed.

Lemma sq_dev_perm l l' : l ≡ₚ l' -> (sq_dev l == sq_dev l')%Q.
Proof.
  intros H. unfold sq_dev. apply Qsum_fmap_perm; [done|]. intros x. by rewrite (np_mean_perm l l' H).
Qed.

Lemma pvariance_perm l l' : l ≡ₚ l' -> (pvariance l == pvariance l')%Q.
Proof. intros H. unfold pvariance. by rewrite (sq_dev_perm l l' H), (Permutation_length H). Qed.

Lemma float_sqrt_proper x y : (x == y)%Q -> float_sqrt x = float_sqrt y.
Proof. intros H. unfold float_sqrt. by rewrite (Qred_complete x y H). Qed.

Lemma f64_proper x y : (x == y)%Q -> f64 x = f64 y.
Proof. apply round_bits_proper. Qed.

(** The statistic does not depend on the order of the values. *)
Lemma cv_perm l l' : l ≡ₚ l' -> cv l = cv l'.
Proof.
  intros H. unfold cv, py_mean, pstdev. rewrite (Permutation_length H).
  by rewrite (f64_proper _ _ (np_mean_perm l l' H)), (float_sqrt_proper _ _ (pvariance_perm l l' H)).
Qed.

(** Equal values have none, unless their mean counts as zero. *)
Lemma cv_const n c : 2 <= n -> ~ (f64 c == 0)%Q -> cv (replicate n c) = fin 0.
Proof.
  intros Hn Hc. unfold cv. rewrite length_replicate. destruct (n <? 2) eqn:E; breflect; [lia|].
  assert (replicate n c <> []) as Hne by (destruct n; [lia|done]).
  assert (Forall (fun x => x == c)%Q (replicate n c)) as Hall by (apply Forall_replicate; reflexivity).
  unfold py_mean. rewrite (f64_proper _ _ (np_mean_const c _ Hne Hall)).
  destruct (Qeq_bool (f64 c) 0) eqn:Ez; [by apply Qeq_bool_iff in Ez|]. f_equal.
  assert (pvariance (replicate n c) == 0)%Q as Ev.
  { unfold pvariance. rewrite (sq_dev_const c _ Hne Hall). unfold Qdiv. apply Qmult_0_l. }
  unfold pstdev. rewrite (float_sqrt_proper _ _ Ev). change (float_sqrt 0) with 0%Q.
  rewrite (f64_proper _ 0%Q) by (unfold Qdiv; apply Qmult_0_l). done.
Qed.

(** The roots of the standard library's documentation: a square root and
    [pstdev([1.5, 2.5, 2.5, 2.75, 3.25, 4.75]) == 0.986893273527251]. *)
Example pstdev_doc :
  (float_sqrt 2 == f64 (14142135623730951 # 10000000000000000))%Q /\
  (pstdev [3 # 2; 5 # 2; 5 # 2; 11 # 4; 13 # 4; 19 # 4] == f64 (986893273527251 # 1000000000000000))%Q.
Proof. by vm_compute. Qed.
