(* ===== verification/Fisher.v ===== *)
(** * Fisher's exact test

    [fisher_2x2] of [research/weaviate_repair_window/path_selection.py], in the floats of
    the source: the quotients of the binomial coefficients are rounded to the nearest
    double, the tolerance is added in doubles and the selected terms are added up by
    Python's [sum]. The reference counts, over all the ways the slow runs can fall among
    the runs, those whose table is no more likely than the observed one. *)

From stdpp Require Import base list.
From Stdlib Require Import QArith Qabs Lqa ZArith NArith Lia.
From S2P Require Import Prelude PyFloat Rounding Aggregate Detector.

Local Open Scope nat_scope.

(** The inner [p]: the division of two integers is rounded correctly. *)
Definition hyper (a b c d x : nat) : Q :=
  let n := a + b + c + d in
  let r1 := a + b in
  let c1 := a + c in
  f64 (inject_Z (Z.of_N (comb r1 x * comb (n - r1) (c1 - x))) / inject_Z (Z.of_N (comb n c1))).

Definition fisher_2x2 (compensated : bool) (a b c d : nat) : Q :=
  let n := a + b + c + d in
  let r1 := a + b in
  let c1 := a + c in
  let p0 := hyper a b c d a in
  let lo := c1 - (n - r1) in
  float_sum compensated
    (List.filter (fun p => Qle_bool p (f64 (p0 + f64 (1 # 1000000000000))))
       (hyper a b c d <$> seq lo (S (Nat.min r1 c1) - lo))).

(** ** The reference *)

(** How many of the first [r] runs are slow. *)
Definition slow_first (r : nat) (m : list bool) : nat := trues (take r m).

(** In how many ways [a + c] slow runs fall among all runs with [x] of them in the first
    group. *)
Definition ways (a b c d x : nat) : nat :=
  length (List.filter (fun m => Nat.eqb (slow_first (a + b) m) x) (labelings (a + c) (a + b + c + d))).

(** An outcome whose table is no more likely than the observed one. *)
Definition as_unlikely (a b c d : nat) (m : list bool) : bool :=
  ways a b c d (slow_first (a + b) m) <=? ways a b c d a.

(** ** Binomial coefficients *)

Definition nth0 (k : nat) (l : list N) : N := nth k l 0%N.

Lemma nth0_zip l l' k :
  length l = length l' -> nth0 k (zip_with N.add l l') = (nth0 k l + nth0 k l')%N.
Proof.
  unfold nth0. revert l' k. induction l as [|x l IH]; intros [|y l'] k H; simplify_eq/=; [by destruct k|].
  destruct k; [done|]. cbn. by apply IH.
Qed.

Lemma nth0_pad l k : nth0 k (l ++ [0%N]) = nth0 k l.
Proof. unfold nth0. revert k. induction l as [|x l IH]; intros [|k]; cbn; try done. by destruct k. Qed.

Lemma pascal_length n : length (pascal n) = S n.
Proof.
  induction n as [|n IH]; [done|]. cbn [pascal]. rewrite length_zip_with, length_app. cbn. lia.
Qed.

Lemma comb_0 n : comb n 0 = 1%N.
Proof.
  induction n as [|n IH]; [done|]. unfold comb in *. cbn [pascal].
  change (nth 0 ?l 0%N) with (nth0 0 l). rewrite nth0_zip by (rewrite length_app; cbn; lia).
  rewrite nth0_pad. unfold nth0 at 1. rewrite IH. done.
Qed.

Lemma comb_pascal n k : comb (S n) (S k) = (comb n k + comb n (S k))%N.
Proof.
  unfold comb. cbn [pascal]. change (nth (S k) ?l 0%N) with (nth0 (S k) l) at 1.
  rewrite nth0_zip by (rewrite length_app; cbn; lia). rewrite nth0_pad. unfold nth0. cbn [nth]. lia.
Qed.

Lemma comb_pos n k : k <= n -> (0 < comb n k)%N.
Proof.
  revert k. induction n as [|n IH]; intros [|k] H; try lia; rewrite ?comb_0; try lia.
  rewrite comb_pascal. specialize (IH k). lia.
Qed.

Lemma comb_le_pow2 n k : (comb n k <= 2 ^ N.of_nat n)%N.
Proof.
  revert k. induction n as [|n IH]; intros k.
  - destruct k as [|[|k]]; cbn; lia.
  - rewrite Nat2N.inj_succ, N.pow_succ_r'. destruct k as [|k].
    + rewrite comb_0. specialize (IH 0). rewrite comb_0 in IH. lia.
    + rewrite comb_pascal. pose proof (IH k). pose proof (IH (S k)). lia.
Qed.

(** ** Counting the outcomes *)

Lemma filter_none {A} (P : A -> bool) l : (forall x, P x = false) -> List.filter P l = [].
Proof. intros H. induction l as [|x l IH]; [done|]. simpl. by rewrite H. Qed.

Lemma trues_take_drop r m : trues m = trues (take r m) + trues (drop r m).
Proof. unfold trues. rewrite <- (take_drop r m) at 1. by rewrite List.filter_app, length_app. Qed.

(** The masks with [x] marks among the first [r] places and [y] among the other [s]. *)
Lemma masks_count r s x y :
  length (List.filter (fun m => Nat.eqb (trues (take r m)) x && Nat.eqb (trues (drop r m)) y) (masks (r + s)))
  = N.to_nat (comb r x) * N.to_nat (comb s y).
Proof.
  revert x. induction r as [|r IH]; intros x.
  - assert (forall y, length (List.filter (fun m => Nat.eqb (trues m) y) (masks s)) = N.to_nat (comb s y)) as H.
    { clear. induction s as [|s IH]; intros y; [destruct y as [|[|y]]; done|]. cbn [masks].
      rewrite List.filter_app, length_app, !filter_fmap, !length_fmap. destruct y as [|y].
      - rewrite !comb_0. specialize (IH 0). rewrite comb_0 in IH.
        rewrite (filter_ext_length (fun m => Nat.eqb (trues (false :: m)) 0) (fun m => Nat.eqb (trues m) 0)) by done.
        by rewrite IH, filter_none.
      - rewrite comb_pascal, N2Nat.inj_add, <- !IH. f_equal; by apply filter_ext_length. }
    destruct x as [|x]; cbn [take drop Nat.add].
    + rewrite comb_0, <- H. cbn [trues]. rewrite Nat.mul_1_l. by apply filter_ext_length.
    + assert (comb 0 (S x) = 0%N) as -> by (by destruct x).
      by rewrite filter_none.
  - cbn [Nat.add masks]. rewrite List.filter_app, length_app, !filter_fmap, !length_fmap.
    destruct x as [|x].
    + rewrite filter_none by done. rewrite comb_0. specialize (IH 0). rewrite comb_0 in IH. rewrite <- IH. by apply filter_ext_length.
    + rewrite comb_pascal, N2Nat.inj_add, Nat.mul_add_distr_r, <- !IH. f_equal; by apply filter_ext_length.
Qed.

Lemma labelings_count k n : length (labelings k n) = N.to_nat (comb n k).
Proof.
  unfold labelings. pose proof (masks_count 0 n 0 k) as H. cbn [take drop Nat.add] in H.
  rewrite comb_0, Nat.mul_1_l in H. rewrite <- H. by apply filter_ext_length.
Qed.

Lemma filter_filter {A} (P R : A -> bool) l :
  List.filter P (List.filter R l) = List.filter (fun x => R x && P x) l.
Proof. induction l as [|x l IH]; [done|]. simpl. destruct (R x); simpl; [destruct (P x)|]; by rewrite IH. Qed.

(** The product of binomials counts the outcomes with a given table. *)
Lemma ways_comb a b c d x :
  x <= a + c ->
  N.of_nat (ways a b c d x) = (comb (a + b) x * comb (a + b + c + d - (a + b)) (a + c - x))%N.
Proof.
  intros Hx. unfold ways, labelings. rewrite filter_filter.
  replace (a + b + c + d) with (a + b + (c + d)) by lia. replace (a + b + (c + d) - (a + b)) with (c + d) by lia.
  pose proof (masks_count (a + b) (c + d) x (a + c - x)) as H.
  rewrite <- (N2Nat.id (_ * _)), N2Nat.inj_mul, <- H. f_equal. apply filter_ext_length. intros m.
  unfold slow_first. rewrite (trues_take_drop (a + b) m). apply eq_iff_eq_true.
  rewrite !andb_true_iff, !Nat.eqb_eq. lia.
Qed.

(** Counting by table. *)
Lemma count_by {A} (f : A -> nat) (P : nat -> bool) (L : list A) xs :
  NoDup xs -> (forall m, m ∈ L -> f m ∈ xs) ->
  length (List.filter (fun m => P (f m)) L) =
  sum_list ((fun x => length (List.filter (fun m => Nat.eqb (f m) x) L)) <$> List.filter P xs).
Proof.
  intros Hd. induction L as [|m L IH]; intros HL.
  - simpl. induction (List.filter P xs); [done|]. by csimpl.
  - simpl. specialize (IH ltac:(intros; apply HL; by right)).
    assert (forall ys, NoDup ys ->
      sum_list ((fun x => length (if Nat.eqb (f m) x then m :: List.filter (fun m => Nat.eqb (f m) x) L
                                  else List.filter (fun m => Nat.eqb (f m) x) L)) <$> ys) =
      (if bool_decide (f m ∈ ys) then 1 else 0) +
      sum_list ((fun x => length (List.filter (fun m => Nat.eqb (f m) x) L)) <$> ys)) as G.
    { clear. induction 1 as [|y ys Hy _ IH]; [done|]. csimpl. rewrite IH.
      destruct (Nat.eqb_spec (f m) y) as [->|Hne].
      - rewrite (bool_decide_eq_true_2 (y ∈ y :: ys)) by by left. rewrite bool_decide_eq_false_2 by done. simpl. lia.
      - rewrite (bool_decide_ext (f m ∈ y :: ys) (f m ∈ ys)); [lia|].
        rewrite elem_of_cons. naive_solver. }
    rewrite G by (apply NoDup_ListNoDup, List.NoDup_filter; by apply NoDup_ListNoDup). rewrite <- IH.
    rewrite (bool_decide_ext _ (P (f m) = true))
      by (rewrite elem_of_bfilter; specialize (HL m ltac:(by left)); naive_solver).
    by destruct (P (f m)).
Qed.

(** ** The float test *)

(** The exact probability of a table. *)
Definition prob (a b c d x : nat) : Q := qratio (ways a b c d x) (length (labelings (a + c) (a + b + c + d))).

Lemma total_pos a b c d : 0 < length (labelings (a + c) (a + b + c + d)).
Proof. rewrite labelings_count. pose proof (comb_pos (a + b + c + d) (a + c)). lia. Qed.

Lemma ways_le_total a b c d x : ways a b c d x <= length (labelings (a + c) (a + b + c + d)).
Proof. apply filter_length_le. Qed.

Lemma hyper_prob a b c d x : x <= a + c -> hyper a b c d x = f64 (prob a b c d x).
Proof.
  intros Hx. unfold hyper, prob, qratio. rewrite <- ways_comb by done. do 2 f_equal.
  - by rewrite nat_N_Z.
  - by rewrite labelings_count, N_nat_Z.
Qed.

Lemma prob_bounds a b c d x : (0 <= prob a b c d x <= 1)%Q.
Proof.
  split; [apply qratio_nonneg|]. apply qratio_le_1; [apply total_pos|apply ways_le_total].
Qed.

Lemma hyper_near a b c d x :
  x <= a + c -> (prob a b c d x - eps64 <= hyper a b c d x <= prob a b c d x + eps64)%Q.
Proof. intros Hx. rewrite hyper_prob by done. apply f64_near. pose proof (prob_bounds a b c d x). lra. Qed.

(** With at most 39 runs different probabilities are too far apart for the tolerance and
    the rounding to confuse them. *)
Lemma test_exact a b c d x :
  a + b + c + d <= 39 -> x <= a + c ->
  Qle_bool (hyper a b c d x) (f64 (hyper a b c d a + f64 (1 # 1000000000000)))
  = (ways a b c d x <=? ways a b c d a).
Proof.
  intros Hn Hx. pose proof (hyper_near a b c d x Hx) as H1. pose proof (hyper_near a b c d a ltac:(lia)) as H0.
  set (t := (1 # 1000000000000)%Q). pose proof (f64_near t ltac:(split; by apply Qle_bool_iff)) as Ht.
  assert (7 * eps64 < t /\ t + 7 * eps64 < 1 # 549755813888)%Q as [T1 T2] by (split; by vm_compute).
  pose proof (prob_bounds a b c d a). pose proof (prob_bounds a b c d x).
  pose proof (f64_near (hyper a b c d a + f64 t) ltac:(lra)) as Hs.
  set (L := length (labelings (a + c) (a + b + c + d))).
  assert (0 < inject_Z (Z.of_nat L))%Q as HL by (apply inject_nat_pos, total_pos).
  assert (inject_Z (Z.of_nat L) <= 549755813888)%Q as HL'.
  { change 549755813888%Q with (inject_Z 549755813888). rewrite <- Zle_Qle. unfold L.
    rewrite labelings_count, N_nat_Z. pose proof (comb_le_pow2 (a + b + c + d) (a + c)) as Hc.
    assert (2 ^ N.of_nat (a + b + c + d) <= 2 ^ 39)%N as Hp by (apply N.pow_le_mono_r; lia).
    change (2 ^ 39)%N with 549755813888%N in Hp. lia. }
  assert (forall y, prob a b c d y * inject_Z (Z.of_nat L) == inject_Z (Z.of_nat (ways a b c d y)))%Q as Hp.
  { intros y. apply qratio_mul, total_pos. }
  pose proof (Hp a) as Pa. pose proof (Hp x) as Px.
  destruct (ways a b c d x <=? ways a b c d a) eqn:E; breflect.
  - apply Qle_bool_iff. apply inject_nat_le in E. rewrite <- Pa, <- Px in E.
    apply Qmult_cancel_pos in E; [|done]. lra.
  - apply not_true_iff_false. rewrite Qle_bool_iff. intros Hle.
    assert (inject_Z (Z.of_nat (ways a b c d a)) + 1 <= inject_Z (Z.of_nat (ways a b c d x)))%Q as E'.
    { change 1%Q with (inject_Z 1). rewrite <- inject_Z_plus, <- Zle_Qle. lia. }
    rewrite <- Pa, <- Px in E'.
    assert (prob a b c d x - prob a b c d a < 1 # 549755813888)%Q as Hd by lra.
    assert (0 <= prob a b c d x - prob a b c d a)%Q as Hd'.
    { apply (Qmult_cancel_pos _ _ (inject_Z (Z.of_nat L))); [done|]. lra. }
    nra.
Qed.

Lemma tables_sum (f : nat -> nat) n xs :
  0 < n -> (Qsum ((fun x => qratio (f x) n) <$> xs) == qratio (sum_list (f <$> xs)) n)%Q.
Proof.
  intros Hn. apply inject_nat_pos in Hn. unfold qratio. induction xs as [|x xs IH].
  - change (Qsum _) with 0%Q. change (inject_Z (Z.of_nat (sum_list _))) with 0%Q. field. lra.
  - rewrite !fmap_cons, Qsum_cons, IH. change (sum_list (?y :: ?l)) with (y + sum_list l). rewrite Nat2Z.inj_add, inject_Z_plus. field. lra.
Qed.

(** The tables the loop goes through. *)
Definition tables (a b c d : nat) : list nat :=
  let lo := a + c - (a + b + c + d - (a + b)) in seq lo (S (Nat.min (a + b) (a + c)) - lo).

Lemma tables_bound a b c d x : x ∈ tables a b c d -> x <= a + c.
Proof. intros H%elem_of_seq. lia. Qed.

Lemma trues_le m : trues m <= length m.
Proof. apply List.filter_length_le. Qed.

Lemma masks_length n m : m ∈ masks n -> length m = n.
Proof.
  revert m. induction n as [|n IH]; intros m; cbn [masks]; [by intros ->%list_elem_of_singleton|].
  intros [(m' & -> & H)%list_elem_of_fmap|(m' & -> & H)%list_elem_of_fmap]%elem_of_app; simpl; by rewrite (IH m' H).
Qed.

(** Every outcome has one of these tables. *)
Lemma tables_cover a b c d m :
  m ∈ labelings (a + c) (a + b + c + d) -> slow_first (a + b) m ∈ tables a b c d.
Proof.
  intros [H1%masks_length H2]%elem_of_bfilter. apply Nat.eqb_eq in H2. unfold tables, slow_first.
  rewrite (trues_take_drop (a + b)) in H2. pose proof (trues_le (take (a + b) m)) as H3.
  pose proof (trues_le (drop (a + b) m)) as H4. rewrite length_take in H3. rewrite length_drop in H4.
  apply elem_of_seq. lia.
Qed.

(** C28. Fisher's exact test of the study, for up to 39 runs and whichever way Python adds
    floats: the p-value is, to within [2^-42], the share of the ways the slow runs can fall
    among all the runs whose table (the number of slow runs in the first group) arises in at
    most as many ways as the observed one. The rounding of the quotients, the tolerance and
    the bounds of the loop neither leave out nor let in a table. *)
Theorem fisher_is_pvalue compensated a b c d :
  a + b + c + d <= 39 ->
  let all := labelings (a + c) (a + b + c + d) in
  (Qabs (fisher_2x2 compensated a b c d
         - qratio (length (List.filter (as_unlikely a b c d) all)) (length all)) <= pow2 (-42))%Q.
Proof.
  intros Hn all. unfold fisher_2x2. cbv zeta. fold (tables a b c d).
  set (keep := List.filter (fun x => ways a b c d x <=? ways a b c d a) (tables a b c d)).
  assert (List.filter (fun p => Qle_bool p (f64 (hyper a b c d a + f64 (1 # 1000000000000))))
            (hyper a b c d <$> tables a b c d) = hyper a b c d <$> keep) as ->.
  { rewrite filter_fmap. f_equal. apply filter_ext_in. intros x Hx%list_elem_of_In%tables_bound. by apply test_exact. }
  assert (Qsum (prob a b c d <$> keep) ==
          qratio (length (List.filter (as_unlikely a b c d) all)) (length all))%Q as E.
  { unfold prob. rewrite tables_sum by apply total_pos. fold all. f_equiv. f_equal.
    symmetry. apply (count_by (slow_first (a + b)) (fun x => ways a b c d x <=? ways a b c d a)).
    - apply NoDup_seq.
    - intros m. apply tables_cover. }
  rewrite <- E. assert (forall x, x ∈ keep -> x <= a + c) as Hk by (intros x [H _]%elem_of_bfilter; by eapply tables_bound).
  apply float_sum_error.
  - rewrite length_fmap. unfold keep, tables. etrans; [apply List.filter_length_le|]. rewrite length_seq. lia.
  - clear E. clearbody keep. induction keep as [|x keep IH]; [constructor|]. rewrite !fmap_cons. constructor.
    + pose proof (prob_bounds a b c d x). pose proof (hyper_near a b c d x ltac:(apply Hk; by left)). lra.
    + apply IH. intros y Hy. apply Hk. by right.
  - rewrite E. apply qratio_le_1; [apply total_pos|apply List.filter_length_le].
Qed.

(** The comparison of the study, with six repetitions of each condition: all of the short
    outages fast, all of the long ones slow. *)
Lemma fisher_is_pvalue_witness :
  let all := labelings 6 12 in
  (Qabs (fisher_2x2 true 0 6 6 0 - qratio (length (List.filter (as_unlikely 0 6 6 0) all)) (length all))
   <= pow2 (-42))%Q /\ length all = 924.
Proof. split; [apply (fisher_is_pvalue true 0 6 6 0); lia|by vm_compute]. Defined.

(** Added from left to right, the terms of a table as likely as any other can come out
    above 1; with the errors collected they do not. *)
Example fisher_above_one :
  Qltb 1 (fisher_2x2 false 3 2 4 3) = true /\ (fisher_2x2 true 3 2 4 3 == 1)%Q.
Proof. by vm_compute. Qed.
