(* ===== verification/RepairWindow.v ===== *)
(** * How long a Weaviate replica takes to repair

    [research/weaviate_repair_window/characterize.py]: batched writes, the cost of a probe,
    one divergence-and-repair cycle and the decision on the sampling rate.
    [order_vs_phase.py] and [path_selection.py]: the same cycle with a chosen delay or a
    chosen outage and age, Fisher's exact test and the registered outcome.
    [analyze_path_selection.py]: the re-analysis of the delays. Replies, clock readings,
    delays and the shuffled order are inputs; commands are recorded in order. *)

From stdpp Require Import base list strings sorting.
From Stdlib Require Import QArith Qminmax Qabs Lqa ZArith NArith Lia.
From S2P Require Import Prelude PyFloat Metrics Analyze Aggregate Text Detector Fisher Dissociation Dispersion.

Local Open Scope nat_scope.

(** ** [write_objects] *)

(** [ids[i:i + batch] for i in range(0, len(ids), batch)] *)
Definition chunk_count (n batch : nat) : nat := (n + batch - 1) / batch.
Definition chunks {A} (batch : nat) (ids : list A) : list (list A) :=
  (fun i => take batch (drop (i * batch) ids)) <$> seq 0 (chunk_count (length ids) batch).

(** Batches are sent until one is refused; the status of each is an input. *)
Fixpoint send {A} (status : nat -> Z) (i : nat) (bs : list (list A)) : bool * list (list A) :=
  match bs with
  | [] => (true, [])
  | b :: rest =>
      if Z.eqb (status i) 200
      then let '(ok, sent) := send status (S i) rest in (ok, b :: sent)
      else (false, [b])
  end.

Definition write_objects {A} (status : nat -> Z) (ids : list A) (batch : nat) : bool * list (list A) :=
  send status 0 (chunks batch ids).

(** ** [probe_cost] *)

(** For each number of identifiers, the times of its probes in milliseconds: median, least
    and greatest, to one decimal. *)
Definition cost_of (times : list Q) : result (Q * Q * Q) :=
  match times with
  | [] => Raise (OtherError "StatisticsError")
  | t :: ts => Ok (round_nd 1 (np_median times), round_nd 1 (Qmin_list t ts), round_nd 1 (Qmax_list t ts))
  end.

Definition probe_cost (runs : list (nat * list Q)) : result (list (nat * (Q * Q * Q))) :=
  rmapM (fun r => c ← cost_of r.2; Ok (r.1, c)) runs.

(** ** [wait_ready] *)
Definition wait_victim (deadline : Q) (rounds : list (Q * Z)) : option bool :=
  poll_until deadline rounds (fun st => Z.eqb st 200).

(** ** Watching the victim

    One poll: the clock at the test of the loop, how many of the objects it reported (or
    that it did not serve), and the clock as read for the first answer and for this one. *)
Record poll := mkPoll { po_check : Q; po_answer : option nat; po_first : Q; po_now : Q }.

(** The loop of [repair_once]: it keeps the first answer and the trajectory. *)
Fixpoint repair_loop (deadline : Q) (size : nat) (first : option (Q * nat)) (traj : list (Q * nat))
    (polls : list poll) : option (option (Q * nat) * list (Q * nat)) :=
  match polls with
  | [] => None
  | p :: rest =>
      if Qltb (po_check p) deadline then
        match po_answer p with
        | None => repair_loop deadline size first traj rest
        | Some n =>
            let f := default (po_now p, n) first in
            let traj' := traj ++ [(round_nd 3 (po_now p - f.1), n)] in
            if Nat.eqb n size then Some (Some f, traj')
            else repair_loop deadline size (Some f) traj' rest
        end
      else Some (first, traj)
  end.

(** The loop of the later scripts: it keeps the last answer only. *)
Fixpoint last_loop (deadline : Q) (size : nat) (first lst : option (Q * nat)) (count : nat)
    (polls : list poll) : option (option (Q * nat) * option (Q * nat) * nat) :=
  match polls with
  | [] => None
  | p :: rest =>
      if Qltb (po_check p) deadline then
        match po_answer p with
        | None => last_loop deadline size first lst (S count) rest
        | Some n =>
            let f := default (po_first p, n) first in
            let l := (round_nd 3 (po_now p - f.1), n) in
            if Nat.eqb n size then Some (Some f, Some l, S count)
            else last_loop deadline size (Some f) (Some l) (S count) rest
        end
      else Some (first, lst, count)
  end.

(** [bool(last and last[1] == size)] *)
Definition complete (size : nat) (l : option (Q * nat)) : bool :=
  match l with Some (_, n) => Nat.eqb n size | None => false end.

(** ** [repair_once] *)

Record repair_rec := mkRepair {
  rp_size : nat;
  rp_error : bool;                  (* the write failed *)
  rp_write_s : Q;
  rp_peer_had : option nat;
  rp_first_answer : option nat;
  rp_repair_s : option Q;
  rp_samples : option nat;
  rp_converged : bool;
  rp_head : list (Q * nat);
  rp_tail : list (Q * nat);
}.

(** [xs[-n:]] *)
Definition last_n {A} (n : nat) (l : list A) : list A := drop (length l - n) l.

Definition repair_record (size : nat) (write_s : Q) (peer_had : option nat)
    (w : option (Q * nat) * list (Q * nat)) : repair_rec :=
  let '(first, traj) := w in
  let converged := complete size (last traj) in
  mkRepair size false (round_nd 1 write_s) peer_had (snd <$> first)
    (if converged then fst <$> last traj else None)
    (if converged then Some (length traj) else None)
    converged (take 6 traj) (last_n 3 traj).

(** What one cycle meets: the status of each batch and the seconds the write took, what
    the peer reports, the clock at the start of the watch and the polls. *)
Record cycle_env := mkCycle {
  cy_status : nat -> Z;
  cy_write_s : Q;
  cy_peer : option nat;
  cy_t_start : Q;
  cy_polls : list poll;
}.

Definition repair_once (seed : Z) (size : nat) (e : cycle_env) : list cmd * option repair_rec :=
  let ids := corpus_ids seed size 0 in
  let '(ok, sent) := write_objects (cy_status e) ids 500 in
  let tr := [StopNode VICTIM; WriteOne (mjoin sent); StartNode VICTIM] in
  if negb ok
  then (tr, Some (mkRepair size true (round_nd 1 (cy_write_s e)) None None None None false [] []))
  else
    (tr, repair_record size (cy_write_s e) (cy_peer e)
           <$> repair_loop (cy_t_start e + 900) size None [] (cy_polls e)).

(** ** The decision of [characterize.main] *)

Definition by_size (repairs : list repair_rec) : list (nat * list (Q * nat)) :=
  group_by fst snd
    (omap (fun r => if rp_converged r
                    then match rp_repair_s r, rp_samples r with
                         | Some d, Some s => Some (rp_size r, (d, s))
                         | _, _ => None
                         end
                    else None) repairs).

Definition min_samples (l : list (Q * nat)) : nat :=
  match l.*2 with [] => 0 | s :: ss => foldl Nat.min s ss end.

(** The smallest size whose every window held ten samples. *)
Definition smallest_resolved (repairs : list repair_rec) : option nat :=
  let groups := by_size repairs in
  List.find (fun s => 10 <=? min_samples (default [] (dget s groups)))
    (sorted Nat.leb (dkeys groups)).

Definition probe_floor (cost : list (nat * (Q * Q * Q))) : option Q :=
  (fun c => c.1.1) <$> dget 100 cost.

(** [for size in sizes: for rep in range(reps)], with its seeds. *)
Definition char_plan (sizes : list nat) (reps : nat) : list (nat * Z) :=
  mjoin ((fun size => (fun rep => (size, Z.of_nat (size + rep))) <$> seq 0 reps) <$> sizes).

(** ** [order_vs_phase.py] *)

Record phase_run := mkPhase { ph_repair_s : option Q; ph_first : option nat; ph_converged : bool }.

(** [None] outside: the rounds ran out; [None] inside: the write failed. *)
Definition phase_one_run (seed : Z) (size : nat) (status : nat -> Z) (deadline : Q)
    (polls : list poll) : list cmd * option (option phase_run) :=
  let ids := corpus_ids seed size 0 in
  let '(ok, sent) := write_objects status ids 500 in
  let tr := [StopNode VICTIM; WriteOne (mjoin sent); StartNode VICTIM] in
  if negb ok then (tr, Some None)
  else
    (tr, (fun r => match r with
                   | (first, lst, _) =>
                       Some (mkPhase (if complete size lst then fst <$> lst else None)
                               (snd <$> first) (complete size lst))
                   end) <$> last_loop deadline size None None 0 polls).

(** Converged runs by speed: repetition numbers over and up to one second. *)
Definition slow_reps (rows : list (nat * phase_run)) : list nat :=
  omap (fun r => match ph_repair_s r.2 with
                 | Some d => if Qltb 1 d then Some r.1 else None
                 | None => None
                 end) (List.filter (fun r => ph_converged r.2) rows).
Definition fast_reps (rows : list (nat * phase_run)) : list nat :=
  omap (fun r => match ph_repair_s r.2 with
                 | Some d => if Qle_bool d 1 then Some r.1 else None
                 | None => None
                 end) (List.filter (fun r => ph_converged r.2) rows).

(** The loop over the repetitions: a failed write is skipped; a repair time that is missing
    cannot be formatted. *)
Fixpoint phase_rows (rep : nat) (runs : list (option phase_run)) (rows : list (nat * phase_run))
    : result (list (nat * phase_run)) :=
  match runs with
  | [] => Ok rows
  | None :: rest => phase_rows (S rep) rest rows
  | Some r :: rest =>
      match ph_repair_s r with
      | None => Raise TypeError
      | Some _ => phase_rows (S rep) rest (rows ++ [(rep, r)])
      end
  end.

(** [main]: the rows written at the end. The correlation divides by the spread of the
    repair times. *)
Definition phase_main (runs : list (option phase_run)) : result (list (nat * phase_run)) :=
  rows ← phase_rows 0 runs [];
  let ys := omap (fun r => ph_repair_s r.2) (List.filter (fun r => ph_converged r.2) rows) in
  if (2 <? length ys) && Qeq_bool (sq_dev ys) 0 then Raise ZeroDivisionError else Ok rows.

(** ** [path_selection.py] *)

(** The clock readings of one outage: before and after [docker stop], before and after the
    write, and before [docker start]. *)
Record outage := mkOutage {
  og_stop : Q; og_stopped : Q; og_write : Q; og_written : Q; og_start : Q }.

(** The two sleeps. *)
Definition sleep_before (o : outage) (absent age : Q) : Q :=
  Qmax 0 (absent - age - (og_stopped o - og_stop o))%Q.
Definition sleep_after (o : outage) (absent : Q) : Q :=
  Qmax 0 (absent - (og_written o - og_stop o))%Q.

Inductive pcond : Type := A_short | B_long | C_long_young.
#[export] Instance pcond_eq_dec : EqDecision pcond.
Proof. solve_decision. Defined.

Definition CONDS : list pcond := [A_short; B_long; C_long_young].
Definition cond_targets (short long : Q) (c : pcond) : Q * Q :=
  match c with
  | A_short => (short, short)
  | B_long => (long, long)
  | C_long_young => (long, short)
  end.

Record sel_run := mkSel {
  sl_cond : pcond;
  sl_absent : option Q;              (* absent when the write failed *)
  sl_age : option Q;
  sl_repair_s : option Q;
  sl_first : option nat;
  sl_converged : bool;
}.

Definition sel_one_run (cond : pcond) (seed : Z) (size : nat) (status : nat -> Z) (o : outage)
    (deadline : Q) (polls : list poll) : list cmd * option sel_run :=
  let ids := corpus_ids seed size 0 in
  let '(ok, sent) := write_objects status ids 500 in
  let tr := [StopNode VICTIM; WriteOne (mjoin sent); StartNode VICTIM] in
  if negb ok then (tr, Some (mkSel cond None None None None false))
  else
    (tr, (fun r => match r with
                   | (first, lst, _) =>
                       mkSel cond (Some (round_nd 1 (og_start o - og_stop o)))
                         (Some (round_nd 1 (og_start o - og_write o)))
                         (if complete size lst then fst <$> lst else None)
                         (snd <$> first) (complete size lst)
                   end) <$> last_loop deadline size None None 0 polls).

(** [[c for c in conds for _ in range(reps)]], before the shuffle. *)
Definition sel_order (reps : nat) : list pcond := mjoin ((fun c => replicate reps c) <$> CONDS).

(** The loop over the order: each row is reported and then the file is written. A run whose
    write failed has no [absent_s] to format. What is in the file, and how it ended. *)
Fixpoint sel_loop (rows saved : list sel_run) (runs : list sel_run) : list sel_run * result (list sel_run) :=
  match runs with
  | [] => (saved, Ok rows)
  | r :: rest =>
      match sl_absent r, sl_age r with
      | Some _, Some _ => sel_loop (rows ++ [r]) (rows ++ [r]) rest
      | _, _ => (saved, Raise TypeError)
      end
  end.

Definition SLOW_S : Q := 1.

(** How many converged runs of a condition were slow, of how many. *)
Definition slow_count (rows : list sel_run) (c : pcond) : nat * nat :=
  let cr := List.filter (fun r => sl_converged r && bool_decide (sl_cond r = c)) rows in
  (length (List.filter (fun r => match sl_repair_s r with Some d => Qltb SLOW_S d | None => false end) cr),
   length cr).

Definition in_gap (rows : list sel_run) : list sel_run :=
  List.filter (fun r => sl_converged r && match sl_repair_s r with
                                          | Some d => Qltb (1 # 5) d && Qltb d 36
                                          | None => false
                                          end) rows.

Inductive outcome2c : Type := OAbsence | OAge | ONeither | OMixed.

Definition sel_outcome (sA sB sC : nat) : outcome2c :=
  if Nat.eqb sC sB && negb (Nat.eqb sA sB) then OAbsence
  else if Nat.eqb sC sA && negb (Nat.eqb sA sB) then OAge
  else if Nat.eqb sA sB && Nat.eqb sB sC then ONeither
  else OMixed.

Record sel_report := mkSelReport {
  sr_fisher_AC : Q; sr_fisher_AB : Q; sr_gap : nat; sr_outcome : outcome2c }.

Definition sel_main (compensated : bool) (rows : list sel_run) : sel_report :=
  let '(sA, nA) := slow_count rows A_short in
  let '(sB, nB) := slow_count rows B_long in
  let '(sC, nC) := slow_count rows C_long_young in
  mkSelReport (fisher_2x2 compensated sA (nA - sA) sC (nC - sC))
    (fisher_2x2 compensated sA (nA - sA) sB (nB - sB))
    (length (in_gap rows)) (sel_outcome sA sB sC).

(** ** [analyze_path_selection.py] *)

(** A run: its delay and its repair time. *)
Definition slow_of (d : list (Q * Q)) : list Q := (List.filter (fun r => Qltb 1 r.2) d).*1.
Definition fast_of (d : list (Q * Q)) : list Q := (List.filter (fun r => Qle_bool r.2 1) d).*1.

(** The statistic of the slow delays, how many splits are as extreme, and how many there
    are. *)
Definition delay_test (slow fast : list Q) : Q * nat * nat :=
  let n12 := Qn (length slow * length fast) in
  let u := u_stat slow fast in
  let all := splits (length slow) (slow ++ fast) in
  (u, length (List.filter (as_extreme n12 (qmin2 u (n12 - u))) all), length all).

Definition threshold_error (d : list (Q * Q)) (th : Q) : nat :=
  length (List.filter (fun r => negb (Bool.eqb (Qltb th r.1) (Qltb 1 r.2))) d).

Fixpoint best_threshold (d : list (Q * Q)) (best : option (Q * nat)) (ths : list Q) : option (Q * nat) :=
  match ths with
  | [] => best
  | th :: rest =>
      let err := threshold_error d th in
      best_threshold d
        (match best with
         | Some (_, e) => if err <? e then Some (th, err) else best
         | None => Some (th, err)
         end) rest
  end.

(** [[x / 10 for x in range(30, 460)]] *)
Definition THRESHOLDS : list Q := (fun x => (inject_Z (Z.of_nat x) / 10)%Q) <$> seq 30 430.

(** * Properties *)

(** ** Writes *)

Lemma chunks_concat {A} batch (ids : list A) : 0 < batch -> mjoin (chunks batch ids) = ids.
Proof.
  intros Hb. unfold chunks.
  assert (forall k, mjoin ((fun i => take batch (drop (i * batch) ids)) <$> seq 0 k) = take (k * batch) ids) as H.
  { induction k as [|k IH]; [done|]. rewrite seq_S, fmap_app, join_app, IH. cbn [fmap list_fmap mjoin list_join].
    rewrite app_nil_r. replace (S k * batch) with (k * batch + batch) by lia.
    by rewrite Nat.add_0_l, take_take_drop. }
  rewrite H. apply take_ge. unfold chunk_count.
  pose proof (Nat.div_mod_eq (length ids + batch - 1) batch). pose proof (Nat.mod_upper_bound (length ids + batch - 1) batch).
  nia.
Qed.

Lemma send_spec {A} status i (bs : list (list A)) ok sent :
  send status i bs = (ok, sent) ->
  exists rest, bs = sent ++ rest /\
    (ok = true -> rest = [] /\ forall j, j < length bs -> status (i + j) = 200%Z) /\
    (ok = false -> exists j, length sent = S j /\ status (i + j) <> 200%Z /\
                    forall j', j' < j -> status (i + j') = 200%Z).
Proof.
  revert i ok sent. induction bs as [|b bs IH]; intros i ok sent; cbn [send].
  { intros [= <- <-]. exists []. split_and!; [done| |done]. intros _. split; [done|]. intros j Hj. cbn in Hj. lia. }
  destruct (Z.eqb_spec (status i) 200) as [Hs|Hs].
  - destruct (send status (S i) bs) as [ok' sent'] eqn:E. intros [= <- <-].
    apply IH in E as (rest & -> & Ht & Hf). exists rest. split; [done|]. split.
    + intros Hok. destruct (Ht Hok) as [-> Hall]. split; [done|]. intros [|j] Hj; [by rewrite Nat.add_0_r|].
      rewrite <- Nat.add_succ_comm. apply Hall. simpl in Hj. lia.
    + intros Hok. destruct (Hf Hok) as (j & Hl & Hj & Hall). exists (S j). cbn [length]. rewrite Hl.
      rewrite <- Nat.add_succ_comm. split_and!; [done|done|]. intros [|j'] Hj'; [by rewrite Nat.add_0_r|].
      rewrite <- Nat.add_succ_comm. apply Hall. lia.
  - intros [= <- <-]. exists bs. split; [done|]. split; [done|]. intros _. exists 0. rewrite Nat.add_0_r.
    split_and!; [done..|]. intros j' Hj'. lia.
Qed.

(** ** The watch *)

(** The answers among some polls, with the clock of each. *)
Definition seen (ps : list poll) : list (Q * nat) :=
  omap (fun p => (fun n => (po_now p, n)) <$> po_answer p) ps.

Definition stamp (t0 : Q) (a : Q * nat) : Q * nat := (round_nd 3 (a.1 - t0), a.2).

(** How a watch ends: at a complete answer, none before it being complete, or at a poll the
    clock has put behind the deadline. *)
Definition ended (deadline : Q) (size : nat) (pre post : list poll) : Prop :=
  (exists front t, seen pre = front ++ [(t, size)] /\ Forall (fun a => a.2 <> size) front) \/
  (Forall (fun a => a.2 <> size) (seen pre) /\
   exists p post', post = p :: post' /\ (deadline <= po_check p)%Q).

Lemma repair_loop_inv deadline size polls first traj first' traj' :
  repair_loop deadline size first traj polls = Some (first', traj') ->
  exists pre post, polls = pre ++ post /\ Forall (fun p => po_check p < deadline)%Q pre /\
    first' = (match first with Some f => Some f | None => head (seen pre) end) /\
    traj' = traj ++ (stamp (from_option fst 0%Q first') <$> seen pre) /\
    ended deadline size pre post.
Proof.
  revert first traj. induction polls as [|p polls IH]; intros first traj; cbn [repair_loop]; [done|].
  destruct (Qltb (po_check p) deadline) eqn:Ec; qreflect.
  2: { intros [= <- <-]. exists [], (p :: polls). rewrite app_nil_r. split_and!; [done..|by destruct first|done|].
       right. split; [constructor|]. by exists p, polls. }
  destruct (po_answer p) as [n|] eqn:Ea.
  - destruct (Nat.eqb_spec n size) as [->|Hne].
    + intros [= <- <-]. exists [p], polls. unfold seen. cbn [omap list_omap]. rewrite Ea. cbn.
      split_and!; [done|by constructor|by destruct first|by destruct first|].
      left. exists [], (po_now p). unfold seen. cbn [omap list_omap]. by rewrite Ea.
    + intros H. apply IH in H as (pre & post & -> & Hpre & -> & -> & Hend).
      exists (p :: pre), post. unfold seen. cbn [omap list_omap]. rewrite Ea. cbn [fmap option_fmap option_map].
      split_and!; [done|by constructor|by destruct first| |].
      * rewrite fmap_cons, <- app_assoc. by destruct first.
      * destruct Hend as [(front & t & E & Hf)|(Hf & Hp)]; [left|right]; unfold seen in *; cbn [omap list_omap];
          rewrite Ea; cbn [fmap option_fmap option_map].
        -- exists ((po_now p, n) :: front), t. rewrite E. split; [done|]. by constructor.
        -- split; [by constructor|done].
  - intros H. apply IH in H as (pre & post & -> & Hpre & Hf & Ht & Hend). exists (p :: pre), post.
    assert (seen (p :: pre) = seen pre) as Es by (unfold seen; cbn [omap list_omap]; by rewrite Ea).
    unfold ended in *. rewrite !Es. split_and!; [done|by constructor|done..].
Qed.

(** The watch ends by the deadline, whatever the victim answers. *)
Lemma repair_loop_decides deadline size polls first traj p :
  p ∈ polls -> (deadline <= po_check p)%Q -> is_Some (repair_loop deadline size first traj polls).
Proof.
  revert first traj. induction polls as [|p' polls IH]; intros first traj Hp Hd; [by apply not_elem_of_nil in Hp|].
  cbn [repair_loop]. destruct (Qltb (po_check p') deadline) eqn:Ec; [|eauto]. qreflect.
  apply elem_of_cons in Hp as [->|Hp]; [lra|].
  destruct (po_answer p') as [n|]; [|by apply IH]. destruct (Nat.eqb n size); [eauto|by apply IH].
Qed.

(** The two loops are one: where the clock is read once per answer, keeping the last answer
    gives the last point of the trajectory. *)
Lemma last_loop_agrees deadline size polls first traj count :
  Forall (fun p => po_first p = po_now p) polls ->
  (fun r => (r.1.1, r.1.2)) <$> last_loop deadline size first (last traj) count polls =
  (fun r => (r.1, last r.2)) <$> repair_loop deadline size first traj polls.
Proof.
  intros H. revert first traj count. induction H as [|p polls Hp _ IH]; intros first traj count; [done|].
  cbn [last_loop repair_loop]. destruct (Qltb _ _); [|done].
  destruct (po_answer p) as [n|]; [|apply IH]. rewrite Hp. destruct (Nat.eqb n size).
  - cbn. by rewrite last_snoc.
  - rewrite <- (IH _ _ (S count)). by rewrite last_snoc.
Qed.

(** C31. A repair time is the interval from the victim's first answer, so not from the
    restart, to its first complete answer, to the millisecond; the samples counted are the
    answers up to then; and when there is none, no answer before the deadline was complete.
    Nothing else ends a watch. *)
Theorem repair_once_sound seed size e tr r :
  repair_once seed size e = (tr, Some r) -> rp_error r = false ->
  exists pre post, cy_polls e = pre ++ post /\
    Forall (fun p => po_check p < cy_t_start e + 900)%Q pre /\
    match rp_repair_s r with
    | Some d => exists t0 n0 tc front,
        seen pre = front ++ [(tc, size)] /\ (forall a, a ∈ front -> a.2 <> size) /\
        head (seen pre) = Some (t0, n0) /\ rp_first_answer r = Some n0 /\
        rp_samples r = Some (length (seen pre)) /\ (Qabs (d - (tc - t0)) <= 1 # 2000)%Q
    | None => (forall a, a ∈ seen pre -> a.2 <> size) /\
        exists p post', post = p :: post' /\ (cy_t_start e + 900 <= po_check p)%Q
    end.
Proof.
  unfold repair_once. destruct (write_objects _ _ _) as [ok sent]. destruct ok; cbn [negb]; [|by intros [= <- <-]].
  destruct (repair_loop _ _ _ _ _) as [[first traj]|] eqn:E; [|done]. intros [= <- <-] _.
  apply repair_loop_inv in E as (pre & post & -> & Hpre & -> & -> & Hend).
  exists pre, post. split; [done|]. split; [done|]. cbn [app repair_record rp_repair_s rp_first_answer rp_samples].
  destruct Hend as [(front & t & Es & Hf)|(Hf & Hp)].
  - rewrite Es, fmap_app, last_app. cbn [fmap list_fmap last app complete stamp fst snd]. rewrite Nat.eqb_refl.
    destruct (head (front ++ [(t, size)])) as [[t0 n0]|] eqn:Eh; [|by destruct front].
    cbn [from_option fst]. exists t0, n0, t, front. rewrite Forall_forall in Hf.
    split_and!; [done|by apply Hf|done|done|by rewrite length_app, !length_fmap, length_app|].
    apply (round_nd_close 3).
  - assert (complete size (last (stamp (from_option fst 0%Q (head (seen pre))) <$> seen pre)) = false) as ->.
    { rewrite fmap_last. destruct (last (seen pre)) as [[t n]|] eqn:El; [|done]. cbn.
      apply last_Some_elem_of in El. rewrite Forall_forall in Hf. apply Nat.eqb_neq. by apply (Hf (t, n)). }
    rewrite Forall_forall in Hf. auto.
Qed.

Definition demo_polls : list poll :=
  [mkPoll 1 None 1 1; mkPoll 2 (Some 0) (5 # 2) (5 # 2); mkPoll 3 (Some 1) 3 3;
   mkPoll 4 (Some 2) (17 # 4) (17 # 4); mkPoll 5 (Some 2) 5 5].
Definition demo_cycle : cycle_env := mkCycle (fun _ => 200%Z) 1 (Some 2) 0 demo_polls.

Lemma repair_once_sound_witness :
  exists tr r d, repair_once 7 2 demo_cycle = (tr, Some r) /\ rp_repair_s r = Some d /\
    (d == 7 # 4)%Q /\ exists pre post, demo_polls = pre ++ post /\ rp_samples r = Some (length (seen pre)).
Proof.
  destruct (repair_once 7 2 demo_cycle) as [tr [r|]] eqn:E; [|vm_compute in E; discriminate].
  assert (rp_error r = false) as He by (vm_compute in E; by injection E as _ <-).
  destruct (repair_once_sound 7 2 demo_cycle tr r E He) as (pre & post & H1 & _ & H2).
  assert (exists d, rp_repair_s r = Some d /\ (d == 7 # 4)%Q) as (d & Hd & Hq).
  { vm_compute in E. injection E as _ <-. eexists. split; [reflexivity|]. reflexivity. }
  rewrite Hd in H2. destruct H2 as (t0 & n0 & tc & front & _ & _ & _ & _ & Hs & _).
  exists tr, r, d. split_and!; [done..|]. by exists pre, post.
Defined.

(** ** Placing the write in the outage *)

(** A clock on which a sleep lasts at least as long as asked. *)
Record slept (o : outage) (absent age : Q) : Prop := mkSlept {
  sp_stop : (og_stop o <= og_stopped o)%Q;
  sp_before : (og_stopped o + sleep_before o absent age <= og_write o)%Q;
  sp_write : (og_write o <= og_written o)%Q;
  sp_after : (og_written o + sleep_after o absent <= og_start o)%Q;
}.

(** The realized outage is never shorter than the one asked for and the write never comes
    earlier in it than asked for; and when stopping and writing fit in the time and the
    sleeps are exact, both targets are met exactly. So a run can overrun its cell, which is
    why realized values are recorded, but cannot undershoot it. *)
Theorem outage_placement o absent age :
  slept o absent age ->
  (absent <= og_start o - og_stop o)%Q /\ (absent - age <= og_write o - og_stop o)%Q /\
  (og_stopped o - og_stop o <= absent - age -> og_written o - og_stop o <= absent ->
   og_write o == og_stopped o + sleep_before o absent age ->
   og_start o == og_written o + sleep_after o absent ->
   og_start o - og_stop o == absent /\ og_start o - og_write o == age)%Q.
Proof.
  intros [H1 H2 H3 H4]. unfold sleep_before, sleep_after in *.
  pose proof (Q.le_max_r 0 (absent - age - (og_stopped o - og_stop o))).
  pose proof (Q.le_max_r 0 (absent - (og_written o - og_stop o))).
  split; [lra|]. split; [lra|]. intros Ha Hb.
  rewrite (Q.max_r 0 (absent - age - (og_stopped o - og_stop o))) by lra.
  rewrite (Q.max_r 0 (absent - (og_written o - og_stop o))) by lra. intros E1 E2. lra.
Qed.

Lemma outage_placement_witness :
  (40 <= 45 - 0)%Q /\ (40 - 6 <= 34 - 0)%Q.
Proof.
  destruct (outage_placement (mkOutage 0 2 34 35 45) 40 6) as (H1 & H2 & _); [|by split].
  constructor; decide_now.
Defined.

(** ** The registered outcome *)

(** The outcome compares numbers of slow runs, not rates: conditions of which different
    numbers converged are called alike. *)
Lemma outcome_compares_counts :
  exists rows, slow_count rows B_long = (3, 3) /\ slow_count rows C_long_young = (3, 6) /\
    sr_outcome (sel_main false rows) = OAbsence.
Proof.
  set (run c d := mkSel c (Some 40%Q) (Some 6%Q) (Some d) (Some 0) true).
  exists (replicate 6 (run A_short 0%Q) ++ replicate 3 (run B_long 40%Q)
       ++ replicate 3 (run C_long_young 40%Q) ++ replicate 3 (run C_long_young 0%Q)).
  by vm_compute.
Qed.

(** One repetition that did not repair in time loses the whole [order_vs_phase] run: its
    missing time cannot be formatted, and the rows are written only at the end. *)
Lemma phase_lost_by_one runs r :
  Some r ∈ runs -> ph_repair_s r = None -> phase_main runs = Raise TypeError.
Proof.
  intros Hr Hn. unfold phase_main.
  assert (forall rep rows, phase_rows rep runs rows = Raise TypeError) as ->; [|done].
  induction runs as [|x runs IH]; intros rep rows; [by apply not_elem_of_nil in Hr|]. cbn [phase_rows].
  apply elem_of_cons in Hr as [<-|Hr]; [by rewrite Hn|].
  destruct x as [x|]; [destruct (ph_repair_s x); [|done]|]; by apply IH.
Qed.

(** A failed write stops [path_selection]; the rows before it are on disk. *)
Lemma sel_stops_at_failed_write rows runs r rest :
  Forall (fun r => is_Some (sl_absent r) /\ is_Some (sl_age r)) runs -> sl_absent r = None ->
  sel_loop rows rows (runs ++ r :: rest) = (rows ++ runs, Raise TypeError).
Proof.
  intros H Hr. revert rows. induction H as [|x runs [[? Ha] [? Hg]] _ IH]; intros rows; cbn [app sel_loop].
  - by rewrite Hr, app_nil_r.
  - rewrite Ha, Hg, IH. by rewrite <- app_assoc.
Qed.

(** ** The delays *)

(** The test on the delays is the sweep's exact test. *)
Lemma delay_test_agrees tail slow fast :
  0 < length slow -> 0 < length fast -> length slow + length fast <= 20 ->
  let '(u, extreme, total) := delay_test slow fast in
  mann_whitney tail (fin <$> slow) (fin <$> fast) = (fin u, fin (qratio extreme total)).
Proof.
  intros Hs Hf Hn. pose proof (mann_whitney_exact tail (fin <$> slow) (fin <$> fast)) as E.
  assert (forall l, drop_nan (fin <$> l) = l) as Hd.
  { intros l. induction l as [|x l IH]; [done|]. rewrite fmap_cons. simpl. by f_equal. }
  rewrite !Hd in E. unfold delay_test. rewrite E by done. do 3 f_equal.
  - unfold n_extreme. rewrite (filter_ext_length _ _ _ (extreme_agree slow fast)). apply count_splits_perm.
    + apply sorted_perm.
    + intros x x' y y' Hx Hy. unfold extreme. cbn [fst snd]. by rewrite (u_stat_perm x x' y y' Hx Hy).
  - apply splits_length_binomial. by rewrite sorted_length.
Qed.

Lemma best_threshold_inv d ths best :
  match best_threshold d best ths with
  | Some (th, e) =>
      (best = Some (th, e) \/ (th ∈ ths /\ e = threshold_error d th)) /\
      (forall b eb, best = Some (b, eb) -> e <= eb) /\
      (forall th', th' ∈ ths -> e <= threshold_error d th')
  | None => best = None /\ ths = []
  end.
Proof.
  revert best. induction ths as [|t ths IH]; intros best; cbn [best_threshold].
  - destruct best as [[b e]|]; [|done]. split_and!; [by left|by intros ? ? [= <- <-]|by intros ? ?%not_elem_of_nil].
  - specialize (IH (match best with
         | Some (_, e) => if threshold_error d t <? e then Some (t, threshold_error d t) else best
         | None => Some (t, threshold_error d t) end)).
    destruct (best_threshold d _ ths) as [[th e]|].
    2: { destruct IH as [IH _]. destruct best as [[b e]|]; [|done]. by destruct (_ <? _) in IH. }
    destruct IH as (H1 & H2 & H3). destruct best as [[b eb]|].
    + destruct (threshold_error d t <? eb) eqn:El; breflect.
      * pose proof (H2 _ _ eq_refl) as Hle. split_and!.
        -- right. destruct H1 as [[= <- <-]|[? ?]]; split; try done; [by left|by right].
        -- intros ? ? [= <- <-]. lia.
        -- intros th' [->|Hin]%elem_of_cons; [done|auto].
      * pose proof (H2 _ _ eq_refl) as Hle. split_and!.
        -- destruct H1 as [H1|[? ?]]; [by left|right; split; [by right|done]].
        -- intros ? ? [= <- <-]. lia.
        -- intros th' [->|Hin]%elem_of_cons; [lia|auto].
    + pose proof (H2 _ _ eq_refl) as Hle. split_and!; [|done|].
      * right. destruct H1 as [[= <- <-]|[? ?]]; split; try done; [by left|by right].
      * intros th' [->|Hin]%elem_of_cons; [done|auto].
Qed.

(** The threshold reported misclassifies no more runs than any other that was tried. *)
Lemma best_threshold_optimal d th e :
  best_threshold d None THRESHOLDS = Some (th, e) ->
  th ∈ THRESHOLDS /\ e = threshold_error d th /\
  forall th', th' ∈ THRESHOLDS -> e <= threshold_error d th'.
Proof.
  intros H. pose proof (best_threshold_inv d THRESHOLDS None) as Hi. rewrite H in Hi.
  destruct Hi as ([Hc|[H1 H2]] & _ & H3); [discriminate Hc|]. exact (conj H1 (conj H2 H3)).
Qed.

(** Seeds of different studies share the class, and two of them share identifiers: the
    largest size of the characterization and the short outages of the repair clock. *)
Lemma seeds_collide n :
  Z.of_nat n = 5000%Z ->
  (n, 5000%Z) ∈ char_plan [50; 500; n] 3 /\
  forall x, x ∈ corpus_ids 5000 50 0 -> x ∈ corpus_ids 5000 n 0.
Proof.
  intros Hn. split; [|intros x; rewrite !elem_of_corpus; lia].
  apply list_elem_of_join. eexists. split; [|apply list_elem_of_fmap; exists n; split; [reflexivity|]].
  - apply list_elem_of_fmap. exists 0. rewrite Nat.add_0_r, Hn. split; [done|]. apply elem_of_seq. lia.
  - do 2 right. by left.
Qed.
