(* ===== verification/RepairClock.v ===== *)
(** * Which clock does a Weaviate repair follow?

    [research/weaviate_repair_clock/repair_clock.py]: one run with a chosen outage and a
    chosen age of the divergence, the three steps of the study and its decision.
    [research/weaviate_repair_clock/analyze_clock.py]: the same decision from the recorded
    runs, its diagnostics and its calibration. Coefficients of variation are
    those of [Dispersion], in doubles; the correlations, which are only printed, are left out. *)

From stdpp Require Import base list strings pretty sorting.
From Stdlib Require Import QArith Qminmax Qabs Qround Lqa ZArith Lia.
From S2P Require Import Prelude PyFloat Rounding Metrics Analyze Aggregate Text Detector Dissociation Dispersion RepairWindow.

Local Open Scope nat_scope.

(** ** [repair_clock.one_run] *)

Definition SIZE : nat := 50.
Definition POLL_CAP_S : Q := 300.

Record clock_run := mkClockRun {
  cr_label : string;
  cr_seed : option Z;                 (* absent from the record of a failed write, *)
  cr_absent : option Q;               (* as are all that follow *)
  cr_age : option Q;
  cr_repair : option Q;
  cr_since_write : option Q;
  cr_first : option nat;
  cr_polls : option nat;
  cr_wall_start : option Q;
  cr_converged : bool;
}.

Definition clock_one_run (label : string) (size : nat) (seed : Z) (status : nat -> Z) (wall : Q)
    (o : outage) (t_poll : Q) (polls : list poll) : list cmd * option clock_run :=
  let ids := corpus_ids seed size 0 in
  let '(ok, sent) := write_objects status ids 500 in
  let tr := [StopNode VICTIM; WriteOne (mjoin sent); StartNode VICTIM] in
  if negb ok then (tr, Some (mkClockRun label None None None None None None None None false))
  else
    (tr,
     (fun r => match r with
               | (first, lst, n) =>
                   let conv := complete size lst in
                   let repair := if conv then fst <$> lst else None in
                   mkClockRun label (Some seed) (Some (round_nd 1 (og_start o - og_stop o)))
                     (Some (round_nd 1 (og_start o - og_write o))) repair
                     ((fun d => round_nd 3 ((og_start o - og_write o) + d)) <$> repair)
                     (snd <$> first) (Some n) (Some (round_nd 3 wall)) conv
               end) <$> last_loop (t_poll + POLL_CAP_S) size None None 0 polls).

(** ** The plan of [main] *)

(** Label, outage and age of a run, and whether it polls slowly. *)
Record planned := mkPlanned { pl_label : string; pl_absent : Q; pl_age : Q; pl_sleep : Q }.

(** [xs * n] *)
Definition repeat_list {A} (n : nat) (xs : list A) : list A := mjoin (replicate n xs).

Definition step1_plan (reps : nat) : list planned :=
  repeat_list reps ((fun a => mkPlanned ("abs" +:+ pretty a)%string (inject_Z (Z.of_nat a)) 6 0) <$> [10; 25; 40; 70]).
Definition step1b_plan (reps : nat) : list planned :=
  repeat_list reps ((fun g => mkPlanned ("age" +:+ pretty g)%string 40 (inject_Z (Z.of_nat g)) 0) <$> [2; 6; 15; 30; 38]).
Definition step2_plan (reps : nat) : list planned := replicate reps (mkPlanned "short6" 6 4 0).
Definition slowpoll_plan : list planned := replicate 3 (mkPlanned "short6_slowpoll" 6 4 1).

Definition number_from (seed0 : Z) (ps : list planned) : list (Z * planned) :=
  zip (zrange (length ps) seed0) ps.

(** The runs in order, each with its seed; [p1] and [p1b] are the shuffled plans. *)
Definition clock_schedule (want1 want1b want2 : bool) (p1 p1b : list planned) (reps2 : nat)
    : list (Z * planned) :=
  (if want1 then number_from 3000 p1 else [])
  ++ (if want1b then number_from 4000 p1b else [])
  ++ (if want2 then number_from 5000 (step2_plan reps2) ++ number_from 5500 slowpoll_plan else []).

(** ** [summarize] and the decision *)

Definition starts (p s : string) : bool := match strip_prefix p s with Some _ => true | None => false end.

Definition summarize (rows : list clock_run) : list (string * list clock_run) :=
  group_by cr_label id (List.filter cr_converged rows).

Inductive anchor : Type := AnchorWrite | AnchorRestart | Indistinct | Insufficient.

(** [None]: nothing is decided. *)
Definition clock_decision (rows : list clock_run) : option anchor :=
  match summarize (List.filter (fun r => starts "age" (cr_label r)) rows) with
  | [] => None
  | b =>
      let rs := mjoin (dvalues b) in
      let cr := cv (omap cr_repair rs) in
      let cs := cv (omap cr_since_write rs) in
      if is_nan cr || is_nan cs then None
      else if flt cs cr then Some AnchorWrite
      else if flt cr cs then Some AnchorRestart
      else Some Indistinct
  end.

(** ** [analyze_clock.py] *)

(** A converged record, every field of which is read. *)
Record crow := mkCRow {
  cw_label : string; cw_absent : Q; cw_age : Q; cw_repair : Q; cw_since : Q; cw_wall : Q }.

Definition crow_of (r : clock_run) : result crow :=
  match cr_absent r, cr_age r, cr_repair r, cr_since_write r, cr_wall_start r with
  | Some a, Some g, Some d, Some s, Some w => Ok (mkCRow (cr_label r) a g d s w)
  | _, _, _, _, _ => Raise TypeError
  end.

(** The verdict, with the ratio that is printed beside it. *)
Definition clock_verdict (rep sw : list Q) : result anchor :=
  let cr := cv rep in
  let cs := cv sw in
  if is_nan cr || is_nan cs then Ok Insufficient
  else if flt cs cr then if feq cs (fin 0) then Raise ZeroDivisionError else Ok AnchorWrite
  else if flt cr cs then if feq cr (fin 0) then Raise ZeroDivisionError else Ok AnchorRestart
  else Ok Indistinct.

(** [disaggregate]; the correlations printed with it are left out. *)
Record regime := mkRegime {
  rg_n : nat; rg_age_lo : Q; rg_age_hi : Q; rg_spread : Q; rg_median : Q }.

Definition min_of (x : Q) (xs : list Q) : Q := Qmin_list x xs.
Definition max_of (x : Q) (xs : list Q) : Q := Qmax_list x xs.

Definition regime_of (r : crow) (rs : list crow) : regime :=
  let g := r :: rs in
  let p := cw_repair <$> g in
  mkRegime (length g) (min_of (cw_age r) (cw_age <$> rs)) (max_of (cw_age r) (cw_age <$> rs))
    (max_of (cw_repair r) (cw_repair <$> rs) - min_of (cw_repair r) (cw_repair <$> rs))
    (np_median p).

Definition young (s1b : list crow) : list crow := List.filter (fun r => Qltb (cw_age r) 20) s1b.
Definition old (s1b : list crow) : list crow := List.filter (fun r => Qle_bool 20 (cw_age r)) s1b.

Definition disaggregate (s1b : list crow) : option (regime * regime * Q) :=
  match young s1b, old s1b with
  | l :: ls, h :: hs =>
      Some (regime_of l ls, regime_of h hs,
            min_of (cw_age h) (cw_age <$> hs) - max_of (cw_age l) (cw_age <$> ls))%Q
  | _, _ => None
  end.

(** [calibration_check]: what the test says of a constant repair time over these ages. *)
Definition calibrate (ages : list Q) (const : Q) : bool :=
  flt (cv (replicate (length ages) const)) (cv ((fun a => f64 (a + const)) <$> ages)).
Definition CALIBRATION : list Q := [2; 15; 31]%Q.
Definition calibration_check (s1b : list crow) : list bool :=
  calibrate (cw_age <$> s1b) <$> CALIBRATION.

(** [write_position_check] *)
Definition position (r : crow) : Q := (cw_absent r - cw_age r)%Q.
Definition candidates (rows : list crow) : list crow :=
  List.filter (fun r => negb (Qeq_bool (cw_absent r) 0) && Qle_bool 10 (cw_absent r)) rows.
Definition early_young (rows : list crow) : list crow :=
  List.filter (fun r => Qltb (position r) 10 && Qltb (cw_age r) 20) (candidates rows).

(** The phase of step 2: [x % period]. *)
Definition py_mod (x p : Q) : Q := (x - p * inject_Z (Qfloor (x / p)))%Q.
Definition phases (walls : list Q) (period : Q) : list Q :=
  match walls with
  | [] => []
  | w :: ws => (fun x => py_mod (x - min_of w ws) period) <$> walls
  end.

Record clock_report := mkClockReport {
  ck_dropped : nat;
  ck_onspec : option (Q * Q);                 (* spans of absence and repair *)
  ck_verdict : option anchor;
  ck_regimes : option (regime * regime * Q);
  ck_calibration : list bool;
  ck_early_young : nat;
  ck_phases : list (list Q);                  (* per period, what is correlated with the repair *)
  ck_medians : option (Q * Q);                (* fast and slow polling *)
}.

Definition span (xs : list Q) : Q :=
  match xs with [] => 0 | x :: l => max_of x l - min_of x l end.

Definition on_spec (s1 : list crow) : list crow :=
  List.filter (fun r => Qle_bool 4 (cw_age r) && Qle_bool (cw_age r) 8) s1.

Definition PERIODS : list Q := [30; 40; 50; 52; 60]%Q.

Definition clock_main (allrows : list clock_run) : result clock_report :=
  rows ← rmapM crow_of (List.filter cr_converged allrows);
  let s1 := List.filter (fun r => starts "abs" (cw_label r)) rows in
  let s1b := List.filter (fun r => starts "age" (cw_label r)) rows in
  let s2 := List.filter (fun r => bool_decide (cw_label r = "short6"%string)) rows in
  let slow := List.filter (fun r => bool_decide (cw_label r = "short6_slowpoll"%string)) rows in
  let ons := on_spec s1 in
  verdict ← (match s1b with
             | [] => Ok None
             | _ => v ← clock_verdict (cw_repair <$> s1b) (cw_since <$> s1b); Ok (Some v)
             end);
  Ok (mkClockReport (length allrows - length rows)
        (if 3 <=? length ons
         then Some (span (cw_absent <$> ons), span (cw_repair <$> ons))
         else None)
        verdict
        (match s1b with [] => None | _ => disaggregate s1b end)
        (match s1b with [] => [] | _ => calibration_check s1b end)
        (length (early_young rows))
        (match s2 with
         | [] => []
         | _ => phases (cw_wall <$> s2) <$> PERIODS
         end)
        (match s2, slow with
         | _ :: _, _ :: _ => Some (np_median (cw_repair <$> s2), np_median (cw_repair <$> slow))
         | _, _ => None
         end)).

(** * Properties *)

(** ** The schedule *)

Lemma number_from_seeds seed0 ps s p :
  (s, p) ∈ number_from seed0 ps -> (seed0 <= s < seed0 + Z.of_nat (length ps))%Z.
Proof. unfold number_from. intros H%elem_of_zip_l. by apply elem_of_zrange in H. Qed.

Lemma number_from_NoDup seed0 ps : NoDup (number_from seed0 ps).*1.
Proof.
  unfold number_from. rewrite fst_zip; [apply zrange_NoDup|].
  assert (forall n x, length (zrange n x) = n) as -> by (induction n as [|n IH]; intros x; cbn; auto). done.
Qed.

Lemma NoDup_keys_app {A} (l k : list (Z * A)) :
  NoDup l.*1 -> NoDup k.*1 -> (forall s a b, (s, a) ∈ l -> (s, b) ∉ k) -> NoDup (l ++ k).*1.
Proof.
  intros Hl Hk H. rewrite fmap_app. apply NoDup_app. split_and!; [done| |done].
  intros s ([s' a] & -> & Ha)%list_elem_of_fmap ([s'' b] & E & Hb)%list_elem_of_fmap. simpl in *. subst. by eapply H.
Qed.

(** Runs of different seeds write different objects, as long as a run writes at most ten
    million: what one run finds on the victim is never another run's. The seeds are distinct
    while a step has at most a thousand runs and the short outages at most five hundred. *)
Theorem schedule_isolated w1 w1b w2 p1 p1b reps2 :
  length p1 <= 1000 -> length p1b <= 1000 -> reps2 <= 500 ->
  NoDup (clock_schedule w1 w1b w2 p1 p1b reps2).*1 /\
  (forall s t x, s <> t -> x ∈ corpus_ids s SIZE 0 -> x ∉ corpus_ids t SIZE 0).
Proof.
  intros H1 H2 H3. split; [|intros s t x Hne; rewrite !elem_of_corpus; unfold SIZE; lia].
  assert (forall ps (w : bool), NoDup (if w then ps else []).*1 <-> (w = true -> NoDup (ps : list (Z * planned)).*1)) as Hif.
  { intros ps []; (split; [intros|intros H]); try done; try constructor. by apply H. }
  assert (length (step2_plan reps2) = reps2) as L2 by apply length_replicate.
  assert (length slowpoll_plan = 3) as L3 by apply length_replicate.
  unfold clock_schedule. apply NoDup_keys_app; [apply Hif; intros; apply number_from_NoDup| |].
  - apply NoDup_keys_app; [apply Hif; intros; apply number_from_NoDup| |].
    + apply Hif. intros _. apply NoDup_keys_app; try apply number_from_NoDup.
      intros s a b Ha%number_from_seeds Hb%number_from_seeds. lia.
    + intros s a b Ha Hb. destruct w1b; [|by apply not_elem_of_nil in Ha]. destruct w2; [|by apply not_elem_of_nil in Hb].
      apply number_from_seeds in Ha. apply elem_of_app in Hb as [Hb%number_from_seeds|Hb%number_from_seeds]; lia.
  - intros s a b Ha Hb. destruct w1; [|by apply not_elem_of_nil in Ha]. apply number_from_seeds in Ha.
    apply elem_of_app in Hb as [Hb|Hb].
    + destruct w1b; [|by apply not_elem_of_nil in Hb]. apply number_from_seeds in Hb. lia.
    + destruct w2; [|by apply not_elem_of_nil in Hb].
      apply elem_of_app in Hb as [Hb%number_from_seeds|Hb%number_from_seeds]; lia.
Qed.

(** ** One run *)

(** [since_write_s] is the sum that the study registered, up to the rounding of the age: it
    runs from the write to the restart and then from the first answer to the complete one,
    and leaves out the restart in between. *)
Lemma since_write_is_age_plus_repair label size seed status wall o t_poll polls tr r s :
  clock_one_run label size seed status wall o t_poll polls = (tr, Some r) ->
  cr_since_write r = Some s ->
  exists age d, cr_age r = Some age /\ cr_repair r = Some d /\ (Qabs (s - (age + d)) <= 101 # 2000)%Q.
Proof.
  unfold clock_one_run. destruct (write_objects _ _ _) as [[] sent]; cbn [negb]; [|by intros [= <- <-]].
  destruct (last_loop _ _ _ _ _ _) as [[[first lst] n]|]; [|done]. intros [= <- <-]. cbn [cr_since_write cr_age cr_repair].
  destruct (if complete size lst then fst <$> lst else None) as [d|]; [|done]. intros [= <-].
  do 2 eexists. split_and!; [done..|]. set (g := (og_start o - og_write o)%Q).
  pose proof (round_nd_close 3 (g + d)) as H1. pose proof (round_nd_close 1 g) as H2.
  apply Qabs_Qle_condition in H1, H2. apply Qabs_Qle_condition.
  change ((1 # 2) / inject_Z (10 ^ Z.of_nat 3))%Q with (1 # 2000)%Q in H1.
  change ((1 # 2) / inject_Z (10 ^ Z.of_nat 1))%Q with (1 # 20)%Q in H2. lra.
Qed.

(** ** The statistic *)

(** The calibration says "restart" exactly when the coefficient of the shifted ages, in
    doubles, is above zero; when the shifted ages are one number it says "write", so the
    sentence printed under the table fails there. *)
Lemma calibrate_cv ages const :
  2 <= length ages -> ~ (f64 const == 0)%Q ->
  calibrate ages const = flt (fin 0) (cv ((fun a => f64 (a + const)) <$> ages)).
Proof. intros Hn Hc. unfold calibrate. by rewrite cv_const. Qed.

Lemma calibration_blind ages const s :
  2 <= length ages -> ~ (f64 const == 0)%Q -> ~ (f64 s == 0)%Q ->
  (fun a => f64 (a + const)) <$> ages = replicate (length ages) s -> calibrate ages const = false.
Proof. intros Hn Hc Hs E. rewrite calibrate_cv by done. by rewrite E, cv_const. Qed.

Example calibration_sees : calibrate [2; 6; 15; 30; 38]%Q 31 = true.
Proof. by vm_compute. Qed.

(** With equal ages the calibration says "write", whatever the constant. *)
Lemma calibration_can_fail : calibration_check (replicate 3 (mkCRow "age6" 40 6 2 8 0)) = [false; false; false].
Proof. by vm_compute. Qed.

(** The clearest evidence there can be stops the analysis: when every run repaired at the
    same instant after the write and the repair times differ, the ratio that is printed beside
    the verdict divides by zero. *)
Theorem perfect_anchor_raises rep sw c :
  2 <= length sw -> sw = replicate (length sw) c -> ~ (f64 c == 0)%Q ->
  flt (fin 0) (cv rep) = true -> clock_verdict rep sw = Raise ZeroDivisionError.
Proof.
  intros Hs -> Hc Hr. unfold clock_verdict. rewrite cv_const by done. rewrite Hr.
  by destruct (cv rep).
Qed.

Lemma perfect_anchor_raises_witness :
  clock_verdict [30; 20; 10]%Q [40; 40; 40]%Q = Raise ZeroDivisionError.
Proof.
  apply (perfect_anchor_raises [30; 20; 10]%Q [40; 40; 40]%Q 40); [simpl; lia|reflexivity| |by vm_compute].
  intros H. vm_compute in H. discriminate.
Defined.

(** ** The split by age *)

Lemma young_old_perm s1b : young s1b ++ old s1b ≡ₚ s1b.
Proof.
  unfold young, old. induction s1b as [|r rs IH]; [done|]. cbn [List.filter].
  destruct (Qltb (cw_age r) 20) eqn:E1, (Qle_bool 20 (cw_age r)) eqn:E2; qreflect; try lra; cbn [app].
  - by rewrite IH.
  - by rewrite <- Permutation_middle, IH.
Qed.

(** The split is complete and its gap is empty: every run is in one regime, the gap is
    positive, and no run has an age strictly inside it. *)
Theorem disaggregate_gap s1b lo hi gap :
  disaggregate s1b = Some (lo, hi, gap) ->
  rg_n lo + rg_n hi = length s1b /\ (0 < gap)%Q /\ (gap == rg_age_lo hi - rg_age_hi lo)%Q /\
  forall r, r ∈ s1b -> (cw_age r <= rg_age_hi lo \/ rg_age_lo hi <= cw_age r)%Q.
Proof.
  unfold disaggregate. destruct (young s1b) as [|l ls] eqn:Ey; [done|]. destruct (old s1b) as [|h hs] eqn:Eo; [done|].
  intros [= <- <- <-]. pose proof (young_old_perm s1b) as Hp. rewrite Ey, Eo in Hp.
  cbn [rg_n rg_age_lo rg_age_hi regime_of].
  destruct (Qmax_list_ge (cw_age l) (cw_age <$> ls)) as [Hl1 Hl2].
  destruct (Qmin_list_le (cw_age h) (cw_age <$> hs)) as [Hh1 Hh2]. unfold max_of, min_of.
  split; [apply Permutation_length in Hp; by rewrite length_app in Hp|]. split; [|split; [reflexivity|]].
  - assert (forall r, r ∈ l :: ls -> (cw_age r < 20)%Q) as HA.
    { intros r Hr. rewrite <- Ey in Hr. apply elem_of_bfilter in Hr as [_ Hr]. by qreflect. }
    assert (forall r, r ∈ h :: hs -> (20 <= cw_age r)%Q) as HB.
    { intros r Hr. rewrite <- Eo in Hr. apply elem_of_bfilter in Hr as [_ Hr]. by qreflect. }
    assert (Qmax_list (cw_age l) (cw_age <$> ls) < 20)%Q as H1.
    { assert (forall d xs, (d < 20)%Q -> Forall (fun q => q < 20)%Q xs -> (Qmax_list d xs < 20)%Q) as G.
      { unfold Qmax_list. intros d xs Hd Hx. revert d Hd. induction Hx as [|x xs Hx _ IH]; intros d Hd; [done|].
        cbn. apply IH. by apply Q.max_lub_lt. }
      apply G; [apply HA; by left|]. apply Forall_fmap, Forall_forall. intros r Hr. apply HA. by right. }
    assert (20 <= Qmin_list (cw_age h) (cw_age <$> hs))%Q as H2.
    { apply Qmin_list_glb; [apply HB; by left|]. apply Forall_fmap, Forall_forall. intros r Hr. apply HB. by right. }
    lra.
  - intros r Hr. rewrite <- Hp, elem_of_app, !elem_of_cons in Hr.
    assert (forall rs, r ∈ rs -> cw_age r ∈ cw_age <$> rs) as Hf by (intros rs; apply list_elem_of_fmap_2).
    destruct Hr as [[->|Hr]|[->|Hr]]; [by left|left; auto|by right|right; auto].
Qed.

(** A mixture can be judged the opposite of both of its parts: here the whole says "write"
    and each regime alone says "restart". *)
Lemma mixture_reverses :
  let row (a d : Q) := mkCRow "age" 40 a d (a + d)%Q 0 in
  let lo := [row 2%Q (320 # 10); row 6%Q (321 # 10); row 15%Q (320 # 10)] in
  let hi := [row 30%Q (20 # 10); row 34%Q (21 # 10); row 38%Q (20 # 10)] in
  let verdict rows := clock_verdict (cw_repair <$> rows) (cw_since <$> rows) in
  verdict (lo ++ hi) = Ok AnchorWrite /\ verdict lo = Ok AnchorRestart /\ verdict hi = Ok AnchorRestart.
Proof. by vm_compute. Qed.
