(* ===== verification/RepairTrajectory.v ===== *)
(** * Transfer phase or truncation artifact?

    [research/weaviate_repair_trajectory/analyze_trajectory.py]: the span of the stored tail
    of a repair against its poll interval, the shape of the 5000-object runs, and the
    segmentation of a completeness series into plateau and transfer phase with its fitted
    throughput. The repair records are those of [RepairWindow], the series those of
    [Dissociation] and the line fit that of [Dispersion]. *)

From stdpp Require Import base list strings sorting.
From Stdlib Require Import QArith Qminmax Qabs Lqa ZArith Lia.
From S2P Require Import Prelude PyFloat Metrics Analyze Aggregate Dissociation Dispersion RepairWindow.

Local Open Scope nat_scope.

(** ** [segment] *)

Record seg := mkSeg {
  sg_first_t : Q; sg_first_n : nat; sg_plateau : Q; sg_start : Q;
  sg_transfer : list (Q * nat); sg_n_ok : nat; sg_failed : nat; sg_cadence : Q }.

(** [for i, s in enumerate(ok): if s["n"] == first_n: last_at_first = i] *)
Definition last_at_first (first_n : nat) (ok : list (Q * nat)) : nat :=
  foldl (fun best ix => if Nat.eqb (snd ix.2) first_n then ix.1 else best) 0 (enumerate ok).

Definition segment (series : list sample) : option seg :=
  let ok := omap usable series in
  if length ok <? 4 then None
  else
    match ok with
    | [] => None
    | (t0, n0) :: _ =>
        let transfer := drop (last_at_first n0 ok) ok in
        let start := default t0 (fst <$> head transfer) in
        Some (mkSeg t0 n0 (start - t0)%Q start transfer (length ok) (length series - length ok)
                ((default t0 (fst <$> last ok) - t0) / Qn (length ok - 1 `max` 1))%Q)
    end.

(** ** The truncation ratio *)

(** A record of [sizes.json]; that of a failed write has no seed. *)
Record size_row := mkSizeRow { sr_seed : option Z; sr_rec : repair_rec }.

Definition row_seed (r : size_row) : result Z :=
  match sr_seed r with Some s => Ok s | None => Raise KeyError end.

(** [sorted(..., key=lambda x: (x["size"], x["seed"]))] *)
Definition pair_leb (x y : nat * Z * repair_rec) : bool :=
  (fst (fst x) <? fst (fst y)) || (Nat.eqb (fst (fst x)) (fst (fst y)) && Z.leb (snd (fst x)) (snd (fst y))).
Definition by_size_seed (rows : list size_row) : result (list (nat * Z * repair_rec)) :=
  ks ← rmapM (fun r => s ← row_seed r; Ok (rp_size (sr_rec r), s, sr_rec r)) rows;
  Ok (sorted pair_leb ks).

(** The ratio of a record, unless it is skipped. *)
Definition ratio_of (r : repair_rec) : option Q :=
  match head (rp_tail r), last (rp_tail r), rp_repair_s r, rp_samples r with
  | Some (ta, _), Some (tb, _), Some d, Some (S n) =>
      if (length (rp_tail r) <? 2) || Qeq_bool d 0 then None
      else Some ((tb - ta) / (2 * (d / Qn (S n))))%Q
  | _, _, _, _ => None
  end.

Definition ratios (rows : list (nat * Z * repair_rec)) : list (nat * list Q) :=
  group_by fst snd (omap (fun r => (fun q => (fst (fst r), q)) <$> ratio_of (snd r)) rows).

(** ** The shape of a 5000-object run *)

(** Time and count of the burst, the plateau's count, and the first and last stored sample
    of the tail: [head[1]] and [head[-1]], [tail[0]] and [tail[-1]]. *)
Record shape := mkShape { sh_burst : Q * nat; sh_plateau : nat; sh_tail_first : Q * nat; sh_tail_last : Q * nat }.

Definition shape_of (r : repair_rec) : result (option shape) :=
  match rp_head r, rp_tail r with
  | h :: hs, t :: ts =>
      burst ← py_index (h :: hs) 1;
      Ok (Some (mkShape burst (snd (List.last hs h)) t (List.last ts t)))
  | _, _ => Ok None
  end.

Definition shapes (rows : list (nat * Z * repair_rec)) : result (list (option shape)) :=
  rmapM (fun r => shape_of (snd r)) (List.filter (fun r => Nat.eqb (fst (fst r)) 5000) rows).

(** ** [main] *)

Record diss_row := mkDissRow { dr_seed : Z; dr_chaos : bool; dr_aborted : bool; dr_series : list sample }.

Definition seed_leb (x y : diss_row) : bool := Z.leb (dr_seed x) (dr_seed y).
Definition chaos_rows (rows : list diss_row) : list diss_row :=
  sorted seed_leb (List.filter (fun r => dr_chaos r && negb (dr_aborted r)) rows).
Definition control_rows (rows : list diss_row) : list diss_row :=
  List.filter (fun r => negb (dr_chaos r) && negb (dr_aborted r)) rows.

(** Fitted rate and residual spread (squared) of a transfer phase. *)
Definition fit_of (g : seg) : option (Q * Q) :=
  (fun f => (fst (fst f), snd f)) <$> ols (fst <$> sg_transfer g) (Qn ∘ snd <$> sg_transfer g).

Inductive mapping : Type := Holds | Withdrawn.

(** Both ends are observations of [weaviate_repair_clock]. *)
Definition dead_time_verdict (deadtimes : list Q) : option mapping :=
  match deadtimes with
  | [] => None
  | _ =>
      let m := np_median deadtimes in
      Some (if Qle_bool (3108 # 100) m && Qle_bool m (3343 # 100) then Holds else Withdrawn)
  end.

(** [5000 / statistics.median(rates)] *)
Definition implied_transfer (rates : list Q) : result (option Q) :=
  match rates with
  | [] => Ok None
  | _ => if Qeq_bool (np_median rates) 0 then Raise ZeroDivisionError else Ok (Some (5000 / np_median rates)%Q)
  end.

Record trajectory_report := mkTrajectory {
  tj_ratios : list (nat * list Q);
  tj_shapes : list (option shape);
  tj_segments : list (option seg);
  tj_rates : list Q;
  tj_deadtimes : list Q;
  tj_mapping : option mapping;
  tj_implied : option Q;
  tj_controls : nat;
  tj_controls_with_series : nat;
}.

Definition trajectory_main (sizes : list size_row) (diss : list diss_row) : result trajectory_report :=
  rows ← by_size_seed sizes;
  sh ← shapes rows;
  let segs := (fun r => segment (dr_series r)) <$> chaos_rows diss in
  let some := omap id segs in
  let rates := fst <$> omap fit_of some in
  implied ← implied_transfer rates;
  Ok (mkTrajectory (ratios rows) sh segs rates (sg_start <$> some) (dead_time_verdict (sg_start <$> some))
        implied (length (control_rows diss))
        (length (List.filter (fun r => negb (length (dr_series r) =? 0)) (control_rows diss)))).

(** * Properties *)

(** ** Segmentation *)

Lemma foldl_last_at (n0 : nat) (ok : list (Q * nat)) (k best : nat) :
  let i := foldl (fun b ix => if Nat.eqb (snd ix.2) n0 then ix.1 else b) best (zip (seq k (length ok)) ok) in
  (i = best /\ (forall x, x ∈ ok -> x.2 <> n0)) \/
  (k <= i < k + length ok /\ (exists x, ok !! (i - k) = Some x /\ x.2 = n0) /\
   forall j x, i < j -> ok !! (j - k) = Some x -> k <= j -> x.2 <> n0).
Proof.
  revert k best. induction ok as [|[t n] ok IH]; intros k best; cbn [length seq zip zip_with foldl fst snd].
  { left. split; [done|]. intros x Hx. by apply not_elem_of_nil in Hx. }
  cbv zeta. destruct (IH (S k) (if Nat.eqb n n0 then k else best)) as [[-> Hno]|(Hr & (x & Hx & Hx2) & Hlater)].
  - destruct (Nat.eqb n n0) eqn:E; breflect.
    + right. split; [lia|]. split; [exists (t, n); by rewrite Nat.sub_diag|].
      intros j x Hj Hx _. destruct (j - k) as [|m] eqn:Em; [lia|]. cbn in Hx. apply Hno. by eapply list_elem_of_lookup_2.
    + left. split; [done|]. intros x [->|Hx]%elem_of_cons; [done|auto].
  - right. set (i := foldl _ _ _) in *. split; [lia|]. split.
    + exists x. split; [|done]. replace (i - k) with (S (i - S k)) by lia. done.
    + intros j y Hj Hy Hk. apply (Hlater j y); [done| |lia].
      replace (j - k) with (S (j - S k)) in Hy by lia. done.
Qed.

Lemma last_at_first_spec n0 ok :
  (exists x, x ∈ ok /\ x.2 = n0) ->
  exists x, ok !! last_at_first n0 ok = Some x /\ x.2 = n0 /\
    forall j y, last_at_first n0 ok < j -> ok !! j = Some y -> y.2 <> n0.
Proof.
  intros (x & Hx & E). unfold last_at_first, enumerate.
  destruct (foldl_last_at n0 ok 0 0) as [[_ Hno]|(Hr & (y & Hy & Ey) & Hl)]; [by destruct (Hno x)|].
  rewrite Nat.sub_0_r in Hy. exists y. split_and!; [done..|]. intros j z Hj Hz. apply (Hl j z); [done|by rewrite Nat.sub_0_r|lia].
Qed.

(** What the registered rule does, on every series: it answers exactly when at least four
    probes succeeded; every probe is then counted as successful or failed; the transfer phase
    is a suffix of the successful samples that starts at the first count and never returns to
    it; and what precedes it, the plateau, lies between two samples of the first count. The
    plateau is constant when counts never fall. *)
Theorem segment_spec series :
  let ok := omap usable series in
  match segment series with
  | None => length ok < 4
  | Some g =>
      4 <= length ok /\ sg_n_ok g + sg_failed g = length series /\
      exists plateau s rest,
        ok = plateau ++ sg_transfer g /\ sg_transfer g = s :: rest /\
        s.2 = sg_first_n g /\ s.1 = sg_start g /\ Forall (fun x => x.2 <> sg_first_n g) rest /\
        (sg_plateau g == sg_start g - sg_first_t g)%Q /\
        (StronglySorted le (snd <$> ok) -> Forall (fun x => x.2 = sg_first_n g) plateau)
  end.
Proof.
  cbv zeta. unfold segment.
  assert (length (omap usable series) <= length series) as Hlen.
  { clear. induction series as [|x l IH]; [done|]. cbn. destruct (usable x); cbn; lia. }
  generalize dependent (omap usable series). intros o Hlen.
  destruct (length o <? 4) eqn:E4; breflect; [done|].
  destruct o as [|[t0 n0] ok']; [simpl in E4; lia|]. set (o := (t0, n0) :: ok') in *.
  destruct (last_at_first_spec n0 o) as ([t n] & Hi & E & Hl); [exists (t0, n0); split; [by left|done]|].
  cbn [snd] in E. subst n. set (i := last_at_first n0 o) in *.
  cbn [sg_n_ok sg_failed sg_transfer sg_first_n sg_start sg_plateau sg_first_t].
  rewrite (drop_S _ _ _ Hi). cbn [head fmap option_fmap option_map default fst].
  split; [done|]. split; [lia|]. exists (take i o), (t, n0), (drop (S i) o).
  split_and!; try done.
  - by rewrite <- (drop_S _ _ _ Hi), take_drop.
  - apply Forall_forall. intros x [j Hj]%list_elem_of_lookup. rewrite lookup_drop in Hj. eapply (Hl (S i + j)); [lia|done].
  - intros Hs. apply Forall_forall. intros x Hx.
    assert (n0 <= x.2).
    { assert (x ∈ o) as Hxo by (apply elem_of_take in Hx as (j & Hj & _); by eapply list_elem_of_lookup_2). apply elem_of_cons in Hxo as [->|Hxo]; [done|].
      inversion Hs as [|? ? _ Hall]; subst. rewrite Forall_forall in Hall. apply Hall, list_elem_of_fmap. by exists x. }
    assert (x.2 <= n0); [|lia].
    rewrite <- (take_drop i o) in Hs. rewrite (drop_S _ _ _ Hi), fmap_app in Hs.
    eapply (StronglySorted_app_1_elem_of _ _ _ x.2 n0 Hs); [by apply list_elem_of_fmap_2|left].
Qed.

(** A count that falls back to the first one makes a plateau of everything in between. *)
Lemma plateau_not_flat :
  let s t n := mkSample t (Some n) true in
  exists g, segment [s 0%Q 10; s 5%Q 40; s 10%Q 10; s 15%Q 50] = Some g /\
    sg_plateau g = 10%Q /\ sg_first_n g = 10.
Proof. eexists. split; [by vm_compute|]. by vm_compute. Qed.

(** ** The deciding metric *)

(** A repair watched at equal intervals, the n-th answer [n * d] after the first. *)
Definition even_polls (d : Q) (counts : list nat) : list (Q * nat) :=
  (fun ix => (Qn ix.1 * d, ix.2)%Q) <$> enumerate counts.

Lemma even_polls_lookup d counts i :
  even_polls d counts !! i = (fun n => (Qn i * d, n)%Q) <$> counts !! i.
Proof.
  unfold even_polls, enumerate. rewrite list_lookup_fmap, lookup_zip_with.
  destruct (counts !! i) as [n|] eqn:E; cbn.
  - pose proof (lookup_lt_Some _ _ _ E). rewrite lookup_seq_lt by done. done.
  - destruct (seq 0 (length counts) !! i); done.
Qed.

Lemma even_polls_length d counts : length (even_polls d counts) = length counts.
Proof. unfold even_polls, enumerate. rewrite length_fmap, length_zip_with, length_seq. lia. Qed.

(** The deciding metric on a repair whose polls are evenly spaced, composed with the record
    that [characterize.py] stores of it: for a complete repair of [n] answers, three or more,
    the ratio is exactly n / (n - 1), whatever the interval and whatever the counts are. So
    a stored tail that is two poll intervals scores just above 1, and the ratio carries no
    information on how the objects arrived. *)
Theorem even_polls_ratio d counts size write_s peer first :
  (0 < d)%Q -> 3 <= length counts -> last counts = Some size ->
  exists q, ratio_of (repair_record size write_s peer (first, even_polls d counts)) = Some q /\
            (q == Qn (length counts) / Qn (length counts - 1))%Q.
Proof.
  intros Hd Hn Hlast. set (traj := even_polls d counts). set (n := length counts) in *.
  assert (length traj = n) as Hlen by apply even_polls_length.
  assert (last traj = Some (Qn (n - 1) * d, size)%Q) as Hl.
  { rewrite last_lookup, Hlen. unfold traj. rewrite even_polls_lookup.
    rewrite last_lookup in Hlast. fold n in Hlast. replace (n - 1) with (pred n) by lia. by rewrite Hlast. }
  assert (last (last_n 3 traj) = last traj) as Hl3.
  { unfold last_n. rewrite !last_lookup, lookup_drop, length_drop. f_equal. lia. }
  destruct (lookup_lt_is_Some_2 counts (n - 3)) as [m Hm]; [fold n; lia|].
  assert (head (last_n 3 traj) = Some (Qn (n - 3) * d, m)%Q) as Hh.
  { unfold last_n. rewrite head_lookup, lookup_drop, Hlen, Nat.add_0_r. unfold traj. by rewrite even_polls_lookup, Hm. }
  unfold ratio_of, repair_record. cbn [rp_tail rp_repair_s rp_samples].
  rewrite Hh, Hl3, Hl. cbn [complete fmap option_fmap option_map fst]. rewrite Nat.eqb_refl, Hlen.
  destruct n as [|n'] eqn:En; [lia|].
  assert (length (last_n 3 traj) = 3) as -> by (unfold last_n; rewrite length_drop; lia). cbn [Nat.ltb Nat.leb orb].
  assert (0 < Qn (S n' - 1))%Q as Hp by (apply inject_nat_pos; lia).
  assert (0 < Qn (S n' - 1) * d)%Q as Hp2 by (by apply Qmult_lt_0_compat).
  destruct (Qeq_bool _ 0) eqn:Ez; qreflect; [lra|]. eexists. split; [done|].
  assert (Qn (S n' - 1) == Qn (S n' - 3) + 2)%Q as E3.
  { unfold Qn. replace (Z.of_nat (S n' - 1)) with (Z.of_nat (S n' - 3) + 2)%Z by lia. by rewrite inject_Z_plus. }
  assert (0 < Qn (S n'))%Q as Hq by (apply inject_nat_pos; lia).
  rewrite E3 in *. field. repeat split; lra.
Qed.

Lemma even_polls_ratio_witness :
  exists q, ratio_of (repair_record 500 0 None (None, even_polls 3 [140; 141; 141; 500])) = Some q /\
            (q == 4 # 3)%Q.
Proof.
  destruct (even_polls_ratio 3 [140; 141; 141; 500] 500 0 None None) as (q & E & Hq);
    [decide_now|simpl; lia|reflexivity|]. exists q. split; [exact E|]. rewrite Hq. reflexivity.
Defined.

(** ** Errors *)

(** A failed write in the file stops the analysis: its record has no seed. *)
Lemma failed_write_stops rows diss r :
  r ∈ rows -> sr_seed r = None -> exists e, trajectory_main rows diss = Raise e.
Proof.
  intros Hr Hs. unfold trajectory_main, by_size_seed.
  destruct (rmapM_Raise (fun r => s ← row_seed r; Ok (rp_size (sr_rec r), s, sr_rec r)) rows r KeyError Hr) as [e ->].
  - unfold row_seed. by rewrite Hs.
  - by exists e.
Qed.

(** A 5000-object repair that is complete at its first answer leaves one stored sample, and
    [head[1]] raises. *)
Lemma one_sample_raises size write_s peer first x :
  shape_of (repair_record size write_s peer (first, [x])) = Raise IndexError.
Proof. done. Qed.
