(* ===== verification/DissociationDriver.v ===== *)
(** * Driving the dissociation experiment

    [research/weaviate_dissociation/dissociation.py]: what the script reads from the replies
    of the cluster (a search, the distance of the index, the size of the class), the two ways
    it can clear the class, and [main], which refuses a wrong topology and then makes the two
    runs of every seed, rewriting its file after each. One run is [Dissociation.one_run].
    [research/weaviate_dissociation_180s/run_180s.py] is the same program with two flags. *)

From stdpp Require Import base list strings.
From Stdlib Require Import QArith ZArith Lia.
From S2P Require Import Prelude PyFloat Metrics Json WeaviateTopology WeaviateProbe Dissociation.

Local Open Scope nat_scope.

(** ** Replies *)

Definition jstr_key (j : json) (k : string) : result json := jget k (j_or j (JDict [])).

(** [search_full_ids]; [cls] is the class of the run. *)
Definition search_full_ids (cls : string) (o : http_outcome) : result (bool * list json) :=
  let '(st, body) := http_request o in
  if negb (Z.eqb st 200) || negb (is_dict body) then Ok (false, [])
  else
    errors ← jget "errors" body;
    if truthy errors then Ok (false, [])
    else
      data ← jget "data" body;
      get ← jget_or "Get" (JDict []) (j_or data (JDict []));
      hits ← jget cls get;
      got ← jiter (j_or hits (JList []));
      ids ← rmapM (fun o => add ← jget "_additional" o; jstr_key add "id") got;
      Ok (true, ids).

(** Names of distances are ASCII. *)
Definition lower_char (c : Ascii.ascii) : Ascii.ascii :=
  if (65 <=? Ascii.nat_of_ascii c) && (Ascii.nat_of_ascii c <=? 90) then Ascii.ascii_of_nat (Ascii.nat_of_ascii c + 32) else c.
Fixpoint lower_ascii (s : string) : string :=
  match s with EmptyString => EmptyString | String c s' => String (lower_char c) (lower_ascii s') end.

(** [schema_distance]: [None] when the class cannot be read. *)
Definition schema_distance (o : http_outcome) : result (option string) :=
  let '(st, sch) := http_request o in
  if negb (Z.eqb st 200) || negb (is_dict sch) then Ok None
  else
    cfg ← jget "vectorIndexConfig" sch;
    d ← jstr_key cfg "distance";
    match j_or d (JStr "") with
    | JStr s => Ok (Some (lower_ascii s))
    | _ => Raise AttributeError
    end.

(** [class_count]: whatever goes wrong is [None]. *)
Definition class_count (cls : string) (o : http_outcome) : json :=
  match
    data ← jitem "data" (http_request o).2;
    agg ← jitem "Aggregate" data;
    c ← jitem cls agg;
    first ← jfirst c;
    meta ← jitem "meta" first;
    jitem "count" meta
  with Ok n => n | Raise _ => JNull end.

(** ** Clearing the class *)

(** [clear_objects] *)
Definition clear_objects (dry : bool) (cls : string) (del count : http_outcome) : bool :=
  if dry then true
  else if negb (Z.eqb (http_request del).1 200) then false
  else negb (truthy (class_count cls count)).

(** [reset_class]: the reply to the deletion is not looked at. *)
Definition reset_class (dry : bool) (post get verify : http_outcome) : result bool :=
  if dry then Ok true
  else
    c ← create_class post get;
    if negb (Z.eqb (fst c) 200) then Ok false
    else v ← verify_class verify; Ok (fst v).

(** ** [main] *)

Definition SEEDS : list Z := [20260900; 20260901; 20260902; 20260903; 20260904]%Z.

(** [a.seed or [...]] *)
Definition seeds_of (arg : list Z) : list Z := match arg with [] => SEEDS | _ => arg end.

(** The no-chaos control first. *)
Definition run_plan (seeds : list Z) : list (Z * bool) :=
  mjoin ((fun s => [(s, false); (s, true)]) <$> seeds).

Section Drive.
Context {R : Type} (run : Z -> bool -> result R).

(** The contents the file is given, one after the other, and how the loop ends. *)
Fixpoint drive (rows : list R) (plan : list (Z * bool)) : list (list R) * result (list R) :=
  match plan with
  | [] => ([], Ok rows)
  | (seed, chaos) :: rest =>
      match run seed chaos with
      | Raise e => ([], Raise e)
      | Ok r =>
          let rows' := rows ++ [r] in
          let '(files, out) := drive rows' rest in (rows' :: files, out)
      end
  end.
End Drive.

(** What [main] reads before the runs. *)
Record start_env := mkStart {
  st_verify : http_outcome; st_schema : http_outcome; st_nodes : http_outcome }.

Inductive dexit (R : Type) : Type := Refused2 | Finished0 (rows : list R).
Arguments Refused2 {R}.
Arguments Finished0 {R} rows.

Definition start_distance (o : http_outcome) : result string :=
  d ← schema_distance o;
  Ok (match nonempty d with Some s => s | None => "cosine"%string end).

(** [isinstance(info, dict) and info.get("status") == 404] *)
Definition class_absent (o : http_outcome) : bool := Z.eqb (http_request o).1 404.

Definition dissociation_main {R} (dry : bool) (arg : list Z) (e : start_env)
    (run : string -> Z -> bool -> result R) : list (list R) * result (dexit R) :=
  let go distance :=
    let '(files, out) := drive (run distance) [] (run_plan (seeds_of arg)) in
    (files, rows ← out; Ok (Finished0 rows)) in
  if dry then go "cosine"%string
  else
    match verify_class (st_verify e) with
    | Raise x => ([], Raise x)
    | Ok (okc, _) =>
        if refuses okc (class_absent (st_verify e)) then ([], Ok Refused2)
        else
          match start_distance (st_schema e), shard_name (st_nodes e) with
          | Raise x, _ => ([], Raise x)
          | _, Raise x => ([], Raise x)
          | Ok distance, Ok _ => go distance
          end
    end.

(** ** [run_180s.main] *)

(** The command, or exit status 2 when the harness is not there. *)
Definition run_180s_cmd (python harness out : string) (exists_ : bool) (argv : list string) : option (list string) :=
  if exists_
  then Some ([python; "-u"; harness; "--observe-s"; "180"; "--queries"; "100"; "--out"; out]%string ++ argv)
  else None.

(** * Properties *)

(** ** Replies *)

Lemma class_count_unreachable cls m : class_count cls (HFailed m) = JNull.
Proof. done. Qed.

(** A class whose size cannot be read passes as emptied. *)
Lemma clear_is_blind cls r m : clear_objects false cls (HAnswer 200 r) (HFailed m) = true.
Proof. done. Qed.

(** A reset that reports success has a class of the expected shape, created now or found;
    an old class whose deletion failed passes with its objects. *)
Lemma reset_class_sound post get verify :
  reset_class false post get verify = Ok true ->
  exists a, verify_class verify = Ok (true, Some a).
Proof.
  unfold reset_class. destruct (create_class post get) as [[st c]|]; [|done]. cbn.
  destruct (negb _); [done|]. destruct (verify_class verify) as [[b a]|] eqn:E; [|done]. intros [= ->].
  destruct a as [a|]; [by exists a|exfalso]. revert E. unfold verify_class.
  destruct (http_request verify) as [st' sch]. destruct (_ || _); [done|]. intros H. by bind_inv H.
Qed.

(** ** The loop *)

Lemma drive_app {R} (run : Z -> bool -> result R) rows p q :
  drive run rows (p ++ q) =
  match drive run rows p with
  | (files, Ok rows') => let '(files', out) := drive run rows' q in (files ++ files', out)
  | (files, Raise e) => (files, Raise e)
  end.
Proof.
  revert rows. induction p as [|[s c] p IH]; intros rows; cbn [app drive].
  { by destruct (drive run rows q). }
  destruct (run s c) as [r|e]; [|done]. rewrite IH.
  destruct (drive run (rows ++ [r]) p) as [files [rows'|e]]; [|done].
  by destruct (drive run rows' q).
Qed.

Lemma drive_ok {R} (run : Z -> bool -> result R) rows p rs :
  rmapM (fun sc => run sc.1 sc.2) p = Ok rs ->
  exists files, drive run rows p = (files, Ok (rows ++ rs)) /\
    (p <> [] -> last files = Some (rows ++ rs)) /\ length files = length p.
Proof.
  revert rows rs. induction p as [|[s c] p IH]; intros rows rs H; cbn [rmapM drive] in *.
  { injection H as <-. rewrite app_nil_r. by exists []. }
  cbn [fst snd] in H. destruct (run s c) as [r|]; [|done]. cbn [mbind result_bind] in H.
  destruct (rmapM _ p) as [rs'|] eqn:E; [|done]. injection H as <-.
  destruct (IH (rows ++ [r]) rs' eq_refl) as (files & -> & Hl & Hn). eexists. split; [by rewrite <- app_assoc|].
  split; [|by cbn; rewrite Hn]. intros _. destruct p as [|x p].
  - destruct files; [|done]. cbn in E. injection E as <-. done.
  - rewrite last_cons, (Hl ltac:(done)), <- app_assoc. done.
Qed.

Lemma drive_raises {R} (run : Z -> bool -> result R) rows p s c q rs e :
  rmapM (fun sc => run sc.1 sc.2) p = Ok rs -> run s c = Raise e ->
  exists files, drive run rows (p ++ (s, c) :: q) = (files, Raise e) /\
    (p <> [] -> last files = Some (rows ++ rs)) /\ (p = [] -> files = []).
Proof.
  intros Hp He. destruct (drive_ok run rows p rs Hp) as (files & Hd & Hl & Hn).
  exists files. rewrite drive_app, Hd. cbn [drive]. rewrite He. cbn. rewrite app_nil_r. split_and!; [done..|].
  intros ->. by destruct files.
Qed.

Lemma elem_of_plan seeds s c : (s, c) ∈ run_plan seeds <-> s ∈ seeds.
Proof.
  unfold run_plan. rewrite list_elem_of_join. split.
  - intros (l & Hin & (t & -> & Ht)%list_elem_of_fmap).
    apply elem_of_cons in Hin as [[= -> ->]|[[= -> ->]|Hin%not_elem_of_nil]%elem_of_cons]; done.
  - intros H. exists [(s, false); (s, true)]. split; [destruct c; [right; left|left]|]. apply list_elem_of_fmap. eauto.
Qed.

(** [main] of the dissociation experiment. It refuses, before any run and writing no
    file, exactly when the class of the startup check exists in the wrong shape or could not
    be read, a status of 404 apart. When every run returns, the file ends as all their
    records, for each seed the control and then the chaos run. When a run raises, the
    exception propagates and the file holds exactly the records of the runs before it. *)
Theorem dissociation_main_spec {R} (arg : list Z) (e : start_env) (run : string -> Z -> bool -> result R)
    okc actual distance shard :
  verify_class (st_verify e) = Ok (okc, actual) ->
  start_distance (st_schema e) = Ok distance -> shard_name (st_nodes e) = Ok shard ->
  let plan := run_plan (seeds_of arg) in
  let main := dissociation_main false arg e run in
  (main = ([], Ok Refused2) <-> okc = false /\ (http_request (st_verify e)).1 <> 404%Z) /\
  (okc = true \/ (http_request (st_verify e)).1 = 404%Z ->
   (forall rows, rmapM (fun sc => run distance sc.1 sc.2) plan = Ok rows ->
      main.2 = Ok (Finished0 rows) /\ last main.1 = Some rows) /\
   (forall p s c q rows x, plan = p ++ (s, c) :: q ->
      rmapM (fun sc => run distance sc.1 sc.2) p = Ok rows -> run distance s c = Raise x ->
      main.2 = Raise x /\ (if p is [] then main.1 = [] else last main.1 = Some rows))).
Proof.
  intros Hv Hd Hs. cbv zeta. unfold dissociation_main. rewrite Hv, Hd, Hs.
  unfold refuses, class_absent.
  set (absent := Z.eqb _ 404). assert (absent = true <-> (http_request (st_verify e)).1 = 404%Z) as Ha by apply Z.eqb_eq.
  assert (run_plan (seeds_of arg) <> []) as Hne by (unfold seeds_of; by destruct arg).
  split.
  - assert (forall p, (let '(files, out) := drive (run distance) [] p in
              (files, rows ← out; Ok (Finished0 rows))) <> ([], Ok (@Refused2 R))) as Hgo.
    { intros p. destruct (drive _ _ p) as [files [r|x]]; cbn; congruence. }
    destruct okc, absent; cbn [negb andb].
    1-3: split; [intros H; by destruct (Hgo _ H)|intros [H1 H2]; try done; by destruct H2; apply Ha].
    split; [|done]. intros _. split; [done|]. intros E%Ha. done.
  - intros Hok. assert (negb okc && negb absent = false) as ->.
    { destruct Hok as [->|E%Ha]; [done|]. rewrite E. by destruct okc. }
    split.
    + intros rows Hr. destruct (drive_ok (run distance) [] _ _ Hr) as (files & -> & Hl & _). cbn. auto.
    + intros p s c q rows x Hp Hr Hx. rewrite Hp.
      destruct (drive_raises (run distance) [] p s c q rows x Hr Hx) as (files & -> & Hl & He). cbn.
      split; [done|]. destruct p; [by apply He|by apply Hl].
Qed.

Lemma dissociation_main_spec_witness :
  let cls := JDict [("replicationConfig", JDict [("factor", JNum 3)]);
                    ("shardingConfig", JDict [("actualCount", JNum 1)]);
                    ("vectorIndexConfig", JDict [("distance", JStr "cosine")])]%string in
  let e := mkStart (HAnswer 200 (RawJson cls)) (HAnswer 200 (RawJson cls)) (HAnswer 200 RawEmpty) in
  last (dissociation_main false [7%Z] e (fun _ s c => if c then Raise ValueError else Ok (s, c))).1 = Some [(7%Z, false)].
Proof.
  intros cls e.
  destruct (dissociation_main_spec [7%Z] e (fun _ s c => if c then Raise ValueError else Ok (s, c)) true
              (Some (mkActual (JNum 3) JNull (JNum 1))) "cosine" JNull eq_refl eq_refl eq_refl) as [_ H].
  destruct (H (or_introl eq_refl)) as [_ G].
  apply (G [(7%Z, false)] 7%Z true [] [(7%Z, false)] ValueError); reflexivity.
Defined.

(** On a clean cluster the startup check passes, and every node that answers lets the runs
    begin, shard or no shard. *)
Lemma clean_cluster_runs {R} arg (run : string -> Z -> bool -> result R) :
  let e := mkStart (HError 404 RawEmpty) (HError 404 RawEmpty) (HAnswer 200 RawEmpty) in
  (dissociation_main false arg e run).1 = (drive (run "cosine"%string) [] (run_plan (seeds_of arg))).1.
Proof. cbn. by destruct (drive _ _ _). Qed.
