(* ===== verification/DissociationAnalysis.v ===== *)
(** * Analysing the dissociation experiment

    [research/weaviate_dissociation/analyze_dissociation.py]: the drift of the control, the
    comparison paired by seed, the resolution of the instrument, the unpaired test and the
    registered primary metric. Records are those that [Dissociation.one_run] returns. *)

From stdpp Require Import base list strings sorting.
From Stdlib Require Import QArith Qminmax Qabs Lqa ZArith Lia.
From S2P Require Import Prelude PyFloat Metrics Analyze Aggregate Detector Dissociation DissociationDriver.

Local Open Scope nat_scope.

Definition StatisticsError : exn := OtherError "StatisticsError".

(** A record of the file. [ar_k] is the number of neighbours recorded with the snapshot. *)
Record arow := mkARow {
  ar_seed : Z; ar_chaos : bool; ar_aborted : bool;
  ar_before : option snapshot; ar_after : option snapshot; ar_k : option nat;
  ar_end : option Q; ar_censored : option censoring }.

Definition arow_of (seed : Z) (chaos : bool) (r : run_rec) : arow :=
  mkARow seed chaos (bool_decide (is_Some (rr_aborted r))) (rr_before r) (rr_after r)
    (if rr_before r then Some K else None) (rr_completeness_end r) (rc_censored <$> rr_recovery r).

(** [ir(rec, when)] *)
Definition ir (s : option snapshot) : option Q := s ≫= sn_recall.

(** [ir(r, "after") - ir(r, "before")] *)
Definition delta (r : arow) : result Q :=
  match ir (ar_after r), ir (ar_before r) with
  | Some a, Some b => Ok (a - b)%Q
  | _, _ => Raise TypeError
  end.

(** [mannwhitney_exact] *)
Definition smaller_tail (n12 u : Q) : Q := qmin2 u (n12 - u).
Definition mannwhitney_exact (a b : list Q) : Q :=
  let n12 := Qn (length a * length b) in
  let all := splits (length a) (a ++ b) in
  qratio (length (List.filter (fun s => Qle_bool (smaller_tail n12 (u_stat s.1 s.2)) (smaller_tail n12 (u_stat a b))) all))
         (length all).

(** ** [main] *)

Definition by_seed (rows : list arow) : list arow := sorted (fun x y => Z.leb (ar_seed x) (ar_seed y)) rows.

(** [{r["seed"]: f(r) for r in base}] *)
Definition seed_dict (base : list arow) : list (Z * arow) :=
  foldl (fun d r => dset (ar_seed r) r d) [] base.

(** [statistics.mean] *)
Definition py_mean (xs : list Q) : result Q :=
  match xs with [] => Raise StatisticsError | _ => Ok (np_mean xs) end.

Definition abs_max (xs : list Q) : result Q :=
  match xs with [] => Raise ValueError | x :: l => Ok (Qmax_list (Qabs x) (Qabs <$> l)) end.

(** The difference of one chaos run from its control, and whether the two hold as much. *)
Definition pair_of (d : list (Z * arow)) (r : arow) : result (option (Q * bool)) :=
  match dget (ar_seed r) d with
  | None => Ok None
  | Some b =>
      db ← delta b;
      dc ← delta r;
      Ok (Some (dc - db, bool_decide (sn_held <$> ar_after b = sn_held <$> ar_after r)))%Q
  end.

Definition matched_diffs (pairs : list (option (Q * bool))) : list Q :=
  omap (fun p => match p with Some (x, true) => Some x | _ => None end) pairs.

(** [bound], with the step it is built from. *)
Definition resolution (b0 : arow) (paired : list Q) : result (option (Q * Q)) :=
  match ar_before b0, paired with
  | Some s, x :: xs =>
      if Nat.eqb (sn_queries s) 0 then Ok None
      else
        let items := sn_queries s * default 10 (ar_k b0) in
        if Nat.eqb items 0 then Raise ZeroDivisionError
        else
          let step := (1 / Qn items)%Q in
          Ok (Some (step, Qmax (2 * step) (Qmax_list (Qabs x) (Qabs <$> xs)) + step))%Q
  | _, _ => Ok None
  end.

Definition healed (r : arow) : bool := match ar_end r with Some q => Qeq_bool q 1 | None => false end.
Definition partial_repair (r : arow) : bool := match ar_end r with Some q => negb (Qeq_bool q 1) | None => false end.

(** One line of the primary metric: [{ref:+.3f}] does not format [None]. *)
Definition primary (d : list (Z * arow)) (r : arow) : result bool :=
  dc ← delta r;
  match dget (ar_seed r) d with
  | None => Raise TypeError
  | Some b => db ← delta b; Ok (healed r && Qltb dc db)
  end.

Record diss_report := mkDissReport {
  dp_excluded : nat;
  dp_drift : Q;
  dp_paired : list Q;
  dp_worse : list Q;
  dp_identical : nat;
  dp_resolution : option (Q * Q);
  dp_unmatched : nat;
  dp_means : Q * Q;
  dp_p : Q;
  dp_hits : nat;
  dp_exploratory : option (Q * list Q);     (* the mean of the full repairs, the partial ones *)
}.

Definition dissociation_report (all : list arow) : result diss_report :=
  let rows := List.filter (fun r => negb (ar_aborted r)) all in
  let base := List.filter (fun r => negb (ar_chaos r)) rows in
  let chaos := List.filter ar_chaos rows in
  drift ← rmapM delta (by_seed base);
  worst ← abs_max drift;
  _ ← rmapM delta (by_seed chaos);
  let d := seed_dict base in
  pairs ← rmapM (pair_of d) (by_seed chaos);
  let paired := matched_diffs pairs in
  res ← (match base with b0 :: _ => resolution b0 paired | [] => Ok None end);
  mb ← py_mean (omap (ir ∘ ar_after) base);
  mc ← py_mean (omap (ir ∘ ar_after) chaos);
  let p := mannwhitney_exact (omap (ir ∘ ar_after) base) (omap (ir ∘ ar_after) chaos) in
  hits ← rmapM (primary d) (by_seed chaos);
  expl ← (match List.filter partial_repair chaos with
          | [] => Ok None
          | part =>
              full ← rmapM delta (List.filter healed chaos);
              m ← py_mean full;
              ds ← rmapM delta part;
              Ok (Some (m, ds))
          end);
  Ok (mkDissReport (length all - length rows) worst paired (List.filter (fun x => Qltb x 0) paired)
        (length (List.filter (fun x => Qeq_bool x 0) paired)) res (length chaos - length paired)
        (mb, mc) p (length (List.filter id hits)) expl).

(** * Properties *)

(** ** The test *)

(** The comparison without a tolerance selects the same splits as the one with 1e-9. *)
Lemma exact_is_as_extreme a b s :
  let n := Qn (length a * length b) in
  Qle_bool (smaller_tail n (u_stat s.1 s.2)) (smaller_tail n (u_stat a b)) =
  as_extreme n (smaller_tail n (u_stat a b)) s.
Proof.
  intros n. apply eq_true_iff_eq. unfold as_extreme, smaller_tail, n. rewrite !Qle_bool_iff, !qmin2_dev.
  transitivity (Z.abs (u2 a b - Z.of_nat (length a * length b)) <= Z.abs (u2 s.1 s.2 - Z.of_nat (length a * length b)))%Z.
  - rewrite <- (half_le _ _ 0) by lra. split; intros; lra.
  - rewrite <- (half_le _ _ (1 # 1000000000)) by lra. split; intros; lra.
Qed.

Lemma mannwhitney_is_det shuffled resamples a b :
  0 < length a -> 0 < length b -> (comb (length a + length b) (length a) <= EXACT_LIMIT)%N ->
  det_mann_whitney shuffled resamples a b = (fin (u_stat a b), fin (mannwhitney_exact a b), MwExact).
Proof.
  intros Ha Hb Hc. unfold det_mann_whitney, mannwhitney_exact.
  destruct (Nat.eqb_spec (length a) 0), (Nat.eqb_spec (length b) 0); try lia. cbn [orb].
  rewrite (proj2 (N.leb_le _ _) Hc). by rewrite (filter_ext_length _ _ _ (exact_is_as_extreme a b)).
Qed.

(** The third Mann-Whitney implementation agrees with the other two: with the detector's
    wherever that one enumerates, and with the aggregation's on up to twenty values. *)
Theorem mannwhitney_exact_agree tail shuffled resamples a b :
  0 < length a -> 0 < length b ->
  ((comb (length a + length b) (length a) <= EXACT_LIMIT)%N ->
   det_mann_whitney shuffled resamples a b = (fin (u_stat a b), fin (mannwhitney_exact a b), MwExact)) /\
  (length a + length b <= 20 ->
   mann_whitney tail (fin <$> a) (fin <$> b) = (fin (u_stat a b), fin (mannwhitney_exact a b))).
Proof.
  intros Ha Hb. split; [by apply mannwhitney_is_det|]. intros Hn.
  pose proof (det_mann_whitney_agree tail shuffled resamples a b Ha Hb Hn) as H.
  rewrite mannwhitney_is_det in H by (try done; apply comb_small; lia). by injection H as ->.
Qed.

Lemma mannwhitney_exact_agree_witness :
  mann_whitney (fun _ _ _ => nan) [fin (3 # 4); fin (1 # 2)] [fin (1 # 4); fin (1 # 2)] =
  (fin (u_stat [3 # 4; 1 # 2] [1 # 4; 1 # 2]), fin (mannwhitney_exact [3 # 4; 1 # 2] [1 # 4; 1 # 2])).
Proof.
  apply (mannwhitney_exact_agree (fun _ _ _ => nan) (fun _ => []) 0 [3 # 4; 1 # 2]%Q [1 # 4; 1 # 2]%Q); simpl; lia.
Defined.

(** ** When the analysis returns *)

Definition measured (r : arow) : Prop := is_Some (ir (ar_after r)) /\ is_Some (ir (ar_before r)).

Lemma delta_Ok r : measured r <-> exists q, delta r = Ok q.
Proof.
  unfold measured, delta. destruct (ir (ar_after r)), (ir (ar_before r)); split; try naive_solver;
    intros [[? [=]] [? [=]]].
Qed.

Lemma rmapM_iff {A B} (f : A -> result B) l :
  (exists ys, rmapM f l = Ok ys) <-> Forall (fun x => exists y, f x = Ok y) l.
Proof.
  split.
  - intros [ys H]. apply rmapM_Ok in H. clear -H. induction H; constructor; eauto.
  - induction 1 as [|x l [y Hy] _ [ys IH]]; [by exists []|]. cbn. rewrite Hy. cbn. rewrite IH. by eexists.
Qed.

Lemma rmapM_delta rows : (exists ys, rmapM delta (by_seed rows) = Ok ys) <-> Forall measured rows.
Proof.
  rewrite rmapM_iff, !Forall_forall. unfold by_seed. setoid_rewrite elem_of_sorted. by setoid_rewrite delta_Ok.
Qed.

Lemma seed_dict_get base s :
  dget s (seed_dict base) = last (List.filter (fun r => Z.eqb (ar_seed r) s) base).
Proof.
  unfold seed_dict. induction base as [|r base IH] using rev_ind; [done|].
  rewrite foldl_app, List.filter_app. cbn [foldl List.filter]. rewrite dget_dset, IH.
  destruct (decide (s = ar_seed r)) as [->|Hne].
  - by rewrite Z.eqb_refl, last_snoc.
  - destruct (Z.eqb_spec (ar_seed r) s); [congruence|]. by rewrite app_nil_r.
Qed.

Lemma seed_dict_elem base s b : dget s (seed_dict base) = Some b -> b ∈ base /\ ar_seed b = s.
Proof.
  rewrite seed_dict_get. intros H%last_Some_elem_of. apply elem_of_bfilter in H as [? ?]. by breflect.
Qed.

Lemma seed_dict_total base s : (exists b, b ∈ base /\ ar_seed b = s) <-> is_Some (dget s (seed_dict base)).
Proof.
  split.
  - intros (b & Hb & <-). rewrite seed_dict_get. apply last_is_Some. intros E.
    assert (b ∈ List.filter (fun r => Z.eqb (ar_seed r) (ar_seed b)) base) as H
      by (apply elem_of_bfilter; by rewrite Z.eqb_refl).
    rewrite E in H. by apply not_elem_of_nil in H.
  - intros [b Hb]. exists b. by apply seed_dict_elem.
Qed.

Section Report.
Context (all : list arow).
Let rows := List.filter (fun r => negb (ar_aborted r)) all.
Let base := List.filter (fun r => negb (ar_chaos r)) rows.
Let chaos := List.filter ar_chaos rows.

(** Both arms, a recall before and after everywhere, a control for every chaos run, and not
    only partial repairs. *)
Definition analysable : Prop :=
  base <> [] /\ chaos <> [] /\ Forall measured rows /\
  (forall r, r ∈ chaos -> exists b, b ∈ base /\ ar_seed b = ar_seed r) /\
  ((exists r, r ∈ chaos /\ partial_repair r = true) -> exists r, r ∈ chaos /\ healed r = true).

Lemma base_or_chaos r : r ∈ rows <-> r ∈ base \/ r ∈ chaos.
Proof. unfold base, chaos. rewrite !elem_of_bfilter. destruct (ar_chaos r); naive_solver. Qed.

Lemma omap_after l : l <> [] -> Forall measured l -> exists x xs, omap (ir ∘ ar_after) l = x :: xs.
Proof.
  intros Hne H. destruct H as [|r l [[q Hq] _] _]; [done|]. cbn. rewrite Hq. eauto.
Qed.

Lemma rmapM_delta_sub l : Forall measured rows -> (forall r, r ∈ l -> r ∈ rows) -> exists ys, rmapM delta l = Ok ys.
Proof.
  intros H Hs. apply rmapM_iff, Forall_forall. intros r Hr. apply delta_Ok. rewrite Forall_forall in H. auto.
Qed.

Lemma rmapM_nil_inv {A B} (f : A -> result B) l : rmapM f l = Ok [] -> l = [].
Proof. intros H%rmapM_Ok. by inversion H. Qed.

Lemma paired_total : Forall measured rows -> 
  exists ps, rmapM (pair_of (seed_dict base)) (by_seed chaos) = Ok ps.
Proof.
  intros H. rewrite Forall_forall in H. apply rmapM_iff, Forall_forall. intros r Hr%elem_of_sorted.
  unfold pair_of. destruct (dget _ _) as [b|] eqn:E; [|eauto]. apply seed_dict_elem in E as [Hb _].
  destruct (proj1 (delta_Ok b)) as [db ->]; [apply H, base_or_chaos; auto|].
  destruct (proj1 (delta_Ok r)) as [dc ->]; [apply H, base_or_chaos; auto|]. cbn. eauto.
Qed.

Lemma resolution_total b0 paired : ar_k b0 <> Some 0 -> exists r, resolution b0 paired = Ok r.
Proof.
  intros Hk. unfold resolution. destruct (ar_before b0) as [s|]; [|eauto]. destruct paired as [|x xs]; [eauto|].
  destruct (Nat.eqb (sn_queries s) 0) eqn:E; [eauto|]. breflect.
  destruct (Nat.eqb _ 0) eqn:E2; [|eauto]. breflect. destruct (ar_k b0) as [[|k]|]; cbn in E2; [done|lia|lia].
Qed.

Lemma report_total : Forall (fun r => ar_k r <> Some 0) all -> analysable -> exists rep, dissociation_report all = Ok rep.
Proof.
  intros Hk (Hb & Hc & Hm & Hs & Hp). unfold dissociation_report. fold rows. fold base. fold chaos.
  assert (Forall measured base /\ Forall measured chaos) as [Hmb Hmc].
  { rewrite !Forall_forall. rewrite Forall_forall in Hm. split; intros r Hr; apply Hm, base_or_chaos; auto. }
  destruct (proj2 (rmapM_delta base) Hmb) as [drift Hd]. rewrite Hd. cbn [mbind result_bind].
  destruct drift as [|d0 drift]; [apply rmapM_nil_inv in Hd; by apply sorted_nil in Hd|]. cbn [abs_max].
  destruct (proj2 (rmapM_delta chaos) Hmc) as [ds ->]. cbn [mbind result_bind].
  destruct (paired_total Hm) as [ps ->]. cbn [mbind result_bind].
  assert (exists res, match base with b0 :: _ => resolution b0 (matched_diffs ps) | [] => Ok None end = Ok res) as [res ->].
  { destruct base as [|b0 base'] eqn:Eb; [done|]. apply resolution_total. rewrite Forall_forall in Hk. apply Hk.
    assert (b0 ∈ base) as H by (rewrite Eb; left).
    unfold base, rows in H. rewrite !elem_of_bfilter in H. tauto. }
  destruct (omap_after base Hb Hmb) as (x & xs & ->). destruct (omap_after chaos Hc Hmc) as (y & ys & ->).
  cbn [py_mean mbind result_bind].
  assert (exists hits, rmapM (primary (seed_dict base)) (by_seed chaos) = Ok hits) as [hits ->].
  { apply rmapM_iff, Forall_forall. intros r Hr%elem_of_sorted. unfold primary. rewrite Forall_forall in Hmb, Hmc.
    destruct (proj1 (delta_Ok r)) as [dc ->]; [auto|]. cbn.
    destruct (proj1 (seed_dict_total base (ar_seed r)) (Hs r Hr)) as [b E]. rewrite E. apply seed_dict_elem in E as [Hbb _].
    destruct (proj1 (delta_Ok b)) as [db ->]; [auto|]. cbn. eauto. }
  cbn [mbind result_bind].
  destruct (List.filter partial_repair chaos) as [|r part] eqn:Ep; [cbn; eauto|].
  destruct Hp as (f & Hf & Hh).
  { exists r. apply elem_of_bfilter. rewrite Ep. left. }
  assert (f ∈ List.filter healed chaos) as Hfin by (by apply elem_of_bfilter).
  destruct (rmapM_delta_sub (List.filter healed chaos) Hm) as [fs Hfs].
  { intros z [Hz _]%elem_of_bfilter. apply base_or_chaos. auto. }
  rewrite Hfs. cbn [mbind result_bind]. destruct fs as [|f0 fs].
  { apply rmapM_nil_inv in Hfs. rewrite Hfs in Hfin. by apply not_elem_of_nil in Hfin. }
  cbn [py_mean mbind result_bind].
  destruct (rmapM_delta_sub (r :: part) Hm) as [gs ->]; [|cbn; eauto].
  intros z Hz. rewrite <- Ep in Hz. apply elem_of_bfilter in Hz as [Hz _]. apply base_or_chaos. auto.
Qed.

Lemma report_needs rep : dissociation_report all = Ok rep -> analysable.
Proof.
  unfold dissociation_report. fold rows. fold base. fold chaos. intros H. bind_inv H.
  match goal with Hd : rmapM delta (by_seed base) = Ok ?l, Ha : abs_max ?l = Ok _ |- _ =>
    pose proof (proj1 (rmapM_delta base) (ex_intro _ _ Hd)) as Hmb;
    assert (base <> []) as Hb by (intros E; rewrite E in Hd; cbn in Hd; injection Hd as <-; discriminate Ha) end.
  match goal with Hd : rmapM delta (by_seed chaos) = Ok ?l |- _ =>
    pose proof (proj1 (rmapM_delta chaos) (ex_intro _ _ Hd)) as Hmc end.
  split; [done|]. split; [intros E; match goal with Hp : py_mean (omap _ chaos) = Ok _ |- _ => rewrite E in Hp; done end|].
  split; [|split].
  - rewrite Forall_forall in *. intros r [Hr|Hr]%base_or_chaos; auto.
  - intros r Hr. apply seed_dict_total.
    match goal with Hp : rmapM (primary _) _ = Ok _ |- _ => pose proof (proj1 (rmapM_iff _ _) (ex_intro _ _ Hp)) as Hall end.
    rewrite Forall_forall in Hall. destruct (Hall r) as [b Hbr]; [by apply elem_of_sorted|].
    unfold primary in Hbr. bind_inv Hbr. destruct (dget (ar_seed r) (seed_dict base)); [done|discriminate].
  - intros (r & Hr & Hpr).
    destruct (List.filter partial_repair chaos) as [|p0 part] eqn:Ep.
    { assert (r ∈ List.filter partial_repair chaos) as Hin by (by apply elem_of_bfilter). rewrite Ep in Hin. by apply not_elem_of_nil in Hin. }
    match goal with He : (rmapM delta (List.filter healed chaos) ≫= _) = Ok _ |- _ => bind_inv He end.
    destruct (List.filter healed chaos) as [|f fs] eqn:Ef.
    { match goal with Hx : rmapM delta [] = Ok ?l, Hy : py_mean ?l = Ok _ |- _ => injection Hx as <-; discriminate Hy end. }
    exists f. apply elem_of_bfilter. rewrite Ef. left.
Qed.
End Report.

(** C33. When the analysis of the dissociation returns, exactly: both arms have a run that was
    not aborted, every run that was not aborted has its recall before and after, every chaos
    run has a control of its seed, and if some victim was partly repaired another one was
    repaired completely. In every other case it raises. *)
Theorem dissociation_report_iff all :
  Forall (fun r => ar_k r <> Some 0) all ->
  (exists rep, dissociation_report all = Ok rep) <-> analysable all.
Proof. intros Hk. split; [intros [rep H]; by eapply report_needs|by apply report_total]. Qed.

Definition demo_row (seed : Z) (chaos : bool) (b a : Q) (held : nat) (e : option Q) : arow :=
  mkARow seed chaos false (Some (mkSnap (Some b) 50 20 "cosine")) (Some (mkSnap (Some a) held 20 "cosine")) (Some 10) e None.

Lemma dissociation_report_iff_witness :
  exists rep, dissociation_report [demo_row 1 false 1 (9 # 10) 100 None; demo_row 1 true 1 (8 # 10) 100 (Some 1%Q)] = Ok rep.
Proof.
  apply (dissociation_report_iff [demo_row 1 false 1 (9 # 10) 100 None; demo_row 1 true 1 (8 # 10) 100 (Some 1%Q)]).
  - repeat constructor; done.
  - split_and!; [done|done|repeat constructor; by eexists| |].
    + cbn. intros r ->%list_elem_of_singleton. exists (demo_row 1 false 1 (9 # 10) 100 None). split; [left|done].
    + cbn. intros (r & ->%list_elem_of_singleton & H). done.
Defined.

(** ** The analysis of what the driver wrote *)

Lemma driver_row (run : Z -> bool -> result run_rec) plan rows :
  rmapM (fun sc => r ← run sc.1 sc.2; Ok (arow_of sc.1 sc.2 r)) plan = Ok rows ->
  (forall r, r ∈ rows -> (ar_seed r, ar_chaos r) ∈ plan /\ ar_k r <> Some 0) /\
  (forall s c, (s, c) ∈ plan -> exists r, r ∈ rows /\ ar_seed r = s /\ ar_chaos r = c).
Proof.
  intros H%rmapM_Ok. induction H as [|[s c] r plan rows Hr _ [IH1 IH2]].
  { split; [intros r Hr|intros s c Hs]; by apply not_elem_of_nil in Hr || apply not_elem_of_nil in Hs. }
  cbn [fst snd] in Hr. destruct (run s c) as [rec|]; [|done]. injection Hr as <-. split.
  - intros r' [->|Hin]%elem_of_cons.
    + split; [left|]. cbn. by destruct (rr_before rec).
    + destruct (IH1 r' Hin) as [? ?]. split; [by right|done].
  - intros s' c' [[= -> ->]|Hin]%elem_of_cons.
    + eexists. split; [left|done].
    + destruct (IH2 s' c' Hin) as (r' & ? & ?). exists r'. split; [by right|done].
Qed.

(** The driver and the analyser fit: whatever [one_run] does, when the driver finishes, no
    run was aborted, each has its recalls, and a partial repair is not alone, the analysis of
    its file returns, and excludes nothing. The pairing never fails, because the driver makes
    the control of every seed. *)
Theorem driver_analysable (run : Z -> bool -> result run_rec) arg rows :
  rmapM (fun sc => r ← run sc.1 sc.2; Ok (arow_of sc.1 sc.2 r)) (run_plan (seeds_of arg)) = Ok rows ->
  Forall (fun r => ar_aborted r = false) rows -> Forall measured rows ->
  ((exists r, r ∈ rows /\ ar_chaos r = true /\ partial_repair r = true) ->
   exists r, r ∈ rows /\ ar_chaos r = true /\ healed r = true) ->
  exists rep, dissociation_report rows = Ok rep /\ dp_excluded rep = 0.
Proof.
  intros Hrun Hab Hm Hp. destruct (driver_row _ _ _ Hrun) as [Hin Hout].
  assert (List.filter (fun r => negb (ar_aborted r)) rows = rows) as Hrows.
  { clear -Hab. induction Hab as [|r rows Hr _ IH]; [done|]. cbn. rewrite Hr. cbn. by f_equal. }
  assert (exists s, s ∈ seeds_of arg) as [s0 Hs0].
  { unfold seeds_of, SEEDS. destruct arg as [|s arg]; eexists; left. }
  destruct (report_total rows) as [rep Hrep].
  - apply Forall_forall. intros r Hr. by apply Hin.
  - unfold analysable. rewrite Hrows. split_and!; [| |done| |].
    + destruct (Hout s0 false) as (r & Hr & _ & Hc); [by apply elem_of_plan|]. intros E.
      assert (r ∈ List.filter (fun r => negb (ar_chaos r)) rows) as H by (apply elem_of_bfilter; by rewrite Hc).
      rewrite E in H. by apply not_elem_of_nil in H.
    + destruct (Hout s0 true) as (r & Hr & _ & Hc); [by apply elem_of_plan|]. intros E.
      assert (r ∈ List.filter ar_chaos rows) as H by (apply elem_of_bfilter; by rewrite Hc).
      rewrite E in H. by apply not_elem_of_nil in H.
    + intros r [Hr Hc]%elem_of_bfilter. destruct (Hin r Hr) as [Hpl%elem_of_plan _].
      destruct (Hout (ar_seed r) false) as (b & Hb & Hs & Hcb); [by apply elem_of_plan|].
      exists b. split; [|done]. apply elem_of_bfilter. by rewrite Hcb.
    + intros (r & [Hr Hc]%elem_of_bfilter & Hpr). destruct Hp as (f & Hf & Hcf & Hh); [eauto|].
      exists f. split; [|done]. by apply elem_of_bfilter.
  - exists rep. split; [done|]. unfold dissociation_report in Hrep. rewrite Hrows in Hrep. bind_inv Hrep.
    injection Hrep as <-. cbn. lia.
Qed.

Lemma driver_analysable_witness :
  let snap q := Some (mkSnap (Some q) 100 20 "cosine") in
  let run (s : Z) (c : bool) := Ok (mkRun None "cosine" (snap 1%Q) (snap (9 # 10)) None (if c then Some 1%Q else None)) in
  exists rep, dissociation_report
    [arow_of 7 false (mkRun None "cosine" (snap 1%Q) (snap (9 # 10)) None None);
     arow_of 7 true (mkRun None "cosine" (snap 1%Q) (snap (9 # 10)) None (Some 1%Q))] = Ok rep /\ dp_excluded rep = 0.
Proof.
  intros snap run. apply (driver_analysable run [7%Z]).
  - reflexivity.
  - repeat constructor.
  - repeat constructor; by eexists.
  - intros _. eexists. split; [right; left|done].
Defined.

(** A run that is not aborted may have no recall after: only the first snapshot is checked,
    and the analysis then raises. *)
Lemma unchecked_after (r : arow) all :
  r ∈ all -> ar_aborted r = false -> ir (ar_after r) = None -> Forall (fun r => ar_k r <> Some 0) all ->
  ~ exists rep, dissociation_report all = Ok rep.
Proof.
  intros Hr Ha Hn _ [rep (_ & _ & Hm & _)%report_needs]. rewrite Forall_forall in Hm.
  destruct (Hm r) as [[q Hq] _]; [apply elem_of_bfilter; by rewrite Ha|]. congruence.
Qed.

(** ** The primary metric *)

Lemma rmapM_filter_count {A} (f : A -> result bool) (g : A -> bool) l bs :
  rmapM f l = Ok bs -> (forall x b, x ∈ l -> f x = Ok b -> b = g x) ->
  length (List.filter id bs) = length (List.filter g l).
Proof.
  intros H%rmapM_Ok. induction H as [|x b l bs Hx _ IH]; intros Hg; [done|]. cbn.
  rewrite <- (Hg x b) by (done || by left).
  assert (length (List.filter id bs) = length (List.filter g l)) as E by (apply IH; intros y c Hy; apply Hg; by right).
  destruct b; cbn; by rewrite E.
Qed.

(** Whether a seed dissociates, from its two recorded deltas. *)
Definition lost_more (d : list (Z * arow)) (r : arow) : bool :=
  match delta r, dget (ar_seed r) d ≫= (fun b => match delta b with Ok q => Some q | _ => None end) with
  | Ok dc, Some db => Qltb dc db
  | _, _ => false
  end.

(** The pairs against the deltas they come from. *)
Lemma paired_counts d l pairs :
  rmapM (pair_of d) l = Ok pairs ->
  length (List.filter (fun x => Qltb x 0) (matched_diffs pairs)) <= length (List.filter (lost_more d) l) /\
  length (matched_diffs pairs) <= length l /\
  (length (matched_diffs pairs) = length l ->
   length (List.filter (fun x => Qltb x 0) (matched_diffs pairs)) = length (List.filter (lost_more d) l)).
Proof.
  intros Hpa%rmapM_Ok. induction Hpa as [|r p l ps Hp _ (IH1 & IH2 & IH3)]; [done|].
  unfold pair_of in Hp. cbn [List.filter].
  destruct (dget (ar_seed r) d) as [b|] eqn:Eb.
  - destruct (delta b) as [y|] eqn:Ey; [|done]. destruct (delta r) as [x|] eqn:Ex; [|done]. injection Hp as <-.
    assert (lost_more d r = Qltb x y) as -> by (unfold lost_more; rewrite Eb; cbn; by rewrite Ex, Ey).
    unfold matched_diffs. cbn [omap list_omap]. fold (matched_diffs ps).
    assert (Qltb (x - y) 0 = Qltb x y) as E by (apply eq_true_iff_eq; rewrite !Qltb_lt; lra).
    destruct (bool_decide _); cbn [List.filter].
    + rewrite E. destruct (Qltb x y); cbn [length]; (split; [lia|]; split; [lia|intros; rewrite IH3; lia]).
    + destruct (Qltb x y); cbn [length]; (split; [lia|]; split; [lia|intros; lia]).
  - assert (lost_more d r = false) as -> by (unfold lost_more; rewrite Eb; by destruct (delta r)).
    injection Hp as <-. unfold matched_diffs. cbn [omap list_omap]. fold (matched_diffs ps).
    cbn [length]. split; [lia|]. split; [lia|intros; lia].
Qed.

(** What the report counts. The hits are exactly the chaos runs whose victim was complete
    at the end and which lost more than the control of their seed; and when every chaos run
    is matched with its control in what it holds, there are at most as many as pairs with a
    negative difference, and as many when every victim was complete. *)
Theorem primary_metric_spec all rep :
  dissociation_report all = Ok rep ->
  let rows := List.filter (fun r => negb (ar_aborted r)) all in
  let d := seed_dict (List.filter (fun r => negb (ar_chaos r)) rows) in
  let chaos := List.filter ar_chaos rows in
  dp_hits rep = length (List.filter (fun r => healed r && lost_more d r) chaos) /\
  length (dp_worse rep) <= length (List.filter (lost_more d) chaos) /\
  (dp_unmatched rep = 0 ->
   length (dp_worse rep) = length (List.filter (lost_more d) chaos) /\ dp_hits rep <= length (dp_worse rep)).
Proof.
  intros H. cbv zeta. set (rows := List.filter _ all). set (base := List.filter (fun r => negb (ar_chaos r)) rows).
  set (d := seed_dict base). set (chaos := List.filter ar_chaos rows).
  unfold dissociation_report in H. fold rows base d chaos in H. bind_inv H. injection H as <-.
  cbn [dp_hits dp_worse dp_unmatched].
  match goal with Hx : rmapM (primary d) _ = Ok ?h |- _ => rename Hx into Hpr; set (hits := h) in * end.
  match goal with Hx : rmapM (pair_of d) _ = Ok ?h |- _ => rename Hx into Hpa; set (pairs := h) in * end.
  assert (length (List.filter id hits) = length (List.filter (fun r => healed r && lost_more d r) chaos)) as Hh.
  { rewrite (rmapM_filter_count _ (fun r => healed r && lost_more d r) _ _ Hpr).
    - apply filter_length_perm, sorted_perm.
    - intros r b _ Hb. unfold primary in Hb. unfold lost_more. bind_inv Hb.
      destruct (dget (ar_seed r) d) as [c|]; [|done]. cbn [mbind option_bind]. bind_inv Hb.
      injection Hb as <-. done. }
  destruct (paired_counts d _ _ Hpa) as (H1 & H2 & H3).
  assert (forall P, length (List.filter P (by_seed chaos)) = length (List.filter P chaos)) as HP
    by (intros P; apply filter_length_perm, sorted_perm).
  rewrite HP in H1, H3. unfold by_seed in H2, H3. rewrite sorted_length in H2, H3.
  split; [done|]. split; [done|]. intros Hun. rewrite Hh, H3 by lia. split; [done|].
  clear. induction chaos as [|r l IH]; [done|]. cbn. destruct (healed r), (lost_more d r); cbn; lia.
Qed.

Lemma primary_metric_spec_witness :
  exists rep, dissociation_report [demo_row 1 false 1 (9 # 10) 100 None; demo_row 1 true 1 (8 # 10) 100 (Some 1%Q)] = Ok rep /\
    dp_hits rep = 1 /\ length (dp_worse rep) = 1.
Proof.
  eexists. split; [vm_compute; reflexivity|].
  match goal with |- dp_hits ?r = _ /\ _ =>
    destruct (primary_metric_spec
      [demo_row 1 false 1 (9 # 10) 100 None; demo_row 1 true 1 (8 # 10) 100 (Some 1%Q)] r) as (H1 & _ & H2);
      [vm_compute; reflexivity|] end.
  destruct (H2 eq_refl) as [H3 _]. rewrite H1, H3. split; reflexivity.
Defined.

(** The metric is announced against the corpus-matched control, but a seed whose two arms
    hold different amounts counts all the same. *)
Lemma unmatched_seed_hits :
  exists rep, dissociation_report [demo_row 1 false 1 (9 # 10) 100 None; demo_row 1 true 1 (8 # 10) 90 (Some 1%Q)] = Ok rep /\
    dp_paired rep = [] /\ dp_hits rep = 1.
Proof. eexists. split; [vm_compute; reflexivity|]. done. Qed.

(** No control run, and the greatest of no drift is asked for. *)
Lemma no_control_raises all :
  Forall (fun r => ar_chaos r = true) all -> dissociation_report all = Raise ValueError.
Proof.
  intros H. unfold dissociation_report.
  assert (List.filter (fun r => negb (ar_chaos r)) (List.filter (fun r => negb (ar_aborted r)) all) = []) as ->; [|done].
  apply bfilter_nil. intros r [Hr _]%elem_of_bfilter. rewrite Forall_forall in H. by rewrite (H r Hr).
Qed.

(** The bound is a step above every difference seen and never below three steps. *)
Lemma resolution_bound b0 paired step bound :
  resolution b0 paired = Ok (Some (step, bound)) ->
  (0 < step)%Q /\ (3 * step <= bound)%Q /\ Forall (fun x => Qabs x + step <= bound)%Q paired.
Proof.
  unfold resolution. destruct (ar_before b0) as [s|]; [|done]. destruct paired as [|x xs]; [done|].
  destruct (Nat.eqb (sn_queries s) 0); [done|]. destruct (Nat.eqb _ 0) eqn:E; [done|]. breflect. intros [= <- <-].
  set (n := sn_queries s * _) in *. assert (0 < Qn n)%Q as Hn by (apply inject_nat_pos; lia).
  assert (0 < 1 / Qn n)%Q as Hs by (apply Qlt_shift_div_l; [done|lra]).
  destruct (Qmax_list_ge (Qabs x) (Qabs <$> xs)) as [H1 H2].
  pose proof (Q.le_max_l (2 * (1 / Qn n)) (Qmax_list (Qabs x) (Qabs <$> xs))) as M1.
  pose proof (Q.le_max_r (2 * (1 / Qn n)) (Qmax_list (Qabs x) (Qabs <$> xs))) as M2.
  split; [done|]. split; [lra|]. constructor; [lra|]. apply Forall_forall. intros y Hy.
  specialize (H2 (Qabs y) (list_elem_of_fmap_2 _ _ _ Hy)). lra.
Qed.
