(* ===== verification/GatedAnalysis.v ===== *)
(** * Conditioning recall on the index

    [research/qdrant_gated_index_recall/analyze_gated.py]: the indexed fraction of a node at
    the time of a sample, the worst replica of each sample round with and without the
    condition on it, the window that is scored and the decision.
    [research/qdrant_index_gate/analyze_gate.py]: how much of a window every node is indexed,
    and how long a restarted node takes to be indexed again.
    [research/qdrant_optimizer_masking/analyze_indexing_lag.py]: recall by whether any node had
    begun to index. Numbers in the files are finite. *)

From stdpp Require Import base list strings sorting.
From Stdlib Require Import QArith Qminmax Qabs Lqa ZArith Lia.
From S2P Require Import Prelude PyFloat Metrics Analyze Aggregate.

Local Open Scope nat_scope.

#[export] Instance Q_eq_dec : EqDecision Q.
Proof. solve_decision. Defined.

(** ** Cells *)

(** A cell of a CSV file: absent, blank, not a number, or a number. *)
Inductive qcell : Type := QMissing | QBlank | QBad | QNum (q : Q).

(** [float(r[k])], [None] when it raises [KeyError] or [ValueError]. *)
Definition num (c : qcell) : option Q := match c with QNum q => Some q | _ => None end.
(** [float(r[k] or 0)] *)
Definition num0 (c : qcell) : option Q :=
  match c with QNum q => Some q | QBlank => Some 0%Q | _ => None end.
(** [int(r[k])] of a cell that holds an integer or not. *)
Definition int_cell (c : option Z) : result Z := match c with Some z => Ok z | None => Raise ValueError end.

(** ** [load_telemetry] *)

Record trow := mkTRow { tr_t : qcell; tr_node : option Z; tr_points : qcell; tr_indexed : qcell }.

(** [min(1.0, indexed / points) if points > 0 else 0.0] *)
Definition frac_of (idx pts : Q) : Q := if Qltb 0 pts then Qmin 1 (idx / pts) else 0.

Definition poll_of (r : trow) : option (Z * (Q * Q)) :=
  p ← num0 (tr_points r);
  f ← (if Qltb 0 p then (fun i => frac_of i p) <$> num0 (tr_indexed r) else Some 0%Q);
  n ← tr_node r;
  t ← num (tr_t r);
  Some (n, (t, f)).

(** Tuples are compared by time and then by fraction. *)
Definition tf_leb (x y : Q * Q) : bool := Qltb x.1 y.1 || (Qeq_bool x.1 y.1 && Qle_bool x.2 y.2).

Definition telemetry : Type := list (Z * list (Q * Q)).
Definition load_telemetry (rows : list trow) : telemetry :=
  (fun nv : Z * list (Q * Q) => (nv.1, sorted tf_leb nv.2)) <$> group_by fst snd (omap poll_of rows).

(** ** [fraction_at] *)

Inductive join_mode : Type := Nearest | Bracket.

(** [bisect.bisect_left] on an ascending list: how many are smaller. *)
Fixpoint bisect_left (ts : list Q) (t : Q) : nat :=
  match ts with
  | [] => 0
  | x :: rest => if Qltb x t then S (bisect_left rest t) else 0
  end.

(** The polls at [i - 1] and [i], those that exist. *)
Definition around (tele : list (Q * Q)) (t : Q) : list (Q * Q) :=
  let i := bisect_left (fst <$> tele) t in
  (match i with 0 => [] | S j => match tele !! j with Some p => [p] | None => [] end end)
  ++ match tele !! i with Some p => [p] | None => [] end.

Definition dist (t : Q) (p : Q * Q) : Q := Qabs (p.1 - t).

Definition fraction_at (join : join_mode) (tele : list (Q * Q)) (t : Q) : option Q :=
  match around tele t with
  | [] => None
  | p :: ps =>
      Some (match join with
            | Bracket => Qmin_list p.2 ps.*2
            | Nearest => (min_by (dist t) p ps).2
            end)
  end.

Definition node_fraction (join : join_mode) (tele : telemetry) (node : Z) (t : Q) : option Q :=
  fraction_at join (default [] (dget node tele)) t.

(** ** [per_round] *)

Record grow := mkGRow { gr_t : qcell; gr_reach : bool; gr_replica : option Z; gr_ir : qcell; gr_compl : qcell }.

(** [lo <= t < hi]; [None] is infinity. *)
Definition in_window (lo : Q) (hi : option Q) (t : Q) : bool :=
  Qle_bool lo t && match hi with Some h => Qltb t h | None => true end.

(** A row that counts: its time, which keys the round, and its recall. *)
Definition scored (window : option (Q * option Q)) (r : grow) : option (Q * Q) :=
  t ← num (gr_t r);
  if match window with Some (lo, hi) => negb (in_window lo hi t) | None => false end then None
  else if negb (gr_reach r) then None
  else v ← num (gr_ir r); Some (Qred t, v).

Definition joined (join : join_mode) (tele : telemetry) (window : option (Q * option Q)) (r : grow)
    : result (option (Q * (Q * option Q))) :=
  match scored window r with
  | None => Ok None
  | Some (t, v) => n ← int_cell (gr_replica r); Ok (Some (t, (v, node_fraction join tele n t)))
  end.

Definition time_leb {A} (x y : Q * A) : bool := Qle_bool x.1 y.1.

Definition min1 (xs : list Q) : Q := match xs with [] => 0 | x :: l => Qmin_list x l end.
Definition max1 (xs : list Q) : Q := match xs with [] => 0 | x :: l => Qmax_list x l end.

(** [f is not None and f >= bar] *)
Definition indexed_enough (bar : Q) (x : Q * option Q) : bool :=
  match x.2 with Some f => Qle_bool bar f | None => false end.
Definition conditioned (bar : Q) (reps : list (Q * option Q)) : list Q :=
  fst <$> List.filter (indexed_enough bar) reps.

(** One round: the worst replica, the worst of those indexed, and whether all are. *)
Definition round_of (bar : Q) (reps : list (Q * option Q)) : Q * option Q * bool :=
  let ok := conditioned bar reps in
  (min1 (fst <$> reps), match ok with [] => None | _ => Some (min1 ok) end,
   Nat.eqb (length ok) (length reps)).

Record rounds := mkRounds { ro_unc : list Q; ro_con : list Q; ro_n : nat; ro_strict : list Q }.

Definition rounds_from (bar : Q) (groups : list (list (Q * option Q))) : rounds :=
  let rs := round_of bar <$> groups in
  mkRounds ((fun r => r.1.1) <$> rs) (omap (fun r => r.1.2) rs) (length groups)
    (omap (fun r : Q * option Q * bool => if r.2 then r.1.2 else None) rs).

Definition round_groups {A} (xs : list (Q * A)) : list (list A) :=
  dvalues (sorted time_leb (group_by fst snd xs)).

Definition per_round (join : join_mode) (tele : telemetry) (bar : Q) (window : option (Q * option Q))
    (rows : list grow) : result rounds :=
  js ← rmapM (joined join tele window) rows;
  Ok (rounds_from bar (round_groups (omap id js))).

(** ** [window_for] *)

(** [x or y] on numbers. *)
Definition q_or (x : option Q) (y : Q) : Q :=
  match x with Some q => if Qeq_bool q 0 then y else q | None => y end.

Record gmeta := mkGMeta {
  gm_gate_closed_rel : option Q; gm_warmup : option Q; gm_chaos_start : option Q; gm_chaos_stop : option Q }.

Definition gate_t0 (m : gmeta) : Q := q_or (gm_gate_closed_rel m) (q_or (gm_warmup m) 0).

Definition window_for (m : gmeta) (c : condition) : Q * option Q :=
  match c, gm_chaos_start m with
  | Baseline, _ | _, None => (gate_t0 m, None)
  | _, Some s => (s, match gm_chaos_stop m with Some e => if Qeq_bool e 0 then None else Some e | None => None end)
  end.

(** ** The decision *)

Record gstats := mkGStats {
  gs_unc : option Q; gs_con : option Q; gs_strict : option Q; gs_rounds : nat; gs_retained : option Q }.

Definition mean_opt (xs : list Q) : option Q := match xs with [] => None | _ => Some (np_mean xs) end.

Definition stats_of (r : rounds) : gstats :=
  mkGStats (mean_opt (ro_unc r)) (mean_opt (ro_con r)) (mean_opt (ro_strict r)) (ro_n r)
    (if Nat.eqb (ro_n r) 0 then None else Some (qratio (length (ro_con r)) (ro_n r))).

(** One metric: [None] with fewer than two values in an arm. *)
Definition compare_key (normal_tail : Q -> nat -> nat -> float) (key : gstats -> option Q) (b c : list gstats)
    : option (float * float) :=
  let xb := omap key b in
  let xc := omap key c in
  if (2 <=? length xb) && (2 <=? length xc) then Some (mann_whitney normal_tail (fin <$> xb) (fin <$> xc)) else None.

Record gdecision := mkGDecision {
  gd_con : option (float * float); gd_unc : option (float * float); gd_strict : option (float * float);
  gd_under_powered : bool; gd_no_headroom : bool }.

Definition gated_decision (normal_tail : Q -> nat -> nat -> float) (b c : list gstats) : option gdecision :=
  if (2 <=? length b) && (2 <=? length c) then
    let rb := omap gs_retained b in
    let rc := omap gs_retained c in
    let spread := omap gs_con b in
    Some (mkGDecision (compare_key normal_tail gs_con b c) (compare_key normal_tail gs_unc b c)
            (compare_key normal_tail gs_strict b c)
            (match rb, rc with _ :: _, _ :: _ => Qltb (min1 (rb ++ rc)) (1 # 2) | _, _ => false end)
            (match spread with [] => false | _ => Qltb (995 # 1000) (min1 spread) end))
  else None.

(** Run 0: whether the graph is known to be traversed. A recall that is not null is taken
    as a number. *)
Definition scores (xs : list (option qcell)) : result (list Q) :=
  rmapM (fun c => match num c with Some q => Ok q | None => Raise ValueError end) (omap id xs).
Definition graph_traversed (exact hnsw : list (option qcell)) : result bool :=
  ev ← scores exact;
  hv ← scores hnsw;
  Ok (match ev, hv with
      | _ :: _, _ :: _ => Qle_bool (9995 # 10000) (min1 ev) && Qltb (min1 hv) (9995 # 10000)
      | _, _ => false
      end).

(** ** [analyze_gate.py] *)

(** [min_fraction_per_sample] *)
Definition gate_sample (r : trow) : option (Q * Q) :=
  t ← num (tr_t r);
  i ← num0 (tr_indexed r);
  p ← num0 (tr_points r);
  Some (Qred t, frac_of i p).
Definition min_fraction_per_sample (rows : list trow) : list (Q * Q) :=
  sorted tf_leb ((fun tv : Q * list Q => (tv.1, min1 tv.2)) <$> group_by fst snd (omap gate_sample rows)).

(** [window_fraction] *)
Definition window_fraction (samples : list (Q * Q)) (lo : Q) (hi : option Q) (thresh : Q) : option Q * nat :=
  match snd <$> List.filter (fun s => in_window lo hi s.1) samples with
  | [] => (None, 0)
  | inwin => (Some (qratio (length (List.filter (fun f => Qle_bool thresh f) inwin)) (length inwin)), length inwin)
  end.

(** The polls of a node in the order of the file; the fraction is not capped. *)
Definition raw_poll (r : trow) : option (Z * (Q * Q)) :=
  n ← tr_node r;
  t ← num (tr_t r);
  p0 ← num0 (tr_points r);
  if Qltb 0 p0 then i ← num0 (tr_indexed r); Some (n, (t, i / p0)%Q) else Some (n, (t, 0%Q)).

(** An event: the node its target names, if it names one, its time and its outage. *)
Record gevent := mkGEvent { ge_node : option Z; ge_t : Q; ge_down : Q }.

Definition reindex_one (polls : list (Z * list (Q * Q))) (e : gevent) : option (option Q) :=
  n ← ge_node e;
  let t_up := (ge_t e + ge_down e)%Q in
  let later := List.filter (fun p => Qle_bool t_up p.1) (default [] (dget n polls)) in
  Some ((fun p => round_nd 1 (p.1 - t_up)) <$> List.find (fun p => Qle_bool (95 # 100) p.2) later).

Definition reindex_s (rows : list trow) (events : list gevent) : list (option Q) :=
  omap (reindex_one (group_by fst snd (omap raw_poll rows))) events.

(** A gate that never closed. *)
Inductive fail_mode : Type := NeverIndexed | Plateau (q : Q).
Definition gate_fail_mode (min_fraction_at_end : option Q) : fail_mode :=
  let mf := q_or min_fraction_at_end 0 in
  if Qeq_bool mf 0 then NeverIndexed else Plateau mf.

Record gate_row := mkGateRow {
  gt_bar : Q; gt_base : option Q * nat; gt_base_full : option Q; gt_chaos : option Q * nat;
  gt_min_overall : option Q; gt_probe_median : option Q; gt_reindex : option (list (option Q)) }.

(** The run of [analyze_run] that has its metadata and its telemetry: [tol] is that of the
    gate record, absent without one; the events are read for a chaos run. *)
Definition analyze_run (m : gmeta) (chaos : bool) (gate_tol : option (option Q)) (rows : list trow)
    (probe : list qcell) (events : option (list gevent)) : gate_row :=
  let samples := min_fraction_per_sample rows in
  let t0 := gate_t0 m in
  let bar := match gate_tol with Some tol => (1 - q_or tol 0)%Q | None => 95 # 100 end in
  let '(base, full, ch) :=
    match chaos, gm_chaos_start m with
    | true, Some cs =>
        let ce := match gm_chaos_stop m with Some e => if Qeq_bool e 0 then None else Some e | None => None end in
        (window_fraction samples t0 (Some cs) bar, (window_fraction samples t0 (Some cs) 1).1,
         window_fraction samples cs ce (95 # 100))
    | _, _ => (window_fraction samples t0 None bar, (window_fraction samples t0 None 1).1, (None, 0))
    end in
  let ps := omap num probe in
  mkGateRow (round_nd 4 bar) base full ch
    (match samples with [] => None | _ => Some (min1 samples.*2) end)
    (match ps with [] => None | _ => Some (round_nd 3 (np_median ps)) end)
    (if chaos then reindex_s rows <$> events else None).

(** ** [analyze_indexing_lag.py] *)

(** A row of the telemetry: time, node, indexed vectors. *)
Definition lag_telemetry (rows : list (Q * Z * Z)) : list (Q * list (Z * Z)) :=
  foldl (fun d r => let t := Qred r.1.1 in dset t (dset r.1.2 r.2 (default [] (dget t d))) d) [] rows.

Definition tele_times (tele : list (Q * list (Z * Z))) : list Q := sorted Qle_bool (dkeys tele).

Definition indexed_share (counts : list (Z * Z)) : Q :=
  qratio (length (List.filter (fun c => Z.ltb 0 c) (dvalues counts))) (length counts).

Definition nearest_indexed_frac (tele : list (Q * list (Z * Z))) (t : Q) : result Q :=
  match tele_times tele with
  | [] => Raise ValueError
  | x :: xs =>
      let near := min_by (fun tt => Qabs (tt - t)) x xs in
      Ok (indexed_share (default [] (dget near tele)))
  end.

(** A sample: whether it is reachable, its recall unless blank, its time. *)
Definition lag_buckets (tele : list (Q * list (Z * Z))) (samples : list (bool * option Q * Q))
    : result (list Q * list Q) :=
  let used := omap (fun s : bool * option Q * Q => if s.1.1 then (fun v => (v, s.2)) <$> s.1.2 else None) samples in
  fs ← rmapM (fun vt => f ← nearest_indexed_frac tele vt.2; Ok (vt.1, f)) used;
  Ok (fst <$> List.filter (fun x => Qeq_bool x.2 0) fs, fst <$> List.filter (fun x => negb (Qeq_bool x.2 0)) fs).

Definition first_indexed_t (tele : list (Q * list (Z * Z))) : option Q :=
  List.find (fun t => existsb (fun c => Z.ltb 0 c) (dvalues (default [] (dget t tele)))) (tele_times tele).

(** [tele_times[0]] and [tele_times[-1]] are printed last. *)
Definition lag_main (rows : list (Q * Z * Z)) (samples : list (bool * option Q * Q))
    : result (list Q * list Q * option Q * (Q * Q)) :=
  let tele := lag_telemetry rows in
  b ← lag_buckets tele samples;
  match tele_times tele with
  | [] => Raise IndexError
  | x :: xs => Ok (b, first_indexed_t tele, (x, List.last xs x))
  end.

(** * Properties *)

(** ** Joining a sample with the telemetry *)

Lemma tf_leb_total x y : tf_leb x y = true \/ tf_leb y x = true.
Proof.
  unfold tf_leb. destruct (Qltb x.1 y.1) eqn:E1; [by left|]. destruct (Qltb y.1 x.1) eqn:E2; [by right|]. qreflect.
  assert (x.1 == y.1)%Q as E by lra. rewrite (proj2 (Qeq_bool_iff _ _) E). symmetry in E. rewrite (proj2 (Qeq_bool_iff _ _) E).
  cbn. apply Qle_bool_total.
Qed.

Lemma tf_leb_trans x y z : tf_leb x y = true -> tf_leb y z = true -> tf_leb x z = true.
Proof.
  unfold tf_leb. rewrite !orb_true_iff, !andb_true_iff, !Qltb_lt, !Qeq_bool_iff, !Qle_bool_iff.
  intros [H|[H1 H2]] [G|[G1 G2]]; [left; lra|left; lra|left; lra|right; lra].
Qed.

(** The polls of a node are in ascending order of time. *)
Definition ascending (tele : list (Q * Q)) : Prop := StronglySorted Qle (fst <$> tele).

Lemma StronglySorted_fmap_impl {A B} (f : A -> B) (R : A -> A -> Prop) (S : B -> B -> Prop) l :
  (forall x y, R x y -> S (f x) (f y)) -> StronglySorted R l -> StronglySorted S (f <$> l).
Proof.
  intros HRS. induction 1 as [|x l Hs IH Hall]; [constructor|]. rewrite fmap_cons. constructor; [done|].
  apply Forall_fmap. eapply Forall_impl; [exact Hall|]. intros y Hy. by apply HRS.
Qed.

Lemma load_telemetry_ascending rows n : ascending (default [] (dget n (load_telemetry rows))).
Proof.
  unfold load_telemetry, ascending. induction (group_by fst snd (omap poll_of rows)) as [|[k v] d IH]; [constructor|].
  cbn. destruct (decide (n = k)) as [->|]; [|done]. cbn.
  eapply (StronglySorted_fmap_impl fst (le_of tf_leb)); [|apply sorted_StronglySorted; [apply tf_leb_total|apply tf_leb_trans]].
  intros x y. unfold le_of, tf_leb. rewrite orb_true_iff, andb_true_iff, Qltb_lt, Qeq_bool_iff. intros [H|[H _]]; lra.
Qed.

(** Below the bisection point everything is earlier, from it on nothing is. *)
Lemma bisect_left_spec ts t :
  StronglySorted Qle ts ->
  bisect_left ts t <= length ts /\
  forall j x, ts !! j = Some x -> if j <? bisect_left ts t then (x < t)%Q else (t <= x)%Q.
Proof.
  induction 1 as [|y l Hs [IH1 IH2] Hall]; cbn [bisect_left length]; [split; [lia|by intros []]|].
  destruct (Qltb y t) eqn:E; qreflect.
  - split; [lia|]. intros [|j] x Hx; [by injection Hx as <-|]. cbn in Hx. apply (IH2 j x Hx).
  - split; [lia|]. intros [|j] x Hx; cbn in Hx |- *; [by injection Hx as <-|].
    rewrite Forall_forall in Hall. apply list_elem_of_lookup_2, Hall in Hx. lra.
Qed.

Lemma Qabs_lt_dist (t x y : Q) : (x <= y < t)%Q -> (Qabs (y - t) <= Qabs (x - t))%Q.
Proof. intros H. rewrite !Qabs_neg by lra. lra. Qed.
Lemma Qabs_ge_dist (t x y : Q) : (t <= y <= x)%Q -> (Qabs (y - t) <= Qabs (x - t))%Q.
Proof. intros H. rewrite !Qabs_pos by lra. lra. Qed.

Lemma StronglySorted_lookup_le ts i j x y :
  StronglySorted Qle ts -> i <= j -> ts !! i = Some x -> ts !! j = Some y -> (x <= y)%Q.
Proof.
  intros Hs. revert i j. induction Hs as [|a l Hs IH Hall]; intros [|i] [|j] Hij Hi Hj; cbn in *; try done; try lia.
  - injection Hi as ->. injection Hj as ->. lra.
  - injection Hi as ->. rewrite Forall_forall in Hall. by eapply Hall, list_elem_of_lookup_2.
  - eapply (IH i j); [lia|done..].
Qed.

(** The polls around a time are polls of the node, and no other poll is closer than both. *)
Lemma around_spec tele t :
  ascending tele -> tele <> [] ->
  around tele t <> [] /\ (forall p, p ∈ around tele t -> p ∈ tele) /\
  forall q, q ∈ tele -> exists p, p ∈ around tele t /\ (dist t p <= dist t q)%Q.
Proof.
  intros Hs Hne. unfold around. destruct (bisect_left_spec _ t Hs) as [Hle Hb]. rewrite length_fmap in Hle.
  set (i := bisect_left _ t) in *. split; [|split].
  - destruct i as [|j].
    + destruct tele; [done|]. done.
    + destruct (lookup_lt_is_Some_2 tele j) as [p ->]; [lia|]. done.
  - intros p [Hp|Hp]%elem_of_app.
    + destruct i as [|j]; [by apply not_elem_of_nil in Hp|]. destruct (tele !! j) eqn:E; [|by apply not_elem_of_nil in Hp].
      apply list_elem_of_singleton in Hp as ->. by eapply list_elem_of_lookup_2.
    + destruct (tele !! i) eqn:E; [|by apply not_elem_of_nil in Hp].
      apply list_elem_of_singleton in Hp as ->. by eapply list_elem_of_lookup_2.
  - intros q [j Hj]%list_elem_of_lookup. assert ((fst <$> tele) !! j = Some q.1) as Hj1 by (by rewrite list_lookup_fmap, Hj).
    pose proof (Hb j q.1 Hj1) as Hq. destruct (j <? i) eqn:E; breflect.
    + destruct i as [|k]; [lia|]. destruct (lookup_lt_is_Some_2 tele k) as [p Hp]; [lia|].
      exists p. rewrite Hp. split; [by left|]. assert ((fst <$> tele) !! k = Some p.1) as Hk1 by (by rewrite list_lookup_fmap, Hp).
      pose proof (Hb k p.1 Hk1) as Hpt. destruct (k <? S k) eqn:E2; breflect; [|lia].
      apply Qabs_lt_dist. split; [|done]. eapply (StronglySorted_lookup_le _ j k); eauto. lia.
    + destruct (lookup_lt_is_Some_2 tele i) as [p Hp]; [apply lookup_lt_Some in Hj; lia|].
      exists p. rewrite Hp. split; [apply elem_of_app; right; by left|].
      assert ((fst <$> tele) !! i = Some p.1) as Hi1 by (by rewrite list_lookup_fmap, Hp).
      pose proof (Hb i p.1 Hi1) as Hpt. destruct (i <? i) eqn:E2; breflect; [lia|].
      apply Qabs_ge_dist. split; [done|]. by eapply (StronglySorted_lookup_le _ i j).
Qed.

Lemma fraction_at_facts rows n t :
  let tele := default [] (dget n (load_telemetry rows)) in
  match fraction_at Nearest tele t, fraction_at Bracket tele t with
  | Some f, Some g =>
      (exists p, p ∈ tele /\ f = p.2 /\ forall q, q ∈ tele -> (dist t p <= dist t q)%Q) /\
      (g <= f)%Q /\ (exists q, q ∈ tele /\ g == q.2)%Q
  | None, None => tele = []
  | _, _ => False
  end.
Proof.
  cbv zeta. pose proof (load_telemetry_ascending rows n) as Hs.
  set (tele := default [] (dget n (load_telemetry rows))) in *. unfold fraction_at.
  destruct (decide (tele = [])) as [->|Hne]; [done|].
  destruct (around_spec tele t Hs Hne) as (Ha & Hin & Hclose).
  destruct (around tele t) as [|p ps] eqn:E; [done|].
  pose proof (min_by_elem (dist t) p ps) as Hm. split; [|split].
  - exists (min_by (dist t) p ps). split; [by apply Hin|]. split; [done|]. intros q Hq.
    destruct (Hclose q Hq) as (p' & Hp' & Hd). pose proof (min_by_le (dist t) p ps p' Hp'). lra.
  - destruct (Qmin_list_le p.2 ps.*2) as [H1 H2]. apply elem_of_cons in Hm as [->|Hm]; [done|].
    apply H2. by apply list_elem_of_fmap_2.
  - destruct (Qmin_list_elem p.2 ps.*2) as [Hq|(q & Hq & Hq2)].
    + exists p. split; [apply Hin; left|done].
    + apply list_elem_of_fmap in Hq as (r & -> & Hr). exists r. split; [apply Hin; by right|done].
Qed.

(** The join of a sample with the telemetry. For a node that has polls, in the order they
    were loaded: the pre-registered join takes the fraction of a poll than which none of the
    node's polls is closer in time, and the strict join takes a fraction of the node that is
    no greater, so whatever the strict condition keeps, the registered one keeps. *)
Theorem fraction_at_spec rows n t :
  let tele := default [] (dget n (load_telemetry rows)) in
  match fraction_at Nearest tele t, fraction_at Bracket tele t with
  | Some f, Some g =>
      (exists p, p ∈ tele /\ f = p.2 /\ forall q, q ∈ tele -> (dist t p <= dist t q)%Q) /\
      (g <= f)%Q /\ (exists q, q ∈ tele /\ g == q.2)%Q
  | None, None => tele = []
  | _, _ => False
  end.
Proof. apply fraction_at_facts. Qed.

(** ** Conditioning *)

(** [y] is the same replica as [x], judged no more leniently. *)
Definition stricter (bar bar' : Q) (x y : Q * option Q) : Prop :=
  x.1 = y.1 /\ (indexed_enough bar' y = true -> indexed_enough bar x = true).

Lemma min1_le xs x : x ∈ xs -> (min1 xs <= x)%Q.
Proof.
  destruct xs as [|y l]; [by intros ?%not_elem_of_nil|]. cbn. destruct (Qmin_list_le y l) as [H1 H2].
  intros [->|H]%elem_of_cons; [done|by apply H2].
Qed.

Lemma min1_elem xs : xs <> [] -> exists x, x ∈ xs /\ (min1 xs == x)%Q.
Proof.
  destruct xs as [|y l]; [done|]. intros _. cbn. destruct (Qmin_list_elem y l) as [E|(q & Hq & E)].
  - exists y. split; [left|done].
  - exists q. split; [by right|done].
Qed.

Lemma conditioned_stricter bar bar' reps reps' :
  Forall2 (stricter bar bar') reps reps' ->
  reps.*1 = reps'.*1 /\ (forall v, v ∈ conditioned bar' reps' -> v ∈ conditioned bar reps) /\
  length (conditioned bar' reps') <= length (conditioned bar reps) <= length reps /\ length reps = length reps'.
Proof.
  induction 1 as [|[v f] [w g] l l' [E H] _ (IH1 & IH2 & IH3 & IH4)]; [done|]. cbn in E, H. subst w.
  unfold conditioned in *. cbn [List.filter fmap list_fmap fst length].
  rewrite IH1. split; [done|].
  destruct (indexed_enough bar' (v, g)) eqn:E'.
  - rewrite (H eq_refl). cbn [fmap list_fmap fst length].
    split; [intros u [->|Hu]%elem_of_cons; [left|right; auto]|lia].
  - destruct (indexed_enough bar (v, f)); cbn [fmap list_fmap fst length];
      (split; [intros u Hu; try right; auto|lia]).
Qed.

(** What a stricter condition does to one round. *)
Definition round_rel (a b : Q * option Q * bool) : Prop :=
  a.1.1 = b.1.1 /\
  (forall y, b.1.2 = Some y -> exists x, a.1.2 = Some x /\ (x <= y)%Q) /\
  (b.2 = true -> a.2 = true).

Lemma round_of_stricter bar bar' reps reps' :
  Forall2 (stricter bar bar') reps reps' -> round_rel (round_of bar reps) (round_of bar' reps').
Proof.
  intros H. destruct (conditioned_stricter _ _ _ _ H) as (E & Hin & Hlen & Hl). unfold round_of, round_rel. cbn [fst snd].
  split; [by rewrite E|]. split.
  - destruct (conditioned bar' reps') as [|y ys] eqn:E'; [done|]. intros z [= <-].
    destruct (min1_elem (y :: ys)) as (m & Hm & Em); [done|].
    destruct (conditioned bar reps) as [|x xs] eqn:E0; [by apply Hin, not_elem_of_nil in Hm|].
    eexists. split; [done|]. rewrite Em. by apply min1_le, Hin.
  - rewrite !Nat.eqb_eq. lia.
Qed.

Lemma rounds_from_related bar bar' gs gs' :
  Forall2 (Forall2 (stricter bar bar')) gs gs' ->
  let r := rounds_from bar gs in
  let r' := rounds_from bar' gs' in
  ro_n r = ro_n r' /\ ro_unc r = ro_unc r' /\
  length (ro_con r') <= length (ro_con r) /\ length (ro_strict r') <= length (ro_strict r) /\
  Forall (fun y => exists x, x ∈ ro_con r /\ (x <= y)%Q) (ro_con r').
Proof.
  cbv zeta. unfold rounds_from. cbn [ro_n ro_unc ro_con ro_strict].
  induction 1 as [|g g' gs gs' Hg _ (IH1 & IH2 & IH3 & IH4 & IH5)].
  { split_and!; [done..|constructor]. }
  destruct (round_of_stricter _ _ _ _ Hg) as (E & Hc & Hs).
  rewrite !fmap_cons. cbn [length omap list_omap].
  destruct (round_of bar g) as [[u c] s], (round_of bar' g') as [[u' c'] s']. cbn [fst snd] in *. subst u'.
  split; [lia|]. split; [by rewrite IH2|].
  destruct c' as [y|].
  - destruct (Hc y eq_refl) as (x & -> & Hxy).
    assert (Forall (fun y => exists z, z ∈ x :: omap (fun r => r.1.2) (round_of bar <$> gs) /\ (z <= y)%Q)
              (omap (fun r => r.1.2) (round_of bar' <$> gs'))) as HF.
    { eapply Forall_impl; [exact IH5|]. intros w (z & Hz & Hle). exists z. split; [by right|done]. }
    destruct s'; [rewrite (Hs eq_refl)|destruct s]; cbn [length];
      (split; [lia|]; split; [lia|]; constructor; [exists x; split; [left|done]|done]).
  - assert (forall l, Forall (fun y => exists z, z ∈ l /\ (z <= y)%Q) (omap (fun r => r.1.2) (round_of bar' <$> gs')) ->
       forall x, Forall (fun y => exists z, z ∈ x :: l /\ (z <= y)%Q) (omap (fun r => r.1.2) (round_of bar' <$> gs'))) as HF.
    { intros l HF x. eapply Forall_impl; [exact HF|]. intros w (z & Hz & Hle). exists z. split; [by right|done]. }
    destruct c as [x|], s, s'; cbn [length]; (split; [lia|]; split; [lia|auto]).
Qed.

Lemma joined_stricter rows bar bar' w r x y j j' :
  (bar <= bar')%Q -> (j = j' \/ (j = Nearest /\ j' = Bracket)) ->
  joined j (load_telemetry rows) w r = Ok x -> joined j' (load_telemetry rows) w r = Ok y ->
  match x, y with
  | Some a, Some b => a.1 = b.1 /\ stricter bar bar' a.2 b.2
  | None, None => True
  | _, _ => False
  end.
Proof.
  intros Hb Hj. unfold joined. destruct (scored w r) as [[t v]|]; [|by intros [= <-] [= <-]].
  destruct (int_cell (gr_replica r)) as [n|]; [|done]. cbn. intros [= <-] [= <-]. split; [done|]. split; [done|]. cbn.
  unfold indexed_enough. cbn. unfold node_fraction.
  pose proof (fraction_at_facts rows n t) as HF. cbv zeta in HF.
  destruct Hj as [<-|[-> ->]].
  - destruct (fraction_at j _ t); [|done]. rewrite !Qle_bool_iff. lra.
  - destruct (fraction_at Bracket _ t) as [g|]; [|done].
    destruct (fraction_at Nearest _ t) as [f|]; [|done]. destruct HF as (_ & HF & _). rewrite !Qle_bool_iff. lra.
Qed.

(** What conditioning can and cannot do, on the same samples and telemetry. With a higher
    bar, or with the strict join in place of the registered one, the rounds and the
    unconditioned worst replica of each stay the same, no more rounds are retained, no more
    rounds have every replica indexed, and every value that is still reported is at least a
    value that was reported before: leaving replicas out never makes a round look worse. *)
Theorem conditioning_monotone rows samples bar bar' w j j' r r' :
  (bar <= bar')%Q -> (j = j' \/ (j = Nearest /\ j' = Bracket)) ->
  per_round j (load_telemetry rows) bar w samples = Ok r ->
  per_round j' (load_telemetry rows) bar' w samples = Ok r' ->
  ro_n r = ro_n r' /\ ro_unc r = ro_unc r' /\
  length (ro_con r') <= length (ro_con r) /\ length (ro_strict r') <= length (ro_strict r) /\
  Forall (fun y => exists x, x ∈ ro_con r /\ (x <= y)%Q) (ro_con r').
Proof.
  intros Hb Hj H H'. unfold per_round in *. bind_inv H. bind_inv H'. injection H as <-. injection H' as <-.
  rename Heqr0 into H1, Heqr1 into H2. apply rmapM_Ok in H1, H2.
  apply rounds_from_related. unfold round_groups, dvalues.
  assert (Forall2 (fun a b => a.1 = b.1 /\ stricter bar bar' a.2 b.2) (omap id a) (omap id a0)) as HR.
  { clear -Hb Hj H1 H2. revert a0 H2. induction H1 as [|s x l xs Hx _ IH]; intros ys H2; inversion H2 as [|? y ? ys' Hy Hys]; subst.
    - constructor.
    - pose proof (joined_stricter _ _ _ _ _ _ _ _ _ Hb Hj Hx Hy) as HR. specialize (IH _ Hys). cbn.
      destruct x, y; try done; cbn; by constructor. }
  pose proof (group_by_related (stricter bar bar') fst snd fst snd _ _ HR) as HG.
  apply (sorted_related time_leb time_leb) in HG.
  - induction HG as [|x y l l' [_ Hxy] _ IH]; [constructor|by constructor].
  - intros p p' q q' [E _] [E' _]. unfold time_leb. by rewrite E, E'.
Qed.

Definition demo_tele : list trow :=
  [mkTRow (QNum 0) (Some 0%Z) (QNum 100) (QNum 100); mkTRow (QNum 5) (Some 0%Z) (QNum 100) (QNum 40);
   mkTRow (QNum 0) (Some 1%Z) (QNum 100) (QNum 97); mkTRow (QNum 5) (Some 1%Z) (QNum 100) (QNum 100)].
Definition demo_samples : list grow :=
  [mkGRow (QNum 1) true (Some 0%Z) (QNum (7 # 10)) (QNum 1); mkGRow (QNum 1) true (Some 1%Z) (QNum (9 # 10)) (QNum 1)].

Lemma conditioning_monotone_witness :
  exists r r', per_round Nearest (load_telemetry demo_tele) (95 # 100) None demo_samples = Ok r /\
    per_round Bracket (load_telemetry demo_tele) (95 # 100) None demo_samples = Ok r' /\
    ro_unc r = ro_unc r' /\ length (ro_strict r') <= length (ro_strict r) /\ length (ro_strict r) = 1 /\ length (ro_strict r') = 0.
Proof.
  eexists _, _. split; [vm_compute; reflexivity|]. split; [vm_compute; reflexivity|].
  match goal with |- ro_unc ?a = ro_unc ?b /\ _ =>
    destruct (conditioning_monotone demo_tele demo_samples (95 # 100) (95 # 100) None Nearest Bracket a b)
      as (_ & H1 & _ & H2 & _); [decide_now|by right|vm_compute; reflexivity|vm_compute; reflexivity|] end.
  split; [exact H1|]. split; [exact H2|]. split; reflexivity.
Defined.

(** ** The gate *)

Lemma in_window_spec lo hi t :
  in_window lo hi t = true <-> (lo <= t)%Q /\ match hi with Some h => (t < h)%Q | None => True end.
Proof. unfold in_window. rewrite andb_true_iff, Qle_bool_iff. destruct hi; [by rewrite Qltb_lt|naive_solver]. Qed.

Lemma filter_impl_length {A} (p q : A -> bool) l :
  (forall x, q x = true -> p x = true) -> length (List.filter q l) <= length (List.filter p l).
Proof.
  intros H. induction l as [|x l IH]; [done|]. cbn. destruct (q x) eqn:E.
  - rewrite (H x E). cbn. lia.
  - destruct (p x); cbn; lia.
Qed.

(** The share of a window that is indexed: a fraction in [0, 1] of the samples inside it,
    absent exactly when there is none, 1 exactly when all are above the bar, and falling as
    the bar rises. *)
Lemma window_fraction_spec samples lo hi bar bar' :
  (bar <= bar')%Q ->
  match window_fraction samples lo hi bar, window_fraction samples lo hi bar' with
  | (None, n), (None, n') => n = 0 /\ n' = 0 /\ forall s, s ∈ samples -> in_window lo hi s.1 = false
  | (Some q, n), (Some q', n') =>
      n = n' /\ 0 < n /\ (0 <= q' <= q)%Q /\ (q <= 1)%Q /\
      (q == 1 <-> forall s, s ∈ samples -> in_window lo hi s.1 = true -> bar <= s.2)%Q
  | _, _ => False
  end.
Proof.
  intros Hb. unfold window_fraction.
  destruct (snd <$> List.filter (fun s => in_window lo hi s.1) samples) as [|f fs] eqn:E.
  - split; [done|]. split; [done|]. intros s Hs. destruct (in_window lo hi s.1) eqn:Ew; [|done].
    assert (s.2 ∈ snd <$> List.filter (fun s => in_window lo hi s.1) samples) as H
      by (apply list_elem_of_fmap_2, elem_of_bfilter; done).
    rewrite E in H. by apply not_elem_of_nil in H.
  - set (l := f :: fs). assert (0 < length l) as Hl by (unfold l; cbn; lia).
    split; [done|]. split; [done|]. split; [split; [apply qratio_nonneg|]|].
    + apply qratio_mono; [done|]. apply filter_impl_length. intros x. rewrite !Qle_bool_iff. lra.
    + split; [apply qratio_le_1; [done|apply List.filter_length_le]|].
      rewrite qratio_eq_1 by done. split.
      * intros Hall s Hs Hw. assert (s.2 ∈ l) as Hin by (unfold l; rewrite <- E; apply list_elem_of_fmap_2, elem_of_bfilter; done).
        apply Qle_bool_iff. apply list_elem_of_In in Hin.
        apply List.filter_length_forallb, forallb_forall with (x := s.2) in Hall; done.
      * intros Hall. f_equal. apply List.forallb_filter_id, forallb_forall. intros x Hx%list_elem_of_In.
        unfold l in Hx. rewrite <- E in Hx. apply list_elem_of_fmap in Hx as (s & -> & [Hs Hw]%elem_of_bfilter).
        apply Qle_bool_iff. by apply Hall.
Qed.

Lemma find_first {A} (p : A -> bool) l x :
  List.find p l = Some x ->
  exists l1 l2, l = l1 ++ x :: l2 /\ p x = true /\ Forall (fun y => p y = false) l1.
Proof.
  induction l as [|y l IH]; [done|]. cbn. destruct (p y) eqn:E.
  - intros [= ->]. by exists [], l.
  - intros (l1 & l2 & -> & Hx & Hall)%IH. exists (y :: l1), l2. split_and!; [done..|by constructor].
Qed.

(** The re-index time of a restart. It is reported exactly for the events that name a
    node; it is the time from the restart to the first poll of that node, in the order of the
    file, that is no earlier than the restart and at least 95% indexed, to a tenth of a
    second and never negative; and it is absent exactly when no such poll was recorded. *)
Theorem reindex_spec rows e n :
  ge_node e = Some n ->
  let polls := default [] (dget n (group_by fst snd (omap raw_poll rows))) in
  let t_up := (ge_t e + ge_down e)%Q in
  match reindex_one (group_by fst snd (omap raw_poll rows)) e with
  | None => False
  | Some None => forall p, p ∈ polls -> (t_up <= p.1)%Q -> (p.2 < 95 # 100)%Q
  | Some (Some s) =>
      exists l1 p l2, polls = l1 ++ p :: l2 /\ (t_up <= p.1)%Q /\ (95 # 100 <= p.2)%Q /\
        Forall (fun q => t_up <= q.1 -> q.2 < 95 # 100)%Q l1 /\ s = round_nd 1 (p.1 - t_up) /\ (0 <= s)%Q
  end.
Proof.
  intros He. cbv zeta. unfold reindex_one. rewrite He. cbn [mbind option_bind].
  generalize (default [] (dget n (group_by fst snd (omap raw_poll rows)))). intros polls.
  set (t_up := (ge_t e + ge_down e)%Q).
  destruct (List.find _ _) as [p|] eqn:E; cbn.
  - apply find_first in E as (l1 & l2 & Hsp & Hp & Hall).
    assert (p ∈ List.filter (fun p => Qle_bool t_up p.1) polls) as Hin
      by (rewrite Hsp; apply elem_of_app; right; left).
    apply elem_of_bfilter in Hin as [Hin Ht]. apply Qle_bool_iff in Ht, Hp.
    assert (exists m1 m2, polls = m1 ++ p :: m2 /\ Forall (fun q => t_up <= q.1 -> q.2 < 95 # 100)%Q m1) as (m1 & m2 & Hm & HF).
    { clear Hin. revert l1 Hsp Hall. induction polls as [|q polls IH]; intros l1 Hsp Hall; [by destruct l1|].
      cbn in Hsp. destruct (Qle_bool t_up q.1) eqn:Eq.
      - destruct l1 as [|q' l1]; cbn in Hsp.
        + injection Hsp as -> _. exists [], polls. split; [done|constructor].
        + injection Hsp as -> Hsp. apply Forall_cons in Hall as [Hq Hall]. apply Qle_bool_false in Hq.
          destruct (IH l1 Hsp Hall) as (m1 & m2 & -> & HF). exists (q' :: m1), m2. split; [done|]. by constructor.
      - destruct (IH l1 Hsp Hall) as (m1 & m2 & -> & HF). exists (q :: m1), m2. split; [done|]. constructor; [|done].
        apply Qle_bool_false in Eq. lra. }
    exists m1, p, m2. split_and!; try done. apply round_nd_nonneg. lra.
  - intros p Hp Ht. apply List.find_none with (x := p) in E.
    + by apply Qle_bool_false in E.
    + apply list_elem_of_In, elem_of_bfilter. split; [done|]. by apply Qle_bool_iff.
Qed.

Lemma reindex_spec_witness :
  reindex_one (group_by fst snd (omap raw_poll demo_tele)) (mkGEvent (Some 0%Z) 1 2) = Some None.
Proof.
  pose proof (reindex_spec demo_tele (mkGEvent (Some 0%Z) 1 2) 0%Z eq_refl) as H.
  destruct (reindex_one _ _) as [[s|]|] eqn:E; [|reflexivity|destruct H].
  exfalso. vm_compute in E. discriminate E.
Defined.

(** An unscored replica is recorded as a blank, not as null, and run 0's report stops on it. *)
Lemma blank_recall_raises exact hnsw :
  Some QBlank ∈ exact -> exists e, graph_traversed exact hnsw = Raise e.
Proof.
  intros H. unfold graph_traversed, scores.
  destruct (rmapM_Raise (fun c => match num c with Some q => Ok q | None => Raise ValueError end) (omap id exact) QBlank ValueError)
    as [e ->]; [apply list_elem_of_omap; by exists (Some QBlank)|done|by exists e].
Qed.

(** ** The indexing lag *)

(** Every usable sample is in exactly one bucket. *)
Lemma lag_buckets_total tele samples a b :
  lag_buckets tele samples = Ok (a, b) ->
  length a + length b =
  length (omap (fun s : bool * option Q * Q => if s.1.1 then (fun v => (v, s.2)) <$> s.1.2 else None) samples).
Proof.
  unfold lag_buckets. intros H. bind_inv H. injection H as <- <-.
  apply rmapM_Ok, Forall2_length in Heqr. rewrite Heqr, !length_fmap. clear.
  induction a0 as [|x l IH]; [done|]. cbn. destruct (Qeq_bool x.2 0); cbn; lia.
Qed.

(** Without telemetry the script raises, with or without samples. *)
Lemma lag_needs_telemetry samples : exists e, lag_main [] samples = Raise e.
Proof. unfold lag_main. destruct (lag_buckets _ samples); cbn; by eexists. Qed.
