(* ===== verification/HealingAnalysis.v ===== *)
(** * Does recall heal after the last kill?

    [research/qdrant_index_recall_healing/analyze_healing.py]: the worst indexed replica of
    each round after the last kill, in bins of thirty seconds, judged against the baseline of
    the same seed. [research/cross_system_replication/analyze_healing_variance.py]: what the
    recorded kills of a run have in common. The join with the telemetry is that of
    [GatedAnalysis]. *)

From stdpp Require Import base list strings sorting.
From Stdlib Require Import QArith Qminmax Qabs Qround Lqa ZArith Lia.
From S2P Require Import Prelude PyFloat Metrics Analyze Aggregate GatedAnalysis.

Local Open Scope nat_scope.

Definition BIN_S : Q := 30.
Definition LAST_S : Q := 60.

(** ** [rounds_worst] *)

(** A row that counts: its time, recall and completeness. *)
Definition heal_scored (lo : Q) (r : grow) : option (Q * (Q * Q)) :=
  t ← num (gr_t r);
  if negb (in_window lo None t) || negb (gr_reach r) then None
  else
    v ← num (gr_ir r);
    c ← num (gr_compl r);
    Some (Qred t, (v, c)).

Definition heal_joined (tele : telemetry) (lo : Q) (r : grow) : result (option (Q * (Q * Q * option Q))) :=
  match heal_scored lo r with
  | None => Ok None
  | Some (t, vc) => n ← int_cell (gr_replica r); Ok (Some (t, (vc, node_fraction Nearest tele n t)))
  end.

Definition ir_of (x : Q * Q * option Q) : Q * option Q := (x.1.1, x.2).

(** The conditioned rounds (time, worst recall, worst completeness) and all rounds. *)
Definition rounds_worst (tele : telemetry) (bar lo : Q) (rows : list grow)
    : result (list (Q * Q * Q) * list (Q * Q)) :=
  js ← rmapM (heal_joined tele lo) rows;
  let groups := sorted time_leb (group_by fst snd (omap id js)) in
  Ok (omap (fun g => match conditioned bar (ir_of <$> g.2) with
                     | [] => None
                     | ok => Some (g.1, min1 ok, min1 ((fun x => x.1.2) <$> g.2))
                     end) groups,
      (fun g => (g.1, min1 ((fun x => x.1.1) <$> g.2))) <$> groups).

(** ** [analyze] *)

Record hbase := mkHBase { hb_n : nat; hb_n_all : nat; hb_min : option Q; hb_unc_min : option Q; hb_max : option Q }.

Definition base_entry (rw : list (Q * Q * Q)) (unc : list (Q * Q)) : hbase :=
  let vals := (fun x => x.1.2) <$> rw in
  mkHBase (length vals) (length unc)
    (match vals with [] => None | _ => Some (min1 vals) end)
    (match unc with [] => None | _ => Some (min1 unc.*2) end)
    (match vals with [] => None | _ => Some (max1 vals) end).

(** [int((t - t_last) // BIN_S)] *)
Definition bin_of (t_last t : Q) : Z := Qfloor ((t - t_last) / BIN_S).

Definition bins_of (t_last : Q) (xs : list (Q * Q)) : list (Z * list Q) :=
  sorted (fun a b => Z.leb a.1 b.1) (group_by (fun x => bin_of t_last x.1) snd xs).

Record hpost := mkHPost {
  hp_n : nat; hp_n_all : nat; hp_last_mean : Q; hp_last_min : Q; hp_last_compl : Q;
  hp_unc_last : option Q; hp_bin0 : option Q; hp_bins : list (Q * Q * nat); hp_killed : list (Q * Q) }.

Inductive hquiesce : Type :=
| Unmeasured (n_post : nat)
| NoPost
| Post (p : hpost).

Definition kill_leb (x y : Q * Z) : bool := Qltb x.1 y.1 || (Qeq_bool x.1 y.1 && Z.leb x.2 y.2).

(** The killed nodes' indexed fraction, by bin. *)
Definition killed_fracs (tele : telemetry) (t_last : Q) (kills : list (Q * Z)) : list (Q * Q) :=
  let nodes := sorted Z.leb (remove_dups kills.*2) in
  let polls := mjoin ((fun n => List.filter (fun p => Qle_bool t_last p.1) (default [] (dget n tele))) <$> nodes) in
  (fun kv : Z * list Q => (inject_Z kv.1 * BIN_S, round_nd 3 (min1 kv.2))%Q) <$> bins_of t_last polls.

Definition post_entry (tele : telemetry) (t_last : Q) (kills : list (Q * Z)) (rw : list (Q * Q * Q)) (unc : list (Q * Q))
    : hpost :=
  let ts := (fun x => x.1.1) <$> rw in
  let t_max := max1 ts in
  let lst := List.filter (fun x => Qle_bool (t_max - LAST_S) x.1.1) rw in
  let unc_last := snd <$> List.filter (fun x => Qle_bool (t_max - LAST_S) x.1) unc in
  let bin0 := (fun x => x.1.2) <$> List.filter (fun x => Qltb (x.1.1 - t_last) BIN_S) rw in
  mkHPost (length rw) (length unc) (np_mean ((fun x => x.1.2) <$> lst)) (min1 ((fun x => x.1.2) <$> lst))
    (min1 (snd <$> lst)) (mean_opt unc_last) (mean_opt bin0)
    ((fun kv : Z * list Q => (inject_Z kv.1 * BIN_S, np_mean kv.2, length kv.2)%Q) <$> bins_of t_last (fst <$> rw))
    (killed_fracs tele t_last kills).

(** [kills] as recorded, and where the run's window begins and ends. *)
Definition quiesce_entry (tele : telemetry) (bar : Q) (t0 : Q) (chaos_stop : option Q) (events : list (Q * Z))
    (rows : list grow) : result hquiesce :=
  let kills := sorted kill_leb events in
  let t_last := match last kills with Some k => k.1 | None => q_or chaos_stop t0 end in
  ru ← rounds_worst tele bar t_last rows;
  Ok (match kills, fst ru with
      | [], rw => Unmeasured (length rw)
      | _, [] => NoPost
      | _, rw => Post (post_entry tele t_last kills rw (snd ru))
      end).

(** ** [main] *)

(** [t_to]: the start of the first bin from which every mean is at the baseline. *)
Fixpoint t_to_base (bmin : Q) (bm : list (Q * Q * nat)) : option Q :=
  match bm with
  | [] => None
  | (t, m, _) :: rest =>
      if Qle_bool bmin m && forallb (fun b => Qle_bool bmin b.1.2) bm then Some t else t_to_base bmin rest
  end.

Record hverdict := mkHVerdict { hv_healed : bool; hv_t_to : option Q; hv_loss : bool }.

Inductive hline : Type := LUnmeasured | LIncomplete | LJudged (v : hverdict).

Definition judge_seed (b : option hbase) (q : option hquiesce) : result hline :=
  match q with
  | Some (Unmeasured _) => Ok LUnmeasured
  | _ =>
      match b, q with
      | Some b, Some (Post p) =>
          match hb_min b with
          | None => Raise TypeError
          | Some bmin =>
              match hp_bin0 p with
              | None => Raise TypeError
              | Some b0 =>
                  Ok (LJudged (mkHVerdict (Qle_bool bmin (hp_last_mean p)) (t_to_base bmin (hp_bins p)) (Qltb b0 bmin)))
              end
          end
      | _, _ => Ok LIncomplete
      end
  end.

Inductive houtcome : Type := OutcomeAB | OutcomeC | OutcomeNone.

Definition healing_outcome (lines : list hline) : option (nat * nat * houtcome) :=
  let vs := omap (fun l => match l with LJudged v => Some v | _ => None end) lines in
  let judged := length vs in
  let healed := length (List.filter hv_healed vs) in
  if Nat.eqb judged 0 then None
  else Some (healed, judged,
             if 4 <=? healed then OutcomeAB else if 2 <=? judged - healed then OutcomeC else OutcomeNone).

Definition healing_main (per : list (Z * (option hbase * option hquiesce))) : result (option (nat * nat * houtcome)) :=
  ls ← rmapM (fun e : Z * (option hbase * option hquiesce) => judge_seed (fst e.2) (snd e.2))
         (sorted (fun a b => Z.leb a.1 b.1) per);
  Ok (healing_outcome ls).

(** ** [analyze_healing_variance.py] *)

Record vevent := mkVEvent { ve_target : string; ve_t : Q; ve_down : option Q }.

(** The gaps between the recovery of a node and its next kill. *)
Fixpoint gaps_of (es : list vevent) : list Q :=
  match es with
  | a :: ((b :: _) as rest) => (ve_t b - (ve_t a + default 0 (ve_down a)))%Q :: gaps_of rest
  | _ => []
  end.

Definition vevent_leb (a b : vevent) : bool := Qle_bool (ve_t a) (ve_t b).

Definition repeats_of (events : list vevent) : list (string * list vevent) :=
  List.filter (fun g : string * list vevent => 1 <? length g.2) (group_by ve_target id events).

(** [if min_gap is None or gap < min_gap: min_gap = gap] *)
Definition step_min (m : option Q) (g : Q) : option Q :=
  match m with None => Some g | Some x => if Qltb g x then Some g else Some x end.
Definition min_gap (events : list vevent) : option Q :=
  foldl step_min None (mjoin ((fun g : string * list vevent => gaps_of (sorted vevent_leb g.2)) <$> repeats_of events)).

Definition fail_rate (failed attempted : nat) : Q := if Nat.eqb attempted 0 then 0 else qratio failed attempted.

Record vrow := mkVRow { vr_events : nat; vr_repeat : bool; vr_min_gap : option Q; vr_fail_rate : Q }.
Definition variance_row (events : list vevent) (failed attempted : nat) : vrow :=
  mkVRow (length events) (negb (Nat.eqb (length (repeats_of events)) 0)) (min_gap events) (fail_rate failed attempted).

(** * Properties *)

(** ** Bins *)

Lemma dvalues_perm {K V} (d d' : list (K * list V)) : d ≡ₚ d' -> concat (dvalues d) ≡ₚ concat (dvalues d').
Proof.
  unfold dvalues. induction 1 as [|x d d' _ IH|x y d|d1 d2 d3 _ IH1 _ IH2]; cbn; [done|by rewrite IH| |by rewrite IH1].
  rewrite !app_assoc. by rewrite (Permutation_app_comm y.2).
Qed.

(** The bins hold every round once. *)
Lemma bins_of_perm t_last xs : concat (dvalues (bins_of t_last xs)) ≡ₚ xs.*2.
Proof.
  unfold bins_of. rewrite (dvalues_perm _ _ (sorted_perm _ _)). apply group_by_concat.
Qed.

Lemma bin_of_bounds t_last t :
  (t_last + inject_Z (bin_of t_last t) * BIN_S <= t)%Q /\ (t < t_last + inject_Z (bin_of t_last t + 1) * BIN_S)%Q.
Proof.
  unfold bin_of, BIN_S. pose proof (Qfloor_le ((t - t_last) / 30)) as H1. pose proof (Qlt_floor ((t - t_last) / 30)) as H2.
  set (k := Qfloor _) in *. assert (t - t_last == (t - t_last) / 30 * 30)%Q as E by field. split; lra.
Qed.

Lemma length_concat_bins {K V} (d : list (K * list V)) : length (concat (dvalues d)) = sum_list (length <$> dvalues d).
Proof. unfold dvalues. induction d as [|[k v] d IH]; [done|]. cbn. rewrite length_app, IH. done. Qed.

(** ** The time to baseline *)

Lemma t_to_base_Some bmin bm t :
  t_to_base bmin bm = Some t ->
  exists l1 m n l2, bm = l1 ++ (t, m, n) :: l2 /\
    Forall (fun b => bmin <= b.1.2)%Q ((t, m, n) :: l2) /\
    (forall l x, l1 = l ++ [x] -> (x.1.2 < bmin)%Q).
Proof.
  induction bm as [|[[t' m'] n'] bm IH]; [done|]. cbn [t_to_base].
  destruct (Qle_bool bmin m' && forallb _ _) eqn:E.
  - intros [= ->]. apply andb_true_iff in E as [_ E]. exists [], m', n', bm. split; [done|]. split.
    + apply Forall_forall. intros b Hb. rewrite forallb_forall in E. apply Qle_bool_iff, E. by apply list_elem_of_In.
    + intros l x Hl. by destruct l.
  - intros (l1 & m & n & l2 & -> & HF & Hl)%IH. exists ((t', m', n') :: l1), m, n, l2. split; [done|]. split; [done|].
    intros l x Hx. destruct l1 as [|y l1] using rev_ind.
    + destruct l as [|? l]; [|by destruct l]. injection Hx as <-. cbn. apply andb_false_iff in E as [E|E].
      * by apply Qle_bool_false in E.
      * destruct (Qlt_le_dec m' bmin) as [|Hge]; [done|exfalso]. apply not_true_iff_false in E. apply E.
        apply forallb_forall. intros b Hb%list_elem_of_In. apply Qle_bool_iff. apply elem_of_cons in Hb as [->|Hb]; [done|].
        rewrite Forall_forall in HF. by apply HF.
    + clear IHl1. rewrite app_comm_cons in Hx. apply app_inj_tail in Hx as [_ <-]. by apply (Hl l1).
Qed.

Lemma t_to_base_None bmin bm : t_to_base bmin bm = None <-> bm = [] \/ exists l x, bm = l ++ [x] /\ (x.1.2 < bmin)%Q.
Proof.
  induction bm as [|[[t m] n] bm IH]; [naive_solver|]. cbn [t_to_base].
  destruct (Qle_bool bmin m && forallb _ _) eqn:E.
  - split; [done|]. intros [?|(l & x & Hx & Hlt)]; [done|]. apply andb_true_iff in E as [_ E]. rewrite forallb_forall in E.
    assert (x ∈ (t, m, n) :: bm) as Hin by (rewrite Hx; apply elem_of_app; right; left).
    apply list_elem_of_In, E, Qle_bool_iff in Hin. lra.
  - rewrite IH. split.
    + intros [->|(l & x & -> & Hx)].
      * right. exists [], (t, m, n). split; [done|]. cbn. apply andb_false_iff in E as [E|E]; [by apply Qle_bool_false in E|].
        cbn in E. rewrite andb_true_r in E. by apply Qle_bool_false in E.
      * right. by exists ((t, m, n) :: l), x.
    + intros [?|(l & x & Hx & Hlt)]; [done|]. destruct l as [|y l]; cbn in Hx; simplify_eq; [by left|]. right. by exists l, x.
Qed.

(** What is reported of a seed whose baseline has a conditioned round and whose quiesce run
    has one after the last kill. The report raises exactly when none of the latter falls
    within thirty seconds of that kill. The bins hold every conditioned round after the last
    kill once. The reported time is the start of the first bin from which every bin's
    mean is at the baseline's minimum for good, so the bin before it is below; it is absent
    exactly when the last bin is below. *)
Theorem judged_seed_spec tele t_last kills b rw unc bmin :
  rw <> [] -> hb_min b = Some bmin ->
  let p := post_entry tele t_last kills rw unc in
  (forall e, judge_seed (Some b) (Some (Post p)) = Raise e <->
     e = TypeError /\ forall x, x ∈ rw -> (BIN_S <= x.1.1 - t_last)%Q) /\
  sum_list (snd <$> hp_bins p) = length rw /\
  (forall v, judge_seed (Some b) (Some (Post p)) = Ok (LJudged v) ->
     (hv_healed v = true <-> bmin <= hp_last_mean p)%Q /\
     match hv_t_to v with
     | Some t => exists l1 m n l2, hp_bins p = l1 ++ (t, m, n) :: l2 /\
         Forall (fun x => bmin <= x.1.2)%Q ((t, m, n) :: l2) /\ (forall l x, l1 = l ++ [x] -> (x.1.2 < bmin)%Q)
     | None => exists l x, hp_bins p = l ++ [x] /\ (x.1.2 < bmin)%Q
     end).
Proof.
  intros Hne Hb. cbv zeta. set (p := post_entry tele t_last kills rw unc).
  assert (sum_list (snd <$> hp_bins p) = length rw) as Hsum.
  { unfold p, post_entry. cbn [hp_bins]. rewrite <- list_fmap_compose.
    change (snd ∘ _) with (fun kv : Z * list Q => length kv.2). pose proof (bins_of_perm t_last (fst <$> rw)) as HP.
    apply Permutation_length in HP. rewrite length_concat_bins, !length_fmap in HP. unfold dvalues in HP.
    by rewrite <- list_fmap_compose in HP. }
  assert (hp_bin0 p = None <-> forall x, x ∈ rw -> (BIN_S <= x.1.1 - t_last)%Q) as Hb0.
  { unfold p, post_entry. cbn [hp_bin0].
    destruct (List.filter (fun x => Qltb (x.1.1 - t_last) BIN_S) rw) as [|y ys] eqn:E; cbn.
    - split; [|done]. intros _ x Hx. rewrite bfilter_nil in E. specialize (E x Hx). by qreflect.
    - split; [done|]. intros H. assert (y ∈ List.filter (fun x => Qltb (x.1.1 - t_last) BIN_S) rw) as Hy by (rewrite E; left).
      apply elem_of_bfilter in Hy as [Hy Hlt]. qreflect. specialize (H y Hy). lra. }
  clearbody p. cbn [judge_seed]. rewrite Hb. destruct (hp_bin0 p) as [b0|].
  - split; [|split; [done|]].
    + intros e. split; [done|]. intros [_ H]. by apply Hb0 in H.
    + intros v [= <-]. cbn [hv_healed hv_t_to]. split; [apply Qle_bool_iff|].
      destruct (t_to_base bmin (hp_bins p)) as [t|] eqn:E; [by apply t_to_base_Some|].
      apply t_to_base_None in E as [E|E]; [|done]. rewrite E in Hsum. by destruct rw.
  - split; [|split; [done|done]]. intros e. split; [intros [= <-]; split; [done|by apply Hb0]|by intros [-> _]].
Qed.

Definition demo_rw : list (Q * Q * Q) := [(10, 8 # 10, 1); (40, 9 # 10, 1); (70, 95 # 100, 1)]%Q.

Lemma judged_seed_spec_witness :
  let p := post_entry [] 5 [(5%Q, 0%Z)] demo_rw [] in
  sum_list (snd <$> hp_bins p) = 3 /\
  exists v, judge_seed (Some (mkHBase 1 1 (Some (9 # 10)) None None)) (Some (Post p)) = Ok (LJudged v) /\ hv_t_to v = Some 30%Q.
Proof.
  destruct (judged_seed_spec [] 5 [(5%Q, 0%Z)] (mkHBase 1 1 (Some (9 # 10)) None None) demo_rw [] (9 # 10))
    as (_ & Hs & _); [discriminate|reflexivity|].
  split; [exact Hs|]. eexists. split; [vm_compute; reflexivity|]. reflexivity.
Defined.

(** A baseline of which no round has an indexed replica is still there, and comparing with
    its missing minimum raises. *)
Lemma unindexed_baseline_raises rw unc p :
  rw = [] -> judge_seed (Some (base_entry rw unc)) (Some (Post p)) = Raise TypeError.
Proof. by intros ->. Qed.

(** The two readings can differ: healed on the last minute and below baseline in the last
    bin. *)
Lemma healed_but_never :
  let p := post_entry [] 0 [(0%Q, 0%Z)] [(5, 1, 1); (31, 1, 1); (32, 1, 1); (65, 7 # 10, 1)]%Q [] in
  judge_seed (Some (mkHBase 1 1 (Some (9 # 10)) None None)) (Some (Post p)) = Ok (LJudged (mkHVerdict true None false)).
Proof. by vm_compute. Qed.

(** ** The shortest recovery gap *)

Lemma step_min_fold gs m :
  match foldl step_min m gs with
  | None => m = None /\ gs = []
  | Some g => (m = Some g \/ g ∈ gs) /\ (forall x, m = Some x -> g <= x)%Q /\ (forall x, x ∈ gs -> g <= x)%Q
  end.
Proof.
  revert m. induction gs as [|y gs IH]; intros m; cbn [foldl].
  { destruct m as [x|]; [|done]. split; [by left|]. split; [intros z [= ->]; lra|]. by intros z ?%not_elem_of_nil. }
  specialize (IH (step_min m y)). destruct (foldl step_min (step_min m y) gs) as [g|].
  - destruct IH as (H1 & H2 & H3). unfold step_min in *. destruct m as [x|].
    + destruct (Qltb y x) eqn:E; qreflect.
      * specialize (H2 y eq_refl). split; [destruct H1 as [[= ->]|H1]; right; [left|by right]|].
        split; [intros ? [= <-]; lra|]. intros z [->|Hz]%elem_of_cons; [done|auto].
      * specialize (H2 x eq_refl). split; [destruct H1 as [[= ->]|H1]; [by left|right; by right]|].
        split; [intros ? [= <-]; done|]. intros z [->|Hz]%elem_of_cons; [lra|auto].
    + specialize (H2 y eq_refl). split; [destruct H1 as [[= ->]|H1]; right; [left|by right]|].
      split; [done|]. intros z [->|Hz]%elem_of_cons; [done|auto].
  - destruct IH as [IH _]. unfold step_min in IH. destruct m as [x|]; [by destruct (Qltb y x)|done].
Qed.

Lemma gaps_of_nil es : gaps_of es = [] <-> length es <= 1.
Proof. destruct es as [|a [|b es]]; cbn; split; (done || lia). Qed.

(** The gaps of a node that was killed more than once. *)
Lemma gaps_in_repeats events t x :
  x ∈ gaps_of (sorted vevent_leb (filter (fun e => ve_target e = t) events)) <->
  exists g, g ∈ repeats_of events /\ g.1 = t /\ x ∈ gaps_of (sorted vevent_leb g.2).
Proof.
  pose proof (group_by_get ve_target id events t) as Hget. rewrite list_fmap_id in Hget. split.
  - intros Hx. exists (t, filter (fun e => ve_target e = t) events). split; [|done].
    unfold repeats_of. apply elem_of_bfilter. cbn [snd]. split.
    + rewrite <- Hget in Hx |- *. destruct (dget t (group_by ve_target id events)) as [v|] eqn:E; [by apply dget_Some_elem|].
      cbn in Hx. by apply not_elem_of_nil in Hx.
    + apply Nat.ltb_lt. destruct (decide (length (filter (fun e => ve_target e = t) events) <= 1)) as [Hle|]; [|lia].
      assert (gaps_of (sorted vevent_leb (filter (fun e => ve_target e = t) events)) = []) as E
        by (apply gaps_of_nil; by rewrite sorted_length).
      rewrite E in Hx. by apply not_elem_of_nil in Hx.
  - intros ([k v] & [Hin _]%elem_of_bfilter & Hk & Hx). cbn in Hk, Hx. subst k.
    rewrite <- Hget. rewrite (dget_elem t v _ (group_by_NoDup ve_target id events) Hin). done.
Qed.

(** The reported gap is one that occurred between two successive kills of the same node, and
    none is shorter; it is absent exactly when no node was killed twice. *)
Lemma min_gap_spec events :
  match min_gap events with
  | None => forall t, length (filter (fun e => ve_target e = t) events) <= 1
  | Some g =>
      (exists t, g ∈ gaps_of (sorted vevent_leb (filter (fun e => ve_target e = t) events))) /\
      forall t x, x ∈ gaps_of (sorted vevent_leb (filter (fun e => ve_target e = t) events)) -> (g <= x)%Q
  end.
Proof.
  pose proof (gaps_in_repeats events) as Hg.
  unfold min_gap. pose proof (step_min_fold (mjoin ((fun g : string * list vevent => gaps_of (sorted vevent_leb g.2)) <$> repeats_of events)) None) as H.
  assert (forall x, x ∈ mjoin ((fun g : string * list vevent => gaps_of (sorted vevent_leb g.2)) <$> repeats_of events) <->
            exists g, g ∈ repeats_of events /\ x ∈ gaps_of (sorted vevent_leb g.2)) as Hj.
  { intros x. rewrite list_elem_of_join. split.
    - intros (l & Hx & (g & -> & Hin)%list_elem_of_fmap). eauto.
    - intros (g & Hin & Hx). eexists. split; [exact Hx|]. apply list_elem_of_fmap. by exists g. }
  destruct (foldl step_min None _) as [g|].
  - destruct H as ([?|H1] & _ & H3); [done|]. split.
    + apply Hj in H1 as (gr & Hin & Hx). exists gr.1. apply Hg. eauto.
    + intros t x (gr & Hin & _ & Hx)%Hg. apply H3, Hj. eauto.
  - destruct H as [_ H]. intros t. destruct (decide (length (filter (fun e => ve_target e = t) events) <= 1)) as [|Hgt]; [done|exfalso].
    destruct (gaps_of (sorted vevent_leb (filter (fun e => ve_target e = t) events))) as [|x xs] eqn:E.
    { apply gaps_of_nil in E. rewrite sorted_length in E. done. }
    destruct (proj1 (Hg t x)) as (gr & Hin & _ & Hx); [rewrite E; left|].
    assert (x ∈ @nil Q) as Hno by (rewrite <- H; apply Hj; eauto). by apply not_elem_of_nil in Hno.
Qed.
