(* ===== verification/CorrectedStudy.v ===== *)
(** * Damage across kill-spacing conditions

    [research/kill_spacing_corrected/analyze_corrected.py]: the missing ids of the worst
    replica over time, its damage episodes, the mean over the observation window, the
    validity preconditions and the comparisons.
    [research/loo_agreement_nonpinned_queries/compare_conditions.py]: every pair of named
    sweeps against each other. *)

From stdpp Require Import base list strings sorting.
From Stdlib Require Import QArith Qminmax Qabs Lqa ZArith Lia Ascii.
From S2P Require Import Prelude PyFloat Metrics Analyze Aggregate GatedAnalysis.

Local Open Scope nat_scope.

Definition MAX_INTERVAL_S : Q := 4.
Definition MIN_SPIKES_PER_KILL : Q := 2.

(** ** [load] *)

(** A row of the samples, and a row that counts. *)
Record craw := mkCRaw { cw_reach : bool; cw_t : qcell; cw_compl : qcell; cw_intended : qcell }.
Record crow_in := mkCIn { ci_t : Q; ci_compl : Q; ci_intended : Q }.

Definition float_cell (c : qcell) : result Q :=
  match c with QNum q => Ok q | QMissing => Raise KeyError | _ => Raise ValueError end.

(** [None]: unreachable, or with a blank cell. *)
Definition use_row (r : craw) : result (option crow_in) :=
  if negb (cw_reach r) then Ok None
  else
    match cw_compl r, cw_intended r with
    | QMissing, _ => Raise KeyError
    | QBlank, _ => Ok None
    | _, QMissing => Raise KeyError
    | _, QBlank => Ok None
    | c, n => t ← float_cell (cw_t r); c ← float_cell c; n ← float_cell n; Ok (Some (mkCIn t c n))
    end.

Definition missing (r : crow_in) : Q := ((1 - ci_compl r) * ci_intended r)%Q.

(** [pts[t] = max(pts.get(t, 0.0), miss)], in the order of the keys. *)
Definition pts_of (rows : list crow_in) : list (Q * Q) :=
  foldl (fun d r => let t := Qred (round_nd 2 (ci_t r)) in dset t (Qmax (default 0%Q (dget t d)) (missing r)) d) [] rows.

Definition points (rows : list crow_in) : list (Q * Q) := sorted (fun a b => Qle_bool a.1 b.1) (pts_of rows).

Definition damaged (p : Q * Q) : bool := Qltb (1 # 2) p.2.

(** Lengths of the runs of damaged samples. *)
Fixpoint episodes_from (run : nat) (ps : list (Q * Q)) : list nat :=
  match ps with
  | [] => match run with 0 => [] | _ => [run] end
  | p :: rest =>
      if damaged p then episodes_from (S run) rest
      else match run with 0 => episodes_from 0 rest | _ => run :: episodes_from 0 rest end
  end.
Definition episodes (ps : list (Q * Q)) : list nat := episodes_from 0 ps.

(** The trapezoids between successive samples. *)
Fixpoint integrate (ps : list (Q * Q)) : Q :=
  match ps with
  | a :: ((b :: _) as rest) => ((b.1 - a.1) * (b.2 + a.2) / 2 + integrate rest)%Q
  | _ => 0%Q
  end.

Definition duration (ps : list (Q * Q)) : Q :=
  match ps with
  | [] => 0%Q
  | p :: rest => ((List.last rest p).1 - p.1)%Q
  end.

Fixpoint intervals (ts : list Q) : list Q :=
  match ts with a :: ((b :: _) as rest) => (b - a)%Q :: intervals rest | _ => [] end.

Record cevent := mkCEvent { ce_condition : option string; ce_gap : option Q; ce_while_down : bool }.
Record cmeta := mkCMeta { cm_seed : option Z; cm_start : Q; cm_exhausted : bool }.

Record crun := mkCRun {
  cu_condition : option string; cu_n_kills : nat; cu_interval : Q; cu_n_samples : nat; cu_n_damaged : nat;
  cu_episodes : list nat; cu_mean : float; cu_integrated : Q; cu_peak : Q; cu_gaps : list Q;
  cu_exhausted : bool; cu_while_down : nat }.

Definition corrected_load (m : cmeta) (events : list cevent) (raw : list craw) : result crun :=
  rows ← rmapM use_row raw;
  let ps := points (omap id rows) in
  let obs := List.filter (fun p => Qle_bool (cm_start m) p.1) ps in
  let dur := if 1 <? length obs then duration obs else 0%Q in
  match intervals ps.*1 with
  | [] => Raise (OtherError "StatisticsError")
  | iv =>
      Ok (mkCRun (match events with [] => None | e :: _ => ce_condition e end) (length events) (np_median iv)
            (length ps) (length (List.filter damaged ps)) (episodes ps)
            (if Qeq_bool dur 0 then nan else fin (integrate obs / dur)) (integrate obs)
            (max1 ps.*2) (omap ce_gap events) (cm_exhausted m) (length (List.filter ce_while_down events)))
  end.

(** ** The preconditions *)

Definition SHORT : string := "short-gap-same-node".
Definition LONG : string := "long-gap-same-node".
Definition SPREAD : string := "spread".
Definition CONDITIONS : list string := [SHORT; LONG; SPREAD].

Inductive cfail : Type :=
| FInterval | FExhausted | FDown (n : nat) | FEpisodes | FOverlap | FNoDamage (c : string).

Definition run_fails (r : crun) : list cfail :=
  (if Qltb MAX_INTERVAL_S (cu_interval r) then [FInterval] else [])
  ++ (if cu_exhausted r then [FExhausted] else [])
  ++ (if Nat.eqb (cu_while_down r) 0 then [] else [FDown (cu_while_down r)]).

Definition of_cond (c : string) (runs : list crun) : list crun :=
  List.filter (fun r => bool_decide (cu_condition r = Some c)) runs.

Definition gap_span (c : string) (runs : list crun) : option (Q * Q) :=
  match mjoin (cu_gaps <$> of_cond c runs) with [] => None | g => Some (min1 g, max1 g) end.

Definition overlaps (s l : Q * Q) : bool := negb (Qltb s.2 l.1 || Qltb l.2 s.1).

Definition total {A} (f : A -> nat) (xs : list A) : nat := sum_list (f <$> xs).

(** Episodes per kill, over all runs. *)
Definition all_eps (runs : list crun) : Q := qratio (total (length ∘ cu_episodes) runs) (total cu_n_kills runs).
Definition episode_fails (runs : list crun) : list cfail :=
  if Qltb (all_eps runs) MIN_SPIKES_PER_KILL then [FEpisodes] else [].

Definition overlap_fails (runs : list crun) : list cfail :=
  match gap_span SHORT runs, gap_span LONG runs with
  | Some s, Some l => if overlaps s l then [FOverlap] else []
  | _, _ => []
  end.

Definition damage_fail (runs : list crun) (c : string) : option cfail :=
  match of_cond c runs with
  | [] => None
  | rs => if forallb (fun r => Nat.eqb (cu_n_damaged r) 0) rs then Some (FNoDamage c) else None
  end.

Definition preconditions (runs : list crun) : result (list cfail) :=
  if Nat.eqb (total cu_n_kills runs) 0 then Raise ZeroDivisionError
  else Ok (mjoin (run_fails <$> runs) ++ episode_fails runs ++ overlap_fails runs ++ omap (damage_fail runs) CONDITIONS).

(** ** The comparisons *)

Definition compare_pair (normal_tail : Q -> nat -> nat -> float) (key : crun -> float) (runs : list crun) (ab : string * string)
    : option (float * float) :=
  let va := key <$> of_cond ab.1 runs in
  let vb := key <$> of_cond ab.2 runs in
  if (length va <? 2) || (length vb <? 2) then None else Some (mann_whitney normal_tail va vb).

Definition KEYS : list (crun -> float) := [cu_mean; fun r => fin (cu_peak r); fun r => fin (cu_integrated r)].

(** [None] is exit status 1: there are no runs. *)
Definition corrected_main (normal_tail : Q -> nat -> nat -> float) (runs : list crun)
    : result (option (list cfail * list (list (option (float * float))))) :=
  match runs with
  | [] => Ok None
  | _ =>
      fails ← preconditions runs;
      Ok (Some (fails, (fun key => compare_pair normal_tail key runs <$> all_pairs CONDITIONS) <$> KEYS))
  end.

(** ** [compare_conditions.py] *)

(** [s.partition("=")] *)
Fixpoint partition_eq (s : string) : string * string :=
  match s with
  | EmptyString => (EmptyString, EmptyString)
  | String c s' =>
      if Ascii.eqb c "="%char then (EmptyString, s')
      else let '(a, b) := partition_eq s' in (String c a, b)
  end.

Definition parse_condition (s : string) : result (string * string) :=
  let '(name, path) := partition_eq s in
  if bool_decide (path = ""%string) then Raise (OtherError "ArgumentTypeError") else Ok (name, path).

(** [{name: per_seed_chaos_stats(path) for name, path in conditions}]: a name given twice
    keeps its place and takes the later runs. *)
Definition cond_data {S} (load : string -> list (string * S)) (conditions : list (string * string))
    : list (string * list (string * S)) :=
  foldl (fun d np => dset np.1 (load np.2) d) [] conditions.

Definition all_comparisons {S} (normal_tail : Q -> nat -> nat -> float) (keys : list (S -> float))
    (data : list (string * list (string * S))) : list (string * string * list (float * float)) :=
  (fun ab : (string * list (string * S)) * (string * list (string * S)) =>
     (ab.1.1, ab.2.1, (fun key : S -> float => mann_whitney normal_tail ((fun x => key x.2) <$> ab.1.2) ((fun x => key x.2) <$> ab.2.2)) <$> keys))
    <$> all_pairs data.

(** * Properties *)

(** ** Episodes *)

Lemma episodes_from_sum run ps :
  sum_list (episodes_from run ps) = run + length (List.filter damaged ps) /\ Forall (fun n => 1 <= n) (episodes_from run ps).
Proof.
  revert run. induction ps as [|p ps IH]; intros run; cbn [episodes_from List.filter].
  - destruct run; cbn; (split; [lia|]); [constructor|]. constructor; [lia|constructor].
  - destruct (damaged p); cbn [length].
    + destruct (IH (S run)) as [E H]. split; [lia|done].
    + destruct (IH 0) as [E H]. destruct run as [|run].
      * split; [lia|done].
      * cbn [sum_list sum_list_with foldr]. split; [cbn in *; lia|]. constructor; [lia|done].
Qed.

(** The starts of the episodes: a damaged sample whose predecessor is not. *)
Fixpoint starts_from (prev : bool) (ps : list (Q * Q)) : nat :=
  match ps with
  | [] => 0
  | p :: rest => (if damaged p && negb prev then 1 else 0) + starts_from (damaged p) rest
  end.

Lemma episodes_from_count run ps :
  length (episodes_from run ps) = (if Nat.eqb run 0 then 0 else 1) + starts_from (negb (Nat.eqb run 0)) ps.
Proof.
  revert run. induction ps as [|p ps IH]; intros run; cbn [episodes_from starts_from].
  - by destruct run.
  - destruct (damaged p) eqn:E; cbn [andb].
    + rewrite (IH (S run)). destruct run; cbn; lia.
    + destruct run as [|run]; cbn [Nat.eqb negb]; [by rewrite (IH 0)|]. cbn [length]. by rewrite (IH 0).
Qed.

(** Episodes and damaged samples, which the study tells apart. Every damaged sample is in
    one episode and every episode has one: the lengths add up to the damaged samples, the
    number of episodes is the number of damaged samples whose predecessor was not damaged,
    and sampling an episode more often adds to the former and not to the latter. *)
Theorem episodes_spec ps :
  sum_list (episodes ps) = length (List.filter damaged ps) /\
  length (episodes ps) = starts_from false ps /\
  Forall (fun n => 1 <= n) (episodes ps) /\
  (forall l p r, ps = l ++ p :: r -> damaged p = true -> length (episodes (l ++ p :: p :: r)) = length (episodes ps)).
Proof.
  unfold episodes. destruct (episodes_from_sum 0 ps) as [E H]. split; [done|]. split; [by rewrite episodes_from_count|].
  split; [done|]. intros l p r -> Hp. rewrite !episodes_from_count. cbn [Nat.eqb negb Nat.add]. clear E H.
  generalize false. induction l as [|x l IH]; intros b; cbn [app starts_from]; [|by rewrite IH].
  rewrite Hp. cbn. lia.
Qed.

(** ** The primary metric *)

Lemma dset_Forall {K V} `{EqDecision K} (P : V -> Prop) (k : K) v d :
  Forall (fun x => P x.2) d -> P v -> Forall (fun x => P x.2) (dset k v d).
Proof.
  intros Hd Hv. induction Hd as [|[k' v'] d Hx Hd IH]; cbn; [by repeat constructor|].
  destruct (decide (k = k')); constructor; done.
Qed.

Lemma pts_of_nonneg rows : Forall (fun p => 0 <= p.2)%Q (pts_of rows).
Proof.
  unfold pts_of. assert (Forall (fun p : Q * Q => 0 <= p.2)%Q []) as H0 by constructor. revert H0.
  generalize (@nil (Q * Q)). induction rows as [|r rows IH]; intros d Hd; cbn [foldl]; [done|].
  apply IH. cbv zeta. apply dset_Forall; [done|].
  assert (0 <= default 0%Q (dget (Qred (round_nd 2 (ci_t r))) d))%Q as H.
  { destruct (dget _ d) as [v|] eqn:E; cbn; [|lra]. apply dget_Some_elem in E. rewrite Forall_forall in Hd. by apply (Hd _ E). }
  pose proof (Q.le_max_l (default 0%Q (dget (Qred (round_nd 2 (ci_t r))) d)) (missing r)). lra.
Qed.

Lemma points_ascending rows : StronglySorted Qle (points rows).*1.
Proof.
  unfold points. eapply (StronglySorted_fmap_impl fst (le_of (fun a b : Q * Q => Qle_bool a.1 b.1))).
  - intros x y. unfold le_of. by rewrite Qle_bool_iff.
  - apply sorted_StronglySorted; [intros; apply Qle_bool_total|intros x y z; apply Qle_bool_trans].
Qed.

Lemma StronglySorted_filter {A B} (f : A -> B) (R : B -> B -> Prop) (p : A -> bool) l :
  StronglySorted R (f <$> l) -> StronglySorted R (f <$> List.filter p l).
Proof.
  induction l as [|x l IH]; [done|]. rewrite fmap_cons. intros H. inversion H as [|? ? Hs Hall]; subst. cbn.
  destruct (p x); [|by apply IH]. rewrite fmap_cons. constructor; [by apply IH|].
  apply Forall_fmap, Forall_forall. intros y [Hy _]%elem_of_bfilter.
  rewrite Forall_fmap, Forall_forall in Hall. by apply Hall.
Qed.

Lemma list_last_cons {A} (x : A) l d : List.last (x :: l) d = List.last l x.
Proof. destruct l as [|y l _] using rev_ind; [done|]. by rewrite app_comm_cons, !last_last. Qed.

(** The integral lies between those of the constants [lo] and [hi]. *)
Lemma integrate_bounds lo hi p ps :
  StronglySorted Qle (p :: ps).*1 -> Forall (fun x => lo <= x.2 <= hi)%Q (p :: ps) ->
  (lo * duration (p :: ps) <= integrate (p :: ps) <= hi * duration (p :: ps))%Q.
Proof.
  revert p. induction ps as [|q ps IH]; intros p Hs Hb; [cbn; lra|].
  rewrite fmap_cons in Hs. inversion Hs as [|? ? Hs' Hall]; subst. apply Forall_cons in Hb as [Hp Hb].
  specialize (IH q Hs' Hb). assert (p.1 <= q.1)%Q as Hle by (rewrite Forall_forall in Hall; apply Hall; left).
  apply Forall_cons in Hb as [Hq _].
  assert (duration (p :: q :: ps) == (q.1 - p.1) + duration (q :: ps))%Q as Ed.
  { cbn [duration]. assert (List.last (q :: ps) p = List.last ps q) as -> by apply list_last_cons. ring. }
  change (integrate (p :: q :: ps)) with ((q.1 - p.1) * (q.2 + p.2) / 2 + integrate (q :: ps))%Q. rewrite Ed.
  set (d := (q.1 - p.1)%Q) in *. assert (0 <= d)%Q as Hd by (unfold d; lra).
  assert (lo * d <= d * (q.2 + p.2) / 2)%Q as H1.
  { apply Qle_shift_div_l; [lra|]. nra. }
  assert (d * (q.2 + p.2) / 2 <= hi * d)%Q as H2.
  { apply Qle_shift_div_r; [lra|]. nra. }
  lra.
Qed.

Lemma last_elem {A} (l : list A) d : List.last l d ∈ d :: l.
Proof.
  destruct l as [|x l] using rev_ind; [left|]. rewrite last_last. right. apply elem_of_app. right. left.
Qed.

Lemma duration_nonneg ps : StronglySorted Qle ps.*1 -> (0 <= duration ps)%Q.
Proof.
  destruct ps as [|p ps]; [cbn; lra|]. rewrite fmap_cons. intros H. inversion H as [|? ? _ Hall]; subst. cbn.
  rewrite Forall_fmap, Forall_forall in Hall. pose proof (last_elem ps p) as [->|Hl]%elem_of_cons; [lra|].
  specialize (Hall _ Hl). cbn in Hall. lra.
Qed.

(** A mean over the observed moments. *)
Lemma mean_between obs lo hi q :
  StronglySorted Qle obs.*1 -> Forall (fun x => lo <= x.2 <= hi)%Q obs ->
  (let dur := if 1 <? length obs then duration obs else 0%Q in
   if Qeq_bool dur 0 then nan else fin (integrate obs / dur)) = fin q -> (lo <= q <= hi)%Q.
Proof.
  intros Hs Hb. cbv zeta. destruct (1 <? length obs) eqn:El; [|done].
  destruct (Qeq_bool (duration obs) 0) eqn:Ez; [done|]. intros [= <-]. apply Qeq_bool_neq in Ez.
  destruct obs as [|p obs']; [done|]. pose proof (integrate_bounds lo hi p obs' Hs Hb) as HB.
  pose proof (duration_nonneg _ Hs) as H0. assert (0 < duration (p :: obs'))%Q as Hpos by lra.
  split; [apply Qle_shift_div_l|apply Qle_shift_div_r]; lra.
Qed.

Lemma max1_ge xs x : x ∈ xs -> (x <= max1 xs)%Q.
Proof.
  destruct xs as [|y l]; [by intros ?%not_elem_of_nil|]. cbn. destruct (Qmax_list_ge y l) as [H1 H2].
  intros [->|H]%elem_of_cons; [done|by apply H2].
Qed.

(** C39. The primary metric is a mean: between the least and the greatest number of missing ids
    seen from the start of the chaos on, hence never negative and never above the peak, and
    equal to the common value when the damage is constant, however long the run is watched.
    It is absent when fewer than two moments were observed. *)
Theorem mean_missing_spec m events raw r :
  corrected_load m events raw = Ok r ->
  exists rows, rmapM use_row raw = Ok rows /\
  let ps := points (omap id rows) in
  let obs := List.filter (fun p => Qle_bool (cm_start m) p.1) ps in
  cu_peak r = max1 ps.*2 /\
  (length obs < 2 -> cu_mean r = nan) /\
  forall q, cu_mean r = fin q -> (0 <= q <= cu_peak r)%Q /\
    forall lo hi, Forall (fun x => lo <= x.2 <= hi)%Q obs -> (lo <= q <= hi)%Q.
Proof.
  unfold corrected_load. intros H. bind_inv H. exists a. split; [done|].
  set (ps := points (omap id a)) in *.
  destruct (intervals ps.*1) as [|i iv] eqn:Ei; [done|]. injection H as <-. cbn [cu_peak cu_mean].
  set (obs := List.filter (fun p => Qle_bool (cm_start m) p.1) ps). split; [done|].
  assert (StronglySorted Qle obs.*1) as Hs by apply StronglySorted_filter, points_ascending.
  split.
  { intros Hlen. destruct (1 <? length obs) eqn:El; [apply Nat.ltb_lt in El; lia|done]. }
  intros q Hq. split.
  - apply (mean_between obs 0 (max1 ps.*2) q Hs); [|exact Hq]. apply Forall_forall. intros x [Hx _]%elem_of_bfilter. split.
    + pose proof (pts_of_nonneg (omap id a)) as Hn. rewrite Forall_forall in Hn. apply Hn. by apply elem_of_sorted in Hx.
    + apply max1_ge. by apply list_elem_of_fmap_2.
  - intros lo hi Hb. by apply (mean_between obs lo hi q Hs).
Qed.

Definition demo_craw : list craw :=
  [mkCRaw true (QNum 0) (QNum 1) (QNum 100); mkCRaw true (QNum 2) (QNum (9 # 10)) (QNum 100);
   mkCRaw false (QNum 3) (QNum 0) (QNum 100); mkCRaw true (QNum 4) (QNum (9 # 10)) (QNum 100)].

Lemma mean_missing_spec_witness :
  exists r q, corrected_load (mkCMeta None 2 false) [] demo_craw = Ok r /\ cu_mean r = fin q /\ (0 <= q <= cu_peak r)%Q.
Proof.
  eexists _, _. split; [vm_compute; reflexivity|]. split; [reflexivity|].
  match goal with |- (_ <= _ <= cu_peak ?r)%Q =>
    destruct (mean_missing_spec (mkCMeta None 2 false) [] demo_craw r) as (rows & _ & _ & _ & H);
      [vm_compute; reflexivity|] end.
  destruct (H _ eq_refl) as [H1 _]. exact H1.
Defined.

(** ** The preconditions *)

Lemma overlaps_spec s l : overlaps s l = false <-> (s.2 < l.1 \/ l.2 < s.1)%Q.
Proof. unfold overlaps. rewrite negb_false_iff, orb_true_iff, !Qltb_lt. done. Qed.

Lemma run_fails_nil r :
  run_fails r = [] <-> (cu_interval r <= MAX_INTERVAL_S)%Q /\ cu_exhausted r = false /\ cu_while_down r = 0.
Proof.
  unfold run_fails. destruct (Qltb _ _) eqn:E1, (cu_exhausted r), (Nat.eqb (cu_while_down r) 0) eqn:E2; breflect; qreflect;
    cbn [app]; (split; [try done; by intros|]); intros (H1 & H2 & H3); try done; try lra.
Qed.

Lemma overlap_fails_nil runs :
  overlap_fails runs = [] <->
  forall s l, gap_span SHORT runs = Some s -> gap_span LONG runs = Some l -> (s.2 < l.1 \/ l.2 < s.1)%Q.
Proof.
  unfold overlap_fails. destruct (gap_span SHORT runs) as [s|]; [|naive_solver].
  destruct (gap_span LONG runs) as [l|]; [|naive_solver]. destruct (overlaps s l) eqn:E.
  - split; [done|]. intros H. specialize (H s l eq_refl eq_refl). apply overlaps_spec in H. congruence.
  - split; [|done]. intros _ s' l' [= <-] [= <-]. by apply overlaps_spec.
Qed.

Lemma damage_fail_None runs c :
  damage_fail runs c = None <-> (of_cond c runs <> [] -> exists r, r ∈ of_cond c runs /\ 0 < cu_n_damaged r).
Proof.
  unfold damage_fail. destruct (of_cond c runs) as [|r rs]; [naive_solver|].
  destruct (forallb _ (r :: rs)) eqn:E.
  - split; [done|]. intros (x & Hx & Hpos); [done|]. rewrite forallb_forall in E.
    apply list_elem_of_In, E in Hx. breflect. lia.
  - split; [|done]. intros _ _. apply not_true_iff_false in E.
    destruct (existsb (fun r => 0 <? cu_n_damaged r) (r :: rs)) eqn:Ex.
    + apply existsb_exists in Ex as (x & Hx & Hpos). exists x. split; [by apply list_elem_of_In|]. by breflect.
    + exfalso. apply E, forallb_forall. intros x Hx. apply not_true_iff_false in Ex.
      destruct (cu_n_damaged x) eqn:En; [done|]. exfalso. apply Ex, existsb_exists. exists x. split; [done|]. by rewrite En.
Qed.

Lemma mjoin_nil {A B} (f : A -> list B) l : mjoin (f <$> l) = [] <-> forall x, x ∈ l -> f x = [].
Proof.
  induction l as [|y l IH]; [split; [by intros _ x ?%not_elem_of_nil|done]|]. cbn. split.
  - intros [H1 H2]%app_eq_nil z [->|Hz]%elem_of_cons; [done|by apply IH].
  - intros H. rewrite (H y) by left. apply IH. intros z Hz. apply H. by right.
Qed.


(** The preconditions pass exactly when they hold: every run is sampled at most every four
    seconds, did not exhaust its corpus and killed no node that was down; there are at least
    two episodes per kill over all runs; no short gap is as long as a long one, where both
    were realized; and no condition that was run is free of damage. Without a single kill the
    report raises. *)
Theorem preconditions_exact runs :
  (preconditions runs = Raise ZeroDivisionError <-> total cu_n_kills runs = 0) /\
  (preconditions runs = Ok [] <->
     0 < total cu_n_kills runs /\
     (forall r, r ∈ runs -> (cu_interval r <= MAX_INTERVAL_S)%Q /\ cu_exhausted r = false /\ cu_while_down r = 0) /\
     (MIN_SPIKES_PER_KILL <= all_eps runs)%Q /\
     (forall s l, gap_span SHORT runs = Some s -> gap_span LONG runs = Some l -> (s.2 < l.1 \/ l.2 < s.1)%Q) /\
     (forall c, c ∈ CONDITIONS -> of_cond c runs <> [] -> exists r, r ∈ of_cond c runs /\ 0 < cu_n_damaged r)).
Proof.
  unfold preconditions. destruct (Nat.eqb (total cu_n_kills runs) 0) eqn:Ek; breflect.
  { split; [done|]. split; [done|]. intros [? _]. lia. }
  split; [split; [done|lia]|].
  rewrite <- overlap_fails_nil. setoid_rewrite <- damage_fail_None. setoid_rewrite <- run_fails_nil.
  rewrite <- omap_nil, <- mjoin_nil.
  assert (episode_fails runs = [] <-> (MIN_SPIKES_PER_KILL <= all_eps runs)%Q) as <-.
  { unfold episode_fails. destruct (Qltb _ _) eqn:E; qreflect; split; intros; try done; lra. }
  split.
  - intros H%Ok_inj. apply app_eq_nil in H as [-> H]. apply app_eq_nil in H as [-> H]. apply app_eq_nil in H as [-> ->].
    split; [lia|done].
  - intros (_ & -> & -> & -> & ->). done.
Qed.

(** With gaps in one of the two conditions only, the overlap is not looked at. *)
Lemma overlap_needs_both runs : gap_span LONG runs = None -> overlap_fails runs = [].
Proof. unfold overlap_fails. intros ->. by destruct (gap_span SHORT runs). Qed.

(** ** [compare_conditions.py] *)

Fixpoint has_eq (s : string) : bool :=
  match s with EmptyString => false | String c s' => Ascii.eqb c "="%char || has_eq s' end.

(** A condition given as name=path is read back, also when the path has further signs. *)
Lemma parse_condition_roundtrip name path :
  has_eq name = false -> path <> ""%string ->
  parse_condition (name +:+ "=" +:+ path) = Ok (name, path).
Proof.
  intros Hn Hp. unfold parse_condition.
  assert (partition_eq (name +:+ "=" +:+ path) = (name, path)) as ->.
  { induction name as [|c name IH]; [done|]. cbn [has_eq] in Hn. apply orb_false_iff in Hn as [Hc Hn].
    change (String c name +:+ _)%string with (String c (name +:+ "=" +:+ path)). cbn [partition_eq]. by rewrite Hc, IH. }
  by rewrite bool_decide_false.
Qed.

Lemma length_all_pairs {A} (l : list A) : 2 * length (all_pairs l) = length l * (length l - 1).
Proof.
  induction l as [|x l IH]; [done|]. cbn [all_pairs]. rewrite length_app, length_fmap. cbn [length]. nia.
Qed.

(** Every pair of the named sweeps is compared once. *)
Lemma all_comparisons_count {S} tail (keys : list (S -> float)) data :
  2 * length (all_comparisons tail keys data) = length data * (length data - 1).
Proof. unfold all_comparisons. rewrite length_fmap. apply length_all_pairs. Qed.
