(* ===== verification/QdrantSweep.v ===== *)
(** * The Qdrant sweeps

    [research/cross_system_replication/qdrant_sweep.py]: the sweep over seeds and conditions,
    which also refuses a chaos run without a kill.
    [research/qdrant_gated_index_recall/sweep.py] and [research/qdrant_index_recall_healing/sweep.py]:
    the commands by which two studies call it, read by its own argument parser.
    [research/qdrant_index_gate/sweep_gate.py]: the cells of the gate pilot and what is made of
    each run. What a run of the experiment does is an input. *)

From stdpp Require Import base list gmap strings pretty.
From Stdlib Require Import ZArith NArith Lia Ascii.
From S2P Require Import Prelude QdrantCluster Aggregate SweepDriver.

Local Open Scope nat_scope.

(** ** [qdrant_sweep.run_one] *)

Definition qsweep_cmd (duration writers chaos_duration : N) (pre_chaos_s : string) (extra : list string) (r : run_id)
    : list string :=
  ["--duration"; pretty duration; "--writers"; pretty writers; "--seed"; pretty r.1]%string
  ++ (match r.2 with
      | Baseline => ["--no-chaos"]
      | Quiesce => ["--chaos-duration"; pretty chaos_duration; "--pre-chaos-s"; pre_chaos_s]
      | Chaos => []
      end)%string
  ++ extra.

Section Driver.
Context {A : Type}.

(** [run_meta.json]: absent, unreadable, or with its flag that no kill completed. *)
Inductive meta_file : Type := NoMeta | BadMeta | Meta (chaos_no_kills : bool).

Record qoutcome := mkQOut { qo_status : Z; qo_samples : option A; qo_meta : meta_file }.

Definition no_kills (m : meta_file) : bool := match m with Meta b => b | _ => false end.

Definition qsweep_run_one (force : bool) (run : run_id -> qoutcome) (f : sweep_fs A) (r : run_id)
    : sweep_fs A * bool :=
  match fs_filed f !! r, force with
  | Some _, false => (f, true)
  | _, _ =>
      let o := run r in
      let f1 := mkFS (qo_samples o) (fs_filed f) in
      if negb (Z.eqb (qo_status o) 0) then (f1, false)
      else
        match fs_results f1 with
        | None => (f1, false)
        | Some a =>
            if negb (bool_decide (r.2 = Baseline)) && no_kills (qo_meta o) then (f1, false)
            else (mkFS None (<[r := a]> (fs_filed f)), true)
        end
  end.

Fixpoint qsweep_loop (force : bool) (run : run_id -> qoutcome) (plan : list run_id) (f : sweep_fs A) (failures : nat)
    : sweep_fs A * nat :=
  match plan with
  | [] => (f, failures)
  | r :: rest =>
      let '(f', ok) := qsweep_run_one force run f r in
      qsweep_loop force run rest f' (if ok then failures else S failures)
  end.

Definition qsweep_main (force : bool) (run : run_id -> qoutcome) (plan : list run_id) (f : sweep_fs A)
    : sweep_fs A * nat :=
  let '(f', failures) := qsweep_loop force run plan f 0 in
  (f', if Nat.eqb failures 0 then 0 else 1).
End Driver.
Arguments qoutcome : clear implicits.

(** ** The argument parser of [qdrant_sweep.main] *)

(** The options and whether they take a value. *)
Definition OPTIONS : list (string * bool) :=
  [("--seeds", true); ("--seed-base", true); ("--duration", true); ("--writers", true); ("--only", true);
   ("--with-quiesce", false); ("--chaos-duration", true); ("--pre-chaos-s", true); ("--force", false); ("--out-dir", true)]%string.

Definition dashed_opt (s : string) : bool := match strip_prefix "--" s with Some _ => true | None => false end.

(** An exact name, or the only option it abbreviates; [None] when it is ambiguous. *)
Definition option_of (s : string) : option (option (string * bool)) :=
  match List.find (fun o => bool_decide (o.1 = s)) OPTIONS with
  | Some o => Some (Some o)
  | None =>
      match List.filter (fun o => match strip_prefix s o.1 with Some _ => true | None => false end) OPTIONS with
      | [] => Some None
      | [o] => Some (Some o)
      | _ => None
      end
  end.

(** [parse_known_args]: the options with their values, and everything else in order. [None]
    is an error: an ambiguous or an incomplete option. *)
Fixpoint parse_known (args : list string) : option (list (string * string) * list string) :=
  match args with
  | [] => Some ([], [])
  | s :: rest =>
      if dashed_opt s then
        match option_of s with
        | None => None
        | Some None => '(o, e) ← parse_known rest; Some (o, s :: e)
        | Some (Some (name, false)) => '(o, e) ← parse_known rest; Some ((name, "") :: o, e)
        | Some (Some (name, true)) =>
            match rest with
            | [] => None
            | v :: rest' => if dashed_opt v then None else '(o, e) ← parse_known rest'; Some ((name, v) :: o, e)
            end
        end
      else '(o, e) ← parse_known rest; Some (o, s :: e)
  end.

(** The last value given. *)
Definition opt_value (name : string) (o : list (string * string)) : option string :=
  snd <$> last (List.filter (fun p => bool_decide (p.1 = name)) o).

(** ** The studies that call it *)

Definition GATE_FLAGS : list string :=
  ["--warmup-until-written"; "100000"; "--sift-vectors"; "250000"; "--indexing-threshold-kb"; "1000";
   "--index-gate"; "--index-gate-tol"; "0.05"; "--index-gate-timeout"; "600"; "--capture-telemetry"]%string.

(** [qdrant_gated_index_recall/sweep.py]: the arguments of run 0 and of the sweep. *)
Definition gated_run0_args (out : string) : list string :=
  (["--no-chaos"; "--duration"; "60"; "--writers"; "4"; "--seed"; pretty 20260999%N; "--score-at-gate"; "--out-dir"; out]%string
   ++ GATE_FLAGS).
Definition gated_sweep_args (out : string) (force : bool) : list string :=
  ["--seeds"; "5"; "--seed-base"; "20261000"; "--duration"; "120"; "--writers"; "4"; "--with-quiesce";
   "--chaos-duration"; "50"; "--pre-chaos-s"; "20"; "--out-dir"; out]%string
  ++ (if force then ["--force"]%string else []) ++ GATE_FLAGS.

Inductive gated_mode : Type := ModeRun0 | ModeSweep (force : bool) | ModeUsage.
Definition gated_main (argv : list string) : gated_mode :=
  match argv with
  | m :: _ =>
      if bool_decide (m = "run0"%string) then ModeRun0
      else if bool_decide (m = "sweep"%string) then ModeSweep (existsb (fun a => bool_decide (a = "--force"%string)) argv)
      else ModeUsage
  | [] => ModeUsage
  end.

(** [qdrant_index_recall_healing/sweep.py] *)
Definition healing_args (out cond : string) : option (list string) :=
  let common := ["--seeds"; "5"; "--seed-base"; "20261100"; "--writers"; "4"; "--out-dir"; out; "--only"; cond]%string in
  if bool_decide (cond = "baseline"%string) then Some (common ++ ["--duration"; "240"]%string ++ GATE_FLAGS)
  else if bool_decide (cond = "quiesce"%string)
  then Some (common ++ ["--duration"; "250"; "--pre-chaos-s"; "20"; "--chaos-duration"; "50"]%string ++ GATE_FLAGS)
  else None.

(** The exit status; [rc c] is that of the sweep of condition [c]. *)
Definition healing_main (argv : list string) (rc : string -> Z) : Z :=
  match argv with
  | m :: _ =>
      if bool_decide (m = "baseline"%string) || bool_decide (m = "quiesce"%string) then rc m
      else if bool_decide (m = "all"%string)
      then if Z.eqb (rc "baseline"%string) 0 then rc "quiesce"%string else rc "baseline"%string
      else 2%Z
  | [] => 2%Z
  end.

(** ** [sweep_gate.py] *)

Record cell_spec := mkCell {
  cl_name : string; cl_thr : option N; cl_n : N; cl_seed : N; cl_extra : list string }.

Definition THRESHOLDS : list (option N) := [None; Some 5000; Some 1000]%N.
Definition CORPORA : list N := [100000; 200000]%N.
Definition SEED0 : N := 20260970.
Definition POOL_HEADROOM : N := 150000.
Definition COMMON : list string :=
  ["--writers"; "4"; "--batch-size"; "32"; "--queries"; "10"; "--warmup-s"; "40"; "--duration"; "120";
   "--index-gate"; "--index-gate-tol"; "0.05"; "--index-gate-timeout"; "600"; "--capture-telemetry"]%string.

Definition cell_name (thr : option N) (n seed : N) (kind : string) : string :=
  ("thr" +:+ match thr with Some t => pretty t | None => "default" end +:+ "_n" +:+ pretty (n / 1000)%N +:+ "k_"
   +:+ kind +:+ "_seed" +:+ pretty seed)%string.

Definition CHAOS_EXTRA : list string := ["--chaos-duration"; "60"; "--pre-chaos-s"; "30"]%string.

(** The grid of thresholds, corpora and repeats, and the two chaos cells. *)
Definition grid : list (option N * N) :=
  mjoin ((fun thr => mjoin ((fun n => [(thr, n); (thr, n)]) <$> CORPORA)) <$> THRESHOLDS).
Definition cells : list cell_spec :=
  ((fun ig : nat * (option N * N) =>
      let seed := (SEED0 + N.of_nat ig.1)%N in
      mkCell (cell_name ig.2.1 ig.2.2 seed "nochaos") ig.2.1 ig.2.2 seed ["--no-chaos"%string])
     <$> zip (seq 0 (length grid)) grid)
  ++ [mkCell (cell_name None 200000 (SEED0 + 12) "chaos") None 200000 (SEED0 + 12) CHAOS_EXTRA;
      mkCell (cell_name (Some 1000%N) 200000 (SEED0 + 13) "chaos") (Some 1000%N) 200000 (SEED0 + 13) CHAOS_EXTRA]%N.

Definition cell_cmd (dest : string) (c : cell_spec) : list string :=
  ["--seed"; pretty (cl_seed c); "--sift-vectors"; pretty (cl_n c + POOL_HEADROOM)%N;
   "--warmup-until-written"; pretty (cl_n c); "--warmup-cap-s"; "600"; "--out-dir"; dest]%string
  ++ COMMON ++ cl_extra c
  ++ match cl_thr c with Some t => ["--indexing-threshold-kb"%string; pretty t] | None => [] end.

(** What [run_meta.json] records of what was asked. *)
Record gate_meta := mkGateMeta {
  me_seed : option N; me_target : option N; me_pool : option N; me_thr : option N; me_written : option N }.

(** The files of a cell's directory that the driver looks at. *)
Record cell_files := mkCellFiles { cf_meta : option gate_meta; cf_failed : bool; cf_samples : bool }.
Definition no_files : cell_files := mkCellFiles None false false.

Inductive cell_result : Type :=
| CSkip | CDry | CGateFailed | CFailedExit (code : Z) | CFailedFiles | CMismatch | COk.

Definition meta_matches (c : cell_spec) (m : gate_meta) : bool :=
  bool_decide (me_seed m = Some (cl_seed c)) && bool_decide (me_target m = Some (cl_n c))
  && bool_decide (me_pool m = Some (cl_n c + POOL_HEADROOM)%N) && bool_decide (me_thr m = cl_thr c)
  && (cl_n c <=? default 0 (me_written m))%N.

(** [run] gives the exit status and what the directory holds afterwards. *)
Definition cell_run_one (dry : bool) (run : cell_spec -> Z * cell_files) (fs : gmap string cell_files) (c : cell_spec)
    : gmap string cell_files * cell_result :=
  let here := default no_files (fs !! cl_name c) in
  if bool_decide (is_Some (cf_meta here)) || cf_failed here then (fs, CSkip)
  else if dry then (fs, CDry)
  else
    let '(code, files) := run c in
    let fs' := <[cl_name c := files]> fs in
    (fs',
     if Z.eqb code 3 && cf_failed files then CGateFailed
     else if negb (Z.eqb code 0) then CFailedExit code
     else
       match cf_samples files, cf_meta files with
       | true, Some m => if meta_matches c m then COk else CMismatch
       | _, _ => CFailedFiles
       end).

Fixpoint contains (needle s : string) : bool :=
  match strip_prefix needle s with
  | Some _ => true
  | None => match s with EmptyString => false | String _ s' => contains needle s' end
  end.

Fixpoint gate_sweep (dry : bool) (run : cell_spec -> Z * cell_files) (cs : list cell_spec) (fs : gmap string cell_files)
    : gmap string cell_files * list (string * cell_result) :=
  match cs with
  | [] => (fs, [])
  | c :: rest =>
      let '(fs1, r) := cell_run_one dry run fs c in
      let '(fs2, rs) := gate_sweep dry run rest fs1 in
      (fs2, (cl_name c, r) :: rs)
  end.

(** [main]: the results and the exit status. *)
Definition gate_sweep_main (dry : bool) (only : option string) (run : cell_spec -> Z * cell_files)
    (fs : gmap string cell_files) : gmap string cell_files * list (string * cell_result) * Z :=
  let chosen := match only with
                | Some s => if bool_decide (s = ""%string) then cells else List.filter (fun c => contains s (cl_name c)) cells
                | None => cells
                end in
  (gate_sweep dry run chosen fs, 0%Z).

(** * Properties *)

(** ** The sweep *)

(** The outcome that the nano-db sweep would have to see. *)
Definition refused {A} (r : run_id) (o : qoutcome A) : bool :=
  negb (bool_decide (r.2 = Baseline)) && no_kills (qo_meta o).
Definition as_outcome {A} (run : run_id -> qoutcome A) (r : run_id) : outcome A :=
  mkOut (if Z.eqb (qo_status (run r)) 0 && refused r (run r) then 1%Z else qo_status (run r)) (qo_samples (run r)).

Lemma qsweep_run_one_refines {A} force (run : run_id -> qoutcome A) f r :
  qsweep_run_one force run f r = sweep_run_one force (as_outcome run) f r.
Proof.
  unfold qsweep_run_one, sweep_run_one, as_outcome, refused. cbn [oc_samples oc_status].
  destruct (fs_filed f !! r), force; try done;
    (destruct (Z.eqb_spec (qo_status (run r)) 0) as [E|E]; cbn [negb andb];
     [rewrite ?E; destruct (negb _ && no_kills _); cbn; by destruct (qo_samples (run r))
     |by destruct (Z.eqb_spec (qo_status (run r)) 0)]).
Qed.

Lemma qsweep_loop_refines {A} force (run : run_id -> qoutcome A) plan f n :
  qsweep_loop force run plan f n = sweep_loop force (as_outcome run) plan f n.
Proof.
  revert f n. induction plan as [|r plan IH]; intros f n; [done|]. cbn [qsweep_loop sweep_loop].
  rewrite qsweep_run_one_refines. destruct (sweep_run_one _ _ _ _) as [f' ok]. apply IH.
Qed.

Lemma as_outcome_status {A} (run : run_id -> qoutcome A) r :
  oc_status (as_outcome run r) = 0%Z <-> qo_status (run r) = 0%Z /\ refused r (run r) = false.
Proof. cbn. destruct (Z.eqb_spec (qo_status (run r)) 0) as [E|E], (refused r (run r)); cbn [andb]; naive_solver. Qed.

(** What is filed after a sweep was there before, or is of a run that may be filed. *)
Lemma qsweep_filed {A} force (run : run_id -> qoutcome A) old r a :
  filed_after force (as_outcome run) old r = Some a -> old = Some a \/
  (qo_status (run r) = 0%Z /\ qo_samples (run r) = Some a /\ (r.2 = Baseline \/ no_kills (qo_meta (run r)) = false)).
Proof.
  unfold filed_after. cbn [oc_samples as_outcome]. destruct (qo_samples (run r)) as [b|] eqn:Es.
  - destruct (Z.eqb (oc_status (as_outcome run r)) 0) eqn:Eq.
    + apply Z.eqb_eq, as_outcome_status in Eq as [E0 Er]. assert (r.2 = Baseline \/ no_kills (qo_meta (run r)) = false) as Hk.
      { unfold refused in Er. destruct (bool_decide (r.2 = Baseline)) eqn:Ed; [left; by apply bool_decide_eq_true in Ed|by right]. }
      destruct old, force; naive_solver.
    + destruct old, force; naive_solver.
  - destruct old, force; naive_solver.
Qed.

(** The Qdrant sweep refines the nano-db one, of which it is the analog: it behaves as that
    sweep does when a run that recorded no kill counts as failed. Hence it never files a chaos
    or quiesce run in which no kill completed; what was filed before stays; and the exit status
    is 0 exactly when every planned run was present or succeeded with the faults it asked for. *)
Theorem qsweep_refines {A} force (run : run_id -> qoutcome A) seed_base seeds only q f :
  let plan := sweep_plan seed_base seeds only q in
  let '(f', code) := qsweep_main force run plan f in
  (f', code) = sweep_main force (as_outcome run) plan f /\
  (forall r, fs_filed f' !! r =
     if decide (r ∈ plan) then filed_after force (as_outcome run) (fs_filed f !! r) r else fs_filed f !! r) /\
  (forall r a, fs_filed f' !! r = Some a -> fs_filed f !! r = Some a \/
     (qo_status (run r) = 0%Z /\ qo_samples (run r) = Some a /\ (r.2 = Baseline \/ no_kills (qo_meta (run r)) = false))) /\
  (code = 0 <-> forall r, r ∈ plan -> (is_Some (fs_filed f !! r) /\ force = false) \/
     (qo_status (run r) = 0%Z /\ is_Some (qo_samples (run r)) /\ refused r (run r) = false)).
Proof.
  cbv zeta. unfold qsweep_main, sweep_main. rewrite qsweep_loop_refines.
  destruct (sweep_loop_spec force (as_outcome run) _ f 0 (sweep_plan_NoDup seed_base seeds only q)) as (H1 & H2 & _).
  destruct (sweep_loop _ _ _ f 0) as [f' n]. cbn [fst snd] in *. split; [done|]. split; [done|].
  split.
  - intros r a. rewrite H1. case_decide; [apply qsweep_filed|by left].
  - assert ((if Nat.eqb n 0 then 0 else 1) = 0 <-> n = 0) as -> by (by destruct (Nat.eqb_spec n 0)).
    rewrite H2. setoid_rewrite as_outcome_status. cbn [oc_samples as_outcome].
    split; intros H r Hr; destruct (H r Hr) as [?|?]; (by left) || (right; tauto).
Qed.

(** ** The studies' commands *)

Lemma parse_value s name v rest o e :
  dashed_opt s = true -> option_of s = Some (Some (name, true)) -> dashed_opt v = false ->
  parse_known rest = Some (o, e) -> parse_known (s :: v :: rest) = Some ((name, v) :: o, e).
Proof. intros H1 H2 H3 H4. cbn [parse_known]. rewrite H1, H2, H3, H4. done. Qed.

Lemma parse_flag s name rest o e :
  dashed_opt s = true -> option_of s = Some (Some (name, false)) ->
  parse_known rest = Some (o, e) -> parse_known (s :: rest) = Some ((name, ""%string) :: o, e).
Proof. intros H1 H2 H3. cbn [parse_known]. rewrite H1, H2, H3. done. Qed.

Lemma parse_unknown s rest o e :
  dashed_opt s = true -> option_of s = Some None ->
  parse_known rest = Some (o, e) -> parse_known (s :: rest) = Some (o, s :: e).
Proof. intros H1 H2 H3. cbn [parse_known]. rewrite H1, H2, H3. done. Qed.

Lemma parse_plain s rest o e :
  dashed_opt s = false -> parse_known rest = Some (o, e) -> parse_known (s :: rest) = Some (o, s :: e).
Proof. intros H1 H2. cbn [parse_known]. rewrite H1, H2. done. Qed.

(** Follow the parser over a command line whose options are literals. *)
Ltac parse_step :=
  first [ eapply parse_value; [vm_compute; reflexivity|vm_compute; reflexivity|first [eassumption|vm_compute; reflexivity]|]
        | eapply parse_flag; [vm_compute; reflexivity|vm_compute; reflexivity|]
        | eapply parse_unknown; [vm_compute; reflexivity|vm_compute; reflexivity|]
        | eapply parse_plain; [vm_compute; reflexivity|] ].
Ltac parse_args := repeat parse_step; reflexivity.

Lemma parse_known_gate out force :
  dashed_opt out = false ->
  parse_known (gated_sweep_args out force) =
    Some ([("--seeds", "5"); ("--seed-base", "20261000"); ("--duration", "120"); ("--writers", "4"); ("--with-quiesce", "");
           ("--chaos-duration", "50"); ("--pre-chaos-s", "20"); ("--out-dir", out)]%string
          ++ (if force then [("--force", "")]%string else []), GATE_FLAGS).
Proof. intros H. unfold gated_sweep_args, GATE_FLAGS. destruct force; cbn [app]; parse_args. Qed.

(** The gated study and the sweep it calls agree on the command line. Whatever directory is
    given, the sweep's parser takes the study's options and leaves exactly the gate flags,
    which it passes on: five seeds from 20261000, all three conditions, and every run it
    starts ends its command with those flags, so each of them waits for the index gate. *)
Theorem gated_sweep_forwards out force :
  dashed_opt out = false ->
  exists opts, parse_known (gated_sweep_args out force) = Some (opts, GATE_FLAGS) /\
    opt_value "--seed-base" opts = Some "20261000"%string /\ opt_value "--seeds" opts = Some "5"%string /\
    opt_value "--only" opts = None /\ is_Some (opt_value "--with-quiesce" opts) /\
    (is_Some (opt_value "--force" opts) <-> force = true) /\ opt_value "--out-dir" opts = Some out /\
    length (sweep_plan 20261000 5 None true) = 15 /\
    forall d w cd pre r, exists cmd, qsweep_cmd d w cd pre GATE_FLAGS r = cmd ++ GATE_FLAGS /\ "--index-gate"%string ∈ GATE_FLAGS.
Proof.
  intros H. eexists. split; [by apply parse_known_gate|].
  split; [by destruct force|]. split; [by destruct force|]. split; [by destruct force|].
  split; [destruct force; by eexists|]. split; [destruct force; cbn; split; try done; by intros [? ?]|].
  split; [by destruct force|]. split; [done|].
  intros d w cd pre r. eexists. split; [unfold qsweep_cmd; rewrite !app_assoc; reflexivity|]. decide_now.
Qed.

Lemma gated_sweep_forwards_witness :
  exists opts, parse_known (gated_sweep_args "results" true) = Some (opts, GATE_FLAGS) /\
    opt_value "--out-dir" opts = Some "results"%string.
Proof.
  destruct (gated_sweep_forwards "results" true eq_refl) as (opts & H1 & _ & _ & _ & _ & _ & H2 & _).
  exists opts. split; [exact H1|exact H2].
Defined.

(** The healing study likewise, for the one condition it asks for. *)
Lemma healing_forwards out cond args :
  dashed_opt out = false -> healing_args out cond = Some args ->
  exists opts, parse_known args = Some (opts, GATE_FLAGS) /\ opt_value "--only" opts = Some cond.
Proof.
  intros H. unfold healing_args.
  destruct (bool_decide (cond = "baseline"%string)) eqn:E1; [|destruct (bool_decide (cond = "quiesce"%string)) eqn:E2; [|done]];
    [apply bool_decide_eq_true in E1|apply bool_decide_eq_true in E2]; subst cond; intros [= <-];
    (eexists; split; [unfold GATE_FLAGS; cbn [app]; parse_args|reflexivity]).
Qed.

(** "all" runs the second condition only when the first sweep succeeded, and succeeds only
    when both did. *)
Lemma healing_all rc : healing_main ["all"%string] rc = 0%Z <-> rc "baseline"%string = 0%Z /\ rc "quiesce"%string = 0%Z.
Proof. cbn. destruct (Z.eqb_spec (rc "baseline"%string) 0); naive_solver. Qed.

(** ** The gate pilot *)

(** Fourteen cells, no two of which share a directory or a seed. *)
Lemma cells_distinct : length cells = 14 /\ NoDup (cl_name <$> cells) /\ NoDup (cl_seed <$> cells).
Proof. split_and!; [done|decide_now|decide_now]. Qed.

Lemma cell_run_one_other dry run fs c name :
  name <> cl_name c -> (cell_run_one dry run fs c).1 !! name = fs !! name.
Proof.
  intros Hne. unfold cell_run_one. destruct (_ || _); [done|]. destruct dry; [done|]. destruct (run c) as [code files].
  cbn. by rewrite lookup_insert_ne.
Qed.

Lemma gate_sweep_other dry run cs fs name :
  name ∉ cl_name <$> cs -> (gate_sweep dry run cs fs).1 !! name = fs !! name.
Proof.
  revert fs. induction cs as [|c cs IH]; intros fs; [done|]. rewrite fmap_cons, not_elem_of_cons. intros [Hne Hn].
  cbn. destruct (cell_run_one dry run fs c) as [fs1 r] eqn:E1. specialize (IH fs1 Hn).
  destruct (gate_sweep dry run cs fs1) as [fs2 rs]. cbn in *. rewrite IH.
  pose proof (cell_run_one_other dry run fs c name Hne) as H. by rewrite E1 in H.
Qed.

(** What one cell's result says of its run and its directory. *)
Definition result_ok (run : cell_spec -> Z * cell_files) (old new : option cell_files) (c : cell_spec) (res : cell_result) : Prop :=
  match res with
  | CSkip => new = old /\ (is_Some (cf_meta (default no_files old)) \/ cf_failed (default no_files old) = true)
  | CDry => new = old
  | _ =>
      new = Some (run c).2 /\ cf_meta (default no_files old) = None /\ cf_failed (default no_files old) = false /\
      match res with
      | COk => (run c).1 = 0%Z /\ cf_samples (run c).2 = true /\ exists m, cf_meta (run c).2 = Some m /\ meta_matches c m = true
      | CGateFailed => (run c).1 = 3%Z /\ cf_failed (run c).2 = true
      | CMismatch => (run c).1 = 0%Z /\ exists m, cf_meta (run c).2 = Some m /\ meta_matches c m = false
      | CFailedExit code => code = (run c).1 /\ code <> 0%Z
      | CFailedFiles => (run c).1 = 0%Z /\ (cf_samples (run c).2 = false \/ cf_meta (run c).2 = None)
      | _ => True
      end
  end.

Lemma cell_run_one_ok dry run fs c :
  result_ok run (fs !! cl_name c) ((cell_run_one dry run fs c).1 !! cl_name c) c (cell_run_one dry run fs c).2.
Proof.
  unfold cell_run_one. set (old := fs !! cl_name c). set (here := default no_files old).
  destruct (bool_decide (is_Some (cf_meta here))) eqn:Em; cbn [orb].
  { cbn. split; [done|]. left. by apply bool_decide_eq_true in Em. }
  destruct (cf_failed here) eqn:Ef; [cbn; auto|]. destruct dry; [done|].
  assert (cf_meta here = None) as Hm by (apply bool_decide_eq_false in Em; by apply eq_None_not_Some).
  destruct (run c) as [code files] eqn:Er. cbn [fst snd]. rewrite lookup_insert_eq.
  destruct (Z.eqb code 3 && cf_failed files) eqn:E3.
  { apply andb_true_iff in E3 as [->%Z.eqb_eq Hf]. unfold result_ok. by rewrite Er. }
  destruct (Z.eqb_spec code 0) as [->|H0]; cbn [negb]; [|unfold result_ok; by rewrite Er].
  destruct (cf_samples files) eqn:Es; [|unfold result_ok; rewrite Er; naive_solver].
  destruct (cf_meta files) as [m|] eqn:Emf; [|unfold result_ok; rewrite Er; naive_solver].
  destruct (meta_matches c m) eqn:Emm; unfold result_ok; rewrite Er; naive_solver.
Qed.

(** What a pass of the gate pilot reports, for every cell: it is skipped, and left as it is,
    exactly when its directory has a record of an earlier run; it is reported as a success only
    if its run exited with 0 and left its samples and a record that matches the seed, the corpus,
    the pool, the threshold and the number of writes asked for; as a gate failure only on exit
    status 3 with the gate's own record; and every other outcome is reported as a failure. *)
Theorem gate_sweep_spec dry run cs fs i c :
  NoDup (cl_name <$> cs) -> cs !! i = Some c ->
  exists res, (gate_sweep dry run cs fs).2 !! i = Some (cl_name c, res) /\
    result_ok run (fs !! cl_name c) ((gate_sweep dry run cs fs).1 !! cl_name c) c res.
Proof.
  revert fs i. induction cs as [|c0 cs IH]; intros fs i Hnd Hi; [done|].
  rewrite fmap_cons in Hnd. apply NoDup_cons in Hnd as [Hn Hnd]. cbn [gate_sweep].
  destruct (cell_run_one dry run fs c0) as [fs1 r0] eqn:E1.
  destruct i as [|i]; cbn in Hi.
  - injection Hi as ->. pose proof (cell_run_one_ok dry run fs c) as H. rewrite E1 in H. cbn in H.
    pose proof (gate_sweep_other dry run cs fs1 (cl_name c) Hn) as Ho.
    destruct (gate_sweep dry run cs fs1) as [fs2 rs]. exists r0. cbn in *. by rewrite Ho.
  - destruct (IH fs1 i Hnd Hi) as (res & H1 & H2).
    assert (fs1 !! cl_name c = fs !! cl_name c) as Hsame.
    { pose proof (cell_run_one_other dry run fs c0 (cl_name c)) as H. rewrite E1 in H. apply H.
      intros E. apply Hn. rewrite <- E. apply list_elem_of_fmap_2. by eapply list_elem_of_lookup_2. }
    rewrite Hsame in H2. destruct (gate_sweep dry run cs fs1) as [fs2 rs]. exists res. done.
Qed.

Definition demo_cell_run (c : cell_spec) : Z * cell_files :=
  (0%Z, mkCellFiles (Some (mkGateMeta (Some (cl_seed c)) (Some (cl_n c)) (Some (cl_n c + POOL_HEADROOM)%N) (cl_thr c) (Some (cl_n c)))) false true).

Lemma gate_sweep_spec_witness :
  exists c res, cells !! 3 = Some c /\ (gate_sweep false demo_cell_run cells ∅).2 !! 3 = Some (cl_name c, res) /\ res = COk.
Proof.
  destruct (cells !! 3) as [c|] eqn:E; [|vm_compute in E; discriminate].
  destruct (gate_sweep_spec false demo_cell_run cells ∅ 3 c) as (res & H1 & H2);
    [apply cells_distinct|exact E|]. exists c, res. split; [reflexivity|]. split; [exact H1|].
  injection E as <-. vm_compute in H1. congruence.
Defined.

(** A run whose record does not match what was asked is reported once; the record stays, so
    the next pass skips the cell as present. *)
Lemma mismatch_is_skipped_next c run run' fs :
  (cell_run_one false run fs c).2 = CMismatch ->
  (cell_run_one false run' (cell_run_one false run fs c).1 c).2 = CSkip.
Proof.
  intros H. pose proof (cell_run_one_ok false run fs c) as Hr. rewrite H in Hr. destruct Hr as (Hn & _ & _ & _ & m & Hm & _).
  revert Hn. generalize (cell_run_one false run fs c).1. intros fs1 Hn. unfold cell_run_one. rewrite Hn.
  cbn [default from_option id]. by rewrite Hm.
Qed.

(** The exit status is 0 whatever failed. *)
Lemma gate_sweep_always_0 dry only run fs : (gate_sweep_main dry only run fs).2 = 0%Z.
Proof. done. Qed.
