(* ===== verification/VerifyCorpus.v ===== *)
(** * Checking the corpus before a sweep

    [research/layer1_reproduction/verify_corpus.py]: what the header and the size of an fvecs
    file say of it, and the decision whether the sweep may run. The loader that reads the file
    afterwards is that of [Sift]. *)

From stdpp Require Import base list gmap strings.
From Stdlib Require Import ZArith Lia.
From S2P Require Import Prelude Bytes Sift.

Local Open Scope nat_scope.

Definition DIM : Z := 128.
Definition QUERY_VECTORS : Z := 10000.

(** [describe]: dimension, number of vectors and size of a file that is there, or nothing. *)
Definition describe (content : option (list Z)) : option (Z * Z * Z) :=
  match content with
  | None => None
  | Some b =>
      let size := Z.of_nat (length b) in
      let head := take 4 b in
      if length head <? 4 then None
      else
        let dim := i32 head in
        if Z.leb dim 0 then None
        else
          let rec := (4 + 4 * dim)%Z in
          if negb (Z.eqb (size mod rec) 0) then None else Some (dim, (size / rec)%Z, size)
  end.

(** [main]: exit status 0 or 1. *)
Definition verify_main (vectors : Z) (base query : option (list Z)) : Z :=
  let okb := match describe base with
             | Some (dim, n, _) => Z.eqb dim DIM && Z.leb vectors n
             | None => false
             end in
  let okq := match describe query with
             | Some (dim, n, _) => Z.eqb dim DIM && Z.eqb n QUERY_VECTORS
             | None => false
             end in
  if okb && okq then 0%Z else 1%Z.

(** * Properties *)

Lemma describe_Some b d n s :
  describe (Some b) = Some (d, n, s) <->
  4 <= length b /\ d = i32 (take 4 b) /\ (0 < d)%Z /\ s = Z.of_nat (length b) /\ (s = n * (4 + 4 * d))%Z.
Proof.
  unfold describe. rewrite length_take. destruct (Nat.min 4 (length b) <? 4) eqn:E; breflect.
  { split; [done|]. intros [? _]. lia. }
  destruct (Z.leb_spec (i32 (take 4 b)) 0) as [Hd|Hd]; [split; [done|]; intros (_ & -> & ? & _); lia|].
  set (rec := (4 + 4 * i32 (take 4 b))%Z). assert (0 < rec)%Z as Hr by (unfold rec; lia).
  destruct (Z.eqb_spec (Z.of_nat (length b) mod rec) 0) as [Hm|Hm]; cbn [negb].
  - split.
    + intros [= <- <- <-]. split_and!; try done; [lia|]. fold rec. pose proof (Z.div_mod (Z.of_nat (length b)) rec). lia.
    + intros (_ & -> & _ & -> & Hs). fold rec in Hs. rewrite Hs, Z.div_mul by lia. done.
  - split; [done|]. intros (_ & -> & _ & -> & Hs). fold rec in Hs. destruct Hm. rewrite Hs. by apply Z.mod_mul; lia.
Qed.

(** What the loader accepts the check describes: the file of [n] rows of a positive dimension
    is described as that. *)
Lemma describe_encoded dim rows :
  0 < dim -> is_i32 (Z.of_nat dim) -> rows <> [] -> Forall (fvecs_row dim) rows ->
  describe (Some (encode_fvecs dim rows)) =
    Some (Z.of_nat dim, Z.of_nat (length rows), Z.of_nat (length rows * record_bytes dim)).
Proof.
  intros Hd Hi Hne Hrows. apply describe_Some. pose proof (encode_fvecs_length dim rows Hrows) as Hl.
  assert (take 4 (encode_fvecs dim rows) = le_bytes 4 (Z.of_nat dim)) as Ht.
  { destruct rows as [|r rows]; [done|]. unfold encode_fvecs. rewrite fmap_cons. cbn [concat]. unfold encode_record at 1.
    rewrite <- app_assoc, take_app_length' by (by rewrite le_bytes_length). done. }
  rewrite Ht, i32_bytes, Hl by done. unfold record_bytes, HEADER_BYTES. destruct rows; [done|]. cbn [length].
  split_and!; lia.
Qed.

(** The check and the loader. A sweep that the check lets through has a base file of at least
    the vectors it asks for and a query file of exactly ten thousand, both whole records of 128
    components; and if every record carries its own header, which the check does not read, the
    loader then returns exactly as many rows as it is asked for. *)
Theorem verify_corpus_sound vectors base query :
  verify_main vectors base query = 0%Z ->
  exists b q n, base = Some b /\ query = Some q /\
    (Z.of_nat (length b) = n * 516)%Z /\ (vectors <= n)%Z /\ (Z.of_nat (length q) = 10000 * 516)%Z /\
    forall v, 1 <= v -> (Z.of_nat v <= n)%Z ->
      Forall (fun w => w.1 = DIM) (items (parse_record 128) (record_bytes 128) (Z.to_nat n) b) ->
      exists rows, read_fvecs b (Some v) 128 = Ok rows /\ length rows = v.
Proof.
  unfold verify_main. destruct base as [b|]; [|done]. destruct query as [q|]; [|cbn [describe]; by rewrite andb_false_r].
  destruct (describe (Some b)) as [[[d n] s]|] eqn:Eb; [|done].
  destruct (describe (Some q)) as [[[d' n'] s']|] eqn:Eq; [|by rewrite andb_false_r].
  destruct (Z.eqb_spec d DIM) as [->|]; [|done]. destruct (Z.leb_spec vectors n); [|done].
  destruct (Z.eqb_spec d' DIM) as [->|]; [|done]. destruct (Z.eqb_spec n' QUERY_VECTORS) as [->|]; [|done]. intros _.
  apply describe_Some in Eb as (_ & _ & _ & -> & Hb), Eq as (_ & _ & _ & -> & Hq).
  exists b, q, n. split; [done|]. split; [done|]. unfold DIM, QUERY_VECTORS in *. split; [lia|]. split; [done|]. split; [lia|].
  intros v Hv Hvn Hall. unfold read_fvecs, record_bytes, HEADER_BYTES in *. cbn [fmap option_fmap option_map read_bytes].
  change (4 + 4 * 128) with 516 in *.
  assert (length (take (v * 516) b) = v * 516) as Hl by (rewrite length_take; lia).
  rewrite Hl, Nat.Div0.mod_mul, Nat.div_mul by lia.
  destruct (Nat.eqb_spec (v * 516) 0); [lia|]. cbn [Nat.eqb negb]. rewrite Nat.ltb_irrefl.
  assert (items (parse_record 128) 516 v (take (v * 516) b) = take v (items (parse_record 128) 516 (Z.to_nat n) b)) as ->.
  { rewrite items_take by lia. replace (Z.to_nat n) with (v + (Z.to_nat n - v)) by lia. rewrite items_app.
    by rewrite take_app_length' by (symmetry; apply items_length). }
  assert (existsb (fun w : Z * list Z => negb (Z.eqb w.1 (Z.of_nat 128))) (take v (items (parse_record 128) 516 (Z.to_nat n) b)) = false) as ->.
  { apply headers_ok. apply Forall_take. exact Hall. }
  eexists. split; [done|]. rewrite length_fmap, length_take, items_length. lia.
Qed.

(** A file of [n] zero vectors. *)
Definition zero_file (n : N) : list Z := encode_fvecs 128 (replicate (N.to_nat n) (replicate 128 0%Z)).

Lemma describe_zero_file n : (0 < n)%N -> exists s, describe (Some (zero_file n)) = Some (128, Z.of_N n, s)%Z.
Proof.
  intros Hn. eexists. unfold zero_file. rewrite describe_encoded.
  - rewrite length_replicate, N_nat_Z. reflexivity.
  - lia.
  - unfold is_i32. lia.
  - destruct (N.to_nat n) eqn:E; [lia|done].
  - apply Forall_replicate. split; [by rewrite length_replicate|]. apply Forall_replicate. unfold is_u32. lia.
Qed.

Lemma verify_corpus_sound_witness :
  exists n, (Z.of_nat (length (zero_file 3)) = n * 516)%Z /\ (2 <= n)%Z.
Proof.
  destruct (verify_corpus_sound 2 (Some (zero_file 3)) (Some (zero_file 10000))) as (b & q & n & Hb & _ & H1 & H2 & _).
  - unfold verify_main. destruct (describe_zero_file 3 eq_refl) as [s ->].
    destruct (describe_zero_file 10000 eq_refl) as [s' ->]. reflexivity.
  - injection Hb as <-. exists n. split; [exact H1|exact H2].
Defined.

(** Headers after the first are not read: a file with a wrong one passes the description and
    is refused by the loader. *)
Lemma later_header_unseen :
  let b := ([1; 0; 0; 0; 9; 9; 9; 9] ++ [2; 0; 0; 0; 9; 9; 9; 9])%Z in
  describe (Some b) = Some (1, 2, 16)%Z /\ read_fvecs b None 1 = Raise ValueError.
Proof. done. Qed.
