(* ===== verification/QdrantClient.v ===== *)
(** * The Qdrant REST client at the level of its replies

    [http_request], the waits and [create_collection] of
    [research/cross_system_replication/qdrant_topology.py] on decoded JSON, and
    [build_probes] of [qdrant_probe.py]. [QdrantCluster] has the same waits on the few
    values they read; here those values are taken out of the documents, and whatever a
    server sends instead of them is handled as the [try] blocks handle it. *)

From stdpp Require Import base list strings pretty.
From Stdlib Require Import QArith ZArith Lia.
From S2P Require Import Prelude PyFloat Sampler ChaosHarness QdrantCluster Json.

Local Open Scope nat_scope.

(** ** [http_request] *)

(** What a request meets: an exception of the connection, or an answer. *)
Inductive q_wire : Type := WRaised | WAnswer (status : Z) (r : raw).

(** A body that is not JSON reads as an empty object. *)
Definition q_decode (r : raw) : json := match r with RawJson j => j | _ => JDict [] end.

Definition q_http_request (w : q_wire) : http json :=
  match w with WRaised => HttpExn | WAnswer st r => HttpResp st (q_decode r) end.

(** [len(x)] *)
Definition jlen (j : json) : result nat :=
  match j with
  | JStr s => Ok (String.length s)
  | JList l => Ok (length l)
  | JDict d => Ok (length d)
  | _ => Raise TypeError
  end.

(** [x + y] of two sequences. *)
Definition jadd (x y : json) : result json :=
  match x, y with
  | JList a, JList b => Ok (JList (a ++ b))
  | JStr a, JStr b => Ok (JStr (a +:+ b))
  | _, _ => Raise TypeError
  end.

Definition is_str (s : string) (j : json) : bool :=
  match j with JStr x => bool_decide (x = s) | _ => false end.

(** [except Exception]: the test counts as not passed. *)
Definition caught (r : result bool) : bool := match r with Ok b => b | Raise _ => false end.

(** ** [wait_for_cluster_formed] *)

Definition node_formed (expected : nat) (w : q_wire) : bool :=
  match q_http_request w with
  | HttpExn => false
  | HttpResp st body =>
      caught (res ← jget_or "result" (JDict []) body;
              if negb (Z.eqb st 200) then Ok false
              else
                s ← jget "status" res;
                if negb (is_str "enabled" s) then Ok false
                else
                  peers ← jget_or "peers" (JDict []) res;
                  n ← jlen peers;
                  Ok (expected <=? n))
  end.

Definition cluster_formed (node_ids : list nat) (reply : nat -> q_wire) : bool :=
  forallb (fun n => node_formed (length node_ids) (reply n)) node_ids.

Definition q_wait_for_cluster_formed (deadline : Q) (rounds : list (Q * (nat -> q_wire))) (node_ids : list nat)
    : option bool := poll_until deadline rounds (cluster_formed node_ids).

(** ** [wait_for_shards_active] *)

(** [all(s.get("state") == "Active" for s in ...)], which stops at the first that is not. *)
Fixpoint all_active (items : list json) : result bool :=
  match items with
  | [] => Ok true
  | s :: rest => v ← jget "state" s; if is_str "Active" v then all_active rest else Ok false
  end.

Definition shards_active (w : q_wire) : bool :=
  match q_http_request w with
  | HttpExn => false
  | HttpResp st body =>
      caught (res ← jget_or "result" (JDict []) body;
              local ← jget_or "local_shards" (JList []) res;
              remote ← jget_or "remote_shards" (JList []) res;
              nl ← jlen local;
              nr ← jlen remote;
              if negb (Z.eqb st 200 && (Q_NUM_SHARDS * Q_REPLICAS_PER_SHARD <=? nl + nr)) then Ok false
              else both ← jadd local remote; items ← jiter both; all_active items)
  end.

Definition q_wait_for_shards_active (deadline : Q) (rounds : list (Q * q_wire)) : option bool :=
  poll_until deadline rounds shards_active.

(** ** [create_collection] *)

Definition Jn (n : nat) : json := JNum (inject_Z (Z.of_nat n)).

Definition create_request (indexing_threshold_kb : option Z) : json :=
  JDict ([("vectors", JDict [("size", Jn 128); ("distance", JStr "Euclid")]);
          ("shard_number", Jn Q_NUM_SHARDS); ("replication_factor", Jn Q_REPLICAS_PER_SHARD);
          ("write_consistency_factor", Jn 1)]%string
         ++ match indexing_threshold_kb with
            | Some t => [("optimizers_config", JDict [("indexing_threshold", JNum (inject_Z t))])]%string
            | None => []
            end).

(** The exception of a connection that fails is not caught here. *)
Definition create_collection (w : q_wire) : result bool :=
  match q_http_request w with
  | HttpExn => Raise (OtherError "OSError")
  | HttpResp st _ => Ok (Z.eqb st 200)
  end.

(** ** [build_probes] *)

Definition q_build_probes (num_shards replicas_per_shard : nat) (port_fn : nat -> nat -> Z) : list probe :=
  mjoin ((fun s => (fun r => mkProbe ("shard-" +:+ pretty s +:+ "-" +:+ pretty r) s r (port_fn s r))
                     <$> seq 0 replicas_per_shard) <$> seq 0 num_shards).

(** * Properties *)

(** ** The documents carry what the abstract waits see *)

Definition str_of (j : json) : option string := match j with JStr s => Some s | _ => None end.

Definition cluster_reply (w : q_wire) : http (option string * nat) :=
  match q_http_request w with
  | HttpExn => HttpExn
  | HttpResp st body =>
      match (res ← jget_or "result" (JDict []) body;
             s ← jget "status" res;
             peers ← jget_or "peers" (JDict []) res;
             n ← jlen peers;
             Ok (str_of s, n)) with
      | Ok x => HttpResp st x
      | Raise _ => HttpExn
      end
  end.

Definition state_str (v : json) : string := default "" (str_of v).

Definition shards_reply (w : q_wire) : http (list string * list string) :=
  match q_http_request w with
  | HttpExn => HttpExn
  | HttpResp st body =>
      match (res ← jget_or "result" (JDict []) body;
             local ← jget_or "local_shards" (JList []) res;
             remote ← jget_or "remote_shards" (JList []) res;
             match local, remote with
             | JList a, JList b =>
                 x ← rmapM (jget "state") a; y ← rmapM (jget "state") b;
                 Ok (List.map state_str x, List.map state_str y)
             | _, _ => Raise TypeError
             end) with
      | Ok x => HttpResp st x
      | Raise _ => HttpExn
      end
  end.

Lemma is_str_spec s j : is_str s j = bool_decide (str_of j = Some s).
Proof. destruct j; try done. cbn. apply bool_decide_ext. naive_solver. Qed.

Lemma node_formed_reply expected w :
  node_formed expected w =
  match cluster_reply w with
  | HttpResp st (status, peers) =>
      Z.eqb st 200 && bool_decide (status = Some "enabled"%string) && (expected <=? peers)
  | HttpExn => false
  end.
Proof.
  unfold node_formed, cluster_reply. destruct (q_http_request w) as [|st body]; [done|].
  destruct (jget_or "result" _ body) as [res|]; cbn; [|done].
  destruct (jget "status" res) as [s|] eqn:Es; cbn; [|by destruct (Z.eqb st 200)].
  destruct (jget_or "peers" _ res) as [peers|]; cbn.
  - rewrite is_str_spec. destruct (jlen peers); cbn; destruct (Z.eqb st 200), (bool_decide _); done.
  - destruct (Z.eqb st 200), (is_str _ s); done.
Qed.

Lemma rmapM_length {A B} (f : A -> result B) l ys : rmapM f l = Ok ys -> length ys = length l.
Proof. intros H. apply rmapM_Ok, Forall2_length in H. done. Qed.

Lemma all_active_app a b :
  all_active (a ++ b) = (x ← all_active a; if x : bool then all_active b else Ok false).
Proof.
  induction a as [|s a IH]; cbn; [done|]. destruct (jget "state" s) as [v|]; cbn; [|done].
  by destruct (is_str _ v).
Qed.

(** When every shard has a state to read, [all] is what it seems to be. *)
Lemma all_active_states items vs :
  rmapM (jget "state") items = Ok vs ->
  all_active items = Ok (forallb (fun s => bool_decide (s = "Active"%string)) (List.map state_str vs)).
Proof.
  revert vs. induction items as [|s items IH]; cbn; intros vs H; [by simplify_eq|].
  bind_inv H. simplify_eq. cbn. rewrite is_str_spec.
  case_bool_decide as H1; case_bool_decide as H2; cbn.
  - by apply IH.
  - unfold state_str in H2. by rewrite H1 in H2.
  - unfold state_str in H2. destruct (str_of a) eqn:E; cbn in H2; [|done]. by subst.
  - done.
Qed.

(** A shard without a readable state keeps the answer from being yes. *)
Lemma all_active_raise items e : rmapM (jget "state") items = Raise e -> caught (all_active items) = false.
Proof.
  induction items as [|s items IH]; cbn; [done|]. destruct (jget "state" s) as [v|]; cbn; [|done].
  destruct (rmapM _ items); [done|]. intros H. destruct (is_str _ v); [by apply IH|done].
Qed.

Lemma shards_active_reply w : shards_active w = shards_ok (shards_reply w).
Proof.
  unfold shards_active, shards_reply, shards_ok. destruct (q_http_request w) as [|st body]; [done|].
  destruct (jget_or "result" _ body) as [res|]; cbn [mbind result_bind]; [|done].
  destruct (jget_or "local_shards" _ res) as [local|]; cbn [mbind result_bind]; [|done].
  destruct (jget_or "remote_shards" _ res) as [remote|]; cbn [mbind result_bind]; [|done].
  destruct local as [|b1|q1|x|a|d], remote as [|b2|q2|y|b|d']; cbn [jlen mbind result_bind jadd caught]; try done;
    try (destruct (negb _); done).
  - (* two strings: a character has no state *)
    destruct (negb _) eqn:E; [done|]. apply negb_false_iff, andb_true_iff in E as [_ E]. apply Nat.leb_le in E.
    cbn [jiter mbind result_bind].
    destruct x as [|c x]; [|done]. destruct y as [|c y]; [|done]. cbn in E. lia.
  - cbn [jiter mbind result_bind].
    destruct (rmapM (jget "state") a) as [vs|] eqn:Ea; cbn [mbind result_bind].
    + destruct (rmapM (jget "state") b) as [us|] eqn:Eb; cbn [mbind result_bind].
      * rewrite !length_map, (rmapM_length _ _ _ Ea), (rmapM_length _ _ _ Eb).
        destruct (Z.eqb st 200 && _); cbn [negb caught]; [|done].
        rewrite all_active_app, (all_active_states _ _ Ea). cbn [mbind result_bind].
        rewrite forallb_app. destruct (forallb _ _); [|done]. by rewrite (all_active_states _ _ Eb).
      * destruct (negb _); [done|]. rewrite all_active_app, (all_active_states _ _ Ea). cbn [mbind result_bind].
        destruct (forallb _ _); [|done]. by eapply all_active_raise.
    + destruct (negb _); [done|]. rewrite all_active_app. pose proof (all_active_raise _ _ Ea) as H.
      destruct (all_active a) as [[]|]; done.
Qed.

Lemma poll_until_decoded {A B} deadline (rounds : list (Q * A)) (f : A -> B) test test' :
  (forall a, test a = test' (f a)) ->
  poll_until deadline rounds test = poll_until deadline (prod_map id f <$> rounds) test'.
Proof.
  intros H. induction rounds as [|[now a] rounds IH]; [done|]. cbn. rewrite <- H. by rewrite IH.
Qed.

Lemma jget_or_Ok k d j v : jget_or k d j = Ok v -> exists m, j = JDict m /\ v = default d (dget k m).
Proof. destruct j; try done. intros [= <-]. eauto. Qed.

Lemma caught_bind {A} (m : result A) (f : A -> result bool) :
  caught (m ≫= f) = true -> exists x, m = Ok x /\ caught (f x) = true.
Proof. destruct m as [x|]; cbn; [eauto|done]. Qed.

Lemma all_active_true items : all_active items = Ok true -> forall s, s ∈ items -> jget "state" s = Ok (JStr "Active").
Proof.
  induction items as [|x items IH]; [by intros _ s ?%not_elem_of_nil|]. cbn. intros H s Hs.
  destruct (jget "state" x) as [v|] eqn:E; [|done]. cbn in H. destruct (is_str "Active" v) eqn:Ev; [|done].
  rewrite is_str_spec in Ev. apply bool_decide_eq_true in Ev. destruct v; simplify_eq/=.
  apply elem_of_cons in Hs as [->|Hs]; [done|by apply IH].
Qed.

(** What an answer that ends the wait for the shards says. *)
Lemma shards_active_true w :
  shards_active w = true ->
  exists r body res a b, w = WAnswer 200 r /\ q_decode r = JDict body /\ dget "result" body = Some (JDict res) /\
    default (JList []) (dget "local_shards" res) = JList a /\ default (JList []) (dget "remote_shards" res) = JList b /\
    6 <= length (a ++ b) /\ forall s, s ∈ a ++ b -> jget "state" s = Ok (JStr "Active").
Proof.
  destruct w as [|st r]; [done|]. unfold shards_active. cbn [q_http_request]. intros H.
  apply caught_bind in H as (res0 & (body & Eb & Er)%jget_or_Ok & H).
  apply caught_bind in H as (local & (res & -> & El)%jget_or_Ok & H).
  apply caught_bind in H as (remote & (res' & [= <-] & Em)%jget_or_Ok & H).
  apply caught_bind in H as (nl & Hl & H). apply caught_bind in H as (nr & Hr & H).
  destruct (negb _) eqn:E; [done|]. apply negb_false_iff, andb_true_iff in E as [->%Z.eqb_eq E%Nat.leb_le].
  apply caught_bind in H as (both & Hb & H). apply caught_bind in H as (items & Hi & H).
  destruct (all_active items) as [ok|] eqn:Ea; [|done]. cbn in H. subst ok.
  pose proof (all_active_true _ Ea) as Hall.
  exists r, body, res. destruct (dget "result" body) as [j|] eqn:Ed.
  2:{ cbn in Er. injection Er as ->. cbn in El, Em. subst. cbn in Hl, Hr. simplify_eq. unfold Q_NUM_SHARDS in E. cbn in E. lia. }
  cbn in Er. subst j. destruct local as [|b1|q1|x|a|d], remote as [|b2|q2|y|b|d']; try done; cbn in Hb, Hl, Hr; simplify_eq.
  - exfalso. cbn in Hi. simplify_eq. destruct x as [|c x].
    + destruct y as [|c y]; [cbn in E; lia|]. discriminate (Hall (JStr (String c "")) ltac:(left)).
    + discriminate (Hall (JStr (String c "")) ltac:(left)).
  - cbn in Hi. simplify_eq. exists a, b. split_and!; try done. rewrite length_app. exact E.
Qed.

(** The waits of a bring-up, on the documents the servers send, are the abstract waits on
    what those documents say, for every document: a body that is not JSON, a field that is
    missing or of another type, and a connection that fails only delay them. So a wait that
    succeeds has seen, before its deadline, every node answer 200 with the string "enabled"
    and enough peers, or every replica of every shard listed with the string "Active". *)
Theorem waits_decode deadline (rounds : list (Q * (nat -> q_wire))) (srounds : list (Q * q_wire)) node_ids :
  q_wait_for_cluster_formed deadline rounds node_ids =
    wait_for_cluster_formed deadline (prod_map id (fun reply n => cluster_reply (reply n)) <$> rounds) node_ids /\
  q_wait_for_shards_active deadline srounds =
    wait_for_shards_active deadline (prod_map id shards_reply <$> srounds) /\
  (q_wait_for_shards_active deadline srounds = Some true ->
   exists now r body res a b, (now, WAnswer 200 r) ∈ srounds /\ (now < deadline)%Q /\ q_decode r = JDict body /\
     dget "result" body = Some (JDict res) /\
     default (JList []) (dget "local_shards" res) = JList a /\ default (JList []) (dget "remote_shards" res) = JList b /\
     6 <= length (a ++ b) /\ forall s, s ∈ a ++ b -> jget "state" s = Ok (JStr "Active")).
Proof.
  split; [|split].
  - apply poll_until_decoded. intros reply. unfold cluster_formed, cluster_ok.
    induction node_ids as [|n ns IH] at 2 4; [done|]. cbn. by rewrite node_formed_reply, IH.
  - apply poll_until_decoded, shards_active_reply.
  - intros H. apply poll_until_true in H as (now & w & Hin & Hd & H).
    apply shards_active_true in H as (r & body & res & a & b & -> & H). exists now, r, body, res, a, b. by split.
Qed.

(** ** The collection and the probes *)

(** The request asks for the layout that the waits then check and the probes dial, and
    leaves the optimizer alone unless a threshold was given. *)
Lemma create_request_layout thr :
  exists m, create_request thr = JDict m /\
    dget "shard_number" m = Some (Jn (cb_shard_number (create_collection_body thr))) /\
    dget "replication_factor" m = Some (Jn (cb_replication_factor (create_collection_body thr))) /\
    dget "write_consistency_factor" m = Some (Jn (cb_write_consistency (create_collection_body thr))) /\
    (dget "optimizers_config" m = None <-> cb_indexing_threshold (create_collection_body thr) = None).
Proof. destruct thr; (eexists; split; [reflexivity|]; split_and!; [done|done|done|]; split; done). Qed.

(** One probe per shard and node, under distinct names, the same as the other system's
    probes but for the ports; every probe of a node dials the one port the node has. *)
Lemma q_build_probes_spec :
  let ps := q_build_probes Q_NUM_SHARDS Q_REPLICAS_PER_SHARD probe_port_fn in
  (forall s r port_fn, q_build_probes s r port_fn = build_probes s r port_fn) /\
  length ps = Q_NUM_SHARDS * Q_REPLICAS_PER_SHARD /\ NoDup (p_name <$> ps) /\
  (forall p, p ∈ ps -> p_port p = internal_port (p_replica p)).
Proof.
  cbv zeta. split; [|split; [done|split; [decide_now|]]].
  - intros s r f. unfold q_build_probes, build_probes, probe_name. induction (seq 0 s) as [|x l IH]; [done|].
    cbn. f_equal. exact IH.
  - intros p Hp. repeat (apply elem_of_cons in Hp as [->|Hp]; [done|]). by apply not_elem_of_nil in Hp.
Qed.

(** A wait that meets text, an object without the fields and then a formed cluster. *)
Example demo_wait :
  let formed := WAnswer 200 (RawJson (JDict [("result", JDict [("status", JStr "enabled");
                   ("peers", JDict [("1", JNull); ("2", JNull); ("3", JNull)])])]))%string in
  q_wait_for_cluster_formed 60
    [(0, fun _ => WRaised); (1, fun _ => WAnswer 200 (RawText "starting")); (2, fun _ => WAnswer 200 (RawJson (JList [])));
     (3, fun _ => formed)]%Q [0; 1; 2] = Some true.
Proof. vm_compute. reflexivity. Qed.
