(* ===== verification/QdrantCorpus.v ===== *)
(** * The corpus of the Qdrant writers

    [RetainingWriter] of [research/cross_system_replication/qdrant_run_experiment.py]: what
    a confirmed batch does to the dictionaries and to the growing array, the settled set, the
    snapshot a sweep scores against and the query set. [QdrantRun] has the threads of the
    same class with the corpus as the list of confirmed numbers; here each of its steps also
    acts on the store, and the store is shown to implement that list. *)

From stdpp Require Import base list gmap strings pretty sorting.
From Stdlib Require Import QArith Lqa ZArith Lia.
From S2P Require Import Prelude PyFloat Metrics Writer ChaosHarness QdrantRun.

Local Open Scope nat_scope.

(** ** State *)

(** [f"{100_000_000 + i}"] *)
Definition qid (i : nat) : string := pretty (100000000 + N.of_nat i)%N.

(** The vector of number [i]: a row of the file in the seeded order, or what the thread's
    generator gave when the number was handed out. *)
Inductive qsource : Type :=
| QSift (base : list vec) (order : list nat)
| QDrawn (draw : nat -> vec).

Definition vec_of (src : qsource) (i : nat) : vec :=
  match src with
  | QSift base order => nth (nth i order 0) base []
  | QDrawn draw => draw i
  end.

Record cstore := mkCS {
  cs_vector_of : gmap string vec;
  cs_confirmed_at : gmap string Q;
  cs_ids : list string;
  cs_row : gmap string nat;
  cs_arrays : list (list vec);      (* every array ever bound to _corpus_mat *)
  cs_mat : nat;                     (* which of them _corpus_mat names now *)
  cs_n : nat;
}.

Definition cs_init : cstore := mkCS ∅ ∅ [] ∅ [[]] 0 0.

Definition cs_cur (s : cstore) : list vec := nth (cs_mat s) (cs_arrays s) [].

(** ** Operations *)

Section Store.
(** What [np.empty] leaves in a cell. *)
Context (junk : nat -> vec) (src : qsource).

(** [_append_corpus] *)
Definition q_append_corpus (s : cstore) (vid : string) (v : vec) : cstore :=
  let '(arrays, m) :=
    if decide (cs_n s = length (cs_cur s))
    then let new_cap := max 1024 (length (cs_cur s) * 2) in
         (cs_arrays s ++ [take (cs_n s) (cs_cur s) ++ (junk <$> seq (cs_n s) (new_cap - cs_n s))],
          length (cs_arrays s))
    else (cs_arrays s, cs_mat s) in
  mkCS (cs_vector_of s) (cs_confirmed_at s) (cs_ids s ++ [vid]) (<[vid := cs_n s]> (cs_row s))
    (<[m := <[cs_n s := v]> (nth m arrays [])]> arrays) m (S (cs_n s)).

(** One turn of [for vid, vec in batch]. *)
Definition confirm_one (now : Q) (s : cstore) (i : nat) : cstore :=
  q_append_corpus
    (mkCS (<[qid i := vec_of src i]> (cs_vector_of s)) (<[qid i := now]> (cs_confirmed_at s))
       (cs_ids s) (cs_row s) (cs_arrays s) (cs_mat s) (cs_n s)) (qid i) (vec_of src i).

Definition store_batch (now : Q) (b : list nat) (s : cstore) : cstore := foldl (confirm_one now) s b.

(** A step of a thread, at a time, with its effect on the store. *)
Definition cstate : Type := qwriter * cstore.

Definition c_step (st : cstate) (e : qwevent * Q) : option cstate :=
  match qw_step st.1 e.1 with
  | None => None
  | Some w' =>
      Some (w', match e.1 with
                | QReply t h =>
                    match qw_threads st.1 !! t with
                    | Some (QSent b) => if status_ok h then store_batch e.2 b st.2 else st.2
                    | _ => st.2
                    end
                | _ => st.2
                end)
  end.

Fixpoint c_run (st : cstate) (es : list (qwevent * Q)) : option cstate :=
  match es with
  | [] => Some st
  | e :: es' => match c_step st e with Some st' => c_run st' es' | None => None end
  end.
End Store.

Definition c_init (limit : option nat) (batch threads : nat) : cstate := (qw_init limit batch threads, cs_init).

(** [intended_set] *)
Definition q_intended_set (s : cstore) (now settle_s : Q) : gset string :=
  dom (filter (fun it : string * Q => (it.2 <= now - settle_s)%Q) (cs_confirmed_at s)).

(** [snapshot_corpus], and what its holder sees when the store is [s]. *)
Definition q_snapshot_corpus (s : cstore) : snapshot := mkSnap (cs_mat s) (cs_n s).
Definition q_view (s : cstore) (sn : snapshot) : Corpus :=
  mkCorpus (cs_ids s) (nth (snap_mat sn) (cs_arrays s) []) (cs_row s) (snap_n sn).

(** [make_queries]: [pick] is the generator's choice, [drawn] its vectors. *)
Definition q_make_queries (sift_queries : option (list vec)) (pick : list nat) (drawn : list vec) (n : nat)
    : result (list vec) :=
  match sift_queries with
  | Some pool => if length pool <? n then Raise ValueError else rmapM (py_index pool) (sorted Nat.leb pick)
  | None => Ok drawn
  end.

(** * Properties *)

Lemma qid_inj i j : qid i = qid j -> i = j.
Proof. unfold qid. intros H. apply (inj pretty) in H. lia. Qed.

(** ** The store is the other system's store *)

Definition as_writer (s : cstore) : wstate :=
  mkW Generated 0 false 0 0 (cs_vector_of s) (cs_confirmed_at s) (cs_ids s) (cs_row s) (cs_arrays s)
    (cs_mat s) (cs_n s) [].

(** The two copies of [_append_corpus] are the same function. *)
Lemma as_writer_append junk s vid v :
  as_writer (q_append_corpus junk s vid v) = append_corpus junk (as_writer s) vid v.
Proof.
  unfold q_append_corpus, append_corpus, Writer.grow, as_writer, cur_array, cs_cur. cbn.
  by destruct (decide _).
Qed.

(** ** What the store represents *)

Record rep (src : qsource) (s : cstore) (c : list nat) : Prop := {
  rep_ids : cs_ids s = qid <$> c;
  rep_n : cs_n s = length c;
  rep_mat : cs_mat s < length (cs_arrays s);
  rep_cap : cs_n s <= length (cs_cur s);
  rep_row : forall i r, cs_row s !! i = Some r <-> cs_ids s !! r = Some i;
  rep_dom : forall i, i ∈ cs_ids s <-> is_Some (cs_confirmed_at s !! i);
  rep_vec : forall r x, c !! r = Some x -> cs_cur s !! r = Some (vec_of src x);
  rep_vector_of : forall i, cs_vector_of s !! i = None \/ exists x, x ∈ c /\ i = qid x /\ cs_vector_of s !! i = Some (vec_of src x);
}.

Lemma rep_init src : rep src cs_init [].
Proof.
  split; cbn; try done; try lia.
  - intros i. split; [by intros ?%not_elem_of_nil|by intros [? ?]].
  - intros i. by left.
Qed.

Section Confirm.
Context (junk : nat -> vec) (src : qsource).

(** What later appends leave of the arrays that exist. *)
Lemma confirm_one_arrays now s i :
  cs_mat s < length (cs_arrays s) -> cs_n s <= length (cs_cur s) ->
  let s' := confirm_one junk src now s i in
  cs_mat s' < length (cs_arrays s') /\ cs_n s < length (cs_cur s') /\ cs_cur s' !! cs_n s = Some (vec_of src i) /\
  (forall r, r < cs_n s -> cs_cur s' !! r = cs_cur s !! r) /\
  (forall a, a < length (cs_arrays s) -> a < length (cs_arrays s') /\
     length (nth a (cs_arrays s') []) = length (nth a (cs_arrays s) []) /\
     forall r, r < cs_n s -> nth a (cs_arrays s') [] !! r = nth a (cs_arrays s) [] !! r).
Proof.
  intros Hm Hc s'.
  set (s0 := mkCS (<[qid i := vec_of src i]> (cs_vector_of s)) (<[qid i := now]> (cs_confirmed_at s))
               (cs_ids s) (cs_row s) (cs_arrays s) (cs_mat s) (cs_n s)).
  pose proof (append_corpus_arrays junk (as_writer s0) (qid i) (vec_of src i) Hm Hc) as H.
  rewrite <- as_writer_append in H. exact H.
Qed.

Lemma confirm_one_fields now s i :
  let s' := confirm_one junk src now s i in
  cs_ids s' = cs_ids s ++ [qid i] /\ cs_row s' = <[qid i := cs_n s]> (cs_row s) /\ cs_n s' = S (cs_n s) /\
  cs_confirmed_at s' = <[qid i := now]> (cs_confirmed_at s) /\
  cs_vector_of s' = <[qid i := vec_of src i]> (cs_vector_of s).
Proof. unfold confirm_one, q_append_corpus. cbn. by destruct (decide _). Qed.

Lemma qid_fresh (c : list nat) i : i ∉ c -> qid i ∉ qid <$> c.
Proof. intros Hi (j & Hj%qid_inj & Hc)%list_elem_of_fmap. by subst. Qed.

Lemma rep_confirm now s c i : rep src s c -> i ∉ c -> rep src (confirm_one junk src now s i) (c ++ [i]).
Proof.
  intros [Ei En Em Ec Er Ed Ev Eo] Hi. pose proof (qid_fresh c i Hi) as Hf. rewrite <- Ei in Hf.
  destruct (confirm_one_arrays now s i Em Ec) as (A1 & A2 & A3 & A4 & _).
  destruct (confirm_one_fields now s i) as (F1 & F2 & F3 & F4 & F5).
  assert (length (cs_ids s) = cs_n s) as Hl by (by rewrite Ei, length_fmap).
  split; rewrite ?F1, ?F2, ?F3, ?F4, ?F5, ?length_app; cbn [length]; try done.
  - by rewrite Ei, fmap_app.
  - lia.
  - intros j r. rewrite lookup_insert. case_decide as Hd.
    + subst j. split.
      * intros [= <-]. by rewrite lookup_app_r, Hl, Nat.sub_diag by lia.
      * intros [Hr|[Hge Hr]]%lookup_app_Some.
        { by apply list_elem_of_lookup_2 in Hr. }
        apply list_lookup_singleton_Some in Hr as [Hr _]. f_equal. lia.
    + rewrite Er, lookup_app_Some. split; [by left|]. intros [?|[? [? ?]%list_lookup_singleton_Some]]; [done|congruence].
  - intros j. rewrite elem_of_app, list_elem_of_singleton, Ed, lookup_insert.
    case_decide; [naive_solver|]. split; [intros [?|?]; [done|congruence]|by left].
  - intros r x [Hr|[Hge [Hr <-]%list_lookup_singleton_Some]]%lookup_app_Some.
    + rewrite A4 by (apply lookup_lt_Some in Hr; lia). by apply Ev.
    + replace r with (cs_n s) by lia. exact A3.
  - intros j. rewrite lookup_insert. case_decide; [right; exists i; set_solver|].
    destruct (Eo j) as [?|(x & ? & ? & ?)]; [by left|right; exists x; set_solver].
Qed.

Lemma rep_batch now b s c : rep src s c -> NoDup (c ++ b) -> rep src (store_batch junk src now b s) (c ++ b).
Proof.
  revert s c. induction b as [|i b IH]; intros s c Hr Hnd; cbn; [by rewrite app_nil_r|].
  rewrite (app_assoc c [i] b : c ++ i :: b = _) in *. apply IH; [|done]. apply rep_confirm; [done|].
  intros Hi. rewrite <- app_assoc in Hnd. apply NoDup_app in Hnd as (_ & Hnd & _). apply (Hnd i Hi). by left.
Qed.

Lemma c_step_rep st e st' :
  qw_inv st.1 -> rep src st.2 (qw_corpus st.1) -> c_step junk src st e = Some st' ->
  qw_inv st'.1 /\ rep src st'.2 (qw_corpus st'.1).
Proof.
  destruct st as [w s], e as [e now]. unfold c_step. cbn [fst snd]. intros Hi Hr H.
  destruct (qw_step w e) as [w'|] eqn:E; [|done]. injection H as <-. cbn [fst snd].
  split; [by eapply qw_step_inv|]. unfold qw_step in E.
  destruct e as [t|t|t|t h|t| | ]; try (by simplify_eq);
    destruct (qw_threads w !! t) as [[| |b|b| ]|] eqn:Et; try done; try (by simplify_eq).
  - destruct (qw_paused w); by simplify_eq.
  - unfold make_batch in E. by simplify_eq.
  - simplify_eq. destruct (status_ok h); [|done]. cbn. apply rep_batch; [done|].
    destruct Hi as [Hnd _ _ _ _]. pose proof (outstanding_insert _ _ _ QTop Et) as Ho. cbn in Ho.
    rewrite <- Ho, app_assoc in Hnd. by apply NoDup_app in Hnd as [? _].
Qed.

Lemma c_run_rep es st st' :
  qw_inv st.1 -> rep src st.2 (qw_corpus st.1) -> c_run junk src st es = Some st' ->
  qw_inv st'.1 /\ rep src st'.2 (qw_corpus st'.1).
Proof.
  revert st. induction es as [|e es IH]; intros st Hi Hr H; cbn in H; [by simplify_eq|].
  destruct (c_step junk src st e) as [st1|] eqn:E; [|done].
  destruct (c_step_rep _ _ _ Hi Hr E). eauto.
Qed.
End Confirm.

(** ** What later steps leave alone *)

Definition held (s : cstore) (sn : snapshot) : Prop :=
  snap_n sn <= cs_n s /\ snap_mat sn < length (cs_arrays s) /\ snap_n sn <= length (nth (snap_mat sn) (cs_arrays s) []).

(** A later store: its ids continue the earlier ones, and the holder of a snapshot sees
    the same corpus in it. *)
Record later (s s' : cstore) : Prop := {
  la_ids : cs_ids s `prefix_of` cs_ids s';
  la_snap : forall sn, held s sn -> held s' sn /\ corpus_agree (q_view s sn) (q_view s' sn);
}.

#[export] Instance later_preorder : PreOrder later.
Proof.
  split.
  - intros s. split; [done|]. intros sn H. by split.
  - intros s1 s2 s3 [A1 A2] [B1 B2]. split; [by etrans|]. intros sn H.
    destruct (A2 sn H) as [H2 E2]. destruct (B2 sn H2) as [H3 E3]. split; [done|by etrans].
Qed.

Section Later.
Context (junk : nat -> vec) (src : qsource).

Lemma later_confirm now s c i : rep src s c -> i ∉ c -> later s (confirm_one junk src now s i).
Proof.
  intros [Ei En Em Ec Er _ _ _] Hi. pose proof (qid_fresh c i Hi) as Hf. rewrite <- Ei in Hf.
  destruct (confirm_one_arrays junk src now s i Em Ec) as (_ & _ & _ & _ & A5).
  destruct (confirm_one_fields junk src now s i) as (F1 & F2 & F3 & _ & _). cbv zeta in *.
  assert (length (cs_ids s) = cs_n s) as Hl by (by rewrite Ei, length_fmap).
  split; [rewrite F1; by exists [qid i]|]. intros sn (S1 & S2 & S3).
  destruct (A5 (snap_mat sn) S2) as (B1 & B2 & B3). unfold held. rewrite B2, F3.
  split; [split_and!; [lia|done|done]|]. split; cbn [q_view corpus_n corpus_ids corpus_mat corpus_row_of]; [done|..].
  - intros r Hr. by rewrite F1, lookup_app_l by lia.
  - intros r Hr. by rewrite B3 by lia.
  - intros j r Hr. rewrite F2, lookup_insert. case_decide as Hd; [|done]. subst j. split.
    + intros Hrow%Er. by apply list_elem_of_lookup_2 in Hrow.
    + intros [= <-]. lia.
Qed.

Lemma later_batch now b s c : rep src s c -> NoDup (c ++ b) -> later s (store_batch junk src now b s).
Proof.
  revert s c. induction b as [|i b IH]; intros s c Hr Hnd; cbn; [done|].
  assert (i ∉ c) as Hi.
  { intros Hi. apply NoDup_app in Hnd as (_ & Hnd & _). apply (Hnd i Hi). by left. }
  etrans; [by eapply later_confirm|]. apply (IH _ (c ++ [i])); [by apply rep_confirm|]. by rewrite <- app_assoc.
Qed.

Lemma later_run es st st' :
  qw_inv st.1 -> rep src st.2 (qw_corpus st.1) -> c_run junk src st es = Some st' -> later st.2 st'.2.
Proof.
  revert st. induction es as [|[e now] es IH]; intros [w s] Hi Hr H; cbn in H; [by simplify_eq|].
  destruct (c_step junk src (w, s) (e, now)) as [st1|] eqn:E; [|done].
  destruct (c_step_rep junk src _ _ _ Hi Hr E) as [Hi1 Hr1]. etrans; [|by apply (IH st1)].
  unfold c_step in E. cbn [fst snd] in *. destruct (qw_step w e) as [w'|] eqn:Es; [|done]. injection E as <-. cbn [snd].
  destruct e as [t|t|t|t h|t| | ]; try done.
  destruct (qw_threads w !! t) as [[| |b|b| ]|] eqn:Et; try done. destruct (status_ok h); [|done].
  apply (later_batch _ _ _ (qw_corpus w)); [done|].
  destruct Hi as [Hnd _ _ _ _]. pose proof (outstanding_insert _ _ _ QTop Et) as Ho. cbn in Ho.
  rewrite <- Ho, app_assoc in Hnd. by apply NoDup_app in Hnd as [? _].
Qed.

Lemma c_run_reached limit batch threads es st :
  c_run junk src (c_init limit batch threads) es = Some st -> qw_inv st.1 /\ rep src st.2 (qw_corpus st.1).
Proof. apply c_run_rep; [apply qw_init_inv|apply rep_init]. Qed.

(** A run with the store is a run of the threads, so what is shown of them holds. *)
Lemma c_run_threads es st st' : c_run junk src st es = Some st' -> qw_run st.1 es.*1 = Some st'.1.
Proof.
  revert st. induction es as [|[e now] es IH]; intros [w s] H; cbn in *; [by simplify_eq|].
  unfold c_step in H. cbn [fst snd] in H. destruct (qw_step w e); [|done]. by apply IH in H.
Qed.
End Later.

Lemma elem_of_q_intended s now settle i :
  i ∈ q_intended_set s now settle <-> exists t, cs_confirmed_at s !! i = Some t /\ (t <= now - settle)%Q.
Proof. exact (elem_of_intended_set (as_writer s) now settle i). Qed.

(** ** The corpus *)

(** C20. The store implements the list of confirmed numbers. After any interleaving of the
    writers' steps, the ids are those of the confirmed numbers in the order of confirmation,
    the row of an id is its place in that order and holds the vector that was sent for it,
    although the array was reallocated on the way, and exactly the confirmed ids have a time. *)
Theorem qcorpus_refines junk src limit batch threads es w s :
  c_run junk src (c_init limit batch threads) es = Some (w, s) ->
  qw_run (qw_init limit batch threads) es.*1 = Some w /\
  cs_ids s = qid <$> qw_corpus w /\ cs_n s = length (qw_corpus w) /\ NoDup (cs_ids s) /\
  (forall r x, qw_corpus w !! r = Some x ->
     cs_row s !! qid x = Some r /\ nth (cs_mat s) (cs_arrays s) [] !! r = Some (vec_of src x)) /\
  (forall i, is_Some (cs_confirmed_at s !! i) <-> exists x, x ∈ qw_corpus w /\ i = qid x).
Proof.
  intros H. pose proof (c_run_threads _ _ _ _ _ H) as Hq. apply c_run_reached in H as [[Hnd _ _ _ _] [Ei En _ _ Er Ed Ev _]].
  cbn [fst snd] in *. apply NoDup_app in Hnd as [Hnd _]. split_and!; try done.
  - rewrite Ei. by apply (NoDup_fmap_2_strong qid); [intros x y _ _; apply qid_inj|].
  - intros r x Hr. split; [|by apply Ev]. apply Er. by rewrite Ei, list_lookup_fmap, Hr.
  - intros i. rewrite <- Ed, Ei, list_elem_of_fmap. naive_solver.
Qed.

(** What a sweep scores against is consistent, although the writers go on while it reads.
    It takes the settled set first, then a snapshot, and scores later. Every settled id then
    has a row of the snapshot, which is the vector sent for it; the rows asked for are as
    many as the ids; and the score is the one at the time of the snapshot. *)
Theorem sweep_reads_stable (np : Numpy) junk src limit batch threads es1 es2 es3 st1 st2 st3 now settle
    queries observed local intended k metric :
  c_run junk src (c_init limit batch threads) es1 = Some st1 -> c_run junk src st1 es2 = Some st2 ->
  c_run junk src st2 es3 = Some st3 -> intended ⊆ q_intended_set st1.2 now settle ->
  let c := q_view st3.2 (q_snapshot_corpus st2.2) in
  length (rows_for c intended) = size intended /\
  (forall i, i ∈ intended -> exists r x, corpus_row_of c !! i = Some r /\ r < corpus_n c /\
     i = qid x /\ corpus_mat c !! r = Some (vec_of src x)) /\
  score_replica queries observed local intended c k metric None =
    score_replica queries observed local intended (q_view st2.2 (q_snapshot_corpus st2.2)) k metric None.
Proof.
  intros H1 H2 H3 Hsub c. destruct (c_run_reached _ _ _ _ _ _ _ H1) as [I1 R1].
  destruct (c_run_rep _ _ _ _ _ I1 R1 H2) as [I2 R2].
  pose proof (later_run _ _ _ _ _ I1 R1 H2) as [Hpre _]. pose proof (later_run _ _ _ _ _ I2 R2 H3) as [_ Hs].
  destruct (Hs (q_snapshot_corpus st2.2)) as [_ Hag].
  { unfold held, q_snapshot_corpus. cbn. split; [done|]. split; [apply R2|apply R2]. }
  assert (forall i, i ∈ intended -> exists r x, corpus_row_of c !! i = Some r /\ r < corpus_n c /\
     i = qid x /\ corpus_mat c !! r = Some (vec_of src x)) as Hrow.
  { intros i Hi. apply Hsub, elem_of_q_intended in Hi as (t & Ht & _).
    assert (i ∈ cs_ids st2.2) as Hin.
    { apply (elem_of_prefix (cs_ids st1.2)); [|done]. apply (rep_dom _ _ _ R1). eauto. }
    rewrite (rep_ids _ _ _ R2) in Hin. apply list_elem_of_fmap in Hin as (x & -> & [r Hr]%list_elem_of_lookup).
    assert (r < cs_n st2.2) as Hlt by (rewrite (rep_n _ _ _ R2); by eapply lookup_lt_Some).
    exists r, x. split; [|split; [done|split; [done|]]].
    - apply (agree_row _ _ Hag); [done|]. apply (rep_row _ _ _ R2). by rewrite (rep_ids _ _ _ R2), list_lookup_fmap, Hr.
    - unfold c. rewrite <- (agree_mat _ _ Hag) by done. by apply (rep_vec _ _ _ R2). }
  split; [|split; [done|symmetry; by apply score_replica_agree]].
  apply rows_for_length. intros i Hi. destruct (Hrow i Hi) as (r & x & ? & ? & _). eauto.
Qed.

(** *** A run of two threads: one batch confirmed, one refused, one cut short *)

Definition demo_src : qsource := QDrawn (fun i => [inject_Z (Z.of_nat i)]).
Definition demo_store_events : list (qwevent * Q) := (fun e => (e, 7%Q)) <$> demo_wevents.
Definition demo_c_run (st : cstate) (es : list (qwevent * Q)) : cstate := default st (c_run (fun _ => []) demo_src st es).
Definition demo_c0 : cstate := c_init (Some 5) 2 2.
Definition demo_c1 : cstate := demo_c_run demo_c0 (take 8 demo_store_events).
Definition demo_c2 : cstate := demo_c_run demo_c1 (take 3 (drop 8 demo_store_events)).
Definition demo_c3 : cstate := demo_c_run demo_c2 (drop 11 demo_store_events).

Definition demo_end : cstate := demo_c_run demo_c0 demo_store_events.

Lemma qcorpus_refines_witness :
  cs_ids demo_end.2 = ["100000000"; "100000001"; "100000004"]%string.
Proof.
  destruct (qcorpus_refines (fun _ => []) demo_src (Some 5) 2 2 demo_store_events demo_end.1 demo_end.2)
    as (_ & H & _); [vm_compute; reflexivity|].
  rewrite H. vm_compute. reflexivity.
Defined.

Lemma sweep_reads_stable_witness :
  let c := q_view demo_c3.2 (q_snapshot_corpus demo_c2.2) in
  length (rows_for c {["100000001"%string]}) = 1 /\ corpus_n c = 2.
Proof.
  cbv zeta. split; [|vm_compute; reflexivity].
  destruct (sweep_reads_stable ref_numpy (fun _ => []) demo_src (Some 5) 2 2 (take 8 demo_store_events)
    (take 3 (drop 8 demo_store_events)) (drop 11 demo_store_events) demo_c1 demo_c2 demo_c3 20 3
    [] [] ∅ {["100000001"%string]} 1 "l2") as (H & _).
  - vm_compute. reflexivity.
  - vm_compute. reflexivity.
  - vm_compute. reflexivity.
  - apply (bool_decide_unpack _). vm_compute. exact I.
  - rewrite H. vm_compute. reflexivity.
Defined.

(** ** The queries *)

Lemma StronglySorted_weaken {A} (R R' : A -> A -> Prop) l :
  (forall x y, R x y -> R' x y) -> StronglySorted R l -> StronglySorted R' l.
Proof. intros H. induction 1 as [|x l _ IH Hx]; constructor; [done|]. eapply Forall_impl; [exact Hx|]. intros y. apply H. Qed.

(** With a file of queries, as many as asked for are taken, in file order and each once;
    more than the file has are refused. *)
Lemma q_make_queries_spec pool pick drawn n :
  (length pool < n -> q_make_queries (Some pool) pick drawn n = Raise ValueError) /\
  (NoDup pick -> length pick = n -> Forall (fun i => i < length pool) pick ->
   exists idx qs, q_make_queries (Some pool) pick drawn n = Ok qs /\ length qs = n /\
     idx ≡ₚ pick /\ StronglySorted le idx /\ Forall2 (fun i q => pool !! i = Some q) idx qs).
Proof.
  split.
  - intros H. unfold q_make_queries. by apply Nat.ltb_lt in H as ->.
  - intros Hnd Hl Hb. unfold q_make_queries. assert (n <= length pool) as Hle.
    { rewrite <- Hl, <- (length_seq (length pool) 0). apply submseteq_length, NoDup_submseteq; [done|].
      intros i Hi. rewrite Forall_forall in Hb. apply elem_of_seq. apply Hb in Hi. lia. }
    destruct (Nat.ltb_spec (length pool) n); [lia|].
    set (idx := sorted Nat.leb pick).
    assert (Forall (fun i => i < length pool) idx) as Hb' by (unfold idx; by rewrite sorted_perm).
    assert (exists qs, rmapM (py_index pool) idx = Ok qs /\ Forall2 (fun i q => pool !! i = Some q) idx qs) as (qs & Hq & H2).
    { clear -Hb'. induction Hb' as [|i l Hi _ (qs & IH & H2)]; [by exists []|].
      destruct (lookup_lt_is_Some_2 pool i Hi) as [q Hq]. exists (q :: qs).
      cbn [rmapM]. assert (py_index pool i = Ok q) as -> by (unfold py_index; by rewrite Hq).
      cbn [mbind result_bind]. rewrite IH. split; [done|by constructor]. }
    exists idx, qs. split; [done|]. split_and!; try done.
    + apply Forall2_length in H2. rewrite <- H2. unfold idx. by rewrite sorted_length.
    + apply sorted_perm.
    + apply (StronglySorted_weaken (le_of Nat.leb)); [intros x y Hxy; by apply Nat.leb_le in Hxy|].
      apply (sorted_StronglySorted Nat.leb).
      * intros x y. rewrite !Nat.leb_le. lia.
      * intros x y z. rewrite !Nat.leb_le. lia.
Qed.
