(* ===== verification/QdrantRecord.v ===== *)
(** * What a Qdrant run leaves for its readers

    The end of [_run_experiment_body] in
    [research/cross_system_replication/qdrant_run_experiment.py]: the samples, the telemetry
    and the fields of [run_meta.json] that the drivers and analysers read back. The composition
    with those readers ([QdrantSweep], [GatedAnalysis]) is what is proved here. *)

From stdpp Require Import base list gmap strings pretty.
From Stdlib Require Import QArith Qabs Qround Lqa ZArith Lia.
From S2P Require Import Prelude PyFloat Metrics Sampler ChaosHarness IndexGate QdrantHarness QdrantCluster QdrantRun.
From S2P Require Import Aggregate SweepDriver GatedAnalysis QdrantSweep.

Local Open Scope nat_scope.

(** ** The rows *)

(** [round(x - t_start, 3)] *)
Definition rel (t_start x : Q) : Q := round_nd 3 (x - t_start).

(** A cell as [csv.DictReader] gives it back. *)
Definition cell_of (x : option Q) : qcell := match x with Some q => QNum q | None => QBlank end.
Definition zcell_of (x : option Z) : qcell := cell_of (inject_Z <$> x).

Definition sample_out (t_start : Q) (r : Sampler.row) : GatedAnalysis.grow :=
  mkGRow (QNum (rel t_start (Sampler.r_t r))) (Sampler.r_reachable r) (Some (Z.of_nat (r_replica r)))
    (cell_of (r_index_recall r)) (cell_of (r_completeness r)).

Definition tele_out (t_start : Q) (r : tele_row) : trow :=
  mkTRow (QNum (rel t_start (QdrantRun.tr_t r))) (Some (Z.of_nat (QdrantRun.tr_node r)))
    (zcell_of (co_points (tr_coll r))) (zcell_of (co_indexed (tr_coll r))).

(** [sampler_loop]: a sweep that raises is recorded and the loop goes on. *)
Definition q_sampler_loop (rounds : list (result (list Sampler.row))) : list Sampler.row * list exn :=
  foldl (fun out o => match o with
                      | Ok rs => (out.1 ++ rs, out.2)
                      | Raise e => (out.1, out.2 ++ [e])
                      end) ([], []) rounds.

(** ** [run_meta.json] *)

(** Arguments that only the record uses. *)
Record settings := mkSettings {
  sg_seed : N; sg_sift : bool; sg_sift_vectors : N; sg_warmup_s : Q; sg_threshold_kb : option N }.

(** The clock where the run reads it. *)
Record clocks := mkClocks {
  ck_start : Q; ck_gate_closed : Q; ck_chaos_start : Q; ck_chaos_stop : Q }.

Record run_meta := mkRunMeta {
  rm_seed : N;
  rm_sift_vectors : option N;
  rm_threshold_kb : option N;
  rm_warmup_s : Q;
  rm_warmup_until : option nat;
  rm_written_at_gate : option nat;
  rm_gate_closed_rel : option Q;       (* of index_gate, which is None without the gate *)
  rm_chaos : bool;
  rm_quiesce : bool;
  rm_pre_chaos_s : option Q;
  rm_chaos_start_rel : option Q;
  rm_chaos_stop_rel : option Q;
  rm_chaos_requested_s : option Q;
  rm_chaos_realized_s : option Q;
  rm_kills : kill_meta;
  rm_samples : nat;
  rm_chaos_events : nat;
  rm_confirmed_total : nat;
  rm_write_attempted : nat;
  rm_write_failed : nat;
  rm_exhausted : bool;
}.

Definition written_at_gate (a : run_args) (i : run_in) : option nat :=
  match ra_warmup_until a with
  | None => None
  | Some target => match warmup target (in_warm i) with Some (Ok n) => Some n | _ => None end
  end.

(** [chaos_start_rel] and [chaos_stop_rel] before they are rounded. *)
Definition chaos_times (a : run_args) (c : clocks) : option (Q * Q) :=
  if ra_no_chaos a then None else Some (ck_chaos_start c - ck_start c, ck_chaos_stop c - ck_start c)%Q.

Definition meta_of (s : settings) (a : run_args) (i : run_in) (c : clocks) (rows : list Sampler.row)
    (events : list qevent) (w : qwriter) : run_meta :=
  mkRunMeta (sg_seed s) (if sg_sift s then Some (sg_sift_vectors s) else None) (sg_threshold_kb s)
    (sg_warmup_s s) (ra_warmup_until a) (written_at_gate a i)
    (if ra_index_gate a then Some (rel (ck_start c) (ck_gate_closed c)) else None)
    (negb (ra_no_chaos a)) (match ra_chaos_duration a with Some _ => true | None => false end)
    (match ra_chaos_duration a with
     | Some d => if Qeq_bool d 0 then None else Some (ra_pre_chaos_s a)
     | None => None
     end)
    (round_nd 3 ∘ fst <$> chaos_times a c) (round_nd 3 ∘ snd <$> chaos_times a c)
    (if ra_no_chaos a then None
     else Some (match ra_chaos_duration a with Some d => d | None => ra_duration a end))
    ((fun se => round_nd 3 (se.2 - se.1)) <$> chaos_times a c)
    (kill_meta_of (ra_no_chaos a) events) (length rows) (length events)
    (length (qw_corpus w)) (qw_attempted w) (qw_failed w) (qw_exhausted w).

(** ** The readers *)

(** What [sweep_gate.py] compares. *)
Definition gate_meta_of (m : run_meta) : gate_meta :=
  mkGateMeta (Some (rm_seed m)) (N.of_nat <$> rm_warmup_until m) (rm_sift_vectors m) (rm_threshold_kb m)
    (N.of_nat <$> rm_written_at_gate m).

(** What [analyze_gated.py] takes its window from. *)
Definition gmeta_of (m : run_meta) : gmeta :=
  mkGMeta (rm_gate_closed_rel m) (Some (rm_warmup_s m)) (rm_chaos_start_rel m) (rm_chaos_stop_rel m).

(** What [qdrant_sweep.py] looks at. *)
Definition meta_file_of (m : run_meta) : meta_file := Meta (km_no_kills (rm_kills m)).

(** The arguments that a cell of the gate pilot passes. *)
Record cell_args (c : cell_spec) (s : settings) (a : run_args) : Prop := mkCellArgs {
  ca_seed : sg_seed s = cl_seed c;
  ca_sift : sg_sift s = true;
  ca_pool : sg_sift_vectors s = (cl_n c + POOL_HEADROOM)%N;
  ca_thr : sg_threshold_kb s = cl_thr c;
  ca_until : ra_warmup_until a = Some (N.to_nat (cl_n c));
}.

(** * Properties *)

(** ** Rounding keeps the order *)

#[local] Instance Qround_even_proper : Proper (Qeq ==> eq) Qround_even.
Proof.
  intros q q' H. unfold Qround_even. pose proof (Qfloor_comp _ _ H) as E. rewrite E.
  assert (Qltb (q - inject_Z (Qfloor q')) (1 # 2) = Qltb (q' - inject_Z (Qfloor q')) (1 # 2)) as ->.
  { apply eq_true_iff_eq. rewrite !Qltb_lt, H. done. }
  assert (Qltb (1 # 2) (q - inject_Z (Qfloor q')) = Qltb (1 # 2) (q' - inject_Z (Qfloor q'))) as ->.
  { apply eq_true_iff_eq. rewrite !Qltb_lt, H. done. }
  done.
Qed.

Lemma Qround_even_mono q q' : (q <= q')%Q -> (Qround_even q <= Qround_even q')%Z.
Proof.
  intros H. pose proof (Qround_even_spec q) as [H1 _]. pose proof (Qround_even_spec q') as [_ H2].
  destruct (Z.le_gt_cases (Qround_even q) (Qround_even q')) as [?|Hgt]; [done|exfalso].
  assert (inject_Z (Qround_even q') + 1 <= inject_Z (Qround_even q))%Q as H3.
  { change 1%Q with (inject_Z 1). rewrite <- inject_Z_plus, <- Zle_Qle. lia. }
  assert (q == q')%Q as E by lra. rewrite E in Hgt. lia.
Qed.

Lemma round_nd_mono nd q q' : (q <= q')%Q -> (round_nd nd q <= round_nd nd q')%Q.
Proof.
  intros H. unfold round_nd. pose proof (pow10_pos nd) as Hs. set (s := inject_Z (10 ^ Z.of_nat nd)) in *.
  apply Qmult_le_compat_r; [|by apply Qlt_le_weak, Qinv_lt_0_compat]. rewrite <- Zle_Qle. apply Qround_even_mono.
  apply Qmult_le_compat_r; [done|by apply Qlt_le_weak].
Qed.

Lemma rel_mono t0 x y : (x <= y)%Q -> (rel t0 x <= rel t0 y)%Q.
Proof. intros H. apply round_nd_mono. lra. Qed.

Lemma rel_close t0 x : (x - t0 - (1 # 2000) <= rel t0 x <= x - t0 + (1 # 2000))%Q.
Proof.
  pose proof (round_nd_close 3 (x - t0)) as H. apply Qabs_Qle_condition in H. unfold rel.
  assert ((1 # 2) / inject_Z (10 ^ Z.of_nat 3) == 1 # 2000)%Q as E by reflexivity. rewrite E in H. lra.
Qed.

(** Every sweep that returned is in the samples, in order. *)
Lemma q_sampler_rows rounds :
  (q_sampler_loop rounds).1 = concat (omap (fun o => match o with Ok rs => Some rs | Raise _ => None end) rounds).
Proof. exact (proj1 (sampler_loop_spec rounds)). Qed.

(** ** The gate pilot and the run it starts *)

Lemma warmup_enough target polls n : warmup target polls = Some (Ok n) -> target <= n.
Proof.
  induction polls as [|[[m ex] late] polls IH]; [done|]. cbn [warmup]. destruct (Nat.leb_spec target m).
  - intros [= <-]. done.
  - by destruct (ex || late).
Qed.

(** A run that returns 0 went through its warm-up. *)
Lemma qrun_zero_warm a i stages :
  qrun_main a i = Some (stages, Return 0) -> check_args a = None /\ warm_phase a i = Some Go.
Proof.
  unfold qrun_main. destruct (check_args a) as [code|] eqn:Ec.
  { intros [= _ ->]. unfold check_args in Ec. repeat case_match; simplify_eq. }
  intros H. split; [done|]. destruct (bring_up_cluster _) as [[]|]; simplify_eq.
  destruct (run_body a i) as [[st f]|] eqn:Eb; simplify_eq. unfold run_body in Eb.
  destruct (warm_phase a i) as [[|code|e]|] eqn:Ew; simplify_eq; [done|].
  by apply warm_phase_exit in Ew.
Qed.

Lemma written_at_gate_enough a i target :
  ra_warmup_until a = Some target -> warm_phase a i = Some Go -> exists n, written_at_gate a i = Some n /\ target <= n.
Proof.
  intros Ht. unfold warm_phase, written_at_gate. rewrite Ht.
  destruct (warmup target (in_warm i)) as [[n|]|] eqn:E; try done. intros _. exists n. by apply warmup_enough in E.
Qed.

Lemma meta_matches_written c s a i ck rows events w n :
  cell_args c s a -> written_at_gate a i = Some n -> N.to_nat (cl_n c) <= n ->
  meta_matches c (gate_meta_of (meta_of s a i ck rows events w)) = true.
Proof.
  intros [H1 H2 H3 H4 H5] Hw Hn. unfold meta_matches, gate_meta_of, meta_of. cbn.
  rewrite H1, H2, H3, H4, H5, Hw. cbn. rewrite N2Nat.id, !bool_decide_true by done. cbn. apply N.leb_le. lia.
Qed.

(** The exit status of a run and what it leaves in an empty directory. *)
Definition exit_of (f : flow) : Z := match f with Go => 0 | Return n => Z.of_nat n | Throw _ => 1 end.
Definition leaves (m : run_meta) (f : flow) : cell_files :=
  match f with
  | Return 0 => mkCellFiles (Some (gate_meta_of m)) false true
  | Return 3 => mkCellFiles None true false
  | _ => no_files
  end.

Section Pilot.
(** Every cell is run with the arguments of its command line, in whatever circumstances. *)
Context (setting : cell_spec -> settings) (arg : cell_spec -> run_args) (input : cell_spec -> run_in)
        (ck : cell_spec -> clocks) (rows : cell_spec -> list Sampler.row) (events : cell_spec -> list qevent)
        (w : cell_spec -> qwriter).
Context (asked : forall c, cell_args c (setting c) (arg c)).

Definition pilot_run (c : cell_spec) : Z * cell_files :=
  match qrun_main (arg c) (input c) with
  | Some (_, f) =>
      (exit_of f, leaves (meta_of (setting c) (arg c) (input c) (ck c) (rows c) (events c) (w c)) f)
  | None => (1%Z, no_files)
  end.

(** The gate pilot and the program it starts agree on what a cell is. For a cell that has no
    result yet: it is reported as a success exactly when the run returned 0, as a gate failure
    exactly when the run returned 3, which is when the gate gave up open, and with its exit
    status otherwise. The checks for missing files and for a record that does not match what
    was asked never fire, because a run that returns 0 has written at least the corpus asked
    for before its gate. *)
Theorem pilot_composes fs c stages f :
  qrun_main (arg c) (input c) = Some (stages, f) -> fs !! cl_name c = None ->
  (cell_run_one false pilot_run fs c).2 =
    match f with
    | Return 0 => COk
    | Return 3 => CGateFailed
    | _ => CFailedExit (exit_of f)
    end /\
  (f = Return 3 -> SSampler ∉ stages) /\
  (f = Return 0 -> exists n, written_at_gate (arg c) (input c) = Some n /\ N.to_nat (cl_n c) <= n).
Proof.
  intros Hq Hfs. assert (f <> Go) as Hgo.
  { intros ->. unfold qrun_main in Hq. repeat case_match; simplify_eq.
    match goal with H : run_body _ _ = _ |- _ => apply run_body_ok in H as [_ _ _ _ ?] end. done. }
  assert (f = Return 0 -> exists n, written_at_gate (arg c) (input c) = Some n /\ N.to_nat (cl_n c) <= n) as Hw.
  { intros ->. apply qrun_zero_warm in Hq as [_ Hw]. apply (written_at_gate_enough _ _ _ (ca_until _ _ _ (asked c)) Hw). }
  split; [|split; [|done]].
  - unfold cell_run_one. rewrite Hfs. cbn [default no_files cf_meta cf_failed].
    rewrite bool_decide_false by (by intros [? ?]). cbn [orb]. unfold pilot_run. rewrite Hq. cbn [snd].
    destruct f as [|[|[|[|[|n]]]]|e]; try done; [|by rewrite andb_false_r].
    cbn [exit_of leaves cf_failed cf_samples cf_meta].
    destruct (Hw eq_refl) as (n & Hn & Hle). cbn [Z.of_nat Z.eqb andb negb].
    by rewrite (meta_matches_written _ _ _ _ _ _ _ _ _ (asked c) Hn Hle).
  - intros ->. unfold qrun_main in Hq. destruct (check_args (arg c)) as [code|] eqn:Ec.
    { simplify_eq. apply not_elem_of_nil. }
    repeat case_match; simplify_eq.
    match goal with H : run_body _ _ = _ |- _ => apply run_body_ok in H as [_ _ _ Hr _] end.
    destruct (Hr eq_refl) as [Hr' _]. set_solver.
Qed.
End Pilot.

(** ** The windows of the gated analysis *)

(** What a sample contributes when its time does not matter. *)
Definition answered (t_start : Q) (r : Sampler.row) : option (Q * Q) :=
  if Sampler.r_reachable r then (fun v => (Qred (rel t_start (Sampler.r_t r)), v)) <$> r_index_recall r else None.

Lemma scored_sample lo hi t0 r :
  scored (Some (lo, hi)) (sample_out t0 r) = if GatedAnalysis.in_window lo hi (rel t0 (Sampler.r_t r)) then answered t0 r else None.
Proof.
  unfold scored, answered, sample_out. cbn [gr_t gr_reach gr_ir num mbind option_bind].
  destruct (GatedAnalysis.in_window _ _ _); cbn [negb]; [|done]. destruct (Sampler.r_reachable r); [|done].
  by destruct (r_index_recall r).
Qed.

(** C37. The times in the record select the samples they are meant to. In a gated run, whose
    sampler starts when the gate has closed, the baseline window of the analysis keeps every
    sample in which a replica answered, although both times are rounded. The chaos window
    keeps only samples taken from the start to the end of the chaos, to the millisecond, and
    all of them up to the last millisecond. *)
Theorem analysis_windows s a i ck rows events w r :
  ra_index_gate a = true -> (ck_start ck + (1 # 1000) <= ck_gate_closed ck)%Q ->
  (ck_gate_closed ck <= Sampler.r_t r)%Q ->
  let m := gmeta_of (meta_of s a i ck rows events w) in
  let seen c := scored (Some (window_for m c)) (sample_out (ck_start ck) r) in
  seen Baseline = answered (ck_start ck) r /\
  (ra_no_chaos a = true -> forall c, seen c = answered (ck_start ck) r) /\
  (ra_no_chaos a = false -> (ck_start ck + (1 # 1000) <= ck_chaos_stop ck)%Q -> forall c, c <> Baseline ->
   (is_Some (seen c) -> (ck_chaos_start ck - (1 # 1000) <= Sampler.r_t r < ck_chaos_stop ck + (1 # 1000))%Q) /\
   ((ck_chaos_start ck <= Sampler.r_t r)%Q -> (Sampler.r_t r + (1 # 1000) < ck_chaos_stop ck)%Q ->
    seen c = answered (ck_start ck) r)).
Proof.
  intros Hg Hc Ht m seen. pose proof (rel_close (ck_start ck) (ck_gate_closed ck)) as Rg.
  assert (gate_t0 m = rel (ck_start ck) (ck_gate_closed ck)) as E0.
  { unfold gate_t0, m, gmeta_of, meta_of. cbn [gm_gate_closed_rel rm_gate_closed_rel]. rewrite Hg. cbn [q_or].
    destruct (Qeq_bool _ 0) eqn:E; [|done]. apply Qeq_bool_iff in E. lra. }
  assert (scored (Some (gate_t0 m, None)) (sample_out (ck_start ck) r) = answered (ck_start ck) r) as Hb.
  { rewrite scored_sample, E0. unfold GatedAnalysis.in_window.
    by rewrite (proj2 (Qle_bool_iff _ _) (rel_mono (ck_start ck) _ _ Ht)). }
  split; [exact Hb|]. split.
  - intros Hn c. unfold seen, window_for. replace (gm_chaos_start m) with (@None Q); [by destruct c|].
    unfold m, gmeta_of, meta_of, chaos_times. cbn [gm_chaos_start rm_chaos_start_rel]. by rewrite Hn.
  - intros Hn Hs c Hne. pose proof (rel_close (ck_start ck) (ck_chaos_start ck)) as Ra.
    pose proof (rel_close (ck_start ck) (ck_chaos_stop ck)) as Rb.
    pose proof (rel_close (ck_start ck) (Sampler.r_t r)) as Rt.
    assert (window_for m c = (rel (ck_start ck) (ck_chaos_start ck), Some (rel (ck_start ck) (ck_chaos_stop ck)))) as Ew.
    { unfold window_for, m, gmeta_of, meta_of, chaos_times. cbn [gm_chaos_start gm_chaos_stop rm_chaos_start_rel rm_chaos_stop_rel].
      rewrite Hn. cbn [fmap option_fmap option_map compose fst snd]. fold (rel (ck_start ck) (ck_chaos_start ck)) (rel (ck_start ck) (ck_chaos_stop ck)).
      destruct (Qeq_bool (rel (ck_start ck) (ck_chaos_stop ck)) 0) eqn:E; [apply Qeq_bool_iff in E; lra|].
      by destruct c. }
    unfold seen. rewrite Ew, scored_sample. unfold GatedAnalysis.in_window. split.
    + destruct (Qle_bool _ _) eqn:E1; [|by intros [? ?]]. destruct (Qltb _ _) eqn:E2; [|by intros [? ?]]. cbn [andb].
      intros _. apply Qle_bool_iff in E1. apply Qltb_lt in E2. lra.
    + intros H1 H2. rewrite (proj2 (Qle_bool_iff _ _) (rel_mono (ck_start ck) _ _ H1)).
      rewrite (proj2 (Qltb_lt _ _)) by lra. done.
Qed.

Definition demo_clocks : clocks := mkClocks 1000 1050 1060 1120.
Definition demo_settings : settings := mkSettings 7 true 150002 40 (Some 1000%N).
Definition demo_sample (t : Q) : Sampler.row :=
  Sampler.mkRow t 0 1 "shard-0-1" true (Some (9 # 10)%Q) (Some 1%Q) (Some 1%Q) (Some 5%Z) 5 None None 5 None None.

Lemma analysis_windows_witness :
  let m := gmeta_of (meta_of demo_settings demo_args demo_in demo_clocks [] [] (qw_init None 1 1)) in
  scored (Some (window_for m Baseline)) (sample_out 1000 (demo_sample 1051)) = Some (51, 9 # 10)%Q /\
  scored (Some (window_for m Chaos)) (sample_out 1000 (demo_sample 1051)) = None.
Proof.
  cbv zeta. split; [|vm_compute; reflexivity].
  destruct (analysis_windows demo_settings demo_args demo_in demo_clocks [] [] (qw_init None 1 1) (demo_sample 1051)) as [H _];
    [reflexivity|vm_compute; discriminate..|].
  etransitivity; [exact H|]. vm_compute. reflexivity.
Defined.

(** A cell of two vectors, run with its own arguments. *)
Definition demo_cell : cell_spec := mkCell "demo" (Some 1000%N) 2 7 [].
Definition cell_settings (c : cell_spec) : settings := mkSettings (cl_seed c) true (cl_n c + POOL_HEADROOM) 40 (cl_thr c).
Definition cell_run_args (c : cell_spec) : run_args :=
  mkArgs true 120 30 None None 3 None true 0 2 600 false (Some (N.to_nat (cl_n c))).

Lemma pilot_composes_witness :
  (cell_run_one false
     (pilot_run cell_settings cell_run_args (fun _ => demo_in) (fun _ => demo_clocks) (fun _ => []) (fun _ => [])
        (fun _ => qw_init None 1 1)) ∅ demo_cell).2 = COk.
Proof.
  destruct (pilot_composes cell_settings cell_run_args (fun _ => demo_in) (fun _ => demo_clocks) (fun _ => []) (fun _ => [])
    (fun _ => qw_init None 1 1) ltac:(intros c; split; reflexivity) ∅ demo_cell
    [SBringUp; SWarmup; SGate; SSampler; SResults; STeardown] (Return 0)) as [H _]; [vm_compute; reflexivity|done|exact H].
Defined.

(** ** The sweep and the kills *)

Lemma no_kills_false no_chaos events :
  km_no_kills (kill_meta_of no_chaos events) = false -> no_chaos = true \/ exists e, e ∈ events /\ qe_failed e = None.
Proof.
  unfold kill_meta_of. cbn [km_no_kills]. intros H. apply andb_false_iff in H as [H|H]; apply negb_false_iff in H; [by left|right].
  apply existsb_exists in H as (e & He & H). exists e. split; [by apply list_elem_of_In|]. by destruct (qe_failed e).
Qed.

(** From the kill loop to the filed result: when every run of a sweep leaves the record of
    its own events, a chaos or quiesce run that the sweep files, and had not filed before, has
    at least one kill that completed; a sweep never files a run whose faults did not happen. *)
Theorem filed_runs_have_kills {A} force (run : run_id -> qoutcome A) (meta : run_id -> run_meta)
    (arg : run_id -> run_args) (events : run_id -> list qevent) seed_base seeds only q f :
  (forall r, qo_meta (run r) = meta_file_of (meta r)) ->
  (forall r, rm_kills (meta r) = kill_meta_of (ra_no_chaos (arg r)) (events r)) ->
  (forall r, ra_no_chaos (arg r) = true <-> r.2 = Baseline) ->
  forall r a, fs_filed (qsweep_main force run (sweep_plan seed_base seeds only q) f).1 !! r = Some a ->
    r.2 <> Baseline -> fs_filed f !! r = Some a \/
    (qo_samples (run r) = Some a /\ exists e, e ∈ events r /\ qe_failed e = None).
Proof.
  intros Hm Hk Hb r a. unfold qsweep_main. rewrite qsweep_loop_refines.
  destruct (sweep_loop_spec force (as_outcome run) _ f 0 (sweep_plan_NoDup seed_base seeds only q)) as (H1 & _ & _).
  destruct (sweep_loop _ _ _ f 0) as [f' n]. cbn [fst snd] in *. rewrite H1. intros H Hr. case_decide; [|by left].
  apply qsweep_filed in H as [H|(_ & Hs & [H|H])]; [by left|done|right]. split; [done|].
  rewrite Hm in H. cbn [meta_file_of no_kills] in H. rewrite Hk in H.
  apply no_kills_false in H as [H|H]; [by apply Hb in H|done].
Qed.

Definition demo_kill : qevent := mkQE 1061 "rrd-qdrant-node1" (Some true) (Some 5%Q) 1 None.
Definition demo_sweep_args (r : run_id) : run_args :=
  mkArgs (bool_decide (r.2 = Baseline)) 180 30 None None 3 None false 0 2 600 false None.
Definition demo_sweep_events (r : run_id) : list qevent := if N.even r.1 then [demo_kill] else [].
Definition demo_meta (r : run_id) : run_meta :=
  meta_of demo_settings (demo_sweep_args r) demo_in demo_clocks [] (demo_sweep_events r) (qw_init None 1 1).
Definition demo_outcome (r : run_id) : qoutcome N := mkQOut 0%Z (Some r.1) (meta_file_of (demo_meta r)).

(** Of two chaos runs, the one with a kill is filed. *)
Lemma filed_runs_have_kills_witness :
  let f' := (qsweep_main false demo_outcome (sweep_plan 10 2 None false) (mkFS None ∅)).1 in
  fs_filed f' !! (11%N, Chaos) = None /\ fs_filed f' !! (10%N, Chaos) = Some 10%N /\
  (fs_filed (mkFS None ∅) !! (10%N, Chaos) = Some 10%N \/
   (qo_samples (demo_outcome (10%N, Chaos)) = Some 10%N /\ exists e, e ∈ demo_sweep_events (10%N, Chaos) /\ qe_failed e = None)).
Proof.
  cbv zeta. split; [vm_compute; reflexivity|]. split; [vm_compute; reflexivity|].
  apply (filed_runs_have_kills false demo_outcome demo_meta demo_sweep_args demo_sweep_events 10 2 None false).
  - done.
  - done.
  - intros r. cbn. apply bool_decide_eq_true.
  - vm_compute. reflexivity.
  - done.
Defined.
