(* ===== verification/PyText.v ===== *)
(** * Numbers as Python writes and reads them

    The text of an integer, of [f"{x:.{nd}f}"] and of a float that [round] returned, the
    reading of such a text by [float], and the alignment of a field in a format string. A
    float is an exact rational here, as in [PyFloat]: the text of [round(x, nd)] is that of
    the decimal itself, which is what CPython prints below 10^15 units of the last place. *)

From stdpp Require Import base list strings.
From Stdlib Require Import QArith Qabs Qround Qreduction Qpower ZArith NArith Lia Lqa Ascii.
From Stdlib Require Qcanon.
From S2P Require Import Prelude PyFloat Text.

Local Open Scope nat_scope.

(** ** Digits *)

Definition digit_char (d : N) : N := (48 + d)%N.
Definition is_digit (c : N) : bool := between 48 57 c.

Fixpoint show_digits (fuel : nat) (n : N) : text :=
  match fuel with
  | O => []
  | S f => if (n <? 10)%N then [digit_char n]
           else show_digits f (n / 10) ++ [digit_char (n mod 10)]
  end.

(** [str(n)]; a number has no more decimal digits than binary ones. *)
Definition show_N (n : N) : text := show_digits (S (N.size_nat n)) n.
Definition show_nat (n : nat) : text := show_N (N.of_nat n).
Definition show_Z (z : Z) : text :=
  if (z <? 0)%Z then 45%N :: show_N (Z.to_N (- z)) else show_N (Z.to_N z).

(** The number a string of digits denotes. *)
Definition digits_value (s : text) : N := foldl (fun a c => a * 10 + (c - 48))%N 0%N s.

Definition zeros (n : nat) : text := replicate n 48%N.

(** [s.zfill(k)] *)
Definition zfill (k : nat) (s : text) : text := zeros (k - length s) ++ s.

(** ** [f"{x:.{nd}f}"] *)

(** The decimal units of the last place, and the sign. *)
Definition units (nd : nat) (q : Q) : N := Z.to_N (Qround_even (Qabs q * inject_Z (10 ^ Z.of_nat nd))).
Definition sign_text (q : Q) : text := if Qltb q 0 then [45%N] else [].

Definition fixed_text (nd : nat) (u : N) : text :=
  let s := zfill (S nd) (show_N u) in
  let i := length s - nd in
  match nd with O => s | S _ => take i s ++ 46%N :: drop i s end.

Definition format_f (nd : nat) (q : Q) : text := sign_text q ++ fixed_text nd (units nd q).

(** [f"{x:.{nd}%}"] *)
Definition format_pct (nd : nat) (q : Q) : text := format_f nd (q * 100) ++ [37%N].

(** ** [repr(round(x, nd))] *)

Fixpoint strip0 (r : text) : text :=
  match r with
  | c :: r' => if (c =? 48)%N then strip0 r' else r
  | [] => []
  end.
Definition rstrip0 (s : text) : text := rev (strip0 (rev s)).

(** The digits without their trailing zeros, [decpt] of them before the point. *)
Definition exp_text (e : Z) : text :=
  101%N :: (if (e <? 0)%Z then 45%N else 43%N) :: zfill 2 (show_N (Z.abs_N e)).

Definition repr_digits (ds : text) (decpt : Z) : text :=
  let m := Z.of_nat (length ds) in
  if ((-4 <? decpt) && (decpt <=? 16))%Z then
    if (decpt <=? 0)%Z then 48%N :: 46%N :: zeros (Z.to_nat (- decpt)) ++ ds
    else if (decpt <? m)%Z then take (Z.to_nat decpt) ds ++ 46%N :: drop (Z.to_nat decpt) ds
    else ds ++ zeros (Z.to_nat (decpt - m)) ++ [46%N; 48%N]
  else
    match ds with
    | [] => []
    | [d] => d :: exp_text (decpt - 1)
    | d :: rest => d :: 46%N :: rest ++ exp_text (decpt - 1)
    end.

Definition repr_units (nd : nat) (u : N) : text :=
  if (u =? 0)%N then lit "0.0"
  else repr_digits (rstrip0 (show_N u)) (Z.of_nat (length (show_N u)) - Z.of_nat nd).

Definition repr_round (nd : nat) (q : Q) : text := sign_text q ++ repr_units nd (units nd q).

(** ** [float(s)] *)

Inductive fparse : Type :=
| PNum (q : Q)
| PNan
| PInf (neg : bool)
| PValueError
| PNonAscii.                (* other scripts' digits are not modelled *)

(** Digits, with single underscores between them. *)
Fixpoint scan_digits (after_digit : bool) (s : text) : text * text :=
  match s with
  | c :: s' =>
      if is_digit c then let '(ds, rest) := scan_digits true s' in (c :: ds, rest)
      else
        match s' with
        | c' :: _ => if after_digit && (c =? 95)%N && is_digit c'
                     then scan_digits false s' else ([], s)
        | [] => ([], s)
        end
  | [] => ([], [])
  end.

Definition scan_sign (s : text) : bool * text :=
  match s with
  | c :: s' => if (c =? 45)%N then (true, s') else if (c =? 43)%N then (false, s') else (false, s)
  | [] => (false, [])
  end.

(** The fraction, if there is a point. *)
Definition scan_fraction (s : text) : text * text :=
  match s with
  | c :: s' => if (c =? 46)%N then scan_digits false s' else ([], s)
  | [] => ([], [])
  end.

(** [e], a sign, digits. [None]: not a number. *)
Definition scan_exponent (s : text) : option Z :=
  match s with
  | [] => Some 0%Z
  | c :: s' =>
      if (c =? 101)%N || (c =? 69)%N then
        let '(neg, s1) := scan_sign s' in
        match scan_digits false s1 with
        | ([], _) => None
        | (ds, []) => Some (if neg then - Z.of_N (digits_value ds) else Z.of_N (digits_value ds))%Z
        | _ => None
        end
      else None
  end.

(** [n * 10^e], in lowest terms. *)
Definition scale10 (n : N) (e : Z) : Q :=
  Qred (if (0 <=? e)%Z then inject_Z (Z.of_N n * 10 ^ e)
        else inject_Z (Z.of_N n) / inject_Z (10 ^ (- e))).

(** Where rounding to a double gives infinity. *)
Definition FLT_OVER : Q := inject_Z (2 ^ 1024 - 2 ^ 970).

Definition py_unsigned (neg : bool) (s : text) : fparse :=
  let '(ip, s1) := scan_digits false s in
  let '(fp, s2) := scan_fraction s1 in
  match ip ++ fp, scan_exponent s2 with
  | [], _ => PValueError
  | _, None => PValueError
  | ds, Some e =>
      let q := scale10 (digits_value ds) (e - Z.of_nat (length fp)) in
      if Qle_bool FLT_OVER q then PInf neg
      else PNum (if neg then (- q)%Q else q)
  end.

Definition text_eqb (a b : text) : bool := bool_decide (a = b).

Definition py_float (s : text) : fparse :=
  if forallb (fun c => (c <? 128)%N) s then
    let '(neg, s1) := scan_sign (strip s) in
    let w := lower s1 in
    if text_eqb w (lit "nan") then PNan
    else if text_eqb w (lit "inf") || text_eqb w (lit "infinity") then PInf neg
    else py_unsigned neg s1
  else PNonAscii.

(** ** Alignment *)

(** [f"{s:>w}"], [f"{s:<w}"] *)
Definition rjust (w : nat) (s : text) : text := replicate (w - length s) 32%N ++ s.
Definition ljust (w : nat) (s : text) : text := s ++ replicate (w - length s) 32%N.

(** [f"{n:,}"]: commas between groups of three digits, counted from the right. *)
Fixpoint commas (r : text) : text :=
  match r with
  | a :: b :: c :: ((_ :: _) as rest) => a :: b :: c :: 44%N :: commas rest
  | _ => r
  end.
Definition show_commas (z : Z) : text :=
  if (z <? 0)%Z then 45%N :: rev (commas (rev (show_N (Z.to_N (- z)))))
  else rev (commas (rev (show_N (Z.to_N z)))).

(** * Properties *)

(** ** Digits *)

Definition all_digits (s : text) : Prop := Forall (fun c => is_digit c = true) s.

Lemma digit_char_digit d : (d < 10)%N -> is_digit (digit_char d) = true.
Proof. intros. unfold is_digit, between, digit_char. apply andb_true_iff. rewrite !N.leb_le. lia. Qed.

Lemma show_digits_digits fuel n : all_digits (show_digits fuel n).
Proof.
  revert n. induction fuel as [|fuel IH]; intros n; simpl; [constructor|].
  destruct (N.ltb_spec n 10).
  - repeat constructor. by apply digit_char_digit.
  - apply Forall_app; split; [apply IH|]. repeat constructor. apply digit_char_digit, N.mod_lt. lia.
Qed.

Lemma digits_value_snoc s c : digits_value (s ++ [c]) = (digits_value s * 10 + (c - 48))%N.
Proof. unfold digits_value. by rewrite foldl_app. Qed.

Lemma digits_value_app a b : digits_value (a ++ b) = (digits_value a * 10 ^ N.of_nat (length b) + digits_value b)%N.
Proof.
  induction b as [|c b IH] using rev_ind; [rewrite app_nil_r; cbn; lia|].
  rewrite app_assoc, !digits_value_snoc, IH, length_app. cbn [length].
  replace (N.of_nat (length b + 1)) with (N.succ (N.of_nat (length b))) by lia.
  rewrite N.pow_succ_r by lia. lia.
Qed.

Lemma digits_value_zeros k : digits_value (zeros k) = 0%N.
Proof.
  induction k as [|k IH]; [done|]. unfold zeros in *. rewrite replicate_S_end, digits_value_snoc, IH. done.
Qed.

Lemma show_digits_value fuel n : (n < 2 ^ N.of_nat fuel)%N -> digits_value (show_digits (S fuel) n) = n.
Proof.
  revert n. induction fuel as [|fuel IH]; intros n Hn; cbn [show_digits].
  - change (2 ^ N.of_nat 0)%N with 1%N in Hn. assert (n = 0%N) as -> by lia. done.
  - rewrite Nat2N.inj_succ, N.pow_succ_r in Hn by lia. destruct (N.ltb_spec n 10).
    + unfold digits_value, digit_char. cbn [foldl]. lia.
    + rewrite digits_value_snoc. cbn [show_digits] in IH.
      rewrite IH by (apply N.Div0.div_lt_upper_bound; lia).
      unfold digit_char. pose proof (N.div_mod n 10 ltac:(done)) as E. generalize dependent (n mod 10)%N. intros r E. lia.
Qed.

Lemma N_lt_size_nat n : (n < 2 ^ N.of_nat (N.size_nat n))%N.
Proof.
  destruct n as [|p]; [done|]. simpl. induction p as [p IH|p IH|]; cbn [Pos.size_nat];
    rewrite ?Nat2N.inj_succ, ?N.pow_succ_r by lia; lia.
Qed.

Lemma show_N_value n : digits_value (show_N n) = n.
Proof. apply show_digits_value, N_lt_size_nat. Qed.

Lemma show_N_digits n : all_digits (show_N n).
Proof. apply show_digits_digits. Qed.

Lemma show_N_nonempty n : show_N n <> [].
Proof.
  unfold show_N. cbn [show_digits]. case_match; [done|]. intros Hl%(f_equal length).
  rewrite length_app in Hl. cbn in Hl. lia.
Qed.

Lemma show_N_inj n m : show_N n = show_N m -> n = m.
Proof. intros H. by rewrite <- (show_N_value n), H, show_N_value. Qed.

Lemma zeros_digits k : all_digits (zeros k).
Proof. by apply Forall_replicate. Qed.

Lemma zfill_value k s : digits_value (zfill k s) = digits_value s.
Proof. unfold zfill. rewrite digits_value_app, digits_value_zeros. lia. Qed.

Lemma zfill_digits k s : all_digits s -> all_digits (zfill k s).
Proof. intros. apply Forall_app; split; [apply zeros_digits|done]. Qed.

Lemma zfill_length k s : length (zfill k s) = Nat.max k (length s).
Proof. unfold zfill, zeros. rewrite length_app, length_replicate. lia. Qed.

(** ** Scanning *)

Definition no_digit_next (s : text) : Prop :=
  match s with c :: _ => is_digit c = false /\ c <> 95%N | [] => True end.

Lemma scan_digits_app b s rest :
  all_digits s -> no_digit_next rest -> scan_digits b (s ++ rest) = (s, rest).
Proof.
  intros Hs Hr. revert b. induction Hs as [|c s Hc Hs IH]; intros b.
  - cbn. destruct rest as [|c [|c' rest]]; cbn; [done|..]; destruct Hr as [Hd Hu]; rewrite Hd; [done|].
    rewrite (proj2 (N.eqb_neq c 95) Hu). by rewrite andb_false_r.
  - cbn. rewrite Hc, IH. done.
Qed.

Lemma scan_exponent_exp e : scan_exponent (exp_text e) = Some e.
Proof.
  unfold exp_text, scan_exponent. cbn [N.eqb Pos.eqb orb].
  set (ds := zfill 2 (show_N (Z.abs_N e))).
  assert (all_digits ds /\ ds <> [] /\ digits_value ds = Z.abs_N e) as (Hd & Hn & Hv).
  { unfold ds. split_and!; [apply zfill_digits, show_N_digits| |by rewrite zfill_value, show_N_value].
    intros E%(f_equal length). rewrite zfill_length in E. cbn in E. lia. }
  assert (forall neg, scan_sign ((if neg : bool then 45%N else 43%N) :: ds) = (neg, ds)) as Hs by (by intros []).
  rewrite Hs. pose proof (scan_digits_app false ds [] Hd I) as E. rewrite app_nil_r in E. rewrite E, Hv.
  destruct ds; [done|]. destruct (Z.ltb_spec e 0); f_equal; lia.
Qed.

(** A number without sign: digits, perhaps a fraction, perhaps an exponent. *)
Definition fraction_text (fp : option text) : text :=
  match fp with Some s => 46%N :: s | None => [] end.

Lemma py_unsigned_number neg ip fp t e :
  all_digits ip -> ip <> [] -> (forall s, fp = Some s -> all_digits s) ->
  (t = [] /\ e = 0%Z \/ t = exp_text e) ->
  let q := scale10 (digits_value (ip ++ default [] fp)) (e - Z.of_nat (length (default [] fp))) in
  Qle_bool FLT_OVER q = false ->
  py_unsigned neg (ip ++ fraction_text fp ++ t) = PNum (if neg then (- q)%Q else q).
Proof.
  intros Hip Hne Hfp Ht q Hq. unfold py_unsigned.
  assert (scan_exponent t = Some e) as He by (destruct Ht as [[-> ->]| ->]; [done|apply scan_exponent_exp]).
  assert (no_digit_next t) as Hnd by (by destruct Ht as [[-> ->]| ->]).
  rewrite scan_digits_app by (done || by destruct fp).
  assert (scan_fraction (fraction_text fp ++ t) = (default [] fp, t)) as ->.
  { destruct fp as [s|]; cbn; [apply scan_digits_app; [by apply Hfp|done]|].
    by destruct Ht as [[-> ->]| ->]. }
  rewrite He. unfold q in *. destruct (ip ++ default [] fp) as [|c ds] eqn:E; [by destruct ip|].
  cbv zeta. by rewrite Hq.
Qed.

(** ** What [float] accepts here *)

(** The characters of a printed number. *)
Definition num_char (c : N) : bool := is_digit c || bool_decide (c ∈ [43; 45; 46; 101]%N).

Lemma num_char_ascii c : num_char c = true -> (c <? 128)%N = true /\ space c = false.
Proof.
  unfold num_char, is_digit, between. intros [[H1%N.leb_le H2%N.leb_le]%andb_true_iff|Hc%bool_decide_eq_true]%orb_true_iff.
  - assert (c ∈ [48; 49; 50; 51; 52; 53; 54; 55; 56; 57])%N as Hc by (rewrite !elem_of_cons; lia).
    repeat (apply elem_of_cons in Hc as [->|Hc]; [done|]). by apply not_elem_of_nil in Hc.
  - repeat (apply elem_of_cons in Hc as [->|Hc]; [done|]). by apply not_elem_of_nil in Hc.
Qed.

Lemma digits_num s : all_digits s -> Forall (fun c => num_char c = true) s.
Proof. intros H. eapply Forall_impl; [exact H|]. intros c Hc. unfold num_char. by rewrite Hc. Qed.

Lemma strip_id s : Forall (fun c => space c = false) s -> strip s = s.
Proof.
  intros H. apply strip_by_fix. split.
  - destruct H; done.
  - apply Forall_rev in H. destruct H; done.
Qed.

Lemma lower_digit_head c s w : is_digit c = true -> is_digit (hd 0%N w) = false -> text_eqb (lower (c :: s)) w = false.
Proof.
  intros Hc Hw. apply bool_decide_eq_false. intros <-. unfold lower in Hw. cbn in Hw.
  destruct (num_char_ascii c) as [Ha _]; [unfold num_char; by rewrite Hc|].
  assert (between 65 90 c = false) as Hb.
  { unfold is_digit, between in *. apply andb_true_iff in Hc as [_ Hc%N.leb_le].
    apply andb_false_iff. left. apply N.leb_gt. lia. }
  unfold lower_char in Hw. rewrite Ha, Hb in Hw. cbn in Hw. congruence.
Qed.

(** A printed number, its sign apart, is read by [py_unsigned]. *)
Lemma py_float_number (neg : bool) c s :
  is_digit c = true -> Forall (fun x => num_char x = true) (c :: s) ->
  py_float ((if neg then [45%N] else []) ++ c :: s) = py_unsigned neg (c :: s).
Proof.
  intros Hc Hs. set (t := (if neg then [45%N] else []) ++ c :: s).
  assert (Forall (fun x => num_char x = true) t) as Ht.
  { unfold t. apply Forall_app; split; [|done]. destruct neg; repeat constructor. }
  unfold py_float.
  replace (forallb _ t) with true; [|symmetry; apply forallb_forall; intros x Hx].
  2: { rewrite Forall_forall in Ht. by apply num_char_ascii, Ht, list_elem_of_In. }
  rewrite strip_id; [|eapply Forall_impl; [exact Ht|]; intros x Hx; by apply num_char_ascii].
  assert (scan_sign t = (neg, c :: s)) as ->.
  { unfold t. destruct neg; [done|]. cbn.
    destruct (N.eqb_spec c 45) as [->|_]; [done|]. by destruct (N.eqb_spec c 43) as [->|_]. }
  by rewrite !lower_digit_head.
Qed.

(** ** The value *)

Lemma scale10_spec n e : (scale10 n e == inject_Z (Z.of_N n) * inject_Z 10 ^ e)%Q.
Proof.
  unfold scale10. rewrite Qred_correct. destruct (Z.leb_spec 0 e).
  - by rewrite inject_Z_mult, Zpower_Qpower.
  - rewrite Zpower_Qpower by lia. rewrite Qpower_opp. unfold Qdiv. by rewrite Qinv_involutive.
Qed.

Lemma scale10_canon n e q : (q == inject_Z (Z.of_N n) * inject_Z 10 ^ e)%Q -> scale10 n e = Qred q.
Proof.
  intros H. rewrite <- (scale10_spec n e) in H. rewrite (Qred_complete _ _ H).
  unfold scale10. by rewrite (Qred_complete _ _ (Qred_correct _)).
Qed.

Lemma scale10_shift n k e : scale10 (n * 10 ^ N.of_nat k) e = scale10 n (Z.of_nat k + e).
Proof.
  rewrite (scale10_canon n (Z.of_nat k + e) _ (Qeq_refl _)). apply scale10_canon.
  rewrite N2Z.inj_mul, N2Z.inj_pow, nat_N_Z, inject_Z_mult, Qpower_plus by done.
  change (Z.of_N 10) with 10%Z. rewrite Zpower_Qpower by lia. ring.
Qed.

Lemma scale10_units u nd : scale10 u (- Z.of_nat nd) = Qred (inject_Z (Z.of_N u) / inject_Z (10 ^ Z.of_nat nd)).
Proof.
  apply scale10_canon. rewrite Qpower_opp, <- Zpower_Qpower by lia. done.
Qed.

(** ** Rounding is symmetric *)

(** [z] is the nearest integer, the even one when there are two. *)
Definition nearest_even (q : Q) (z : Z) : Prop :=
  (- (1 # 2) <= q - inject_Z z <= 1 # 2)%Q /\
  (Z.even z = true \/ (- (1 # 2) < q - inject_Z z < 1 # 2)%Q).

Lemma Qround_even_nearest q : nearest_even q (Qround_even q).
Proof.
  pose proof (Qfloor_le q) as Hl. pose proof (Qlt_floor q) as Hu. rewrite inject_Z_plus in Hu.
  change (inject_Z 1) with 1%Q in Hu.
  unfold nearest_even, Qround_even. set (f := Qfloor q) in *. cbv zeta.
  destruct (Qltb (q - inject_Z f) (1 # 2)) eqn:E1; [apply Qltb_lt in E1; split; [lra|right; lra]|].
  apply Qltb_ge in E1. destruct (Qltb (1 # 2) (q - inject_Z f)) eqn:E2.
  - apply Qltb_lt in E2. rewrite inject_Z_plus. change (inject_Z 1) with 1%Q. split; [lra|right; lra].
  - apply Qltb_ge in E2. destruct (Z.even f) eqn:Ef; [split; [lra|by left]|].
    split; [rewrite inject_Z_plus; change (inject_Z 1) with 1%Q; lra|left].
    by rewrite Z.even_add, Ef.
Qed.

Lemma nearest_even_unique q z z' : nearest_even q z -> nearest_even q z' -> z = z'.
Proof.
  intros [H1 H2] [H3 H4].
  assert (inject_Z z - inject_Z z' <= 1 /\ inject_Z z' - inject_Z z <= 1)%Q as [Ha Hb] by (split; lra).
  unfold Qminus in Ha, Hb. rewrite <- inject_Z_opp, <- inject_Z_plus in Ha, Hb.
  change 1%Q with (inject_Z 1) in Ha, Hb. rewrite <- Zle_Qle in Ha, Hb.
  assert (z = z' \/ z = z' + 1 \/ z' = z + 1)%Z as [?|[->| ->]] by lia; [done|exfalso..].
  all: rewrite inject_Z_plus in *; change (inject_Z 1) with 1%Q in *; rewrite Z.even_add in *.
  all: destruct H2 as [E1|?]; [|lra]; destruct H4 as [E2|?]; [|lra]; by rewrite ?E1, ?E2 in *.
Qed.

Lemma Qround_even_eq q z : nearest_even q z -> Qround_even q = z.
Proof. intros H. apply (nearest_even_unique q); [apply Qround_even_nearest|done]. Qed.

Lemma Qround_even_opp q : Qround_even (- q) = (- Qround_even q)%Z.
Proof.
  apply Qround_even_eq. destruct (Qround_even_nearest q) as [H1 H2].
  unfold nearest_even. rewrite inject_Z_opp, Z.even_opp. split; [lra|]. destruct H2; [by left|right; lra].
Qed.

Lemma Qround_even_Qeq q q' : (q == q')%Q -> Qround_even q = Qround_even q'.
Proof.
  intros H. apply Qround_even_eq. destruct (Qround_even_nearest q') as [H1 H2].
  unfold nearest_even. rewrite H. done.
Qed.

Lemma Qround_even_nonneg q : (0 <= q)%Q -> (0 <= Qround_even q)%Z.
Proof.
  intros H. destruct (Qround_even_nearest q) as [[_ H1] _].
  assert (inject_Z (-1) < inject_Z (Qround_even q))%Q as H2 by (change (inject_Z (-1)) with (-1)%Q; lra).
  rewrite <- Zlt_Qlt in H2. lia.
Qed.

(** What the sign and the units of the last place denote. *)
Lemma round_nd_units nd q :
  (round_nd nd q == (if Qltb q 0 then -1 else 1) * (inject_Z (Z.of_N (units nd q)) / inject_Z (10 ^ Z.of_nat nd)))%Q.
Proof.
  unfold round_nd, units. cbv zeta. pose proof (pow10_pos nd) as Hp.
  set (s := inject_Z (10 ^ Z.of_nat nd)) in *.
  rewrite Z2N.id by (apply Qround_even_nonneg, Qmult_le_0_compat; [apply Qabs_nonneg|lra]).
  destruct (Qltb q 0) eqn:E.
  - apply Qltb_lt in E.
    rewrite (Qround_even_Qeq (Qabs q * s) (- (q * s))) by (rewrite Qabs_neg by lra; ring).
    rewrite Qround_even_opp, inject_Z_opp. field. lra.
  - apply Qltb_ge in E. rewrite (Qround_even_Qeq (Qabs q * s) (q * s)) by (by rewrite Qabs_pos). field. lra.
Qed.

Lemma Qred_scaled nd q :
  (if Qltb q 0 then - scale10 (units nd q) (- Z.of_nat nd) else scale10 (units nd q) (- Z.of_nat nd))%Q
  = Qred (round_nd nd q).
Proof.
  rewrite (Qred_complete _ _ (round_nd_units nd q)), scale10_units. destruct (Qltb q 0).
  - rewrite <- Qred_opp. apply Qred_complete. ring.
  - apply Qred_complete. ring.
Qed.

(** ** Round trips *)

(** Fifteen significant digits, which a double keeps. *)
Definition printable (nd : nat) (q : Q) : Prop := (units nd q < 10 ^ 15)%N.

Lemma printable_finite nd q : printable nd q -> Qle_bool FLT_OVER (scale10 (units nd q) (- Z.of_nat nd)) = false.
Proof.
  intros H. apply Qle_bool_false. rewrite scale10_units, Qred_correct.
  apply Qle_lt_trans with (inject_Z (Z.of_N (units nd q))).
  - apply Qle_shift_div_r; [apply pow10_pos|]. rewrite <- inject_Z_mult, <- Zle_Qle.
    pose proof (Z.pow_pos_nonneg 10 (Z.of_nat nd)). nia.
  - unfold FLT_OVER. rewrite <- Zlt_Qlt. apply Z.lt_trans with (10 ^ 15)%Z; [unfold printable in H; lia|done].
Qed.

(** The digits of a number that [printable] bounds, read back with its sign. *)
Lemma py_float_units nd q c s :
  is_digit c = true -> Forall (fun x => num_char x = true) (c :: s) ->
  (forall neg, py_unsigned neg (c :: s) =
     PNum (if neg then - scale10 (units nd q) (- Z.of_nat nd) else scale10 (units nd q) (- Z.of_nat nd))%Q) ->
  py_float (sign_text q ++ c :: s) = PNum (Qred (round_nd nd q)).
Proof.
  intros Hc Hs Hv. unfold sign_text. rewrite py_float_number by done. rewrite Hv, <- (Qred_scaled nd q).
  done.
Qed.

Lemma all_digits_split k s : all_digits s -> all_digits (take k s) /\ all_digits (drop k s).
Proof. intros H. apply Forall_app. by rewrite take_drop. Qed.

(** The integer part, the fraction and the exponent of a printed number. *)
Lemma py_float_parts nd q ip fp t e :
  printable nd q -> all_digits ip -> ip <> [] -> (forall s, fp = Some s -> all_digits s) ->
  (t = [] /\ e = 0%Z \/ t = exp_text e) ->
  scale10 (digits_value (ip ++ default [] fp)) (e - Z.of_nat (length (default [] fp)))
    = scale10 (units nd q) (- Z.of_nat nd) ->
  py_float (sign_text q ++ ip ++ fraction_text fp ++ t) = PNum (Qred (round_nd nd q)).
Proof.
  intros Hp Hip Hne Hfp Ht Hv.
  assert (Forall (fun x => num_char x = true) (ip ++ fraction_text fp ++ t)) as Hn.
  { apply Forall_app; split; [by apply digits_num|]. apply Forall_app; split.
    - destruct fp as [s|]; [|constructor]. constructor; [done|]. by apply digits_num, Hfp.
    - destruct Ht as [[-> _]| ->]; [constructor|]. unfold exp_text.
      constructor; [done|]. constructor; [by destruct (e <? 0)%Z|].
      apply digits_num, zfill_digits, show_N_digits. }
  pose proof (printable_finite nd q Hp) as Hf. rewrite <- Hv in Hf.
  assert (forall neg, _) as Hu by (intros neg; exact (py_unsigned_number neg ip fp t e Hip Hne Hfp Ht Hf)).
  rewrite Hv in Hu. destruct ip as [|c ip]; [done|]. apply py_float_units; [|exact Hn|exact Hu].
  by inversion Hip.
Qed.

(** [float(f"{x:.{nd}f}")] is [x] rounded to [nd] places. *)
Lemma py_float_format nd q : printable nd q -> py_float (format_f nd q) = PNum (Qred (round_nd nd q)).
Proof.
  intros Hp. unfold format_f, fixed_text. set (s := zfill (S nd) (show_N (units nd q))).
  assert (all_digits s) as Hs by apply zfill_digits, show_N_digits.
  assert (digits_value s = units nd q) as Hv by (unfold s; by rewrite zfill_value, show_N_value).
  assert (S nd <= length s) as Hl by (unfold s; rewrite zfill_length; lia). clearbody s.
  destruct (all_digits_split (length s - nd) s Hs) as [Ht Hd].
  destruct nd as [|nd'].
  - pose proof (py_float_parts 0 q s None [] 0) as H. cbn [fraction_text from_option id] in H.
    rewrite !app_nil_r in H. apply H; try done; [intros ->; cbn in Hl; lia|by left|]. by rewrite Hv.
  - set (i := length s - S nd') in *.
    pose proof (py_float_parts (S nd') q (take i s) (Some (drop i s)) [] 0) as H.
    cbn [fraction_text from_option id] in H. rewrite app_nil_r in H. apply H; try done.
    + intros E%(f_equal length). rewrite length_take in E. cbn in E. lia.
    + by intros ? [= <-].
    + by left.
    + rewrite take_drop, Hv, length_drop. f_equal. lia.
Qed.

Lemma strip0_split r : exists k, r = zeros k ++ strip0 r.
Proof.
  induction r as [|c r [k IH]]; [by exists 0|]. cbn. destruct (N.eqb_spec c 48) as [->|Hc].
  - exists (S k). cbn. by f_equal.
  - by exists 0.
Qed.

Lemma rstrip0_split s : exists k, s = rstrip0 s ++ zeros k.
Proof.
  destruct (strip0_split (rev s)) as [k E]. exists k. unfold rstrip0.
  rewrite <- (rev_involutive s) at 1. rewrite E at 1. rewrite rev_app_distr. f_equal.
  unfold zeros. clear. induction k as [|k IH]; [done|]. cbn. rewrite IH. by rewrite <- replicate_S_end.
Qed.

Lemma rstrip0_digits s : all_digits s -> all_digits (rstrip0 s).
Proof. destruct (rstrip0_split s) as [k E]. intros H. rewrite E in H. by apply Forall_app in H as [? _]. Qed.

Lemma py_float_repr_digits nd q ds decpt :
  printable nd q -> all_digits ds -> ds <> [] ->
  scale10 (digits_value ds) (decpt - Z.of_nat (length ds)) = scale10 (units nd q) (- Z.of_nat nd) ->
  py_float (sign_text q ++ repr_digits ds decpt) = PNum (Qred (round_nd nd q)).
Proof.
  intros Hp Hd Hne Hs. pose proof (py_float_parts nd q) as HP. unfold repr_digits.
  destruct (_ && _) eqn:Er; [|clear Er].
  - destruct (Z.leb_spec decpt 0); [|destruct (Z.ltb_spec decpt (Z.of_nat (length ds)))].
    + specialize (HP [48%N] (Some (zeros (Z.to_nat (- decpt)) ++ ds)) [] 0%Z).
      rewrite !app_nil_r in HP. apply HP; try done.
      * repeat constructor.
      * intros ? [= <-]. apply Forall_app; split; [apply zeros_digits|done].
      * by left.
      * rewrite <- Hs. cbn [from_option id]. rewrite length_app. unfold zeros. rewrite length_replicate.
        change ([48%N] ++ replicate (Z.to_nat (- decpt)) 48%N ++ ds) with (zeros (S (Z.to_nat (- decpt))) ++ ds).
        rewrite digits_value_app, digits_value_zeros. f_equal; lia.
    + destruct (all_digits_split (Z.to_nat decpt) ds Hd) as [H1 H2].
      specialize (HP (take (Z.to_nat decpt) ds) (Some (drop (Z.to_nat decpt) ds)) [] 0%Z).
      cbn [fraction_text from_option id] in HP. rewrite app_nil_r in HP. apply HP; try done.
      * intros E%(f_equal length). rewrite length_take in E. cbn in E. lia.
      * by intros ? [= <-].
      * by left.
      * rewrite take_drop, <- Hs, length_drop. f_equal. lia.
    + specialize (HP (ds ++ zeros (Z.to_nat (decpt - Z.of_nat (length ds)))) (Some [48%N]) [] 0%Z).
      cbn [fraction_text from_option id app] in HP. rewrite (app_assoc ds). apply HP; try done.
      * apply Forall_app; split; [done|apply zeros_digits].
      * by destruct ds.
      * intros ? [= <-]. repeat constructor.
      * by left.
      * rewrite <- Hs, digits_value_snoc. rewrite digits_value_app, digits_value_zeros. unfold zeros.
        rewrite length_replicate. cbn [length]. rewrite N.add_0_r.
        change (48 - 48)%N with 0%N. rewrite N.add_0_r. change 10%N with (10 ^ N.of_nat 1)%N at 2.
        rewrite !scale10_shift. f_equal. lia.
  - destruct ds as [|d [|d2 rest]]; [done|..].
    + apply (HP [d] None (exp_text (decpt - 1)) (decpt - 1)%Z); try done; [by right|].
      rewrite <- Hs. cbn [from_option id app length]. f_equal. lia.
    + inversion_clear Hd as [|? ? Hd1 Hd2].
      apply (HP [d] (Some (d2 :: rest)) (exp_text (decpt - 1)) (decpt - 1)%Z); try done.
      * by repeat constructor.
      * by intros ? [= <-].
      * by right.
      * rewrite <- Hs. cbn [from_option id app length]. f_equal. lia.
Qed.

(** [float(repr(round(x, nd)))] is [x] rounded to [nd] places. *)
Lemma py_float_repr nd q : printable nd q -> py_float (repr_round nd q) = PNum (Qred (round_nd nd q)).
Proof.
  intros Hp. unfold repr_round, repr_units. destruct (N.eqb_spec (units nd q) 0) as [E0|E0].
  { pose proof (py_float_parts nd q [48%N] (Some [48%N]) [] 0) as H. apply H; try done.
    - repeat constructor.
    - intros ? [= <-]. repeat constructor.
    - by left.
    - rewrite E0. rewrite (scale10_canon 0 (- Z.of_nat nd) 0%Q) by ring. done. }
  destruct (rstrip0_split (show_N (units nd q))) as [k Ek].
  assert (units nd q = digits_value (rstrip0 (show_N (units nd q))) * 10 ^ N.of_nat k)%N as Hu.
  { rewrite <- (show_N_value (units nd q)) at 1. rewrite Ek at 1. rewrite digits_value_app, digits_value_zeros.
    unfold zeros. rewrite length_replicate. lia. }
  apply py_float_repr_digits; [done|apply rstrip0_digits, show_N_digits| |].
  - intros E. rewrite E in Hu. cbn in Hu. lia.
  - transitivity (scale10 (digits_value (rstrip0 (show_N (units nd q))) * 10 ^ N.of_nat k) (- Z.of_nat nd)); [|by rewrite <- Hu].
    rewrite scale10_shift. f_equal. rewrite Ek at 1. rewrite length_app. unfold zeros.
    rewrite length_replicate. lia.
Qed.

(** An integer written by [str] is read exactly. *)
Lemma py_float_show n : (n < 10 ^ 15)%N -> py_float (show_N n) = PNum (inject_Z (Z.of_N n)).
Proof.
  intros Hn. set (q := inject_Z (Z.of_N n)).
  assert (units 0 q = n) as Hu.
  { unfold units. rewrite (Qround_even_int _ (Z.of_N n)); [lia|].
    change (inject_Z (10 ^ Z.of_nat 0)) with 1%Q. rewrite Qmult_1_r. apply Qabs_pos.
    unfold q. change 0%Q with (inject_Z 0). rewrite <- Zle_Qle. lia. }
  assert (Qred (round_nd 0 q) = q) as Hq.
  { rewrite (Qred_complete _ q); [apply (Qcanon.Qred_identity q); simpl; apply Z.gcd_1_r|].
    rewrite (round_nd_exact 0 q (Z.of_N n)); [done|]. change (inject_Z (10 ^ Z.of_nat 0)) with 1%Q. rewrite Qmult_1_r. done. }
  pose proof (py_float_format 0 q) as H. rewrite Hq in H.
  rewrite <- H by (unfold printable; by rewrite Hu).
  unfold format_f, sign_text, fixed_text. rewrite Hu.
  replace (Qltb q 0) with false.
  - unfold zfill. replace (1 - length (show_N n)) with 0; [done|].
    pose proof (show_N_nonempty n). destruct (show_N n); [done|]. cbn. lia.
  - symmetry. apply Qltb_ge. unfold q. change 0%Q with (inject_Z 0). rewrite <- Zle_Qle. lia.
Qed.

(** Two rounded values print alike exactly when they are equal. *)
Lemma repr_round_inj nd q q' :
  printable nd q -> printable nd q' -> repr_round nd q = repr_round nd q' -> (round_nd nd q == round_nd nd q')%Q.
Proof.
  intros H H' E. pose proof (py_float_repr nd q H) as E1. rewrite E, (py_float_repr nd q' H') in E1.
  injection E1 as E1. apply Qred_eq_iff. by symmetry.
Qed.

(** ** Lengths *)

Lemma show_digits_length fuel n : length (show_digits fuel n) <= fuel.
Proof.
  revert n. induction fuel as [|fuel IH]; intros n; cbn; [lia|]. case_match; [cbn; lia|].
  rewrite length_app. cbn. specialize (IH (n / 10)%N). lia.
Qed.

Lemma size_nat_le n k : (n < 2 ^ N.of_nat k)%N -> N.size_nat n <= k.
Proof.
  destruct n as [|p]; [cbn; lia|]. cbn. revert p. induction k as [|k IH]; intros p; [cbn; lia|].
  rewrite Nat2N.inj_succ, N.pow_succ_r by lia. destruct p as [p|p|]; cbn [Pos.size_nat]; intros H;
    try (assert (Pos.size_nat p <= k) by (apply IH; lia)); lia.
Qed.

Lemma show_N_length n k : (n < 2 ^ N.of_nat k)%N -> length (show_N n) <= S k.
Proof.
  intros H%size_nat_le. unfold show_N. pose proof (show_digits_length (S (N.size_nat n)) n). lia.
Qed.

Lemma rstrip0_length s : length (rstrip0 s) <= length s.
Proof. destruct (rstrip0_split s) as [k E]. rewrite E at 2. rewrite length_app. lia. Qed.

Lemma repr_digits_length ds decpt :
  (-200 <= decpt <= 200)%Z -> length (repr_digits ds decpt) <= length ds + 32.
Proof.
  intros Hd. unfold repr_digits, zeros.
  assert (length (exp_text (decpt - 1)) <= 12) as He.
  { unfold exp_text. cbn [length]. rewrite zfill_length.
    pose proof (show_N_length (Z.abs_N (decpt - 1)) 8). change (2 ^ N.of_nat 8)%N with 256%N in H. lia. }
  destruct (_ && _) eqn:E.
  - apply andb_true_iff in E as [E1%Z.ltb_lt E2%Z.leb_le].
    repeat case_match; cbn [length]; rewrite ?length_app; cbn [length];
      rewrite ?length_app, ?length_replicate, ?length_take, ?length_drop; cbn [length]; lia.
  - destruct ds as [|d [|d2 rest]]; cbn [length]; rewrite ?length_app; cbn [length]; lia.
Qed.

Lemma repr_round_length nd q : printable nd q -> nd <= 100 -> length (repr_round nd q) <= 100.
Proof.
  intros Hp Hn. unfold repr_round. rewrite length_app.
  assert (length (sign_text q) <= 1) by (unfold sign_text; case_match; cbn; lia).
  enough (length (repr_units nd (units nd q)) <= 83) by lia.
  unfold repr_units. case_match; [change (3 <= 83); lia|].
  assert (length (show_N (units nd q)) <= 51) as Hl.
  { apply show_N_length. apply N.lt_trans with (10 ^ 15)%N; [exact Hp|done]. }
  pose proof (rstrip0_length (show_N (units nd q))) as Hr.
  pose proof (repr_digits_length (rstrip0 (show_N (units nd q)))
    (Z.of_nat (length (show_N (units nd q))) - Z.of_nat nd)) as H1. lia.
Qed.

Lemma format_f_length nd q : printable nd q -> nd <= 50 -> length (format_f nd q) <= 100.
Proof.
  intros Hp Hn. unfold format_f. rewrite length_app.
  assert (length (sign_text q) <= 1) by (unfold sign_text; case_match; cbn; lia).
  assert (length (show_N (units nd q)) <= 51) as Hl.
  { apply show_N_length. apply N.lt_trans with (10 ^ 15)%N; [exact Hp|done]. }
  enough (length (fixed_text nd (units nd q)) <= 53) by lia.
  unfold fixed_text. pose proof (zfill_length (S nd) (show_N (units nd q))) as Hz. destruct nd; [lia|].
  rewrite length_app. cbn [length]. rewrite length_take, length_drop. lia.
Qed.
