(* ===== verification/Csv.v ===== *)
(** * The [csv] module

    The excel dialect that [csv.DictWriter] and [csv.DictReader] use by default: fields
    separated by commas, rows ended by a carriage return and a line feed, a field quoted when
    it holds one of those or a quote, a quote inside a quoted field doubled. The reader is the
    module's state machine, run over a file opened without newline translation. *)

From stdpp Require Import base list strings.
From Stdlib Require Import NArith Lia.
From S2P Require Import Prelude Text.

Local Open Scope nat_scope.

Definition comma : N := 44%N.
Definition quotechar : N := 34%N.
Definition cr : N := 13%N.
Definition lf : N := 10%N.

(** ** Writing *)

Definition special (c : N) : bool := (c =? comma)%N || (c =? quotechar)%N || (c =? cr)%N || (c =? lf)%N.

(** A quote is doubled. *)
Definition double_quotes (s : text) : text := c ← s; if (c =? quotechar)%N then [quotechar; quotechar] else [c].

(** The only field of a row is quoted when it is empty, or the row would be a blank line. *)
Definition field_text (only : bool) (s : text) : text :=
  if existsb special s || (only && match s with [] => true | _ => false end)
  then quotechar :: double_quotes s ++ [quotechar] else s.

Definition row_text (fields : list text) : text :=
  join [comma] (field_text (Nat.eqb (length fields) 1) <$> fields) ++ [cr; lf].

(** ** Reading *)

Inductive cstate : Type :=
| START_RECORD | START_FIELD | IN_FIELD | IN_QUOTED_FIELD | QUOTE_IN_QUOTED_FIELD | EAT_CRNL.

Record parser := mkParser { ps_state : cstate; ps_field : text; ps_fields : list text }.

Definition fresh : parser := mkParser START_RECORD [] [].

Definition csv_Error : exn := OtherError "csv.Error".
Definition field_limit : N := 131072.

Definition save_field (st : cstate) (p : parser) : parser := mkParser st [] (ps_fields p ++ [ps_field p]).

Definition add_char (c : N) (st : cstate) (p : parser) : result parser :=
  if (N.of_nat (length (ps_field p)) <? field_limit)%N
  then Ok (mkParser st (ps_field p ++ [c]) (ps_fields p)) else Raise csv_Error.

Definition is_crlf (c : N) : bool := (c =? cr)%N || (c =? lf)%N.

Definition start_field (p : parser) (c : N) : result parser :=
  if is_crlf c then Ok (save_field EAT_CRNL p)
  else if (c =? quotechar)%N then Ok (mkParser IN_QUOTED_FIELD (ps_field p) (ps_fields p))
  else if (c =? comma)%N then Ok (save_field START_FIELD p)
  else add_char c IN_FIELD p.

(** One character of a line. *)
Definition process_char (p : parser) (c : N) : result parser :=
  match ps_state p with
  | START_RECORD =>
      if is_crlf c then Ok (mkParser EAT_CRNL (ps_field p) (ps_fields p)) else start_field p c
  | START_FIELD => start_field p c
  | IN_FIELD =>
      if is_crlf c then Ok (save_field EAT_CRNL p)
      else if (c =? comma)%N then Ok (save_field START_FIELD p)
      else add_char c IN_FIELD p
  | IN_QUOTED_FIELD =>
      if (c =? quotechar)%N then Ok (mkParser QUOTE_IN_QUOTED_FIELD (ps_field p) (ps_fields p))
      else add_char c IN_QUOTED_FIELD p
  | QUOTE_IN_QUOTED_FIELD =>
      if (c =? quotechar)%N then add_char c IN_QUOTED_FIELD p
      else if (c =? comma)%N then Ok (save_field START_FIELD p)
      else if is_crlf c then Ok (save_field EAT_CRNL p)
      else add_char c IN_FIELD p
  | EAT_CRNL => if is_crlf c then Ok p else Raise csv_Error
  end.

(** The end of a line. *)
Definition process_eol (p : parser) : parser :=
  match ps_state p with
  | START_RECORD => p
  | START_FIELD | IN_FIELD | QUOTE_IN_QUOTED_FIELD => save_field START_RECORD p
  | IN_QUOTED_FIELD => p
  | EAT_CRNL => mkParser START_RECORD (ps_field p) (ps_fields p)
  end.

(** A line ends after a line feed, after a carriage return that no line feed follows, and
    with the file. *)
Definition ends_line (c : N) (rest : text) : bool :=
  match rest with
  | [] => true
  | c' :: _ => (c =? lf)%N || ((c =? cr)%N && negb (c' =? lf)%N)
  end.

Fixpoint read_from (s : text) (p : parser) : result (list (list text)) :=
  match s with
  | [] => Ok (match ps_state p with IN_QUOTED_FIELD => [ps_fields p ++ [ps_field p]] | _ => [] end)
  | c :: s' =>
      p1 ← process_char p c;
      if ends_line c s' then
        let p2 := process_eol p1 in
        match ps_state p2 with
        | START_RECORD => rows ← read_from s' fresh; Ok (ps_fields p2 :: rows)
        | _ => read_from s' p2
        end
      else read_from s' p1
  end.

Definition csv_reader (s : text) : result (list (list text)) := read_from s fresh.

(** ** [DictWriter], [DictReader] *)

Notation drow := (list (text * text)).

(** [writerow]: a key that is not a column raises; a missing one is [restval], the empty
    string. *)
Definition dict_to_list (cols : list text) (r : drow) : result (list text) :=
  if forallb (fun k => bool_decide (k ∈ cols)) (dkeys r)
  then Ok ((fun c => default [] (dget c r)) <$> cols) else Raise ValueError.

Definition dict_write (cols : list text) (rows : list drow) : result text :=
  body ← rmapM (dict_to_list cols) rows;
  Ok (concat (row_text <$> cols :: body)).

(** A row read: the columns, [None] where the row is too short, and what is left over. *)
Record dict_row := mkDictRow { dr_cells : list (text * option text); dr_rest : list text }.

Definition dict_of (cols : list text) (row : list text) : dict_row :=
  mkDictRow
    (foldl (fun d kv => dset kv.1 kv.2 d) []
       (zip cols ((Some <$> row) ++ replicate (length cols - length row) None)))
    (drop (length cols) row).

(** Blank lines are skipped; the first line names the columns. *)
Definition dict_read (s : text) : result (list dict_row) :=
  rows ← csv_reader s;
  Ok (match rows with
      | [] => []
      | cols :: body =>
          dict_of cols <$> List.filter (fun r => match r with [] => false | _ => true end) body
      end).

(** * Properties *)

Lemma read_from_cons c s p :
  s <> [] -> is_crlf c = false ->
  read_from (c :: s) p = p1 ← process_char p c; read_from s p1.
Proof.
  intros Hs Hc. cbn [read_from]. replace (ends_line c s) with false; [done|].
  destruct s; [done|]. unfold is_crlf in Hc. apply orb_false_iff in Hc as [H1 H2]. cbn. by rewrite H1, H2.
Qed.

Lemma special_false c : special c = false ->
  (c =? comma)%N = false /\ (c =? quotechar)%N = false /\ is_crlf c = false.
Proof. unfold special, is_crlf. rewrite !orb_false_iff. naive_solver. Qed.

Lemma read_in_field s t f fs :
  t <> [] -> Forall (fun c => special c = false) s -> (N.of_nat (length f + length s) <= field_limit)%N ->
  read_from (s ++ t) (mkParser IN_FIELD f fs) = read_from t (mkParser IN_FIELD (f ++ s) fs).
Proof.
  intros Ht Hs. revert f. induction Hs as [|c s Hc _ IH]; intros f Hl; [by rewrite app_nil_r|].
  apply special_false in Hc as (Hcm & Hq & Hcr). cbn [app length] in *.
  rewrite read_from_cons by (by destruct s || done). unfold process_char. cbn [ps_state].
  rewrite Hcr, Hcm. unfold add_char. cbn [ps_field ps_fields]. rewrite (proj2 (N.ltb_lt _ _)) by lia. cbn [mbind result_bind].
  rewrite IH by (rewrite length_app; cbn; lia). by rewrite <- app_assoc.
Qed.

Lemma read_quoted_char c t f fs :
  t <> [] -> (c =? quotechar)%N = false -> (N.of_nat (length f) < field_limit)%N ->
  read_from (c :: t) (mkParser IN_QUOTED_FIELD f fs) = read_from t (mkParser IN_QUOTED_FIELD (f ++ [c]) fs).
Proof.
  intros Ht Hc Hl. cbn [read_from]. unfold process_char. cbn [ps_state]. rewrite Hc. unfold add_char.
  cbn [ps_field ps_fields]. rewrite (proj2 (N.ltb_lt _ _)) by done. cbn. by destruct (ends_line c t).
Qed.

Lemma read_in_quoted s t f fs :
  t <> [] -> (N.of_nat (length f + length s) <= field_limit)%N ->
  read_from (double_quotes s ++ t) (mkParser IN_QUOTED_FIELD f fs)
  = read_from t (mkParser IN_QUOTED_FIELD (f ++ s) fs).
Proof.
  intros Ht. revert f. induction s as [|c s IH]; intros f Hl; [by rewrite app_nil_r|].
  cbn [length] in Hl. unfold double_quotes in *. cbn [mbind list_bind].
  assert (forall u : text, u ++ t <> []) as Hne by (intros u; by destruct u).
  destruct (N.eqb_spec c quotechar) as [->|Hc].
  - rewrite <- app_assoc. cbn [app]. rewrite read_from_cons by done. cbn [mbind result_bind].
    unfold process_char at 1. cbn -[read_from field_limit].
    rewrite read_from_cons by (apply Hne || done). unfold process_char, add_char.
    cbn -[read_from field_limit]. rewrite (proj2 (N.ltb_lt _ _)) by lia. cbn -[read_from field_limit].
    rewrite IH by (rewrite length_app; cbn; lia). by rewrite <- app_assoc.
  - cbn [app]. rewrite read_quoted_char by (apply Hne || by apply N.eqb_neq || lia).
    rewrite IH by (rewrite length_app; cbn; lia). by rewrite <- app_assoc.
Qed.

(** ** A field at the start of a record or after a comma *)

Definition at_start (st : cstate) : Prop := st = START_RECORD \/ st = START_FIELD.

Definition fits (s : text) : Prop := (N.of_nat (length s) <= field_limit)%N.

(** Where the parser stands once it has read the text of a field. *)
Definition after_field (st : cstate) (only : bool) (s : text) : cstate :=
  if existsb special s || (only && match s with [] => true | _ => false end)
  then QUOTE_IN_QUOTED_FIELD else match s with [] => st | _ => IN_FIELD end.

Lemma read_field st only s t fs :
  at_start st -> fits s -> t <> [] ->
  read_from (field_text only s ++ t) (mkParser st [] fs)
  = read_from t (mkParser (after_field st only s) s fs).
Proof.
  intros Hst Hl Ht. unfold field_text, after_field.
  destruct (existsb special s || _) eqn:E.
  - assert (forall u : text, u ++ t <> []) as Hne by (intros u; by destruct u).
    cbn [app]. rewrite <- app_assoc. rewrite read_from_cons by (done || by destruct (double_quotes s)).
    assert (process_char (mkParser st [] fs) quotechar = Ok (mkParser IN_QUOTED_FIELD [] fs)) as ->
      by (by destruct Hst as [->| ->]).
    cbn [mbind result_bind]. rewrite read_in_quoted by done. cbn [app].
    rewrite read_from_cons by done. done.
  - apply orb_false_iff in E as [Hs _]. destruct s as [|c s]; [done|].
    assert (Forall (fun c => special c = false) (c :: s)) as Hf.
    { apply Forall_forall. intros x Hx. destruct (special x) eqn:Ex; [|done].
      assert (existsb special (c :: s) = true) as Ht' by (apply existsb_exists; exists x; by rewrite <- list_elem_of_In).
      congruence. }
    inversion_clear Hf as [|? ? Hc Hf']. apply special_false in Hc as (Hcm & Hq & Hcr).
    unfold fits in Hl. cbn [length] in Hl. cbn [app]. rewrite read_from_cons by (done || by destruct s).
    assert (process_char (mkParser st [] fs) c = Ok (mkParser IN_FIELD [c] fs)) as ->.
    { destruct Hst as [->| ->]; unfold process_char, start_field; cbn [ps_state]; by rewrite Hcr, Hq, Hcm. }
    cbn [mbind result_bind]. by rewrite read_in_field by (done || cbn [length]; lia).
Qed.

(** Then a comma, *)
Lemma read_field_comma st only s t fs :
  at_start st -> fits s -> t <> [] ->
  read_from (field_text only s ++ comma :: t) (mkParser st [] fs)
  = read_from t (mkParser START_FIELD [] (fs ++ [s])).
Proof.
  intros Hst Hl Ht. rewrite read_field by done. rewrite read_from_cons by done.
  unfold after_field. case_match; [done|]. by destruct s, Hst as [->| ->].
Qed.

(** or the end of the row. *)
Lemma read_field_end st only s t fs :
  at_start st -> fits s -> (st = START_RECORD -> only = true \/ s <> []) ->
  read_from (field_text only s ++ cr :: lf :: t) (mkParser st [] fs)
  = rows ← read_from t fresh; Ok ((fs ++ [s]) :: rows).
Proof.
  intros Hst Hl Hno. rewrite read_field by done.
  assert (process_char (mkParser (after_field st only s) s fs) cr = Ok (mkParser EAT_CRNL [] (fs ++ [s]))) as E.
  { unfold after_field. case_match eqn:E; [done|]. destruct s as [|c s]; [|done].
    destruct Hst as [->| ->]; [|done]. cbn in E. destruct (Hno eq_refl) as [->|]; done. }
  cbn [read_from]. rewrite E. cbn. by destruct t.
Qed.

Lemma read_fields st s row t fs only :
  at_start st -> fits s -> Forall fits row -> (st = START_RECORD -> row = [] -> only = true) ->
  read_from (join [comma] (field_text only <$> s :: row) ++ cr :: lf :: t) (mkParser st [] fs)
  = rows ← read_from t fresh; Ok ((fs ++ s :: row) :: rows).
Proof.
  intros Hst Hs Hrow. revert st s fs Hst Hs. induction Hrow as [|s' row Hs' Hrow IH]; intros st s fs Hst Hs Ho.
  - cbn [fmap list_fmap join]. apply read_field_end; [done..|]. intros ->. left. by apply Ho.
  - cbn [fmap list_fmap]. cbn [join]. rewrite <- !app_assoc. cbn [app].
    rewrite read_field_comma; [|done..|].
    + etrans; [apply (IH START_FIELD s' (fs ++ [s])); [by right|done..]|]. by rewrite <- app_assoc.
    + cbn [fmap list_fmap]. by destruct row; destruct (field_text only s').
Qed.

Lemma read_csv_row row t :
  Forall fits row -> read_from (row_text row ++ t) fresh = rows ← read_from t fresh; Ok (row :: rows).
Proof.
  intros Hf. unfold row_text. rewrite <- app_assoc. cbn [app]. destruct row as [|s row].
  - cbn. by destruct t.
  - inversion_clear Hf. unfold fresh at 1. apply read_fields; [by left|done..|]. intros _ ->. done.
Qed.

(** What the writer writes, the reader reads. *)
Lemma csv_roundtrip rows : Forall (Forall fits) rows -> csv_reader (concat (row_text <$> rows)) = Ok rows.
Proof.
  unfold csv_reader. induction 1 as [|row rows Hr _ IH]; [done|]. cbn [fmap list_fmap concat].
  rewrite read_csv_row by done. by rewrite IH.
Qed.

(** ** Dictionaries *)

Lemma dset_fresh {V} k (v : V) (d : list (text * V)) : k ∉ dkeys d -> dset k v d = d ++ [(k, v)].
Proof.
  induction d as [|[k' v'] d IH]; [done|]. cbn. rewrite not_elem_of_cons. intros [Hk Hd].
  rewrite decide_False by done. by rewrite IH.
Qed.

Lemma dict_of_full cols row :
  NoDup cols -> length row = length cols -> dict_of cols row = mkDictRow (zip cols (Some <$> row)) [].
Proof.
  intros Hnd Hl. unfold dict_of. rewrite Hl, Nat.sub_diag, app_nil_r. rewrite drop_ge by lia. f_equal.
  assert (forall l acc, NoDup (dkeys acc ++ l.*1) ->
    foldl (fun d (kv : text * option text) => dset kv.1 kv.2 d) acc l = acc ++ l) as Hfold.
  { induction l as [|[k v] l IH]; intros acc Hn; [by rewrite app_nil_r|]. cbn [foldl fst snd].
    rewrite dset_fresh.
    - rewrite IH; [by rewrite <- app_assoc|]. unfold dkeys. rewrite fmap_app, <- app_assoc. done.
    - intros Hk. apply NoDup_app in Hn as (_ & Hn & _). apply (Hn k Hk). by left. }
  rewrite Hfold; [done|]. cbn. rewrite fst_zip; [done|]. rewrite length_fmap. lia.
Qed.

(** The row a reader gets back for a row that was written. *)
Definition full_row (cols : list text) (r : drow) : dict_row :=
  mkDictRow ((fun c => (c, Some (default [] (dget c r)))) <$> cols) [].

Lemma zip_cells (cols : list text) (r : drow) :
  zip cols (Some <$> ((fun c => default [] (dget c r)) <$> cols)) = dr_cells (full_row cols r).
Proof. cbn. induction cols as [|c cols IH]; [done|]. cbn. by f_equal. Qed.

(** Every cell of every row, and every column name, is within the reader's limit. *)
Definition rows_fit (cols : list text) (rows : list drow) : Prop :=
  Forall fits cols /\ Forall (fun r : drow => Forall (fun kv => fits kv.2) r) rows.

Lemma dget_fits c (r : drow) : Forall (fun kv => fits kv.2) r -> fits (default [] (dget c r)).
Proof.
  intros H. destruct (dget c r) as [v|] eqn:E; [|done]. apply dget_Some_elem in E.
  rewrite Forall_forall in H. apply (H _ E).
Qed.

Lemma dict_to_list_ok cols (r : drow) :
  Forall (fun k => k ∈ cols) (dkeys r) -> dict_to_list cols r = Ok ((fun c => default [] (dget c r)) <$> cols).
Proof.
  intros H. unfold dict_to_list. replace (forallb _ _) with true; [done|]. symmetry. apply forallb_forall.
  intros k Hk. apply bool_decide_eq_true. rewrite Forall_forall in H. by apply H, list_elem_of_In.
Qed.

(** A table whose rows use only the given columns is written, and read back whole. *)
Lemma dict_roundtrip cols (rows : list drow) :
  NoDup cols -> cols <> [] -> Forall (fun r : drow => Forall (fun k => k ∈ cols) (dkeys r)) rows -> rows_fit cols rows ->
  exists s, dict_write cols rows = Ok s /\ dict_read s = Ok (full_row cols <$> rows).
Proof.
  intros Hnd Hne Hk [Hc Hf]. set (body := (fun r : drow => (fun c => default [] (dget c r)) <$> cols) <$> rows).
  assert (rmapM (dict_to_list cols) rows = Ok body) as E.
  { unfold body. clear Hf body. induction Hk as [|r rows Hr _ IH]; [done|]. cbn.
    rewrite dict_to_list_ok by done. cbn. by rewrite IH. }
  eexists. unfold dict_write. rewrite E. split; [done|].
  unfold dict_read. rewrite csv_roundtrip.
  - cbn [mbind result_bind]. f_equal. unfold body. clear E body Hc Hk Hf. induction rows as [|r rows IH]; [done|].
    cbn [fmap list_fmap List.filter]. destruct (_ <$> cols) eqn:Em; [by destruct cols|]. rewrite <- Em.
    cbn [fmap list_fmap]. f_equal; [|exact IH]. rewrite dict_of_full by (done || by rewrite length_fmap).
    rewrite zip_cells. done.
  - constructor; [done|]. unfold body. apply Forall_fmap. eapply Forall_impl; [exact Hf|]. intros r Hr. cbn.
    apply Forall_fmap, Forall_forall. intros c _. by apply dget_fits.
Qed.

(** A key that is not a column stops the writer. *)
Lemma dict_write_unknown cols (rows : list drow) r k :
  r ∈ rows -> k ∈ dkeys r -> k ∉ cols -> dict_write cols rows = Raise ValueError.
Proof.
  intros Hr Hk Hc. unfold dict_write.
  assert (rmapM (dict_to_list cols) rows = Raise ValueError) as ->; [|done].
  induction rows as [|r0 rows IH]; [by apply not_elem_of_nil in Hr|].
  assert (dict_to_list cols r0 = Raise ValueError \/ exists l, dict_to_list cols r0 = Ok l /\
    forallb (fun k => bool_decide (k ∈ cols)) (dkeys r0) = true) as [E|(l & E & Hb)].
  { unfold dict_to_list. case_match; [right; eauto|by left]. }
  all: cbn [rmapM]; rewrite E; try done.
  cbn. apply elem_of_cons in Hr as [->|Hr]; [|by rewrite IH].
  rewrite forallb_forall in Hb. specialize (Hb k (proj1 (list_elem_of_In _ _) Hk)). by apply bool_decide_eq_true in Hb.
Qed.
