(* ===== verification/SampleFile.v ===== *)
(** * The samples on disk

    The end of [main] in [research/replica_recall/run_experiment.py], which writes
    [samples.csv] from the sampler's dictionaries, and [load] and [_f] of [analyze.py], which
    read it back. Both sides are modelled at the level of the file's text, with [Csv] and
    [PyText]; the theorems say that the analysis works on what the sampler measured. *)

From stdpp Require Import base list gmap strings pretty sorting.
From Stdlib Require Import QArith Qabs Qround Qreduction Lqa ZArith NArith Lia Ascii.
From Stdlib Require Qcanon.
From S2P Require Import Prelude PyFloat Text PyText Csv Metrics Sampler Analyze.

Local Open Scope nat_scope.

(** ** Writing *)

(** A dictionary of the sampler: its time, a number, and the text of its other values. *)
Record srec := mkSrec { sr_t : Q; sr_cells : drow }.

Definition cols : list text :=
  lit <$> ["t_rel"; "shard"; "replica"; "name"; "reachable";
           "index_recall"; "e2e_recall"; "completeness";
           "n_local"; "n_intended"; "shard_agreement"; "loo_agreement";
           "n_confirmed_settled"; "probe_s"; "score_s"]%string.

(** [sorted({k for r in rows for k in r} - set(cols) - {"t"})] *)
Definition extra (rows : list srec) : list text :=
  sorted text_leb
    (List.filter (fun k => bool_decide (k ∉ cols) && bool_decide (k <> lit "t"))
       (remove_dups (concat ((fun r => lit "t" :: dkeys (sr_cells r)) <$> rows)))).

Definition all_cols (rows : list srec) : list text := cols ++ extra rows.

(** [r["t_rel"] = round(r.pop("t") - t_start, 3)] *)
Definition with_t_rel (t_start : Q) (r : srec) : drow :=
  dset (lit "t_rel") (repr_round 3 (sr_t r - t_start)) (sr_cells r).

Definition samples_csv (t_start : Q) (rows : list srec) : result text :=
  dict_write (all_cols rows) (with_t_rel t_start <$> rows).

(** ** The sampler's dictionaries *)

(** A row of [Sampler] holds the rounded value, the dictionary its text: [f"{x:.6f}"] for the
    metrics, [round(x, 6)] for the agreements, [round(x, 3)] for the timings. *)
Definition opt_text {A} (f : A -> text) (x : option A) : text :=
  match x with Some a => f a | None => [] end.

Definition dict_of_row (r : Sampler.row) : srec :=
  mkSrec (Sampler.r_t r)
    ([(lit "shard", show_nat (r_shard r)); (lit "replica", show_nat (r_replica r));
      (lit "name", lit (Sampler.r_name r)); (lit "reachable", if Sampler.r_reachable r then lit "1" else lit "0");
      (lit "index_recall", opt_text (format_f 6) (r_index_recall r));
      (lit "e2e_recall", opt_text (format_f 6) (r_e2e_recall r));
      (lit "completeness", opt_text (format_f 6) (r_completeness r));
      (lit "n_local", opt_text show_Z (r_n_local r));
      (lit "n_intended", show_Z (r_n_intended r));
      (lit "shard_agreement", opt_text (repr_round 6) (r_shard_agreement r));
      (lit "loo_agreement", opt_text (repr_round 6) (r_loo_agreement r));
      (lit "n_confirmed_settled", show_nat (r_n_confirmed_settled r))]
     ++ match r_probe_s r with Some q => [(lit "probe_s", repr_round 3 q)] | None => [] end
     ++ match r_score_s r with Some q => [(lit "score_s", repr_round 3 q)] | None => [] end).

(** ** Reading *)

(** The characters of a string the analysis compares or prints. *)
Definition name_of_text (s : text) : option string :=
  if forallb (fun c => (c <? 256)%N) s
  then Some (String.string_of_list_ascii (ascii_of_N <$> s)) else None.

(** [_f(row, key)], before it becomes a number; [None]: infinity, or digits of another
    script, which [PyText] does not read. *)
Definition cell_of_text (s : text) : option cell :=
  match s with
  | [] => Some CBlank
  | _ =>
      match py_float s with
      | PNum q => Some (CNum (fin q))
      | PNan => Some (CNum nan)
      | PValueError => Some CText
      | PInf _ | PNonAscii => None
      end
  end.

(** [row.get(key, "")] *)
Definition f_cell (d : dict_row) (key : string) : option cell :=
  match dget (lit key) (dr_cells d) with
  | Some (Some s) => cell_of_text s
  | Some None | None => Some CBlank
  end.

(** [row[key]] for the columns used as strings. *)
Definition f_str (d : dict_row) (key : string) : option string :=
  match dget (lit key) (dr_cells d) with
  | Some (Some s) => name_of_text s
  | Some None | None => None
  end.

Definition srow_of (d : dict_row) : option srow :=
  name ← f_str d "name"; shard ← f_str d "shard"; reachable ← f_str d "reachable";
  t ← f_str d "t_rel"; tc ← f_cell d "t_rel";
  nl ← f_cell d "n_local"; ni ← f_cell d "n_intended";
  ix ← f_cell d "index_recall"; co ← f_cell d "completeness"; e2 ← f_cell d "e2e_recall";
  lo ← f_cell d "loo_agreement";
  Some (mkS name shard reachable (t, tc) nl ni ix co e2 lo).

(** A results directory: the files [load] looks for. *)
Record results_dir (E M : Type) := mkDir {
  rd_samples : option text;
  rd_events : option (list E);
  rd_meta : option M;
}.
Arguments mkDir {E M}.
Arguments rd_samples {E M}.
Arguments rd_events {E M}.
Arguments rd_meta {E M}.

(** [load]: without samples the program exits with 1; the other two files may be absent,
    an absent meta being the empty dictionary. *)
Inductive loaded (E M : Type) : Type :=
| LoadExit1
| LoadRaised (e : exn)
| Loaded (rows : list dict_row) (events : list E) (meta : option M).
Arguments LoadExit1 {E M}.
Arguments LoadRaised {E M}.
Arguments Loaded {E M}.

Definition load_results {E M} (d : results_dir E M) : loaded E M :=
  match rd_samples d with
  | None => LoadExit1
  | Some s =>
      match dict_read s with
      | Raise e => LoadRaised e
      | Ok rows => Loaded rows (default [] (rd_events d)) (rd_meta d)
      end
  end.

(** * Properties *)

Lemma fits_short s : length s <= 100 -> fits s.
Proof. unfold fits, field_limit. lia. Qed.

Lemma cols_facts : NoDup cols /\ lit "t" ∉ cols /\ Forall fits cols.
Proof.
  split; [apply (bool_decide_unpack _); vm_compute; exact I|]. split; [apply (bool_decide_unpack _); vm_compute; exact I|].
  eapply Forall_impl; [|apply fits_short]. apply (bool_decide_unpack _). vm_compute. exact I.
Qed.

Lemma elem_of_extra k rows :
  k ∈ extra rows <-> k ∉ cols /\ k <> lit "t" /\ exists r, r ∈ rows /\ k ∈ dkeys (sr_cells r).
Proof.
  unfold extra. rewrite elem_of_sorted, list_elem_of_In, filter_In, andb_true_iff, !bool_decide_eq_true,
    <- list_elem_of_In, elem_of_remove_dups, list_elem_of_In, in_concat.
  split.
  - intros [(l & Hl%list_elem_of_In & Hk%list_elem_of_In) [Hc Ht]]. split_and!; [done..|].
    apply list_elem_of_fmap in Hl as (r & -> & Hr). exists r. split; [done|].
    by apply elem_of_cons in Hk as [->|].
  - intros (Hc & Ht & r & Hr & Hk). split; [|done]. exists (lit "t" :: dkeys (sr_cells r)).
    rewrite <- !list_elem_of_In. split; [|by right]. by apply (list_elem_of_fmap_2 (fun r => lit "t" :: dkeys (sr_cells r))).
Qed.

Lemma all_cols_NoDup rows : NoDup (all_cols rows).
Proof.
  apply NoDup_app. split_and!; [apply cols_facts| |].
  - intros k Hk Hx. by apply elem_of_extra in Hx as [? _].
  - unfold extra. rewrite sorted_perm. apply NoDup_ListNoDup, List.NoDup_filter, NoDup_ListNoDup, NoDup_remove_dups.
Qed.

Lemma all_cols_keys t_start rows r :
  r ∈ rows -> lit "t" ∉ dkeys (sr_cells r) -> Forall (fun k => k ∈ all_cols rows) (dkeys (with_t_rel t_start r)).
Proof.
  intros Hr Ht. apply Forall_forall. intros k Hk. unfold all_cols. apply elem_of_app.
  destruct (decide (k ∈ cols)) as [|Hc]; [by left|right]. apply elem_of_extra.
  assert (k ∈ dkeys (sr_cells r)) as Hk'.
  { unfold with_t_rel in Hk. rewrite dkeys_dset in Hk. case_decide; [done|].
    apply elem_of_app in Hk as [|Hk%list_elem_of_singleton]; [done|]. subst k. destruct Hc. by left. }
  split_and!; [done| |eauto]. intros ->. done.
Qed.

Lemma dset_values {V} (P : V -> Prop) k v (d : list (text * V)) :
  P v -> Forall (fun kv => P kv.2) d -> Forall (fun kv => P kv.2) (dset k v d).
Proof.
  intros Hv. induction 1 as [|[k' v'] d Hd Hds IH]; cbn; [by repeat constructor|].
  case_decide; by constructor.
Qed.

(** A sampler dictionary the writer takes: its time within the printable range, its keys
    and values within the field limit. *)
Record srec_ok (t_start : Q) (r : srec) : Prop := {
  so_t : lit "t" ∉ dkeys (sr_cells r);
  so_time : printable 3 (sr_t r - t_start);
  so_fits : Forall (fun kv => fits kv.1 /\ fits kv.2) (sr_cells r);
}.

Lemma samples_fit t_start rows :
  Forall (srec_ok t_start) rows -> rows_fit (all_cols rows) (with_t_rel t_start <$> rows).
Proof.
  intros H. split.
  - apply Forall_app; split; [apply cols_facts|]. apply Forall_forall. intros k Hk.
    apply elem_of_extra in Hk as (_ & _ & r & Hr & Hk). rewrite Forall_forall in H.
    destruct (H r Hr) as [_ _ Hf]. rewrite Forall_forall in Hf.
    apply list_elem_of_fmap in Hk as (kv & -> & Hkv). by apply Hf.
  - apply Forall_fmap. eapply Forall_impl; [exact H|]. intros r [_ Ht Hf]. cbn. unfold with_t_rel.
    apply (dset_values fits); [apply fits_short, repr_round_length; [done|lia]|].
    eapply Forall_impl; [exact Hf|]. naive_solver.
Qed.

Lemma dget_full c cs (r : drow) : c ∈ cs -> dget c (dr_cells (full_row cs r)) = Some (Some (default [] (dget c r))).
Proof.
  cbn. induction cs as [|c' cs IH]; [by intros ?%not_elem_of_nil|]. intros Hc. cbn.
  destruct (decide (c = c')) as [->|Hne]; [done|]. apply IH. by apply elem_of_cons in Hc as [|].
Qed.

(** The samples are written whatever their keys, and read back row by row. *)
Lemma samples_written t_start rows :
  Forall (srec_ok t_start) rows ->
  exists s, samples_csv t_start rows = Ok s /\
    dict_read s = Ok ((fun r => full_row (all_cols rows) (with_t_rel t_start r)) <$> rows).
Proof.
  intros Hok. destruct (dict_roundtrip (all_cols rows) (with_t_rel t_start <$> rows)) as (s & Hw & Hr).
  - apply all_cols_NoDup.
  - done.
  - apply Forall_fmap, Forall_forall. intros r Hr. apply all_cols_keys; [done|].
    rewrite Forall_forall in Hok. by apply Hok.
  - by apply samples_fit.
  - exists s. split; [exact Hw|]. by rewrite Hr, <- list_fmap_compose.
Qed.

(** C17. Whatever keys the sampler's dictionaries carry, the samples are written: an unknown key
    becomes a column after the canonical ones, and reading the file returns every value under
    its key, the time replaced by its millisecond offset. With the canonical columns alone the
    writer raises as soon as there is such a key. *)
Theorem schema_drift_keeps_samples t_start rows :
  Forall (srec_ok t_start) rows ->
  (exists s ds, samples_csv t_start rows = Ok s /\ dict_read s = Ok ds /\
     Forall2 (fun r d =>
       (forall k v, dget k (sr_cells r) = Some v -> k <> lit "t_rel" -> dget k (dr_cells d) = Some (Some v)) /\
       dget (lit "t_rel") (dr_cells d) = Some (Some (repr_round 3 (sr_t r - t_start))) /\
       dr_rest d = []) rows ds) /\
  (extra rows <> [] -> dict_write cols (with_t_rel t_start <$> rows) = Raise ValueError).
Proof.
  intros Hok. split.
  - destruct (samples_written t_start rows Hok) as (s & Hw & Hr).
    eexists s, _. split; [exact Hw|]. split; [exact Hr|].
    apply Forall2_fmap_r, Forall_Forall2_diag, Forall_forall. intros r Hrr.
      rewrite Forall_forall in Hok. destruct (Hok r Hrr) as [Ht _ _].
      pose proof (all_cols_keys t_start rows r Hrr Ht) as Hk. rewrite Forall_forall in Hk.
      split_and!; [intros k v Hv Hne| |done]; rewrite dget_full.
      * unfold with_t_rel. rewrite dget_dset. rewrite decide_False by done. by rewrite Hv.
      * apply Hk. unfold with_t_rel. rewrite dkeys_dset. apply dget_Some_elem in Hv.
        apply (list_elem_of_fmap_2 fst) in Hv. case_decide; [done|]. apply elem_of_app. by left.
      * unfold with_t_rel. rewrite dget_dset. by rewrite decide_True.
      * by left.
  - intros Hx. destruct (extra rows) as [|k ks] eqn:E; [done|].
    assert (k ∈ extra rows) as Hk by (rewrite E; by left).
    apply elem_of_extra in Hk as (Hc & _ & r & Hr & Hk).
    apply (dict_write_unknown cols _ (with_t_rel t_start r) k); [by apply list_elem_of_fmap_2| |done].
    unfold with_t_rel. rewrite dkeys_dset. case_decide; [done|]. apply elem_of_app. by left.
Qed.

(** A dictionary with a key the canonical list does not have. *)
Definition demo_drift : list srec :=
  [mkSrec 12 [(lit "shard", lit "0"); (lit "queue_s", lit "1,5")]; mkSrec (65 # 4) [(lit "name", lit "shard-0-1")]].

Lemma schema_drift_keeps_samples_witness :
  extra demo_drift = [lit "queue_s"] /\
  (exists s ds, samples_csv 10 demo_drift = Ok s /\ dict_read s = Ok ds /\
     Forall2 (fun r d =>
       (forall k v, dget k (sr_cells r) = Some v -> k <> lit "t_rel" -> dget k (dr_cells d) = Some (Some v)) /\
       dget (lit "t_rel") (dr_cells d) = Some (Some (repr_round 3 (sr_t r - 10))) /\
       dr_rest d = []) demo_drift ds) /\
  dict_write cols (with_t_rel 10 <$> demo_drift) = Raise ValueError.
Proof.
  assert (extra demo_drift = [lit "queue_s"]) as E by (vm_compute; reflexivity). split; [exact E|].
  destruct (schema_drift_keeps_samples 10 demo_drift) as [H1 H2].
  - repeat constructor; try (apply (bool_decide_unpack _); vm_compute; exact I).
  - split; [exact H1|]. apply H2. rewrite E. discriminate.
Defined.

(** ** Sampler rows *)

(** What the analysis is given for a row: the same strings, and the numbers the row holds, in
    lowest terms. *)
Definition num_cell (x : option Q) : cell := match x with Some q => CNum (fin (Qred q)) | None => CBlank end.

Definition of_text (s : text) : string := String.string_of_list_ascii (ascii_of_N <$> s).

Definition read_row (t_start : Q) (r : Sampler.row) : srow :=
  let dt := (Sampler.r_t r - t_start)%Q in
  mkS (Sampler.r_name r) (of_text (show_nat (r_shard r))) (if Sampler.r_reachable r then "1" else "0")%string
    (of_text (repr_round 3 dt), CNum (fin (Qred (round_nd 3 dt))))
    (num_cell (inject_Z <$> r_n_local r)) (num_cell (Some (inject_Z (r_n_intended r))))
    (num_cell (r_index_recall r)) (num_cell (r_completeness r)) (num_cell (r_e2e_recall r))
    (num_cell (r_loo_agreement r)).

Definition small_count (z : Z) : Prop := (0 <= z < 10 ^ 15)%Z.
Definition short_time (c : option Q) : Prop := match c with Some q => printable 3 q | None => True end.

(** The sizes a run stays within: a name within the field limit, counts and times of at most
    fifteen digits. *)
Record row_bounds (t_start : Q) (r : Sampler.row) : Prop := {
  rb_name : fits (lit (Sampler.r_name r));
  rb_time : printable 3 (Sampler.r_t r - t_start);
  rb_counts : Forall small_count ([Z.of_nat (r_shard r); Z.of_nat (r_replica r); r_n_intended r;
                                   Z.of_nat (r_n_confirmed_settled r)] ++ option_list (r_n_local r));
  rb_timings : short_time (r_probe_s r) /\ short_time (r_score_s r);
}.

(** A metric in range has at most seven digits. *)
Lemma unit_printable q : (0 <= q <= 1)%Q -> printable 6 q.
Proof.
  intros [H0 H1]. unfold printable, units.
  change (inject_Z (10 ^ Z.of_nat 6)) with (1000000 # 1).
  rewrite (Qround_even_Qeq _ (q * (1000000 # 1))) by (by rewrite Qabs_pos).
  assert (Qround_even (q * (1000000 # 1)) <= 1000000)%Z as H; [|lia].
  destruct (Qround_even_nearest (q * (1000000 # 1))) as [[Hn _] _].
  apply Z.lt_succ_r. rewrite Zlt_Qlt. unfold Z.succ. rewrite inject_Z_plus. change (inject_Z 1000000) with (1000000 # 1).
  change (inject_Z 1) with 1%Q. lra.
Qed.

Lemma show_Z_nonneg z : (0 <= z)%Z -> show_Z z = show_N (Z.to_N z).
Proof. intros H. unfold show_Z. by rewrite (proj2 (Z.ltb_ge z 0) H). Qed.

Lemma Qred_inject z : Qred (inject_Z z) = inject_Z z.
Proof. apply Qcanon.Qred_identity. cbn. apply Z.gcd_1_r. Qed.

Lemma cell_of_number s q : s <> [] -> py_float s = PNum q -> cell_of_text s = Some (CNum (fin q)).
Proof. intros Hs H. unfold cell_of_text. rewrite H. by destruct s. Qed.

(** ** Cells *)

Lemma count_cell z : small_count z -> cell_of_text (show_Z z) = Some (num_cell (Some (inject_Z z))).
Proof.
  intros [H0 H1]. rewrite show_Z_nonneg by done. rewrite (cell_of_number _ (inject_Z z)).
  - cbn. by rewrite Qred_inject.
  - apply show_N_nonempty.
  - rewrite py_float_show by lia. by rewrite Z2N.id.
Qed.

Lemma PNum_nonempty s q : py_float s = PNum q -> s <> [].
Proof. by intros H ->. Qed.

Lemma metric_cell c : cell_unit c -> cell_of_text (opt_text (format_f 6) c) = Some (num_cell c).
Proof.
  destruct c as [q|]; [|done]. intros [Hu Hr]. cbn.
  pose proof (py_float_format 6 q (unit_printable q Hu)) as E.
  rewrite (cell_of_number _ _ (PNum_nonempty _ _ E) E). by rewrite (Qred_complete _ _ Hr).
Qed.

Lemma agreement_cell c : cell_unit c -> cell_of_text (opt_text (repr_round 6) c) = Some (num_cell c).
Proof.
  destruct c as [q|]; [|done]. intros [Hu Hr]. cbn.
  pose proof (py_float_repr 6 q (unit_printable q Hu)) as E.
  rewrite (cell_of_number _ _ (PNum_nonempty _ _ E) E). by rewrite (Qred_complete _ _ Hr).
Qed.

Lemma time_cell q : printable 3 q -> cell_of_text (repr_round 3 q) = Some (CNum (fin (Qred (round_nd 3 q)))).
Proof. intros H%py_float_repr. by rewrite (cell_of_number _ _ (PNum_nonempty _ _ H) H). Qed.

(** ** Strings *)

Lemma name_of_lit s : name_of_text (lit s) = Some s.
Proof.
  unfold name_of_text, lit. replace (forallb _ _) with true.
  - f_equal. rewrite <- list_fmap_compose. rewrite <- (String.string_of_list_ascii_of_string s) at 2. f_equal.
    rewrite <- (list_fmap_id (String.list_ascii_of_string s)) at 2. apply list_fmap_ext. intros ? c _. apply ascii_N_embedding.
  - symmetry. apply forallb_forall. intros c Hc%list_elem_of_In. apply list_elem_of_fmap in Hc as (a & -> & _).
    apply N.ltb_lt, N_ascii_bounded.
Qed.

Lemma name_of_num s : Forall (fun c => num_char c = true) s -> name_of_text s = Some (of_text s).
Proof.
  intros H. unfold name_of_text. replace (forallb _ _) with true; [done|]. symmetry. apply forallb_forall.
  intros c Hc%list_elem_of_In. rewrite Forall_forall in H. destruct (num_char_ascii c (H c Hc)) as [H1%N.ltb_lt _].
  apply N.ltb_lt. lia.
Qed.

Lemma repr_round_num nd q : Forall (fun c => num_char c = true) (repr_round nd q).
Proof.
  assert (all_digits (rstrip0 (show_N (units nd q)))) as Hd by apply rstrip0_digits, show_N_digits.
  unfold repr_round, sign_text. apply Forall_app; split; [case_match; repeat constructor|].
  unfold repr_units. case_match; [repeat constructor|]. unfold repr_digits.
  set (e := (_ - Z.of_nat nd)%Z). generalize dependent (rstrip0 (show_N (units nd q))). intros ds Hd.
  assert (Forall (fun c => num_char c = true) (exp_text (e - 1))) as He.
  { unfold exp_text. constructor; [done|]. constructor; [by case_match|]. apply digits_num, zfill_digits, show_N_digits. }
  assert (forall k, Forall (fun c => num_char c = true) (zeros k)) as Hz by (intros; apply digits_num, zeros_digits).
  destruct (all_digits_split (Z.to_nat e) ds Hd) as [Ht%digits_num Hdr%digits_num]. apply digits_num in Hd.
  destruct (_ && _).
  - repeat case_match; repeat first [apply Forall_app; split | apply Forall_cons; split | done].
  - destruct Hd as [|d ? Hd1 [|d2 rest Hd2 Hds]]; [done|by constructor|].
    constructor; [done|]. constructor; [done|]. constructor; [done|]. by apply Forall_app.
Qed.

(** ** Looking a column up *)

Lemma f_cell_full cs (r : drow) key :
  lit key ∈ cs -> f_cell (full_row cs r) key = cell_of_text (default [] (dget (lit key) r)).
Proof. intros H. unfold f_cell. by rewrite dget_full. Qed.

Lemma f_str_full cs (r : drow) key :
  lit key ∈ cs -> f_str (full_row cs r) key = name_of_text (default [] (dget (lit key) r)).
Proof. intros H. unfold f_str. by rewrite dget_full. Qed.

Lemma dict_of_row_keys r :
  NoDup (dkeys (sr_cells (dict_of_row r))) /\ Forall (fun k => k ∈ cols /\ k <> lit "t_rel") (dkeys (sr_cells (dict_of_row r))).
Proof.
  unfold dict_of_row, dkeys. cbn [sr_cells]. rewrite !fmap_app.
  destruct (r_probe_s r), (r_score_s r); cbn [fmap list_fmap fst app];
    (split; [apply (bool_decide_unpack _); vm_compute; exact I|]);
    apply (bool_decide_unpack _); vm_compute; exact I.
Qed.

Lemma row_value t_start r key v :
  (lit key, v) ∈ sr_cells (dict_of_row r) -> dget (lit key) (with_t_rel t_start (dict_of_row r)) = Some v.
Proof.
  intros H. destruct (dict_of_row_keys r) as [Hnd Hk]. rewrite Forall_forall in Hk.
  destruct (Hk (lit key)) as [_ Hne]; [by apply (list_elem_of_fmap_2 fst) in H|].
  unfold with_t_rel. rewrite dget_dset, decide_False by done. by apply dget_elem.
Qed.

Ltac in_cells :=
  unfold dict_of_row; cbn [sr_cells app]; repeat first [apply list_elem_of_here | apply list_elem_of_further].

Lemma row_reads t_start rows r :
  row_ok r -> row_bounds t_start r ->
  srow_of (full_row (all_cols rows) (with_t_rel t_start (dict_of_row r))) = Some (read_row t_start r).
Proof.
  intros [Hi He Hco _ Hlo _] [_ Ht Hc _].
  apply Forall_app in Hc as [Hc Hl]. repeat (apply Forall_cons in Hc as [? Hc]). clear Hc.
  assert (forall key v, lit key ∈ cols -> (lit key, v) ∈ sr_cells (dict_of_row r) ->
    f_cell (full_row (all_cols rows) (with_t_rel t_start (dict_of_row r))) key = cell_of_text v /\
    f_str (full_row (all_cols rows) (with_t_rel t_start (dict_of_row r))) key = name_of_text v) as Hget.
  { intros key v Hk Hv. rewrite f_cell_full, f_str_full by (by apply elem_of_app; left).
    by rewrite (row_value t_start r key v). }
  assert (lit "t_rel" ∈ all_cols rows) as Htc by (by left).
  assert (dget (lit "t_rel") (with_t_rel t_start (dict_of_row r)) = Some (repr_round 3 (Sampler.r_t r - t_start))) as Htv.
  { unfold with_t_rel. by rewrite dget_dset, decide_True. }
  unfold srow_of.
  rewrite (proj2 (Hget "name" (lit (Sampler.r_name r)) ltac:(decide_now) ltac:(in_cells))), name_of_lit.
  rewrite (proj2 (Hget "shard" (show_nat (r_shard r)) ltac:(decide_now) ltac:(in_cells))).
  rewrite name_of_num by (apply digits_num, show_N_digits).
  rewrite (proj2 (Hget "reachable" (if Sampler.r_reachable r then lit "1" else lit "0") ltac:(decide_now) ltac:(in_cells))).
  rewrite (f_str_full _ _ "t_rel"), (f_cell_full _ _ "t_rel"), Htv by done. cbn [default from_option id].
  rewrite (name_of_num (repr_round _ _)) by apply repr_round_num. rewrite time_cell by done.
  rewrite (proj1 (Hget "n_local" (opt_text show_Z (r_n_local r)) ltac:(decide_now) ltac:(in_cells))).
  rewrite (proj1 (Hget "n_intended" (show_Z (r_n_intended r)) ltac:(decide_now) ltac:(in_cells))).
  rewrite (proj1 (Hget "index_recall" (opt_text (format_f 6) (r_index_recall r)) ltac:(decide_now) ltac:(in_cells))).
  rewrite (proj1 (Hget "completeness" (opt_text (format_f 6) (r_completeness r)) ltac:(decide_now) ltac:(in_cells))).
  rewrite (proj1 (Hget "e2e_recall" (opt_text (format_f 6) (r_e2e_recall r)) ltac:(decide_now) ltac:(in_cells))).
  rewrite (proj1 (Hget "loo_agreement" (opt_text (repr_round 6) (r_loo_agreement r)) ltac:(decide_now) ltac:(in_cells))).
  rewrite !metric_cell, agreement_cell, count_cell by done.
  assert (cell_of_text (opt_text show_Z (r_n_local r)) = Some (num_cell (inject_Z <$> r_n_local r))) as ->.
  { destruct (r_n_local r) as [z|]; [|done]. apply Forall_cons in Hl as [Hz _]. by apply count_cell. }
  unfold read_row. by destruct (Sampler.r_reachable r).
Qed.

Lemma count_fits z : small_count z -> fits (show_Z z).
Proof.
  intros [H0 H1]. apply fits_short. rewrite show_Z_nonneg by done.
  pose proof (show_N_length (Z.to_N z) 50). change (2 ^ N.of_nat 50)%N with 1125899906842624%N in H. lia.
Qed.

Lemma row_srec_ok t_start r : row_ok r -> row_bounds t_start r -> srec_ok t_start (dict_of_row r).
Proof.
  intros [Hi He Hco Hag Hlo _] [Hn Ht Hc [Hp Hs]].
  apply Forall_app in Hc as [Hc Hl]. repeat (apply Forall_cons in Hc as [? Hc]). clear Hc.
  assert (forall n, small_count (Z.of_nat n) -> fits (show_nat n)) as Hnat.
  { intros n Hz%count_fits. rewrite show_Z_nonneg in Hz by lia. unfold show_nat. by rewrite <- nat_N_Z, N2Z.id in Hz. }
  assert (forall c, cell_unit c -> fits (opt_text (format_f 6) c) /\ fits (opt_text (repr_round 6) c)) as Hmet.
  { intros [q|]; [|done]. intros [Hu _]. apply unit_printable in Hu.
    split; apply fits_short; [apply format_f_length|apply repr_round_length]; done || lia. }
  assert (fits (opt_text show_Z (r_n_local r))) as Hnl.
  { destruct (r_n_local r) as [z|]; [|done]. apply Forall_cons in Hl as [Hz _]. by apply count_fits. }
  split; [|done|].
  - destruct (dict_of_row_keys r) as [_ Hk]. intros Hin. rewrite Forall_forall in Hk.
    destruct (Hk _ Hin) as [Hb _]. by apply cols_facts in Hb.
  - assert (forall k : string, String.length k <= 100 -> fits (lit k)) as Hkey.
    { intros k Hk. apply fits_short. unfold lit. rewrite length_fmap. revert Hk. clear.
      generalize 100. induction k as [|c k IH]; cbn; intros n Hk; [lia|]. destruct n; [lia|].
      apply le_n_S, IH. lia. }
    unfold dict_of_row. cbn [sr_cells]. rewrite !Forall_app. split_and!.
    + repeat (constructor; [split; cbn [fst snd];
        [apply Hkey; cbn; lia|
         first [done | by apply Hnat | by apply Hmet | by apply count_fits | case_match; vm_compute; discriminate]]|]).
      constructor.
    + destruct (r_probe_s r); [|constructor]. repeat constructor; cbn [fst snd].
      * apply Hkey. cbn. lia.
      * apply fits_short, repr_round_length; [done|lia].
    + destruct (r_score_s r); [|constructor]. repeat constructor; cbn [fst snd].
      * apply Hkey. cbn. lia.
      * apply fits_short, repr_round_length; [done|lia].
Qed.

Lemma samples_loaded t_start rows {E M} (events : option (list E)) (meta : option M) :
  Forall row_ok rows -> Forall (row_bounds t_start) rows ->
  exists s ds, samples_csv t_start (dict_of_row <$> rows) = Ok s /\
    load_results (mkDir (Some s) events meta) = Loaded ds (default [] events) meta /\
    mapM srow_of ds = Some (read_row t_start <$> rows).
Proof.
  intros Hok Hb. pose proof (proj2 (Forall_and _ _) (conj Hok Hb)) as Hrow.
  destruct (samples_written t_start (dict_of_row <$> rows)) as (s & Hw & Hr).
  - apply Forall_fmap. eapply Forall_impl; [exact Hrow|]. intros r [? ?]. by apply row_srec_ok.
  - eexists s, _. split; [exact Hw|]. unfold load_results. cbn [rd_samples]. rewrite Hr. split; [done|].
    apply mapM_Some. rewrite <- list_fmap_compose. apply Forall2_fmap, Forall_Forall2_diag.
    eapply Forall_impl; [exact Hrow|]. intros r [? ?]. by apply row_reads.
Qed.

(** C16. What the sampler measured is what the analysis reads. The rows a run writes to its
    samples file load back one for one and in order: the same replica, shard and reachability,
    every metric and count with its exact value, blanks where the replica had none, and the
    time to the millisecond. *)
Theorem samples_roundtrip t_start rows {E M} (events : option (list E)) (meta : option M) :
  Forall row_ok rows -> Forall (row_bounds t_start) rows ->
  exists s ds, samples_csv t_start (dict_of_row <$> rows) = Ok s /\
    load_results (mkDir (Some s) events meta) = Loaded ds (default [] events) meta /\
    mapM srow_of ds = Some (read_row t_start <$> rows).
Proof. apply samples_loaded. Qed.

(** A replica that answered and one that did not, three seconds into a run. *)
Definition demo_rows : list Sampler.row :=
  [mkRow (103125 # 1000) 0 0 "shard-0-0" true (Some (987654 # 1000000)) (Some (9 # 10)) (Some 1%Q) (Some 2500%Z) 2600
     (Some (1 # 20000)) None 5000 (Some (25 # 1000)) (Some (1 # 2));
   mkRow (103125 # 1000) 0 1 "shard-0-1" false None None None None 2600 (Some (1 # 20000)) None 5000 None None].

Lemma samples_roundtrip_witness :
  exists s ds, samples_csv 100 (dict_of_row <$> demo_rows) = Ok s /\
    load_results (mkDir (Some s) (None : option (list nat)) (None : option nat)) = Loaded ds [] None /\
    mapM srow_of ds = Some (read_row 100 <$> demo_rows).
Proof.
  apply (samples_roundtrip 100 demo_rows (None : option (list nat)) (None : option nat)).
  - repeat constructor; try done; by vm_compute.
  - repeat constructor; try done; by vm_compute.
Defined.

(** ** Instants *)

Lemma units_of_round nd q q' :
  (0 <= q)%Q -> (0 <= q')%Q -> (round_nd nd q == round_nd nd q')%Q -> repr_round nd q = repr_round nd q'.
Proof.
  intros H H' E. rewrite (round_nd_units nd q), (round_nd_units nd q') in E.
  assert (forall x, (0 <= x)%Q -> Qltb x 0 = false) as Hs by (intros x Hx; by apply Qltb_ge).
  rewrite !Hs in E by done. unfold repr_round, sign_text. rewrite !Hs by done. f_equal. f_equal.
  pose proof (pow10_pos nd) as Hp. apply N2Z.inj. apply inject_Z_injective.
  set (s := inject_Z (10 ^ Z.of_nat nd)) in *. rewrite !Qmult_1_l in E.
  assert (inject_Z (Z.of_N (units nd q)) / s * s == inject_Z (Z.of_N (units nd q')) / s * s)%Q as E2 by (by rewrite E).
  rewrite !(Qmult_comm (_ / s)), !Qmult_div_r in E2 by lra. done.
Qed.

Lemma of_text_inj s s' :
  Forall (fun c => num_char c = true) s -> Forall (fun c => num_char c = true) s' -> of_text s = of_text s' -> s = s'.
Proof.
  intros H H' E. unfold of_text in E. apply (f_equal String.list_ascii_of_string) in E.
  rewrite !String.list_ascii_of_string_of_list_ascii in E.
  assert (forall t : text, Forall (fun c => num_char c = true) t -> N_of_ascii <$> (ascii_of_N <$> t) = t) as Hid.
  { induction 1 as [|c t Hc _ IH]; [done|]. cbn. f_equal; [|exact IH].
    apply N_ascii_embedding. destruct (num_char_ascii c Hc) as [?%N.ltb_lt _]. lia. }
  by rewrite <- (Hid s H), E, Hid.
Qed.

(** The analysis groups samples by the text of their time and their shard. Two rows of a
    run fall into one group exactly when they are of the same shard and were taken at the same
    time to the millisecond, so replicas are only ever compared within one sweep of a shard. *)
Theorem same_instant t_start a b :
  row_bounds t_start a -> row_bounds t_start b ->
  (t_start <= Sampler.r_t a)%Q -> (t_start <= Sampler.r_t b)%Q ->
  ts_key (read_row t_start a) = ts_key (read_row t_start b) <->
  r_shard a = r_shard b /\ (round_nd 3 (Sampler.r_t a - t_start) == round_nd 3 (Sampler.r_t b - t_start))%Q.
Proof.
  intros Ha Hb Hta Htb. unfold ts_key, read_row. cbn [fst s_t_rel s_shard]. split.
  - intros [= Et Es]. split.
    + apply of_text_inj in Es; [|apply digits_num, show_N_digits..]. apply show_N_inj in Es. lia.
    + apply repr_round_inj; [apply Ha|apply Hb|]. by apply of_text_inj in Et; [|apply repr_round_num..].
  - intros [-> E]. f_equal. f_equal. apply units_of_round; [lra..|done].
Qed.

Lemma same_instant_witness :
  ts_key (read_row 100 (nth 0 demo_rows (mkRow 0 0 0 "" false None None None None 0 None None 0 None None)))
  = ts_key (read_row 100 (nth 1 demo_rows (mkRow 0 0 0 "" false None None None None 0 None None 0 None None))).
Proof.
  apply same_instant; cbn [nth demo_rows].
  - repeat constructor; try done; by vm_compute.
  - repeat constructor; try done; by vm_compute.
  - by vm_compute.
  - by vm_compute.
  - split; [done|]. by vm_compute.
Defined.
