(* ===== verification/AnalyzeReport.v ===== *)
(** * The printed report of [analyze.py]

    [main] of [research/replica_recall/analyze.py] and the functions it calls, as the lines
    they print. The numbers are those of [Analyze]; here they become text. *)

From stdpp Require Import base list gmap strings pretty sorting.
From Stdlib Require Import QArith Qabs Qround Qminmax Lqa ZArith NArith Lia.
From S2P Require Import Prelude PyFloat Text PyText Metrics Analyze.

Local Open Scope nat_scope.

Notation line := text.

(** ** Formatting *)

Definition fmt_nd (nd : nat) (x : float) : text :=
  match x with nan => lit "  n/a " | fin q => format_f nd q end.
Definition fmt (x : float) : text := fmt_nd 4 x.

Definition rule (n : nat) (c : string) : text := concat (replicate n (lit c)).

(** [print("\n" + "=" * 72)], the title, the rule again. *)
Definition banner (title : text) : list line := [[]; rule 72 "="; title; rule 72 "="].

Definition lits (l : list string) : list line := lit <$> l.

(** ** QS *)

(** [f"  {lo:>7,}-{hi:<8,}"] of a bin. *)
Definition bin_text (kbin : Z) : text :=
  lit "  " ++ rjust 7 (show_commas (kbin * 2500)) ++ lit "-" ++ ljust 8 (show_commas ((kbin + 1) * 2500)).

Definition by_size_e2e (a : list (Z * (Q * float * nat))) (kbin : Z) : float :=
  match dget kbin a with Some (e, _, _) => fin e | None => nan end.

(** [sorted(set(a) | set(b))] *)
Definition size_keys (a b : list (Z * (Q * float * nat))) : list Z :=
  sorted Z.leb (remove_dups (dkeys a ++ dkeys b)).

(** One line of the comparison, and its delta. *)
Definition delta_at (a b : list (Z * (Q * float * nat))) (kbin : Z) : float :=
  fsub (by_size_e2e a kbin) (by_size_e2e b kbin).

Definition qsize_recall_vs_index_size (rows : list srow) (compare_rows : option (list srow))
    (label compare_label : text) : list line :=
  banner (lit "QS  Recall vs index size" ++
          match compare_rows with
          | Some (_ :: _) => lit "   [" ++ label ++ lit " vs " ++ compare_label ++ lit "]"
          | _ => []
          end) ++
  let a := recall_by_size rows in
  match a with
  | [] => lits ["  no scored samples"]
  | _ =>
      match compare_rows with
      | None =>
          (lit "  " ++ rjust 16 (lit "index size") ++ lit " " ++ rjust 8 (lit "e2e") ++ lit " " ++
           rjust 8 (lit "index") ++ lit " " ++ rjust 6 (lit "n"))
          :: (lit "  " ++ rule 42 "-")
          :: omap (fun kbin => match dget kbin a with
               | None => None
               | Some (e, i, n) =>
                   Some (bin_text kbin ++ lit " " ++ rjust 8 (fmt (fin e)) ++ lit " " ++ rjust 8 (fmt i) ++
                         lit " " ++ rjust 6 (show_nat n))
               end) (size_keys a [])
          ++ lits [""; "  A falling column is the index degrading with N, not with";
                   "  faults. Flat is what a correct HNSW should look like."]
      | Some rows' =>
          let b := recall_by_size rows' in
          let keys := size_keys a b in
          let overlap := drop_nan (delta_at a b <$> keys) in
          (lit "  " ++ rjust 16 (lit "index size") ++ lit " " ++ rjust 11 (take 10 label) ++ lit " " ++
           rjust 11 (take 10 compare_label) ++ lit " " ++ rjust 9 (lit "delta"))
          :: (lit "  " ++ rule 52 "-")
          :: ((fun kbin => bin_text kbin ++ lit " " ++ rjust 11 (fmt (by_size_e2e a kbin)) ++ lit " " ++
                 rjust 11 (fmt (by_size_e2e b kbin)) ++ lit " " ++ rjust 9 (fmt (delta_at a b kbin))) <$> keys)
          ++ [[]] ++
          match overlap with
          | [] => lits ["  No overlapping size bins -- the runs never reached comparable";
                        "  index sizes, so they cannot be compared. Match --duration and";
                        "  --writers, or run longer."]
          | _ => (lit "  overlapping bins: " ++ show_nat (length overlap) ++ lit "   mean delta " ++
                  fmt (fin (np_mean overlap)))
                 :: lits [""; "  This is the only size-controlled comparison available. If the";
                          "  delta is ~0, the two runs differ only in how far they got,";
                          "  and any Q1/Q4 difference between them is a size artefact."]
          end
      end
  end.

(** ** Q1 *)

Definition q1_intra_shard_spread (rows : list srow) : list line :=
  banner (lit "Q1  Do replicas of the same shard disagree at the same instant?") ++
  let '(spreads, mins, maxes) := intra_shard_spreads rows in
  match spreads with
  | [] => lits ["  no instants with >=2 reachable replicas of the same shard"]
  | s :: ss =>
      [lit "  instants compared      : " ++ show_nat (length spreads);
       lit "  mean within-shard spread: " ++ fmt (fin (np_mean spreads));
       lit "  p95 spread              : " ++ fmt (fin (np_percentile 95 spreads));
       lit "  max spread              : " ++ fmt (fin (Qmax_list s ss));
       lit "  worst replica (mean)    : " ++ fmt (nanmean (fin <$> mins));
       lit "  best  replica (mean)    : " ++ fmt (nanmean (fin <$> maxes))]
      ++ lits [""; "  Interpretation: a non-trivial spread means two replicas of the";
               "  same shard answered the same query set differently at the same";
               "  moment -- invisible to any client, which sees only one of them."]
  end.

(** ** Q2 *)

Definition window_label (w : window) : text :=
  match w with
  | BeforeKill => lit "before any kill"
  | W0_5 => lit "0-5s after kill"
  | W5_15 => lit "5-15s after"
  | W15_30 => lit "15-30s after"
  | W30 => lit ">30s after"
  end.

Definition window_line (w : window) (vals : list (float * float * float)) : option line :=
  let e2e := (fun v : float * float * float => v.1.1) <$> vals in
  match length (drop_nan e2e) with
  | 0 => None
  | n => Some (lit "  " ++ ljust 18 (window_label w) ++ lit " " ++ rjust 5 (show_nat n) ++ lit " " ++
               rjust 8 (fmt (nanmean e2e)) ++ lit " " ++
               rjust 8 (fmt (nanmean ((fun v : float * float * float => v.1.2) <$> vals))) ++ lit " " ++
               rjust 9 (fmt (nanmean ((fun v : float * float * float => v.2) <$> vals))))
  end.

Definition q2_recall_around_failover (rows : list srow) (events : list (string * Q)) : list line :=
  banner (lit "Q2  Does recall drop around failover, and does it recover?") ++
  match events with
  | [] => lits ["  no chaos events (baseline run) -- skipping"]
  | _ =>
      (lit "  " ++ ljust 18 (lit "window") ++ lit " " ++ rjust 5 (lit "n") ++ lit " " ++ rjust 8 (lit "e2e") ++
       lit " " ++ rjust 8 (lit "index") ++ lit " " ++ rjust 9 (lit "complete"))
      :: (lit "  " ++ rule 52 "-")
      :: omap (fun wv : window * list (float * float * float) => window_line wv.1 wv.2) (q2_buckets rows events)
      ++ lits [""; "  Interpretation: recovery means the later windows return to the";
               "  'before any kill' level. A permanent step down means the kill";
               "  left the replica degraded -- the failure mode worth a paper."]
  end.

(** ** QH *)

Definition phase_label (p : phase) : text :=
  match p with
  | Pre => lit "before chaos"
  | During => lit "during chaos"
  | Post0_30 => lit "0-30s after stop"
  | Post30_60 => lit "30-60s after stop"
  | Post60p => lit ">60s after stop"
  end.

Definition phase_line (p : phase) (s : phase_stats) : option line :=
  match ph_n s with
  | 0 => None
  | n =>
      let miss := match ph_missing s with nan => lit "  n/a" | fin q => format_f 0 q end in
      Some (lit "  " ++ ljust 22 (phase_label p) ++ lit " " ++ rjust 4 (show_nat n) ++ lit " " ++
            rjust 13 (fmt (ph_compl s)) ++ lit " " ++ rjust 12 miss ++ lit " " ++ rjust 11 (fmt (ph_e2e s)))
  end.

(** [f"{x:.0%}"], [f"{x:.0f}"] of a float that may be NaN. *)
Definition pct0 (x : float) : text := match x with nan => lit "nan%" | fin q => format_pct 0 q end.
Definition fixed0 (x : float) : text := match x with nan => lit "nan" | fin q => format_f 0 q end.

Definition heal_verdict_lines (h : heal) : list line :=
  match hl_healed h with
  | None => lits ["  Not enough damage or too few samples in a phase to judge."]
  | Some true =>
      (lit "  HEALS: " ++ pct0 (hl_recovered_frac h) ++ lit " of the writes missed during")
      :: lits ["  the outage were recovered once faults stopped. The divergence";
               "  is transient, and the thesis weakens considerably -- a";
               "  transient gap is far less interesting than a permanent one."]
  | Some false =>
      [lit "  DOES NOT HEAL: " ++ pct0 (hl_recovered_frac h) ++ lit " of missed writes recovered;";
       lit "  " ++ fixed0 (hl_residual_missing h) ++ lit " ids still absent well after the last fault."]
      ++ lits ["  A replica that missed writes while it was down never gets";
               "  them back: no anti-entropy, no read-repair, no catch-up.";
               "  Every query routed there returns silently worse results,";
               "  indefinitely."; "";
               "  This is the headline result if it holds across seeds."]
  end.

Definition heal_table (h : heal) (t0 t1 : Q) : list line :=
  banner (lit "QH  Does the cluster heal after the failures stop?") ++
  [lit "  chaos window: " ++ format_f 0 t0 ++ lit "s -> " ++ format_f 0 t1 ++ lit "s"; [];
   lit "  " ++ ljust 22 (lit "phase") ++ lit " " ++ rjust 4 (lit "n") ++ lit " " ++ rjust 13 (lit "completeness") ++
     lit " " ++ rjust 12 (lit "missing ids") ++ lit " " ++ rjust 11 (lit "e2e_recall");
   lit "  " ++ rule 66 "-"]
  ++ omap (fun p => phase_line p (hl_phases h p)) [Pre; During; Post0_30; Post30_60; Post60p]
  ++ lits [""; "  Judge on 'missing ids', not completeness. Writes keep flowing";
           "  during the quiesce window, so a growing denominator drags the";
           "  ratio toward 1.0 even if nothing is ever recovered."; ""].

Definition qheal_recovery (rows : list srow) (quiesce : bool) (window : option Q * option Q) : list line :=
  match heal_stats rows quiesce window, window with
  | Some h, (Some t0, Some t1) => heal_table h t0 t1 ++ heal_verdict_lines h
  | _, _ => []
  end.

(** ** Q0 *)

(** (time, recall, size) of the usable samples. *)
Definition q0_samples (rows : list srow) : list (Q * Q * float) :=
  omap (fun r => match cellf (snd (s_t_rel r)), cellf (s_e2e r) with
                 | fin t, fin v => Some (t, v, cellf (s_n_local r))
                 | _, _ => None
                 end) (reachable_rows rows).

(** [np.polyfit(t, v, 1)[0]]: the least-squares slope; [t.std() > 1e-9]. *)
Definition slope (pts : list (Q * Q)) : float :=
  if Qltb (1 # 1000000000000000000) (variance pts.*1)
  then fin (covariance pts.*1 pts.*2 / variance pts.*1) else nan.

(** [f"{x:,.0f}"] *)
Definition commas0 (x : float) : text :=
  match x with
  | nan => lit "nan"
  | fin q => sign_text q ++ rev (commas (rev (show_N (units 0 q))))
  end.

Definition fscale (c : Q) (x : float) : float := fmul x (fin c).

Definition q0_report (rows : list srow) : list line :=
  banner (lit "Q0  Is recall stable over the run? (confound check for Q2)") ++
  let pts := sorted (fun a b : Q * Q * float => Qle_bool a.1.1 b.1.1) (q0_samples rows) in
  if length pts <? 6 then lits ["  too few samples"]
  else
    let third := Nat.max 1 (length pts / 3) in
    let first := take third pts in
    let last := drop (length pts - third) pts in
    let mean_v (l : list (Q * Q * float)) := np_mean ((fun p => p.1.2) <$> l) in
    let mean_n (l : list (Q * Q * float)) := nanmean ((fun p => p.2) <$> l) in
    let d := (mean_v last - mean_v first)%Q in
    [lit "  first third : e2e_recall " ++ fmt (fin (mean_v first)) ++ lit "   mean n_local " ++ commas0 (mean_n first);
     lit "  last  third : e2e_recall " ++ fmt (fin (mean_v last)) ++ lit "   mean n_local " ++ commas0 (mean_n last);
     lit "  drift       : " ++ fmt (fin d) ++ lit " over the run (" ++
       fmt_nd 5 (fscale 100 (slope ((fun p => (p.1.1, p.1.2)) <$> pts))) ++ lit " per 100s)"; []]
    ++ (if Qltb (Qabs d) (1 # 50)
        then lits ["  Recall is stable with index growth. Q2's before/after gap can";
                   "  be attributed to failure."]
        else lits ["  WARNING: recall drifts with index size on its own. Q2's";
                   "  'before any kill' bucket is early-run and therefore smaller-";
                   "  index; its gap to later windows is CONFOUNDED. Compare Q2";
                   "  against this drift before claiming a failure effect."]).

(** ** Q3 *)

Definition q3_text (v : q3_verdict) : text :=
  match v with
  | GraphDegraded => lit "graph degraded"
  | DataMissing => lit "data missing"
  | BothOrNeither => lit "both / neither"
  end.

Definition q3_report (rows : list srow) : list line :=
  banner (lit "Q3  When recall drops, is it the graph or the data?") ++
  match q3_samples rows with
  | [] => lits ["  no scored samples"]
  | samples =>
      [lit "  samples                 : " ++ show_nat (length samples);
       lit "  mean index_recall       : " ++ fmt (nanmean ((fun x => fin x.1.2) <$> samples)) ++ lit "   (graph quality)";
       lit "  mean completeness       : " ++ fmt (nanmean ((fun x => fin x.2) <$> samples)) ++ lit "   (data content)";
       lit "  mean e2e_recall         : " ++ fmt (nanmean ((fun x => x.1.1) <$> samples)) ++ lit "   (what a client sees)";
       []; lit "  worst 5 samples by e2e_recall:";
       lit "    " ++ rjust 8 (lit "e2e") ++ lit " " ++ rjust 8 (lit "index") ++ lit " " ++ rjust 9 (lit "complete") ++
         lit "   verdict"]
      ++ ((fun x : float * Q * Q * q3_verdict => let '(e, i, c, v) := x in
             lit "    " ++ rjust 8 (fmt e) ++ lit " " ++ rjust 8 (fmt (fin i)) ++ lit " " ++ rjust 9 (fmt (fin c)) ++
             lit "   " ++ q3_text v) <$> q3_graph_vs_data rows)
  end.

(** ** Q4 *)

Section Q4.
Context {np : Numpy}.

Definition q4_report (rows : list srow) (k queries : option Z) : list line :=
  banner (lit "Q4  Can cross-replica comparison identify the degraded replica?") ++
  match detection_stats rows (resolution_eps k queries) with
  | None => lits ["  fewer than 5 groups with >=3 scored replicas.";
                  "  (loo_agreement needs 3+ reachable replicas in a shard; with";
                  "   2 it is identical for both by construction.)";
                  "  If this run predates the loo_agreement column, re-run."]
  | Some d =>
      match d_hit_rate d, d_chance d with
      | fin rate, fin chance =>
          [lit "  groups scored           : " ++ show_nat (d_groups d) ++ lit "   (" ++ show_nat (d_tied_excluded d) ++
             lit " excluded as ties of " ++ show_nat (d_candidates d) ++ lit " candidates)";
           lit "  mean replicas per group : " ++ match d_n_replicas d with nan => lit "nan" | fin q => format_f 1 q end;
           lit "  worst-replica hit rate  : " ++ fmt (fin rate) ++ lit "   (chance " ++ fmt (fin chance) ++ lit ")";
           lit "  lift over chance        : " ++ fmt_nd 2 (fin (rate / chance)) ++ lit "x";
           lit "  within-group rank corr  : " ++ fmt (d_rank_corr d);
           lit "  mean true recall margin : " ++ fmt (d_margin d) ++ lit "   (worst vs next-worst)"; []]
          ++ (if Qle_bool (chance * (9 # 5)) rate && Qle_bool (11 # 20) rate then
                lits ["  DETECTS: agreement identifies the degraded replica well above";
                      "  chance. That is a usable production signal -- the Layer 3";
                      "  result, and it is not available from any existing tool."]
              else if Qle_bool (chance * (13 # 10)) rate then
                lits ["  PARTIAL: better than chance but not reliable alone. Check";
                      "  whether it sharpens with more queries per sample."]
              else
                lits ["  DOES NOT DETECT: cross-replica agreement cannot single out";
                      "  the bad replica. A real result -- it means detection needs";
                      "  sentinel queries with known answers, not peer comparison."])
          ++ lits [""; "  Compare this against the BASELINE run. A hit rate that is just";
                   "  as high with no faults is measuring noise, not detection."]
      | _, _ =>
          (lit "  " ++ show_nat (d_candidates d) ++ lit " candidate groups, " ++ show_nat (d_tied_excluded d) ++
           lit " excluded as ties, " ++ show_nat (d_groups d) ++ lit " scorable.")
          :: lits ["  Too few groups where any replica is actually distinguishable";
                   "  to say anything about detection."]
      end
  end.

(** ** [main] *)

(** What the report uses of [run_meta.json]; [am_str key] is [str(meta.get(key))], and
    [am_dist] the corpus line's [meta.get("dist", "unknown")]. *)
Record ameta := mkAMeta {
  am_k : option Z;
  am_queries : option Z;
  am_quiesce : bool;
  am_window : option Q * option Q;
  am_exhausted : bool;
  am_dist : text;
  am_str : string -> text;
}.

(** No meta file, or an empty one. *)
Definition meta_header (meta : option ameta) : list line :=
  match meta with
  | None => []
  | Some m =>
      [lit "  duration=" ++ am_str m "duration_s" ++ lit "s  queries=" ++ am_str m "queries" ++ lit "  k=" ++
         am_str m "k" ++ lit "  chaos=" ++ am_str m "chaos";
       lit "  " ++ am_str m "num_shards" ++ lit " shards x " ++ am_str m "replicas_per_shard" ++
         lit " replicas   confirmed=" ++ am_str m "confirmed_total" ++ lit "  seed=" ++ am_str m "seed";
       lit "  corpus=" ++ am_dist m ++ lit "  metric=" ++ am_str m "metric"]
      ++ (if am_exhausted m
          then [lit "  WARNING: the corpus pool ran out and writers stopped early; the write rate fell for reasons unrelated to the cluster."]
          else [])
  end.

(** The share of samples that did not answer, in percent. *)
Definition unreachable_line (rows : list srow) : line :=
  let u := length (List.filter (fun r => negb (reach r)) rows) in
  lit "  unreachable samples: " ++ show_nat u ++ lit "/" ++ show_nat (length rows) ++ lit " (" ++
  format_f 1 (100 * qratio u (Nat.max (length rows) 1)) ++ lit "%)".

Definition analyze_main (rows : list srow) (events : list (string * Q)) (meta : option ameta)
    (compare_rows : option (list srow)) (label compare_label : text) : list line :=
  let quiesce := match meta with Some m => am_quiesce m | None => false end in
  let window := match meta with Some m => am_window m | None => (None, None) end in
  let k := match meta with Some m => am_k m | None => None end in
  let queries := match meta with Some m => am_queries m | None => None end in
  [rule 72 "="; lit "Replica recall divergence under failure -- Layer 1 results"; rule 72 "="]
  ++ meta_header meta
  ++ [lit "  rows=" ++ show_nat (length rows) ++ lit "  chaos_events=" ++ show_nat (length events);
      unreachable_line rows]
  ++ qheal_recovery rows quiesce window
  ++ q0_report rows
  ++ qsize_recall_vs_index_size rows compare_rows label compare_label
  ++ q1_intra_shard_spread rows
  ++ q2_recall_around_failover rows events
  ++ q3_report rows
  ++ q4_report rows k queries
  ++ [[]].
End Q4.

(** * Properties *)

(** ** Equal numbers print alike *)

Lemma Qltb_comp a a' b : (a == a')%Q -> Qltb a b = Qltb a' b.
Proof. intros H. apply eq_true_iff_eq. rewrite !Qltb_lt, H. done. Qed.

Lemma format_f_Qeq nd q q' : (q == q')%Q -> format_f nd q = format_f nd q'.
Proof.
  intros H. unfold format_f, sign_text, units. rewrite (Qltb_comp q q' 0 H).
  by rewrite (Qround_even_Qeq _ (Qabs q' * inject_Z (10 ^ Z.of_nat nd))) by (by rewrite H).
Qed.

(** ** The healing verdict on the page *)

(** When the replicas still miss the same number of ids in every sample after the faults
    stopped, more than before them, the report says so: it ends with the verdict that the
    cluster does not heal, zero percent recovered, and the number of ids still absent, however
    much the completeness column above it climbed. *)
Theorem heal_report_not_healed rows t0 t1 m pre :
  missing_is t0 t1 rows [Post0_30; Post30_60; Post60p] m ->
  ph_missing (phase_of_rows t0 t1 rows Pre) = fin pre ->
  (exists p, p ∈ [Post0_30; Post30_60; Post60p] /\ ph_n (phase_of_rows t0 t1 rows p) <> 0) ->
  (1 # 1000000000 < m - pre)%Q ->
  exists table, qheal_recovery rows true (Some t0, Some t1) =
    table ++ [lit "  DOES NOT HEAL: 0% of missed writes recovered;";
              lit "  " ++ format_f 0 (m - pre) ++ lit " ids still absent well after the last fault."]
      ++ lits ["  A replica that missed writes while it was down never gets";
               "  them back: no anti-entropy, no read-repair, no catch-up.";
               "  Every query routed there returns silently worse results,";
               "  indefinitely."; "";
               "  This is the headline result if it holds across seeds."].
Proof.
  intros Hm Hpre Hex Hd. destruct (heal_judges_counts rows t0 t1 m pre Hm Hpre Hex Hd)
    as (h & f & d & Hh & Hv & Hf & Hz & Hr & Hres).
  unfold qheal_recovery. rewrite Hh. exists (heal_table h t0 t1). f_equal.
  unfold heal_verdict_lines. rewrite Hv, Hf, Hr. cbn [pct0 fixed0].
  unfold format_pct. rewrite (format_f_Qeq 0 (f * 100) 0) by (rewrite Hz; reflexivity).
  by rewrite (format_f_Qeq 0 d (m - pre)) by done.
Qed.

Lemma heal_report_not_healed_witness :
  exists table, qheal_recovery demo_heal true (Some 10, Some 60)%Q =
    table ++ [lit "  DOES NOT HEAL: 0% of missed writes recovered;";
              lit "  " ++ format_f 0 (100 - 0) ++ lit " ids still absent well after the last fault."]
      ++ lits ["  A replica that missed writes while it was down never gets";
               "  them back: no anti-entropy, no read-repair, no catch-up.";
               "  Every query routed there returns silently worse results,";
               "  indefinitely."; "";
               "  This is the headline result if it holds across seeds."].
Proof.
  eapply (heal_report_not_healed demo_heal 10 60 100).
  - exact demo_heal_missing.
  - vm_compute. reflexivity.
  - exists Post0_30. split; [by left|]. vm_compute. done.
  - vm_compute. reflexivity.
Defined.

(** ** Comparing two runs *)

Lemma Zleb_sorted_unique (l l' : list Z) : l ≡ₚ l' -> sorted Z.leb l = sorted Z.leb l'.
Proof.
  intros H. apply (StronglySorted_unique_strong (le_of Z.leb)).
  - unfold le_of. intros x y _ _ Hx Hy. lia.
  - apply sorted_StronglySorted; intros *; lia.
  - apply sorted_StronglySorted; intros *; lia.
  - by rewrite !sorted_perm.
Qed.

Lemma size_keys_comm a b : size_keys a b = size_keys b a.
Proof.
  unfold size_keys. apply Zleb_sorted_unique, NoDup_Permutation; [apply NoDup_remove_dups..|].
  intros k. rewrite !elem_of_remove_dups, !elem_of_app. tauto.
Qed.

Lemma drop_nan_cons x l : drop_nan (x :: l) = match x with nan => drop_nan l | fin q => q :: drop_nan l end.
Proof. by destruct x. Qed.

Lemma delta_at_swap a b keys :
  Forall2 (fun x y => x == - y)%Q (drop_nan (delta_at b a <$> keys)) (drop_nan (delta_at a b <$> keys)).
Proof.
  induction keys as [|k keys IH]; [constructor|]. rewrite !fmap_cons, !drop_nan_cons.
  change (delta_at b a k) with (fsub (by_size_e2e b k) (by_size_e2e a k)).
  change (delta_at a b k) with (fsub (by_size_e2e a k) (by_size_e2e b k)). destruct (by_size_e2e a k), (by_size_e2e b k); cbn [fsub fbin]; try exact IH.
  constructor; [ring|exact IH].
Qed.

Lemma Qsum_opp l l' : Forall2 (fun x y => x == - y)%Q l l' -> (Qsum l == - Qsum l')%Q.
Proof.
  induction 1 as [|x y l l' E _ IH]; [reflexivity|]. rewrite !Qsum_cons, E, IH. ring.
Qed.

(** Which run is the baseline does not matter to the size-controlled comparison: with the two
    runs exchanged the report has the same bins, the same number of overlapping ones, and the
    opposite mean delta; a bin one run never reached is never counted. *)
Theorem size_comparison_symmetric (rows compare_rows : list srow) :
  let a := recall_by_size rows in
  let b := recall_by_size compare_rows in
  let overlap x y := drop_nan (delta_at x y <$> size_keys x y) in
  size_keys a b = size_keys b a /\
  length (overlap a b) = length (overlap b a) /\
  (np_mean (overlap b a) == - np_mean (overlap a b))%Q /\
  length (overlap a b) = length (List.filter (fun k => bool_decide (k ∈ dkeys a) && bool_decide (k ∈ dkeys b)) (size_keys a b)).
Proof.
  intros a b overlap. assert (size_keys a b = size_keys b a) as E by apply size_keys_comm.
  pose proof (delta_at_swap a b (size_keys a b)) as Hs.
  assert (length (overlap a b) = length (overlap b a)) as Hl.
  { unfold overlap. rewrite <- E. symmetry. by apply Forall2_length in Hs. }
  split_and!; [done|done| |].
  - unfold np_mean. rewrite <- Hl. apply Qsum_opp in Hs. unfold overlap at 1. rewrite <- E, Hs.
    unfold overlap. unfold Qdiv. ring.
  - unfold overlap. generalize (size_keys a b). induction l as [|k l IH]; [done|].
    rewrite fmap_cons, drop_nan_cons. cbn [List.filter].
    assert (forall d : list (Z * (Q * float * nat)), bool_decide (k ∈ dkeys d) = negb (is_nan (by_size_e2e d k))) as Hk.
    { intros d. unfold by_size_e2e. destruct (dget k d) as [[[e i] n]|] eqn:Ed; cbn.
      - apply bool_decide_eq_true. apply dget_Some_elem in Ed. by apply (list_elem_of_fmap_2 fst) in Ed.
      - apply bool_decide_eq_false. by apply dget_None. }
    rewrite !Hk. change (delta_at a b k) with (fsub (by_size_e2e a k) (by_size_e2e b k)). destruct (by_size_e2e a k), (by_size_e2e b k); cbn [fsub fbin is_nan negb andb]; [exact IH..|]. cbn [length]. by f_equal.
Qed.

(** The deltas of the report are those of [overlap_deltas]. *)
Lemma overlap_is_overlap_deltas (rows compare_rows : list srow) :
  let a := recall_by_size rows in
  let b := recall_by_size compare_rows in
  drop_nan (delta_at a b <$> size_keys a b) = overlap_deltas rows compare_rows.
Proof.
  cbv zeta. unfold overlap_deltas, size_keys. cbv zeta. generalize (recall_by_size rows) (recall_by_size compare_rows).
  intros a b. generalize (sorted Z.leb (remove_dups (dkeys a ++ dkeys b))). induction l as [|k l IH]; [done|].
  rewrite fmap_cons, drop_nan_cons. change (delta_at a b k) with (fsub (by_size_e2e a k) (by_size_e2e b k)).
  unfold by_size_e2e at 1 2. cbn [omap list_omap].
  destruct (dget k a) as [[[? ?] ?]|], (dget k b) as [[[? ?] ?]|]; cbn [fsub fbin]; [f_equal; exact IH|exact IH..].
Qed.
