(* ===== verification/NanoRecord.v ===== *)
(** * What a nano-db run leaves for its analysis

    The end of [main] in [research/replica_recall/run_experiment.py]: [events.json] and
    [run_meta.json], beside the samples of [SampleFile]; and what [analyze.py] makes of the
    three. Values are what [json.dump] and [json.load] carry unchanged. *)

From stdpp Require Import base list gmap strings pretty sorting.
From Stdlib Require Import QArith Qabs Qround Lqa ZArith NArith Lia.
From S2P Require Import Prelude PyFloat Text PyText Csv Metrics Writer Sampler ChaosHarness.
From S2P Require Import Analyze NanoRun SampleFile AnalyzeReport.

Local Open Scope nat_scope.

(** ** [events.json] *)

(** [{**e, "t_rel": round(e["t"] - t_start, 3)}] *)
Definition event_out (t_start : Q) (e : chaos_event) : chaos_event * Q :=
  (e, round_nd 3 (ce_t e - t_start)).

(** What Q2 takes from an event. *)
Definition event_kill (eo : chaos_event * Q) : string * Q := (ce_target eo.1, eo.2).

(** ** [run_meta.json] *)

(** Arguments that only the record and the set-up use. *)
Record rr_settings := mkRS {
  rs_duration : Z;
  rs_writers : Z;
  rs_k : Z;
  rs_sample_interval : Q;
  rs_settle_s : Q;
  rs_warmup_s : Q;
  rs_metric : string;
  rs_dist : string;
  rs_sift_vectors : Z;
  rs_seed : Z;
}.

Record nano_meta := mkNM {
  nm_duration_s : Z;
  nm_writers : Z;
  nm_queries : Z;
  nm_k : Z;
  nm_sample_interval_s : Q;
  nm_settle_s : Q;
  nm_warmup_s : Q;
  nm_metric : string;
  nm_dist : string;
  nm_sift_vectors : option Z;
  nm_corpus_exhausted : bool;
  nm_seed : Z;
  nm_chaos : bool;
  nm_chaos_duration_s : option Q;
  nm_pre_chaos_s : option Q;
  nm_chaos_start_rel : option Q;
  nm_chaos_stop_rel : option Q;
  nm_quiesce : bool;
  nm_num_shards : nat;
  nm_replicas_per_shard : nat;
  nm_vector_dim : nat;
  nm_samples : nat;
  nm_chaos_events : nat;
  nm_confirmed_total : nat;
  nm_write_attempted : nat;
  nm_write_failed : nat;
  nm_sampler_errors : list exn;
  nm_loo_query_mode : string;
  nm_loo_queries : option nat;
  nm_loo_pool_size : option nat;
  nm_loo_pool_coverage : option coverage;
}.

(** [start] and [stop] are the chaos times already rounded, as [rr_phases] gives them. *)
Definition nano_meta_of (s : rr_settings) (a : rr_args) (w : wstate) (q : qstate) (rows : list Sampler.row)
    (errors : list exn) (events : list chaos_event) (start stop : option Q) : nano_meta := {|
  nm_duration_s := rs_duration s;
  nm_writers := rs_writers s;
  nm_queries := Z.of_nat (rr_queries a);
  nm_k := rs_k s;
  nm_sample_interval_s := rs_sample_interval s;
  nm_settle_s := rs_settle_s s;
  nm_warmup_s := rs_warmup_s s;
  nm_metric := rs_metric s;
  nm_dist := rs_dist s;
  nm_sift_vectors := if bool_decide (rs_dist s = "sift"%string) then Some (rs_sift_vectors s) else None;
  nm_corpus_exhausted := w_exhausted w;
  nm_seed := rs_seed s;
  nm_chaos := negb (rr_no_chaos a);
  nm_chaos_duration_s := rr_chaos_duration a;
  nm_pre_chaos_s :=
    match rr_chaos_duration a with
    | Some d => if Qeq_bool d 0 then None else Some (rr_pre_chaos_s a)
    | None => None
    end;
  nm_chaos_start_rel := start;
  nm_chaos_stop_rel := stop;
  nm_quiesce := match rr_chaos_duration a with Some _ => true | None => false end;
  nm_num_shards := NUM_SHARDS;
  nm_replicas_per_shard := REPLICAS_PER_SHARD;
  nm_vector_dim := VECTOR_DIM;
  nm_samples := length rows;
  nm_chaos_events := length events;
  nm_confirmed_total := size (w_vector_of w);
  nm_write_attempted := w_attempted w;
  nm_write_failed := w_failed w;
  nm_sampler_errors := take 20 errors;
  nm_loo_query_mode := if rr_nonpinned a then "nonpinned" else "pinned";
  nm_loo_queries := loo_queries_n a;
  nm_loo_pool_size := if rr_nonpinned a then Some (rr_loo_pool_size a) else None;
  nm_loo_pool_coverage := loo_pool_coverage q;
|}.

(** The directory a run leaves. *)
Definition results_of (s : rr_settings) (a : rr_args) (w : wstate) (q : qstate) (t_start : Q)
    (rows : list Sampler.row) (errors : list exn) (events : list chaos_event) (start stop : option Q)
    : result (results_dir (chaos_event * Q) nano_meta) :=
  csv ← samples_csv t_start (dict_of_row <$> rows);
  Ok (mkDir (Some csv) (Some (event_out t_start <$> events))
        (Some (nano_meta_of s a w q rows errors events start stop))).

(** What the report reads of the record; [str] is Python's [str] of the other entries. *)
Definition ameta_of (str : string -> text) (m : nano_meta) : ameta :=
  mkAMeta (Some (nm_k m)) (Some (nm_queries m)) (nm_quiesce m) (nm_chaos_start_rel m, nm_chaos_stop_rel m)
    (nm_corpus_exhausted m) (lit (nm_dist m)) str.

(** * Properties *)

Lemma heal_table_nonempty h t0 t1 v : heal_table h t0 t1 ++ v <> [].
Proof. done. Qed.

(** The healing section is printed exactly for a quiesce run whose two chaos times are there. *)
Lemma qheal_printed rows quiesce window :
  qheal_recovery rows quiesce window <> [] <-> quiesce = true /\ is_Some window.1 /\ is_Some window.2.
Proof.
  unfold qheal_recovery. destruct window as [o0 o1]. split.
  - destruct (heal_stats _ _ _) as [h|] eqn:E; [|done]. destruct o0 as [t0|]; [|done]. destruct o1 as [t1|]; [|done].
    intros _. destruct quiesce; [eauto|done].
  - cbn. intros (-> & [t0 ->] & [t1 ->]). destruct (heal_stats_window rows t0 t1) as [h ->]. apply heal_table_nonempty.
Qed.

(** C14. From a finished run to its report. The files a run writes are loaded again: one row per
    sample with the values the sampler measured, and every kill with its target and its time to
    the millisecond; the record's counts are those of the files. The report has a healing section
    exactly when the run asked for a quiesce window and was not interrupted in its first two
    phases, before the chaos had stopped; an interrupt in the third, while the replicas are
    watched healing, shortens the window but keeps the section. *)
Theorem run_reaches_report s a i w q t_start rows errors procs procs' events start stop :
  rr_check_args a = true -> rr_phases a i procs = Some (Finished procs' events start stop) ->
  Forall row_ok rows -> Forall (row_bounds t_start) rows ->
  exists d m ds,
    results_of s a w q t_start rows errors events start stop = Ok d /\
    load_results d = Loaded ds (event_out t_start <$> events) (Some m) /\
    mapM srow_of ds = Some (read_row t_start <$> rows) /\
    event_kill <$> (event_out t_start <$> events) = (fun e => (ce_target e, round_nd 3 (ce_t e - t_start))) <$> events /\
    nm_samples m = length ds /\ nm_chaos_events m = length events /\
    (qheal_recovery (read_row t_start <$> rows) (nm_quiesce m) (nm_chaos_start_rel m, nm_chaos_stop_rel m) <> [] <->
     is_Some (rr_chaos_duration a) /\ ri_interrupt i <> Some 0 /\ ri_interrupt i <> Some 1).
Proof.
  intros Hargs Hph Hok Hb.
  set (m := nano_meta_of s a w q rows errors events start stop).
  destruct (samples_loaded t_start rows (Some (event_out t_start <$> events)) (Some m) Hok Hb)
    as (csv & ds & Hcsv & Hload & Hrows).
  exists (mkDir (Some csv) (Some (event_out t_start <$> events)) (Some m)), m, ds.
  split_and!.
  - unfold results_of. by rewrite Hcsv.
  - exact Hload.
  - exact Hrows.
  - by rewrite <- list_fmap_compose.
  - cbn. apply mapM_Some, Forall2_length in Hrows. rewrite length_fmap in Hrows. done.
  - done.
  - rewrite qheal_printed. cbn [fst snd]. unfold m, nano_meta_of. cbn [nm_quiesce nm_chaos_start_rel nm_chaos_stop_rel].
    unfold rr_check_args in Hargs. unfold rr_phases in Hph. destruct (rr_chaos_duration a) as [cd|] eqn:Ecd.
    + destruct (rr_no_chaos a); [done|]. cbn [negb] in *.
      destruct (Qle_bool _ 0); [done|].
      destruct (ri_interrupt i) as [[|[|n]]|] eqn:Ei; cbn in Hph; simplify_eq; [naive_solver| | |];
        destruct (chaos_loop _ _ _) as [[p ev]|]; simplify_eq; naive_solver.
    + naive_solver.
Qed.

Definition demo_rs : rr_settings := mkRS 180 4 10 5 2 20 "l2" "sift" 60000 1.

(** The processes once all were started. *)
Definition demo_started : list (string * mproc) :=
  (start_all (dkeys (build_processes "run")) (fun _ => true) (build_processes "run")).1.

Lemma run_reaches_report_witness :
  exists procs' events start stop d m ds,
    rr_phases demo_ra demo_ri demo_started = Some (Finished procs' events start stop) /\
    results_of demo_rs demo_ra (init Generated 2) (q_init true 3000) 100 demo_rows [] events start stop = Ok d /\
    load_results d = Loaded ds (event_out 100 <$> events) (Some m) /\
    mapM srow_of ds = Some (read_row 100 <$> demo_rows) /\
    qheal_recovery (read_row 100 <$> demo_rows) (nm_quiesce m) (nm_chaos_start_rel m, nm_chaos_stop_rel m) <> [].
Proof.
  destruct (rr_phases demo_ra demo_ri demo_started) as [[|procs' events start stop]|] eqn:E;
    [vm_compute in E; discriminate| |vm_compute in E; discriminate].
  destruct (run_reaches_report demo_rs demo_ra demo_ri (init Generated 2) (q_init true 3000) 100 demo_rows []
    demo_started procs' events start stop) as (d & m & ds & H1 & H2 & H3 & _ & _ & _ & H4).
  - vm_compute. reflexivity.
  - exact E.
  - repeat constructor; try done; by vm_compute.
  - repeat constructor; try done; by vm_compute.
  - exists procs', events, start, stop, d, m, ds. split_and!; [done..|]. apply H4.
    split; [eexists; reflexivity|]. split; discriminate.
Defined.
