(* ===== verification/NanoClient.v ===== *)
(** * The chaos harness at the level of its HTTP replies

    [http_request], [wait_for_raft_leader] and [validator_loop] of [src/chaos_harness.py] on
    the JSON documents the coordinators send. [ChaosHarness] has the same loops on the values
    they read; here those values are taken out of the documents. In the validator only the
    request itself is inside a [try]: what Python refuses to do with a document ends the
    thread. *)

From stdpp Require Import base list strings pretty.
From Stdlib Require Import QArith Qround Qreduction ZArith Lia Lqa.
From Stdlib Require Qcanon.
From S2P Require Import Prelude PyFloat ChaosHarness Json.

Local Open Scope nat_scope.

(** ** [http_request] *)

(** What a request meets: an exception of the connection, or a status and a body. *)
Inductive wire : Type := Refused | Answered (status : Z) (body : raw).

(** No body, or one that is not JSON, reads as an empty object. *)
Definition http_request (w : wire) : http json :=
  match w with
  | Refused => HttpExn
  | Answered st r => HttpResp st (match r with RawJson j => j | RawEmpty | RawText _ => JDict [] end)
  end.

(** ** [wait_for_raft_leader] *)

(** [body.get("role") == "leader"], any exception meaning no. *)
Definition says_leader (w : wire) : bool :=
  match http_request w with
  | HttpExn => false
  | HttpResp st body =>
      Z.eqb st 200 && match jget "role" body with
                      | Ok (JStr s) => bool_decide (s = "leader"%string)
                      | _ => false
                      end
  end.

Fixpoint j_wait_for_raft_leader (deadline : Q) (rounds : list (Q * (nat -> wire))) (node_ids : list nat)
    : option (option nat) :=
  match rounds with
  | [] => None
  | (now, reply) :: rounds' =>
      if Qltb now deadline then
        match List.find (fun n => says_leader (reply n)) node_ids with
        | Some n => Some (Some n)
        | None => j_wait_for_raft_leader deadline rounds' node_ids
        end
      else Some None
  end.

(** ** [validator_loop] *)

(** A dictionary key: numbers and booleans that are equal are one key. *)
Inductive hkey : Type := KNull | KNum (q : Q) | KStr (s : string).

#[local] Instance Q_repr_eq_dec : EqDecision Q.
Proof. intros [a b] [c d]. unfold Decision. decide equality; [apply Pos.eq_dec|apply Z.eq_dec]. Defined.

#[export] Instance hkey_eq_dec : EqDecision hkey.
Proof. solve_decision. Defined.

Definition num_of_bool (b : bool) : Q := if b then 1 else 0.

(** [hash(x)]: lists and dictionaries have none. *)
Definition hash_key (j : json) : result hkey :=
  match j with
  | JNull => Ok KNull
  | JBool b => Ok (KNum (num_of_bool b))
  | JNum q => Ok (KNum (Qred q))
  | JStr s => Ok (KStr s)
  | JList _ | JDict _ => Raise TypeError
  end.

(** The number compared in [x < n], in lowest terms. *)
Definition jnumber (j : json) : result Q :=
  match j with
  | JNum q => Ok (Qred q)
  | JBool b => Ok (num_of_bool b)
  | _ => Raise TypeError
  end.

Inductive jviolation : Type :=
| JLostWrite (node : nat) (total : Q) (confirmed_before : Z)
| JDoublePrimary (node : nat) (sid : hkey) (n_primaries : nat).

(** The validator's lists and counters, and the exception that ended its thread. *)
Record jvstate := mkJV {
  jv_violations : list jviolation;
  jv_checks : nat;
  jv_dips : nat;
  jv_dead : option exn;
}.

(** [rep["shard_id"]] and the truth of [rep.get("is_primary")]. *)
Definition read_rep (rep : json) : result (hkey * bool) :=
  sid ← jitem "shard_id" rep; k ← hash_key sid; p ← jget "is_primary" rep; Ok (k, truthy p).

Definition j_double_primaries (node : nat) (reps : list (hkey * bool)) : list jviolation :=
  omap (fun sr : hkey * list bool =>
          let primaries := List.filter id sr.2 in
          if decide (1 < length primaries) then Some (JDoublePrimary node sr.1 (length primaries)) else None)
    (group_by fst snd reps).

(** The comparison of the total with the confirmed count: the violations and the dips. *)
Definition check_total (node confirmed_before : nat) (body : json) : result (list jviolation * nat) :=
  total ← jget "total_element_count" body;
  degraded ← jget_or "degraded" (JBool false) body;
  match total with
  | JNull => Ok ([], 0)
  | _ =>
      t ← jnumber total;
      Ok (if Qltb t (inject_Z (Z.of_nat confirmed_before))
          then if truthy degraded then ([], 1) else ([JLostWrite node t (Z.of_nat confirmed_before)], 0)
          else ([], 0))
  end.

Definition check_primaries (node : nat) (body : json) : result (list jviolation) :=
  replicas ← jget_or "replicas" (JList []) body;
  items ← jiter replicas;
  reps ← rmapM read_rep items;
  Ok (j_double_primaries node reps).

(** One coordinator of a round; what was recorded before an exception stays. *)
Definition j_validate (confirmed_before : nat) (v : jvstate) (nw : nat * wire) : jvstate :=
  match jv_dead v with
  | Some _ => v
  | None =>
      match http_request nw.2 with
      | HttpExn => v
      | HttpResp st body =>
          if Z.eqb st 200 then
            let checks := S (jv_checks v) in
            match check_total nw.1 confirmed_before body with
            | Raise e => mkJV (jv_violations v) checks (jv_dips v) (Some e)
            | Ok (lost, dip) =>
                match check_primaries nw.1 body with
                | Raise e => mkJV (jv_violations v ++ lost) checks (jv_dips v + dip) (Some e)
                | Ok doubles => mkJV (jv_violations v ++ lost ++ doubles) checks (jv_dips v + dip) None
                end
            end
          else v
      end
  end.

(** The rounds of the thread: the count read first, then each coordinator's reply. *)
Definition j_validator (rounds : list (nat * list (nat * wire))) : jvstate :=
  foldl (fun v r => foldl (j_validate r.1) v r.2) (mkJV [] 0 0 None) rounds.

(** ** What a statistics document says *)

Definition decode_total (j : json) : option (option Z) :=
  match j with
  | JNull => Some None
  | JNum q => if Qeq_bool q (inject_Z (Qfloor q)) then Some (Some (Qfloor q)) else None
  | _ => None
  end.

Definition decode_rep (j : json) : option replica_stat :=
  match j with
  | JDict m =>
      match dget "shard_id"%string m with
      | Some (JNum q) =>
          if Qeq_bool q (inject_Z (Qfloor q)) && (0 <=? Qfloor q)%Z
          then Some (mkRep (Z.to_nat (Qfloor q)) (truthy (default JNull (dget "is_primary"%string m)))) else None
      | _ => None
      end
  | _ => None
  end.

Definition decode_stats (j : json) : option stats_body :=
  match j with
  | JDict m =>
      total ← decode_total (default JNull (dget "total_element_count"%string m));
      match default (JList []) (dget "replicas"%string m) with
      | JList items =>
          reps ← mapM decode_rep items;
          Some (mkBody total (truthy (default (JBool false) (dget "degraded"%string m))) reps)
      | _ => None
      end
  | _ => None
  end.

(** * Properties *)

Lemma jget_JDict k m : jget k (JDict m) = Ok (default JNull (dget k m)).
Proof. done. Qed.


(** ** The leader *)

(** What [wait_for_raft_leader] of [ChaosHarness] is given. *)
Definition role_reply (w : wire) : http string :=
  match http_request w with
  | HttpExn => HttpExn
  | HttpResp st body => HttpResp st (match jget "role" body with Ok (JStr s) => s | _ => ""%string end)
  end.

Lemma says_leader_role w : says_leader w = is_leader (role_reply w).
Proof.
  unfold says_leader, role_reply, is_leader. destruct (http_request w) as [|st body]; [done|].
  by destruct (jget "role" body) as [[| | | | |]|].
Qed.

Lemma find_ext {A} (f g : A -> bool) l : (forall x, f x = g x) -> List.find f l = List.find g l.
Proof. intros H. induction l as [|x l IH]; [done|]. cbn. by rewrite H, IH. Qed.

(** The wait on the documents is the wait on the roles they name. *)
Lemma leader_wait_decodes deadline rounds node_ids :
  j_wait_for_raft_leader deadline rounds node_ids =
  wait_for_raft_leader deadline ((fun r : Q * (nat -> wire) => mkRound r.1 (fun n => role_reply (r.2 n))) <$> rounds) node_ids.
Proof.
  induction rounds as [|[now reply] rounds IH]; [done|]. cbn. destruct (Qltb now deadline); [|done].
  rewrite (find_ext _ (fun n => is_leader (role_reply (reply n)))) by (intros; apply says_leader_role).
  by destruct (List.find _ _).
Qed.

(** ** Primaries *)

Definition shard_key (s : nat) : hkey := KNum (inject_Z (Z.of_nat s)).

Lemma shard_key_inj s s' : shard_key s = shard_key s' -> s = s'.
Proof. unfold shard_key, inject_Z. intros [= H]. lia. Qed.

Lemma dget_inj {K K' V} `{EqDecision K, EqDecision K'} (g : K -> K') k (d : list (K * V)) :
  (forall x y, g x = g y -> x = y) -> dget (g k) (prod_map g id <$> d) = dget k d.
Proof.
  intros Hg. induction d as [|[k0 v0] d IH]; [done|]. cbn. destruct (decide (k = k0)) as [->|Hne].
  - by rewrite decide_True.
  - rewrite decide_False by naive_solver. done.
Qed.

Lemma dset_inj {K K' V} `{EqDecision K, EqDecision K'} (g : K -> K') k (v : V) (d : list (K * V)) :
  (forall x y, g x = g y -> x = y) -> dset (g k) v (prod_map g id <$> d) = prod_map g id <$> dset k v d.
Proof.
  intros Hg. induction d as [|[k0 v0] d IH]; [done|]. cbn. destruct (decide (k = k0)) as [->|Hne].
  - by rewrite decide_True.
  - rewrite decide_False by naive_solver. cbn. by rewrite IH.
Qed.

(** Grouping by an injective image of the key. *)
Lemma group_by_inj {A K K' V} `{EqDecision K, EqDecision K'} (g : K -> K') (key : A -> K) (val : A -> V) (xs : list A) :
  (forall x y, g x = g y -> x = y) ->
  group_by fst snd ((fun x => (g (key x), val x)) <$> xs) = prod_map g id <$> group_by key val xs.
Proof.
  intros Hg. induction xs as [|x xs IH] using rev_ind; [done|].
  rewrite fmap_app. cbn [fmap list_fmap]. rewrite !group_by_snoc, IH. unfold dappend. cbn [fst snd].
  by rewrite dget_inj, dset_inj.
Qed.

Lemma dset_fmap {K V W} `{EqDecision K} (f : V -> W) k v (d : list (K * V)) :
  dset k (f v) (prod_map id f <$> d) = prod_map id f <$> dset k v d.
Proof. induction d as [|[k0 v0] d IH]; [done|]. cbn. case_decide; [done|]. cbn. by rewrite IH. Qed.

Lemma dget_fmap {K V W} `{EqDecision K} (f : V -> W) k (d : list (K * V)) :
  dget k (prod_map id f <$> d) = f <$> dget k d.
Proof. induction d as [|[k0 v0] d IH]; [done|]. cbn. by case_decide. Qed.

Lemma group_by_fmap {A K V W} `{EqDecision K} (f : V -> W) (key : A -> K) (val : A -> V) (xs : list A) :
  group_by key (f ∘ val) xs = prod_map id (list_fmap V W f) <$> group_by key val xs.
Proof.
  induction xs as [|x xs IH] using rev_ind; [done|]. rewrite !group_by_snoc, IH. unfold dappend.
  rewrite dget_fmap, <- dset_fmap. f_equal. destruct (dget (key x) (group_by key val xs)); cbn; [by rewrite fmap_app|done].
Qed.

Lemma filter_count {A} (f : A -> bool) (l : list A) : length (List.filter id (f <$> l)) = length (List.filter f l).
Proof.
  induction l as [|x l IH]; [done|]. rewrite fmap_cons. cbn [List.filter]. unfold id at 1.
  destruct (f x); cbn [length]; by rewrite IH.
Qed.

(** The same violations, on the values of the documents. *)
Definition embed (v : violation) : jviolation :=
  match v with
  | LOST_WRITE node total cb => JLostWrite node (inject_Z total) cb
  | DOUBLE_PRIMARY node shard n => JDoublePrimary node (shard_key shard) n
  end.

Definition rep_read (r : replica_stat) : hkey * bool := (shard_key (rep_shard r), rep_primary r).

Lemma doubles_embed node reps :
  j_double_primaries node (rep_read <$> reps) = embed <$> double_primaries node reps.
Proof.
  unfold j_double_primaries, double_primaries, rep_read.
  rewrite (group_by_inj shard_key rep_shard rep_primary reps shard_key_inj).
  rewrite (group_by_fmap rep_primary rep_shard (@id replica_stat) reps).
  generalize (group_by rep_shard (@id replica_stat) reps). intros l. induction l as [|[s g] l IH]; [done|].
  cbn [fmap list_fmap omap list_omap prod_map fst snd id]. cbn [prod_map fst snd].
  change (list_fmap _ _ rep_primary g) with (rep_primary <$> g). rewrite filter_count.
  destruct (decide (1 < _)); cbn; [f_equal|]; exact IH.
Qed.

Lemma Qred_integral q : Qeq_bool q (inject_Z (Qfloor q)) = true -> Qred q = inject_Z (Qfloor q).
Proof.
  intros H%Qeq_bool_eq. rewrite (Qred_complete _ _ H). apply Qcanon.Qred_identity. cbn. apply Z.gcd_1_r.
Qed.

Lemma read_rep_decoded j r : decode_rep j = Some r -> read_rep j = Ok (rep_read r).
Proof.
  unfold decode_rep, read_rep. destruct j as [| | | | |m]; try done. cbn [jitem].
  destruct (dget "shard_id"%string m) as [[| |q| | |]|] eqn:E; try done.
  destruct (Qeq_bool _ _) eqn:Eq; [|done]. destruct (Z.leb_spec 0 (Qfloor q)); [|done]. cbn [andb]. intros [= <-].
  cbn [mbind result_bind hash_key]. rewrite jget_JDict. cbn [mbind result_bind]. unfold rep_read, shard_key. cbn.
  rewrite Qred_integral by done. rewrite Z2Nat.id by done. done.
Qed.

Lemma rmapM_decoded items reps : mapM decode_rep items = Some reps -> rmapM read_rep items = Ok (rep_read <$> reps).
Proof.
  intros H%mapM_Some. induction H as [|j r items reps Hj _ IH]; [done|].
  cbn [rmapM]. rewrite (read_rep_decoded _ _ Hj). cbn. by rewrite IH.
Qed.

(** ** The refinement *)

(** The reply [validate_reply] is given; a document that is not a statistics document has none. *)
Definition stats_reply (w : wire) : option (http stats_body) :=
  match http_request w with
  | HttpExn => Some HttpExn
  | HttpResp st body =>
      if Z.eqb st 200 then HttpResp st <$> decode_stats body
      else Some (HttpResp st (mkBody None false []))
  end.

Definition jv_of (v : vstate) : jvstate := mkJV (embed <$> v_violations v) (v_checks v) (v_dips v) None.

Lemma j_validate_decoded cb v node w h :
  stats_reply w = Some h -> j_validate cb (jv_of v) (node, w) = jv_of (validate_reply cb v (node, h)).
Proof.
  unfold stats_reply, j_validate. cbn [jv_dead jv_of fst snd]. destruct (http_request w) as [|st body].
  { by intros [= <-]. }
  destruct (Z.eqb st 200) eqn:Est; [|intros [= <-]; cbn; by rewrite Est].
  destruct (decode_stats body) as [b|] eqn:Ed; [|done]. intros [= <-]. cbn [validate_reply]. rewrite Est.
  unfold decode_stats in Ed. destruct body as [| | | | |m]; try done.
  destruct (decode_total _) as [total|] eqn:Et; [|done]. cbn in Ed.
  destruct (default (JList []) (dget "replicas"%string m)) as [| | | |items|] eqn:Er; try done.
  destruct (mapM decode_rep items) as [reps|] eqn:Em; [|done]. injection Ed as <-.
  assert (check_primaries node (JDict m) = Ok (embed <$> double_primaries node reps)) as Hp.
  { unfold check_primaries, jget_or. rewrite Er. cbn [mbind result_bind jiter].
    rewrite (rmapM_decoded _ _ Em). cbn [mbind result_bind]. by rewrite doubles_embed. }
  rewrite Hp. cbn [sb_total sb_degraded sb_replicas].
  unfold check_total. rewrite jget_JDict. unfold jget_or. cbn [mbind result_bind].
  destruct (default JNull (dget "total_element_count"%string m)) as [| |q| | |]; try done; cbn in Et.
  { injection Et as <-. cbn. unfold jv_of. cbn. by rewrite fmap_app. }
  destruct (Qeq_bool q _) eqn:Eq; [|done]. injection Et as <-. cbn [jnumber mbind result_bind].
  rewrite (Qred_integral q Eq).
  assert (Qltb (inject_Z (Qfloor q)) (inject_Z (Z.of_nat cb)) = (Qfloor q <? Z.of_nat cb)%Z) as ->.
  { apply eq_true_iff_eq. by rewrite Qltb_lt, <- Zlt_Qlt, Z.ltb_lt. }
  destruct (Qfloor q <? Z.of_nat cb)%Z; [destruct (truthy _)|]; unfold jv_of; cbn; by rewrite fmap_app.
Qed.

(** A round whose every reply is a refusal, another status or a statistics document. *)
Definition decoded_round (r : nat * list (nat * wire)) (a : nat * list (nat * http stats_body)) : Prop :=
  a.1 = r.1 /\ Forall2 (fun nw nh => nh.1 = nw.1 /\ stats_reply nw.2 = Some nh.2) r.2 a.2.

Definition validator (rounds : list (nat * list (nat * http stats_body))) : vstate :=
  foldl (fun v r => foldl (validate_reply r.1) v r.2) (mkV [] 0 0) rounds.

Lemma round_decoded cb v ws hs :
  Forall2 (fun (nw : nat * wire) (nh : nat * http stats_body) => nh.1 = nw.1 /\ stats_reply nw.2 = Some nh.2) ws hs ->
  foldl (j_validate cb) (jv_of v) ws = jv_of (foldl (validate_reply cb) v hs).
Proof.
  intros H. revert v. induction H as [|[n w] [n' h] ws hs [E Hw] _ IH]; intros v; [done|]. cbn in E. subst n'.
  cbn [foldl]. by rewrite (j_validate_decoded cb v n w h), IH.
Qed.

(** C7. On the documents coordinators send, the validator of the harness is the abstract one on
    what the documents say: refused connections and other statuses are skipped, a body that is
    not JSON counts as a check with nothing in it, and every lost write, tolerated dip and shard
    with two primaries is found from the numbers, however they are spelled. *)
Theorem validator_decodes rounds decoded :
  Forall2 decoded_round rounds decoded -> j_validator rounds = jv_of (validator decoded).
Proof.
  unfold j_validator, validator. change (mkJV [] 0 0 None) with (jv_of (mkV [] 0 0)).
  intros H. generalize (mkV [] 0 0). induction H as [|[cb ws] [cb' hs] rounds decoded [E Hr] _ IH]; intros v; [done|].
  cbn in E. subst cb'. cbn [foldl fst snd]. by rewrite (round_decoded cb v ws hs Hr), IH.
Qed.

(** A reply with two primaries for shard 1, given once as an integer and once as a boolean. *)
Definition demo_doc : json :=
  JDict [("total_element_count", JNum (14 # 2));
         ("replicas", JList [JDict [("shard_id", JNum 1); ("is_primary", JBool true)];
                             JDict [("shard_id", JNum (2 # 2)); ("is_primary", JNum 1)]])]%string.

Definition demo_rounds : list (nat * list (nat * wire)) :=
  [(9, [(0, Refused); (1, Answered 503 RawEmpty); (2, Answered 200 (RawText "busy")); (0, Answered 200 (RawJson demo_doc))])].

Lemma validator_decodes_witness :
  j_validator demo_rounds = mkJV [JLostWrite 0 7 9; JDoublePrimary 0 (KNum 1) 2] 2 0 None.
Proof.
  rewrite (validator_decodes demo_rounds
    [(9, [(0, HttpExn); (1, HttpResp 503 (mkBody None false [])); (2, HttpResp 200 (mkBody None false []));
          (0, HttpResp 200 (mkBody (Some 7%Z) false [mkRep 1 true; mkRep 1 true]))])]).
  - vm_compute. reflexivity.
  - repeat constructor.
Defined.

(** ** How the thread ends *)

(** What the code can do something with. *)
Definition comparable (j : json) : Prop := match j with JNull | JBool _ | JNum _ => True | _ => False end.
Definition hashable (j : json) : Prop := match j with JList _ | JDict _ => False | _ => True end.

Definition readable_rep (j : json) : Prop :=
  exists m sid, j = JDict m /\ dget "shard_id"%string m = Some sid /\ hashable sid.

Definition readable_replicas (j : json) : Prop :=
  match j with
  | JList items => Forall readable_rep items
  | JStr s => s = ""%string
  | JDict d => d = []
  | _ => False
  end.

Definition readable (body : json) : Prop :=
  exists m, body = JDict m /\ comparable (default JNull (dget "total_element_count"%string m)) /\
    readable_replicas (default (JList []) (dget "replicas"%string m)).

Definition returns {A} (r : result A) : Prop := match r with Ok _ => True | Raise _ => False end.

Lemma read_rep_returns j : returns (read_rep j) <-> readable_rep j.
Proof.
  unfold readable_rep, read_rep. split.
  - destruct j as [| | | |l|m]; cbn [jitem]; try done. destruct (dget "shard_id"%string m) as [sid|] eqn:E; [|done].
    intros H. exists m, sid. split_and!; [done..|]. by destruct sid.
  - intros (m & sid & -> & E & Hs). cbn [jitem]. rewrite E. by destruct sid.
Qed.

Lemma rmapM_returns {A B} (f : A -> result B) l : returns (rmapM f l) <-> Forall (fun x => returns (f x)) l.
Proof.
  induction l as [|x l IH]; [by split|]. cbn [rmapM]. rewrite Forall_cons, <- IH.
  destruct (f x); cbn; [|by split; [|intros []]]. destruct (rmapM f l); cbn; naive_solver.
Qed.

Lemma rmapM_strings (l : list string) : returns (rmapM read_rep (JStr <$> l)) <-> l = [].
Proof. by destruct l. Qed.

Lemma check_primaries_returns node m :
  returns (check_primaries node (JDict m)) <-> readable_replicas (default (JList []) (dget "replicas"%string m)).
Proof.
  unfold check_primaries, jget_or. cbn [mbind result_bind].
  assert (forall r : result (list (hkey * bool)), returns (reps ← r; Ok (j_double_primaries node reps)) <-> returns r) as Hr
    by (by intros []).
  destruct (default (JList []) (dget "replicas"%string m)) as [| | |s|l|d]; cbn [jiter mbind result_bind readable_replicas];
    try done; setoid_rewrite Hr.
  - destruct s as [|c s]; [by split|]. cbn. split; [done|discriminate].
  - rewrite rmapM_returns. apply Forall_iff. intros j. apply read_rep_returns.
  - rewrite rmapM_strings. split; [apply fmap_nil_inv|by intros ->].
Qed.

Lemma check_total_returns node cb m :
  returns (check_total node cb (JDict m)) <-> comparable (default JNull (dget "total_element_count"%string m)).
Proof.
  unfold check_total. rewrite jget_JDict. unfold jget_or. cbn [mbind result_bind].
  by destruct (default JNull (dget "total_element_count"%string m)).
Qed.

(** C8. The validator thread outlives a reply exactly when it is a refusal, another status, or an
    object whose total is a number or absent and whose replicas each carry a shard that can be a
    key. Anything else under a status of 200 ends the thread, since only the request is inside a
    [try]; from then on it checks nothing and reports nothing. *)
Theorem validator_dies_iff cb v node w (later : list (nat * list (nat * wire))) :
  jv_dead v = None ->
  (jv_dead (j_validate cb v (node, w)) = None <->
   forall body, http_request w = HttpResp 200 body -> readable body) /\
  (jv_dead (j_validate cb v (node, w)) <> None ->
   foldl (fun v r => foldl (j_validate r.1) v r.2) (j_validate cb v (node, w)) later = j_validate cb v (node, w)).
Proof.
  intros Hv. split.
  - unfold j_validate. rewrite Hv. cbn [fst snd]. destruct (http_request w) as [|st body]; [done|].
    destruct (Z.eqb_spec st 200) as [->|Hst]; [|split; [intros _ ? [= ? ?]; congruence|done]].
    transitivity (readable body); [|split; [by intros ? ? [= <-]|intros H; by apply H]].
    destruct body as [| | | | |m]; try (split; [done|by intros (? & ? & _)]).
    pose proof (check_total_returns node cb m) as Ht. pose proof (check_primaries_returns node m) as Hp.
    destruct (check_total node cb (JDict m)) as [[lost dip]|e]; cbn in Ht |- *.
    + destruct (check_primaries node (JDict m)); cbn in Hp |- *; split; try done.
      * intros _. exists m. tauto.
      * intros (m' & [= <-] & _ & H). tauto.
    + split; [done|]. intros (m' & [= <-] & H & _). tauto.
  - intros Hd. generalize dependent (j_validate cb v (node, w)). clear. intros v Hd.
    assert (forall cb v ws, jv_dead v <> None -> foldl (j_validate cb) v ws = v) as Hround.
    { intros cb v0 ws H0. induction ws as [|nw ws IH]; [done|]. cbn. unfold j_validate at 2. by destruct (jv_dead v0). }
    induction later as [|r later IH]; [done|]. cbn. by rewrite Hround.
Qed.

(** A list where an object was expected: the lost write and the two primaries of the next round
    go unreported. *)
Lemma validator_dies_iff_witness :
  j_validator [(9, [(0, Answered 200 (RawJson (JList [])))]); (9, [(1, Answered 200 (RawJson demo_doc))])]
  = mkJV [] 1 0 (Some AttributeError) /\
  ~ readable (JList []).
Proof.
  destruct (validator_dies_iff 9 (mkJV [] 0 0 None) 0 (Answered 200 (RawJson (JList [])))
    [(9, [(1, Answered 200 (RawJson demo_doc))])] eq_refl) as [Hiff Hstay].
  split.
  - transitivity (j_validate 9 (mkJV [] 0 0 None) (0, Answered 200 (RawJson (JList [])))); [|reflexivity].
    apply Hstay. vm_compute. discriminate.
  - intros Hr. assert (jv_dead (j_validate 9 (mkJV [] 0 0 None) (0, Answered 200 (RawJson (JList [])))) = None) as E.
    { apply Hiff. intros body [= <-]. exact Hr. }
    vm_compute in E. discriminate.
Defined.
