(* ===== verification/ProbeStubs.v ===== *)
(** * Generated gRPC stubs and the probes' channels

    [ensure_stubs] of [research/replica_recall/probe.py] and of
    [research/cross_system_replication/qdrant_probe.py], which generate the protobuf modules
    into a fresh directory and bind them once per process, and the channel of a
    [ReplicaProbe], which needs them. The imports, the compiler and the file system are inputs
    of each call. *)

From stdpp Require Import base list strings.
From Stdlib Require Import ZArith Lia.
From S2P Require Import Prelude Sampler.

Local Open Scope nat_scope.

(** ** Module state *)

(** The globals: [_STUB_DIR], whether the modules are bound, and [sys.path]. *)
Record stubs := mkStubs {
  sb_dir : option string;
  sb_bound : bool;
  sb_path : list string;
}.

Definition stubs0 (path : list string) : stubs := mkStubs None false path.

Definition RuntimeError : exn := OtherError "RuntimeError".

(** What one call meets: whether grpcio can be imported, the directory made, the files that
    are missing, the compiler's exit code, and what importing the generated modules does. *)
Record stub_in := mkSI {
  si_grpc : bool;
  si_tmp : string;
  si_missing : list string;
  si_protoc : Z;
  si_import : result unit;
}.

(** From the compiler on, the same in both modules. *)
Definition compile_and_bind (i : stub_in) (s : stubs) : stubs * result unit :=
  if Z.eqb (si_protoc i) 0 then
    let s' := mkStubs (sb_dir s) (sb_bound s) (si_tmp i :: sb_path s) in
    match si_import i with
    | Ok _ => (mkStubs (sb_dir s') true (sb_path s'), Ok tt)
    | Raise e => (s', Raise e)
    end
  else (s, Raise RuntimeError).

(** [probe.ensure_stubs] *)
Definition ensure_stubs (i : stub_in) (s : stubs) : stubs * result unit :=
  if sb_bound s then (s, Ok tt)
  else if si_grpc i then compile_and_bind i (mkStubs (Some (si_tmp i)) false (sb_path s))
  else (s, Raise RuntimeError).

(** [qdrant_probe.ensure_stubs]: the vendored files are looked for before the compiler runs. *)
Definition PROTO_FILES : list string :=
  ["json_with_int.proto"; "qdrant_common.proto"; "collections.proto"; "points.proto";
   "points_internal_service.proto"].

Definition q_ensure_stubs (i : stub_in) (s : stubs) : stubs * result unit :=
  if sb_bound s then (s, Ok tt)
  else if si_grpc i then
    let s1 := mkStubs (Some (si_tmp i)) false (sb_path s) in
    match si_missing i with
    | [] => compile_and_bind i s1
    | _ => (s1, Raise RuntimeError)
    end
  else (s, Raise RuntimeError).

(** The compiler's arguments. *)
Definition protoc_args (proto_dir stub_dir proto_name : string) : list string :=
  ["protoc"; ("--proto_path=" +:+ proto_dir); ("--python_out=" +:+ stub_dir);
   ("--grpc_python_out=" +:+ stub_dir); proto_name]%string.

Definition q_protoc_args (proto_dir well_known stub_dir : string) : list string :=
  ["protoc"; ("--proto_path=" +:+ proto_dir); ("--proto_path=" +:+ well_known);
   ("--python_out=" +:+ stub_dir); ("--grpc_python_out=" +:+ stub_dir)]%string
  ++ ((fun f => (proto_dir +:+ "/" +:+ f)%string) <$> PROTO_FILES).

(** ** A probe's channel *)

(** [_chan] and [_stub] are set together. *)
Record pchan := mkPC { pc_chan : option string; pc_stub : option string }.

(** [__init__] *)
Definition pchan0 : pchan := mkPC None None.

Definition NoneAttribute : exn := OtherError "AttributeError".

(** [_stub_or_connect]: the modules are [None] until they are bound. *)
Definition stub_or_connect (bound : bool) (addr : string) (c : pchan) : pchan * result string :=
  match pc_stub c with
  | Some s => (c, Ok s)
  | None => if bound then (mkPC (Some addr) (Some addr), Ok addr) else (c, Raise NoneAttribute)
  end.

(** [_reset]; closing may raise, which is swallowed. [close] is the same. *)
Definition reset (c : pchan) : pchan := mkPC None None.
Definition close (c : pchan) : pchan := reset c.

(** An RPC inside its [try]: the request is built from the bound modules, then sent. *)
Definition probe_rpc {A} (bound : bool) (addr : string) (c : pchan) (r : rpc A) : pchan * option (bool * A) :=
  match stub_or_connect bound addr c with
  | (c', Raise _) => (reset c', None)
  | (c', Ok _) =>
      if bound then
        match r with
        | RpcExn => (reset c', None)
        | RpcResp ok a => (c', Some (ok, a))
        end
      else (reset c', None)
  end.

(** * Properties *)

(** A sequence of calls, whatever each of them returns. *)
Definition run_calls (f : stub_in -> stubs -> stubs * result unit) (ins : list stub_in) (s : stubs)
    : stubs * list (result unit) :=
  foldl (fun acc i => let '(s', r) := f i acc.1 in (s', acc.2 ++ [r])) (s, []) ins.

(** The calls a module makes of its loader. *)
Class StubLoader (f : stub_in -> stubs -> stubs * result unit) := {
  loader_bound i s : sb_bound s = true -> f i s = (s, Ok tt);
  loader_ok i s s' : f i s = (s', Ok tt) -> sb_bound s' = true;
  loader_fail i s s' e : f i s = (s', Raise e) -> sb_bound s' = false;
  loader_path i s s' r : f i s = (s', r) -> sb_bound s = false ->
    sb_path s' = sb_path s \/
    (si_grpc i = true /\ si_protoc i = 0%Z /\ sb_dir s' = Some (si_tmp i) /\ sb_path s' = si_tmp i :: sb_path s);
  loader_bind i s s' : f i s = (s', Ok tt) -> sb_bound s = false ->
    si_protoc i = 0%Z /\ sb_dir s' = Some (si_tmp i) /\ sb_path s' = si_tmp i :: sb_path s;
}.

Local Ltac loader f :=
  unfold f, compile_and_bind; intros; repeat case_match; simplify_eq/=; eauto 6.

#[export] Instance ensure_stubs_loader : StubLoader ensure_stubs.
Proof. split; loader ensure_stubs; breflect; eauto 6. Qed.

#[export] Instance q_ensure_stubs_loader : StubLoader q_ensure_stubs.
Proof. split; loader q_ensure_stubs; breflect; eauto 6. Qed.

Section Calls.
Context (f : stub_in -> stubs -> stubs * result unit) {HL : StubLoader f}.

Lemma run_calls_snoc ins i s :
  run_calls f (ins ++ [i]) s =
  ((f i (run_calls f ins s).1).1, (run_calls f ins s).2 ++ [(f i (run_calls f ins s).1).2]).
Proof. unfold run_calls. rewrite foldl_app. cbn. by destruct (f i _). Qed.

Lemma run_calls_bound ins s : sb_bound s = true -> run_calls f ins s = (s, replicate (length ins) (Ok tt)).
Proof.
  intros Hb. induction ins as [|i ins IH] using rev_ind; [done|]. rewrite run_calls_snoc, IH. cbn.
  rewrite (loader_bound i s Hb), length_app, Nat.add_comm. cbn [length fst snd]. f_equal.
  symmetry. exact (replicate_S_end (length ins) (Ok tt)).
Qed.

Lemma run_calls_app ins ins' s :
  run_calls f (ins ++ ins') s =
  ((run_calls f ins' (run_calls f ins s).1).1, (run_calls f ins s).2 ++ (run_calls f ins' (run_calls f ins s).1).2).
Proof.
  induction ins' as [|i ins' IH] using rev_ind; [cbn; rewrite !app_nil_r; by destruct (run_calls f ins s)|].
  rewrite app_assoc, !run_calls_snoc, IH. cbn [fst snd]. by rewrite app_assoc.
Qed.

(** What the calls so far have put in front of [sys.path]. *)
Definition inserted (ins : list stub_in) (path : list string) (s : stubs) (ds : list string) : Prop :=
  sb_path s = ds ++ path /\
  Forall (fun d => exists i, i ∈ ins /\ si_tmp i = d /\ si_protoc i = 0%Z) ds /\
  (sb_bound s = true -> exists d, hd_error ds = Some d /\ sb_dir s = Some d).

Lemma run_calls_inserted ins path : exists ds, inserted ins path (run_calls f ins (stubs0 path)).1 ds.
Proof.
  induction ins as [|i ins [ds (Hp & Hd & Hb)]] using rev_ind; [exists []; by repeat constructor|].
  rewrite run_calls_snoc. cbn [fst]. set (s := (run_calls f ins (stubs0 path)).1) in *.
  assert (Forall (fun d => exists i', i' ∈ ins ++ [i] /\ si_tmp i' = d /\ si_protoc i' = 0%Z) ds) as Hd'.
  { eapply Forall_impl; [exact Hd|]. intros d (i' & Hi & H). exists i'. split; [|done]. apply elem_of_app. by left. }
  destruct (sb_bound s) eqn:Eb.
  { rewrite (loader_bound i s Eb). exists ds. split_and!; [done..|]. intros _. by apply Hb. }
  destruct (f i s) as [s' r] eqn:E. cbn [fst].
  assert (sb_path s' = sb_path s \/ si_protoc i = 0%Z /\ sb_path s' = si_tmp i :: sb_path s) as [Hs|[H0 Hs]]
    by (destruct (loader_path i s s' r E Eb) as [?|(_ & ? & _ & ?)]; tauto).
  - exists ds. split; [congruence|]. split; [done|]. intros Hb'. destruct r as [[]|e].
    + destruct (loader_bind i s s' E Eb) as (_ & _ & Hx). rewrite Hs in Hx. apply (f_equal length) in Hx. cbn in Hx. lia.
    + apply loader_fail in E. congruence.
  - exists (si_tmp i :: ds). split; [by rewrite Hs, Hp|]. split.
    + constructor; [|done]. exists i. split; [|done]. apply elem_of_app. right. by left.
    + intros Hb'. exists (si_tmp i). split; [done|]. destruct r as [[]|e].
      * by destruct (loader_bind i s s' E Eb) as (_ & ? & _).
      * apply loader_fail in E. congruence.
Qed.

Lemma run_calls_ok ins path :
  sb_bound (run_calls f ins (stubs0 path)).1 = true <-> Ok tt ∈ (run_calls f ins (stubs0 path)).2.
Proof.
  induction ins as [|i ins IH] using rev_ind; [split; [done|by intros ?%not_elem_of_nil]|].
  rewrite run_calls_snoc. cbn [fst snd]. set (s := (run_calls f ins (stubs0 path)).1) in *.
  rewrite elem_of_app, list_elem_of_singleton, <- IH.
  destruct (sb_bound s) eqn:Eb; [rewrite (loader_bound i s Eb); cbn; rewrite Eb; tauto|].
  destruct (f i s) as [s' [[]|e]] eqn:E; cbn [fst snd].
  - apply loader_ok in E. rewrite E. split; [by right|done].
  - apply loader_fail in E. rewrite E. split; [done|by intros []].
Qed.
End Calls.

(** The stubs of either probe module are bound at most once, and exactly when a call
    returned: a call that failed, for want of a package, a file, or a working compiler, leaves
    them unbound and may be repeated; after one that returned, every later call returns without
    changing anything. Only directories the compiler filled are put on the module path, the one
    the modules were bound from first. *)
Theorem stubs_bound_once f (ins ins' : list stub_in) path :
  StubLoader f ->
  let run l := run_calls f l (stubs0 path) in
  (sb_bound (run ins).1 = true <-> Ok tt ∈ (run ins).2) /\
  (Ok tt ∈ (run ins).2 -> run (ins ++ ins') = ((run ins).1, (run ins).2 ++ replicate (length ins') (Ok tt))) /\
  exists ds, inserted ins path (run ins).1 ds.
Proof.
  intros HL run. split; [apply (run_calls_ok f)|]. split; [|apply (run_calls_inserted f)].
  intros Hok. apply (run_calls_ok f) in Hok. unfold run. rewrite (run_calls_app f), (run_calls_bound f) by done. done.
Qed.

(** No compiler, then a broken one, then success, then one more call. *)
Definition demo_calls : list stub_in :=
  [mkSI false "/tmp/a" [] 0 (Ok tt); mkSI true "/tmp/b" [] 1 (Ok tt); mkSI true "/tmp/c" [] 0 (Ok tt)].

Lemma stubs_bound_once_witness :
  run_calls q_ensure_stubs (demo_calls ++ [mkSI true "/tmp/d" [] 0 (Ok tt)]) (stubs0 ["/usr/lib"])
  = (mkStubs (Some "/tmp/c") true ["/tmp/c"; "/usr/lib"],
     [Raise RuntimeError; Raise RuntimeError; Ok tt; Ok tt])%string.
Proof.
  destruct (stubs_bound_once q_ensure_stubs demo_calls [mkSI true "/tmp/d" [] 0 (Ok tt)] ["/usr/lib"%string] _) as (_ & H & _).
  rewrite H; [reflexivity|]. vm_compute. right. right. left.
Defined.

(** ** The channel *)

Definition abs (c : pchan) : chan := match pc_stub c with Some _ => Open | None => Closed end.

(** Bound, a probe behaves as the channel of [Sampler]; unbound, each of its calls fails as an
    unreachable replica does. *)
Lemma probe_rpc_refines {A} addr c (r : rpc A) :
  let '(c', o) := probe_rpc true addr c r in (abs c', o) = call (abs c) r.
Proof. destruct c as [ch [s|]], r as [|ok a]; reflexivity. Qed.

Lemma unbound_probe_unreachable {A} addr c (r : rpc A) : probe_rpc false addr c r = (pchan0, None).
Proof. by destruct c as [ch [s|]]. Qed.
