(* ===== verification/ForensicsTable.v ===== *)
(** * The tables of the forensics programs

    [FIELDS], [fmt] and the printing of [main] in [research/replica_recall/graph_forensics.py];
    the comparison table of [report] and the modes of [main] in [forensics_experiment.py]. The
    two standard deviations of the headline are square roots and are left out. *)

From stdpp Require Import base list gmap strings sorting.
From Stdlib Require Import QArith Qabs ZArith NArith Lia.
From S2P Require Import Prelude PyFloat Text PyText Metrics NanoRun Analyze Forensics ForensicsRun AnalyzeReport.

Local Open Scope nat_scope.

(** ** [graph_forensics.py] *)

(** A column's value, [None] where the dictionary has none, and its format. *)
Inductive fspec : Type := SInt | SFixed (nd : nat) | SPct (nd : nat).
Inductive fvalue : Type := FInt (z : Z) | FReal (q : Q).

Definition value_text (spec : fspec) (v : fvalue) : text :=
  let q := match v with FInt z => inject_Z z | FReal q => q end in
  match spec with
  | SInt => match v with FInt z => show_commas z | FReal q => format_f 0 q end
  | SFixed nd => format_f nd q
  | SPct nd => format_pct nd q
  end.

(** [fmt] *)
Definition gf_fmt (v : option fvalue) (spec : fspec) : text :=
  match v with None => lit "-" | Some x => value_text spec x end.

Definition fnat (n : nat) : fvalue := FInt (Z.of_nat n).

(** [r.get(key)] *)
Definition gf_get (key : string) (d : dissection) : option fvalue :=
  if String.eqb key "nodes_examined" then Some (fnat (ds_nodes d))
  else if String.eqb key "element_count" then Some (FInt (ds_element_count d))
  else if String.eqb key "uncounted_nodes" then Some (FInt (Z.of_nat (ds_nodes d) - ds_element_count d))
  else if String.eqb key "link_quality" then FReal ∘ lq_mean <$> ds_lq d
  else if String.eqb key "link_quality_p5" then FReal ∘ lq_p5 <$> ds_lq d
  else if String.eqb key "link_quality_zero" then fnat ∘ lq_zero <$> ds_lq d
  else
    r ← ds_report d;
    if String.eqb key "in_degree_0" then Some (fnat (o_in_degree_0 r))
    else if String.eqb key "in_degree_0_frac" then Some (FReal (o_in_degree_0_frac r))
    else if String.eqb key "unreachable_from_entry" then fnat <$> o_unreachable r
    else if String.eqb key "unreachable_from_entry_frac" then FReal <$> o_unreachable_frac r
    else if String.eqb key "out_degree_0" then Some (fnat (o_out_degree_0 r))
    else if String.eqb key "isolated_both_ways" then Some (fnat (o_isolated r))
    else if String.eqb key "deg0_mean" then Some (FReal (o_deg0_mean r))
    else if String.eqb key "deg0_min" then Some (fnat (o_deg0_min r))
    else if String.eqb key "asymmetric_frac" then Some (FReal (o_asymmetric_frac r))
    else if String.eqb key "dangling_edges" then Some (fnat (o_dangling r))
    else if String.eqb key "self_loops" then Some (fnat (o_self_loops r))
    else if String.eqb key "edges_total" then Some (fnat (o_edges_total r))
    else None.

Definition FIELDS : list (string * string * fspec) :=
  [("nodes_examined", "nodes written", SInt);
   ("element_count", "element_count (header)", SInt);
   ("uncounted_nodes", "written but uncounted", SInt);
   ("in_degree_0", "in-degree 0 (invisible)", SInt);
   ("in_degree_0_frac", "  as fraction", SPct 4);
   ("unreachable_from_entry", "unreachable from entry", SInt);
   ("unreachable_from_entry_frac", "  as fraction", SPct 4);
   ("out_degree_0", "out-degree 0", SInt);
   ("isolated_both_ways", "isolated both ways", SInt);
   ("link_quality", "link quality (vs ideal)", SFixed 4);
   ("link_quality_p5", "  p5", SFixed 4);
   ("link_quality_zero", "  nodes scoring 0", SInt);
   ("deg0_mean", "mean layer-0 degree", SFixed 2);
   ("deg0_min", "min layer-0 degree", SInt);
   ("asymmetric_frac", "asymmetric edges", SPct 4);
   ("dangling_edges", "dangling edges", SInt);
   ("self_loops", "self loops", SInt);
   ("edges_total", "edges", SInt)]%string.

(** [max(len(n) for n in names + ["metric"]) + 2] *)
Definition column_width (names : list text) : nat :=
  foldr (fun n w => Nat.max (length n) w) 6 names + 2.

Definition gf_line (w : nat) (label : text) (cells : list text) : line :=
  ljust 26 label ++ concat (rjust w <$> cells).

Definition gf_table (results : list (text * dissection)) : list line :=
  let names := results.*1 in
  let w := column_width names in
  let width := 26 + w * length names in
  [rule width "="; lit "HNSW graph forensics"; rule width "=";
   gf_line w (lit "metric") names; rule width "-"]
  ++ ((fun f : string * string * fspec => let '(key, label, spec) := f in
         gf_line w (lit label) ((fun r => gf_fmt (gf_get key r.2) spec) <$> results)) <$> FIELDS)
  ++ lits [""; "in-degree 0 is the load-bearing number: such a node is present in";
           "the file but no edge points at it, so no traversal can reach it";
           "from any start. It holds data and is invisible to search, which is";
           "damage that data-level repair would not even detect."].

(** ** [forensics_experiment.report] *)

Inductive rspec : Type := RCommas0 | RFixed (nd : nat) | RPct (nd : nat).

Definition REPORT : list (string * string * rspec) :=
  [("nodes_examined", "nodes written", RCommas0);
   ("uncounted_nodes", "written but uncounted", RCommas0);
   ("in_degree_0", "in-degree 0 (invisible)", RCommas0);
   ("unreachable_from_entry", "unreachable from entry", RCommas0);
   ("out_degree_0", "out-degree 0", RCommas0);
   ("dangling_edges", "dangling edges", RCommas0);
   ("deg0_mean", "mean layer-0 degree", RFixed 2);
   ("asymmetric_frac", "asymmetric edges", RPct 4);
   ("link_quality", "LINK QUALITY", RFixed 4);
   ("link_quality_p5", "  p5", RFixed 4)]%string.

Definition rspec_text (s : rspec) (q : Q) : text :=
  rjust 10 (match s with
            | RCommas0 => commas0 (fin q)
            | RFixed nd => format_f nd q
            | RPct nd => format_pct nd q
            end).

(** [+] in a format: the sign is always shown. *)
Definition plus_sign (q : Q) : text := if Qltb q 0 then [45%N] else [43%N].

Definition delta_text (d : option Q) : text :=
  rjust 12 (match d with
            | None => lit "-"
            | Some q => if Qltb (Qabs q) 100 then plus_sign q ++ fixed_text 4 (units 4 q)
                        else plus_sign q ++ rev (commas (rev (show_N (units 0 q))))
            end).

Definition report_line (results : list frow) (cs : list string) (m : string * string * rspec) : line :=
  let '(key, label, spec) := m in
  lit "  " ++ ljust 26 (lit label) ++
  concat ((fun c => match cond_mean key c results with
                    | Some q => rspec_text spec q
                    | None => rjust 10 (lit "-")
                    end ++ lit "  ") <$> cs) ++
  delta_text (delta key results).

(** The table; [no results] without a condition that has any. *)
Definition report_table (results : list frow) : list line :=
  match conds results with
  | [] => lits ["no results"]
  | cs =>
      banner (lit "Graph forensics -- baseline vs chaos, matched runs") ++
      [lit "  " ++ join (lit "  ") ((fun c => lit c ++ lit ": " ++ show_nat (length (remove_dups (fr_seed <$> of_cond c results)))
         ++ lit " seeds x " ++ show_nat (length (of_cond c results)) ++ lit " replicas") <$> cs);
       []; lit "  " ++ ljust 26 (lit "metric") ++ concat ((fun c => rjust 12 (lit c)) <$> cs) ++ rjust 12 (lit "delta");
       lit "  " ++ rule 62 "-"]
      ++ (report_line results cs <$> REPORT)
  end.

(** What is said of a gap that is not positive. *)
Definition gap_note (gap : Q) : list line :=
  if Qle_bool gap 0
  then lits [""; "  No degradation in link quality. If index_recall still";
             "  separates, the mechanism is something this does not";
             "  measure -- report that rather than reaching for another";
             "  metric until one moves."]
  else [].

(** ** [forensics_experiment.main] *)

Record fe_args := mkFE {
  fe_report : bool;
  fe_append : bool;
  fe_sample : nat;
  fe_seed_base : Z;
  fe_seeds : nat;
  fe_conditions : list string;
}.

(** The exit status, the results file, and what is printed from results: the table, or
    nothing. [left] is what each run of the schedule leaves behind. *)
Record fe_out := mkFO {
  fo_exit : nat;
  fo_file : option (list frow);
  fo_reported : option (list frow);
}.

Definition forensics_main {np : NumpyPart} (pick : chooser) (a : fe_args) (bin_exists : bool)
    (file : option (list frow)) (left : Z * string -> left_behind) : fe_out :=
  if fe_report a then
    match file with
    | None => mkFO 1 None None
    | Some rs => mkFO 0 (Some rs) (Some rs)
    end
  else if negb bin_exists then mkFO 1 file None
  else
    let results := if fe_append a then default [] file else [] in
    let runs := (fun sc => (sc, left sc)) <$> schedule (fe_seed_base a) (fe_seeds a) (fe_conditions a) in
    let files := run_loop pick (fe_sample a) runs results in
    match last files with
    | None => mkFO 0 file (Some results)
    | Some rs => mkFO 0 (Some rs) (Some rs)
    end.

(** * Properties *)

(** ** The table is rectangular *)

Lemma rjust_length w s : length s <= w -> length (rjust w s) = w.
Proof. intros H. unfold rjust. rewrite length_app, length_replicate. lia. Qed.

Lemma ljust_length w s : length s <= w -> length (ljust w s) = w.
Proof. intros H. unfold ljust. rewrite length_app, length_replicate. lia. Qed.

Lemma cells_width w (cells : list text) :
  Forall (fun c => length c <= w) cells -> length (concat (rjust w <$> cells)) = w * length cells.
Proof.
  induction 1 as [|c cells Hc _ IH]; cbn; [lia|]. rewrite length_app, rjust_length by done.
  cbn in IH. rewrite IH. lia.
Qed.

Lemma column_width_names names n : n ∈ names -> length n + 2 <= column_width names.
Proof.
  intros Hn. unfold column_width. induction names as [|m names IH]; [by apply not_elem_of_nil in Hn|].
  cbn. apply elem_of_cons in Hn as [->|Hn]; [lia|]. specialize (IH Hn). lia.
Qed.

(** Every line of the table proper is as wide as its rules when the cells fit the columns,
    which the names always do; a dash stands exactly where the index had no such value. *)
Lemma gf_table_rectangular results key label spec :
  (key, label, spec) ∈ FIELDS ->
  let w := column_width results.*1 in
  let cells := (fun r : text * dissection => gf_fmt (gf_get key r.2) spec) <$> results in
  Forall (fun c => length c <= w) cells ->
  length (gf_line w (lit label) cells) = 26 + w * length results.*1 /\
  length (gf_line w (lit "metric") results.*1) = 26 + w * length results.*1.
Proof.
  intros Hf w cells Hc.
  assert (Forall (fun f : string * string * fspec => length (lit f.1.2) <= 26) FIELDS) as HL
    by (apply (bool_decide_unpack _); vm_compute; exact I).
  rewrite Forall_forall in HL. specialize (HL _ Hf). cbn in HL.
  unfold gf_line. rewrite !length_app, !ljust_length by (done || apply (bool_decide_unpack _); vm_compute; exact I).
  rewrite !cells_width by (done || (apply Forall_forall; intros n Hn; pose proof (column_width_names _ _ Hn); unfold w; lia)).
  unfold cells. by rewrite !length_fmap.
Qed.

(** ** The modes of the driver *)

Lemma run_loop_last {np : NumpyPart} pick sample runs results :
  runs <> [] ->
  last (run_loop pick sample runs results)
  = Some (results ++ concat ((fun x => run_one pick x.1.1 x.1.2 sample x.2) <$> runs)).
Proof.
  intros Hne. rewrite last_lookup, run_loop_length.
  destruct (lookup_lt_is_Some_2 (run_loop pick sample runs results) (pred (length runs))) as [file Hf].
  { rewrite run_loop_length. destruct runs; [done|cbn; lia]. }
  rewrite Hf. f_equal. apply run_loop_checkpoint in Hf. rewrite Hf. rewrite take_ge by (destruct runs; cbn; lia). done.
Qed.

(** What the driver of the forensics experiment does to its results file: re-printing and a
    refused start leave it as it was; a fresh run replaces it by the rows of its own runs, in
    the order of the schedule, and an appending one adds those to the rows that were there. What
    it then reports is what the file holds. *)
Theorem forensics_main_file {np : NumpyPart} pick a bin_exists file left :
  let o := forensics_main pick a bin_exists file left in
  let plan := schedule (fe_seed_base a) (fe_seeds a) (fe_conditions a) in
  let new := concat ((fun sc : Z * string => run_one pick sc.1 sc.2 (fe_sample a) (left sc)) <$> plan) in
  (fe_report a = true \/ bin_exists = false -> fo_file o = file) /\
  (fo_exit o = 0 <-> if fe_report a then is_Some file else bin_exists = true) /\
  (fe_report a = false -> bin_exists = true -> plan <> [] ->
     fo_file o = Some ((if fe_append a then default [] file else []) ++ new)) /\
  (plan <> [] -> fo_exit o = 0 -> fo_reported o = fo_file o).
Proof.
  intros o plan new. unfold o, forensics_main. fold plan.
  assert (forall results, plan <> [] ->
    last (run_loop pick (fe_sample a) ((fun sc => (sc, left sc)) <$> plan) results) = Some (results ++ new)) as HL.
  { intros results Hne. rewrite run_loop_last by (by destruct plan). f_equal. f_equal. unfold new.
    by rewrite <- list_fmap_compose. }
  destruct (fe_report a).
  - destruct file as [rs|]; cbn; split_and!; naive_solver.
  - destruct bin_exists; cbn [negb].
    + destruct (decide (plan = [])) as [E|Hne].
      * rewrite E. cbn. split_and!; naive_solver.
      * rewrite HL by done. cbn. split_and!; naive_solver.
    + cbn. split_and!; naive_solver.
Qed.
