(* ===== verification/QdrantFiles.v ===== *)
(** * The files of a Qdrant run as text

    [samples.csv] and [telemetry.csv] as [_run_experiment_body] of
    [research/cross_system_replication/qdrant_run_experiment.py] writes them, and as
    [per_round] and [load_telemetry] of [qdrant_gated_index_recall/analyze_gated.py] read
    them. [QdrantRecord] relates the rows of both sides; here the text between them is
    written and parsed. *)

From stdpp Require Import base list gmap strings pretty sorting.
From Stdlib Require Import QArith Qabs Qround Qreduction Lqa ZArith NArith Lia.
From S2P Require Import Prelude PyFloat Text PyText Csv Metrics Sampler IndexGate QdrantRun.
From S2P Require Import GatedAnalysis QdrantRecord SampleFile.

Local Open Scope nat_scope.

(** ** Writing *)

Definition tele_cols : list text :=
  lit <$> ["t_rel"; "node"; "indexed_vectors_count"; "points_count"; "segments_count"; "status";
           "optimizer_status"]%string.

(** [None] is written as the empty string. *)
Definition tele_dict (r : tele_row) : srec :=
  let c := tr_coll r in
  mkSrec (QdrantRun.tr_t r)
    [(lit "node", show_nat (QdrantRun.tr_node r));
     (lit "indexed_vectors_count", opt_text show_Z (co_indexed c));
     (lit "points_count", opt_text show_Z (co_points c));
     (lit "segments_count", opt_text show_Z (co_segments c));
     (lit "status", opt_text lit (co_status c));
     (lit "optimizer_status", opt_text lit (co_optimizer c))].

Definition telemetry_csv (t_start : Q) (rows : list tele_row) : result text :=
  dict_write tele_cols (with_t_rel t_start <$> (tele_dict <$> rows)).

(** The samples are written as those of a nano-db run are. *)
Definition q_samples_csv (t_start : Q) (rows : list Sampler.row) : result text :=
  samples_csv t_start (dict_of_row <$> rows).

(** ** Reading *)

(** [float(r[k])]; [None]: not a finite number of this model. *)
Definition qcell_of_text (s : text) : option qcell :=
  match s with
  | [] => Some QBlank
  | _ =>
      match py_float s with
      | PNum q => Some (QNum q)
      | PValueError => Some QBad
      | PNan | PInf _ | PNonAscii => None
      end
  end.

(** [r[k]]: a column that is not there raises [KeyError]; a row that is too short gives
    [None], which no writer of this module leaves. *)
Definition q_cell (d : dict_row) (key : string) : option qcell :=
  match dget (lit key) (dr_cells d) with
  | Some (Some s) => qcell_of_text s
  | Some None => None
  | None => Some QMissing
  end.

(** [int(s)] *)
Definition py_int (s : text) : option Z :=
  let '(neg, s1) := scan_sign (strip s) in
  match scan_digits false s1 with
  | ([], _) => None
  | (ds, []) => Some (if neg then - Z.of_N (digits_value ds) else Z.of_N (digits_value ds))%Z
  | _ => None
  end.

Definition q_int (d : dict_row) (key : string) : option Z :=
  match dget (lit key) (dr_cells d) with
  | Some (Some s) => py_int s
  | _ => None
  end.

(** [r.get("reachable") in ("1", "True", "true")] *)
Definition q_reach (d : dict_row) : bool :=
  match dget (lit "reachable") (dr_cells d) with
  | Some (Some s) => bool_decide (s ∈ [lit "1"; lit "True"; lit "true"])
  | _ => false
  end.

Definition grow_of (d : dict_row) : option grow :=
  t ← q_cell d "t_rel"; ir ← q_cell d "index_recall"; co ← q_cell d "completeness";
  Some (mkGRow t (q_reach d) (q_int d "replica") ir co).

Definition trow_of (d : dict_row) : option trow :=
  t ← q_cell d "t_rel"; p ← q_cell d "points_count"; i ← q_cell d "indexed_vectors_count";
  Some (mkTRow t (q_int d "node") p i).

(** * Properties *)

(** The same cell with its number in lowest terms. *)
Definition red_cell (c : qcell) : qcell := match c with QNum q => QNum (Qred q) | _ => c end.
Definition red_grow (r : grow) : grow :=
  mkGRow (red_cell (gr_t r)) (gr_reach r) (gr_replica r) (red_cell (gr_ir r)) (red_cell (gr_compl r)).
Definition red_trow (r : trow) : trow :=
  mkTRow (red_cell (GatedAnalysis.tr_t r)) (GatedAnalysis.tr_node r) (red_cell (tr_points r)) (red_cell (tr_indexed r)).

(** Both readers of a cell agree. *)
Lemma qcell_of_cell s x : cell_of_text s = Some (num_cell x) -> qcell_of_text s = Some (red_cell (cell_of x)).
Proof.
  unfold cell_of_text, qcell_of_text. destruct s as [|c s]; [by destruct x|].
  destruct (py_float (c :: s)), x; by intros [=]; subst.
Qed.

Lemma qcell_time q : printable 3 q -> qcell_of_text (repr_round 3 q) = Some (QNum (Qred (round_nd 3 q))).
Proof.
  intros H. pose proof (py_float_repr 3 q H) as E. unfold qcell_of_text. rewrite E.
  by destruct (repr_round 3 q).
Qed.

Lemma py_int_show z : (0 <= z)%Z -> py_int (show_Z z) = Some z.
Proof.
  intros Hz. rewrite show_Z_nonneg by done. unfold py_int.
  pose proof (show_N_digits (Z.to_N z)) as Hd. pose proof (show_N_nonempty (Z.to_N z)) as Hne.
  pose proof (show_N_value (Z.to_N z)) as Hv.
  rewrite strip_id by (eapply Forall_impl; [apply digits_num, Hd|]; intros c Hc; by apply num_char_ascii).
  destruct (show_N (Z.to_N z)) as [|c s]; [done|]. inversion_clear Hd as [|? ? Hc Hs].
  assert (scan_sign (c :: s) = (false, c :: s)) as ->.
  { cbn. destruct (N.eqb_spec c 45) as [->|_]; [done|]. by destruct (N.eqb_spec c 43) as [->|_]. }
  pose proof (scan_digits_app false (c :: s) [] (Forall_cons_2 _ _ _ Hc Hs) I) as E. rewrite app_nil_r in E.
  rewrite E, Hv. f_equal. lia.
Qed.

Lemma py_int_nat n : py_int (show_nat n) = Some (Z.of_nat n).
Proof.
  rewrite <- (py_int_show (Z.of_nat n)) by lia. rewrite show_Z_nonneg by lia. unfold show_nat.
  by rewrite <- nat_N_Z, N2Z.id.
Qed.

Lemma count_qcell x : (forall z, x = Some z -> small_count z) ->
  qcell_of_text (opt_text show_Z x) = Some (red_cell (zcell_of x)).
Proof.
  destruct x as [z|]; [|done]. intros H. cbn [opt_text].
  apply (qcell_of_cell _ (Some (inject_Z z))), count_cell. by apply H.
Qed.

Lemma q_cell_full cs (r : drow) key :
  lit key ∈ cs -> q_cell (full_row cs r) key = qcell_of_text (default [] (dget (lit key) r)).
Proof. intros H. unfold q_cell. by rewrite dget_full. Qed.

Lemma q_int_full cs (r : drow) key :
  lit key ∈ cs -> q_int (full_row cs r) key = py_int (default [] (dget (lit key) r)).
Proof. intros H. unfold q_int. by rewrite dget_full. Qed.

(** ** Samples *)

Lemma row_grow t_start rows r :
  row_ok r -> row_bounds t_start r ->
  grow_of (full_row (all_cols rows) (with_t_rel t_start (dict_of_row r))) = Some (red_grow (sample_out t_start r)).
Proof.
  intros [Hi _ Hco _ _ _] [_ Ht Hc _].
  apply Forall_app in Hc as [Hc _]. apply Forall_cons in Hc as [_ Hc]. apply Forall_cons in Hc as [Hrep _].
  set (d := full_row _ _).
  assert (forall key v, lit key ∈ cols -> (lit key, v) ∈ sr_cells (dict_of_row r) ->
    dget (lit key) (dr_cells d) = Some (Some v)) as Hget.
  { intros key v Hk Hv. unfold d. rewrite dget_full by (by apply elem_of_app; left). by rewrite (row_value t_start r key v). }
  assert (dget (lit "t_rel") (dr_cells d) = Some (Some (repr_round 3 (Sampler.r_t r - t_start)))) as Htv.
  { unfold d. rewrite dget_full by (by left). unfold with_t_rel. by rewrite dget_dset, decide_True. }
  unfold grow_of, q_cell, q_int, q_reach. rewrite Htv, qcell_time by done.
  rewrite (Hget "index_recall" (opt_text (format_f 6) (r_index_recall r)) ltac:(decide_now) ltac:(in_cells)).
  rewrite (Hget "completeness" (opt_text (format_f 6) (r_completeness r)) ltac:(decide_now) ltac:(in_cells)).
  rewrite (Hget "reachable" (if Sampler.r_reachable r then lit "1" else lit "0") ltac:(decide_now) ltac:(in_cells)).
  rewrite (Hget "replica" (show_nat (r_replica r)) ltac:(decide_now) ltac:(in_cells)).
  rewrite (qcell_of_cell _ _ (metric_cell _ Hi)), (qcell_of_cell _ _ (metric_cell _ Hco)).
  rewrite py_int_nat. cbn [mbind option_bind]. unfold red_grow, sample_out. cbn. by destruct (Sampler.r_reachable r).
Qed.

(** ** Telemetry *)

Record tele_bounds (t_start : Q) (r : tele_row) : Prop := {
  tb_time : printable 3 (QdrantRun.tr_t r - t_start);
  tb_node : small_count (Z.of_nat (QdrantRun.tr_node r));
  tb_counts : Forall small_count (option_list (co_indexed (tr_coll r)) ++ option_list (co_points (tr_coll r)) ++
                                  option_list (co_segments (tr_coll r)));
  tb_texts : fits (opt_text lit (co_status (tr_coll r))) /\ fits (opt_text lit (co_optimizer (tr_coll r)));
}.

Ltac in_tele :=
  unfold tele_dict; cbn [sr_cells]; repeat first [apply list_elem_of_here | apply list_elem_of_further].

Lemma tele_keys t_start r : Forall (fun k => k ∈ tele_cols) (dkeys (with_t_rel t_start (tele_dict r))).
Proof.
  unfold with_t_rel. rewrite dkeys_dset.
  change (dkeys (sr_cells (tele_dict r))) with
    (lit <$> ["node"; "indexed_vectors_count"; "points_count"; "segments_count"; "status"; "optimizer_status"]%string).
  case_decide; apply (bool_decide_unpack _); vm_compute; exact I.
Qed.

Lemma tele_value t_start r key v :
  (lit key, v) ∈ sr_cells (tele_dict r) -> lit key <> lit "t_rel" ->
  dget (lit key) (with_t_rel t_start (tele_dict r)) = Some v.
Proof.
  intros H Hne. unfold with_t_rel. rewrite dget_dset, decide_False by done. apply dget_elem; [|done].
  change (NoDup (lit <$> ["node"; "indexed_vectors_count"; "points_count"; "segments_count"; "status"; "optimizer_status"]%string)).
  apply (bool_decide_unpack _). vm_compute. exact I.
Qed.

Lemma opt_count_fits x : Forall small_count (option_list x) -> fits (opt_text show_Z x).
Proof. destruct x as [z|]; [|done]. intros H. apply Forall_cons in H as [H _]. by apply count_fits. Qed.

Lemma tele_fits t_start r :
  tele_bounds t_start r -> Forall (fun kv => fits kv.2) (with_t_rel t_start (tele_dict r)).
Proof.
  intros [Ht Hn Hc [Hs Ho]]. apply Forall_app in Hc as [Hi Hc]. apply Forall_app in Hc as [Hp Hg].
  apply (dset_values fits); [apply fits_short, repr_round_length; [done|lia]|].
  unfold tele_dict. cbn [sr_cells].
  repeat (constructor; [cbn [snd]; first [done | by apply opt_count_fits | idtac]|]); [|constructor].
  apply count_fits in Hn. rewrite show_Z_nonneg in Hn by lia. unfold show_nat. by rewrite <- nat_N_Z, N2Z.id in Hn.
Qed.

Lemma tele_reads t_start r :
  tele_bounds t_start r ->
  trow_of (full_row tele_cols (with_t_rel t_start (tele_dict r))) = Some (red_trow (tele_out t_start r)).
Proof.
  intros [Ht _ Hc _]. apply Forall_app in Hc as [Hi Hc]. apply Forall_app in Hc as [Hp _].
  assert (forall x, Forall small_count (option_list x) -> forall z, x = Some z -> small_count z) as Hsome.
  { intros x Hx z ->. by apply Forall_cons in Hx as [? _]. }
  unfold trow_of.
  rewrite (q_cell_full _ _ "t_rel"), (q_cell_full _ _ "points_count"), (q_cell_full _ _ "indexed_vectors_count"),
    (q_int_full _ _ "node") by decide_now.
  rewrite (tele_value t_start r "points_count" (opt_text show_Z (co_points (tr_coll r))) ltac:(in_tele) ltac:(discriminate)).
  rewrite (tele_value t_start r "indexed_vectors_count" (opt_text show_Z (co_indexed (tr_coll r))) ltac:(in_tele) ltac:(discriminate)).
  rewrite (tele_value t_start r "node" (show_nat (QdrantRun.tr_node r)) ltac:(in_tele) ltac:(discriminate)).
  assert (dget (lit "t_rel") (with_t_rel t_start (tele_dict r)) = Some (repr_round 3 (QdrantRun.tr_t r - t_start))) as ->
    by (unfold with_t_rel; by rewrite dget_dset, decide_True).
  cbn [default from_option id]. rewrite qcell_time, !count_qcell by (done || by apply Hsome).
  by rewrite py_int_nat.
Qed.

(** The files of a Qdrant run say to its analysis what the run observed. Whatever the replicas
    and nodes answered, both files are written; read back as text, the samples and the telemetry
    are, row for row, the values [QdrantRecord] hands to the analysers: times to the millisecond,
    metrics and counts exact, blanks where there was no value. *)
Theorem qdrant_files_roundtrip t_start rows tele :
  Forall row_ok rows -> Forall (row_bounds t_start) rows -> Forall (tele_bounds t_start) tele ->
  (exists s ds, q_samples_csv t_start rows = Ok s /\ dict_read s = Ok ds /\
     mapM grow_of ds = Some (red_grow <$> (sample_out t_start <$> rows))) /\
  (exists s ds, telemetry_csv t_start tele = Ok s /\ dict_read s = Ok ds /\
     mapM trow_of ds = Some (red_trow <$> (tele_out t_start <$> tele))).
Proof.
  intros Hok Hb Ht. split.
  - pose proof (proj2 (Forall_and _ _) (conj Hok Hb)) as Hrow.
    destruct (samples_written t_start (dict_of_row <$> rows)) as (s & Hw & Hr).
    + apply Forall_fmap. eapply Forall_impl; [exact Hrow|]. intros r [? ?]. by apply row_srec_ok.
    + eexists s, _. split; [exact Hw|]. split; [exact Hr|].
      apply mapM_Some. rewrite <- !list_fmap_compose. apply Forall2_fmap, Forall_Forall2_diag.
      eapply Forall_impl; [exact Hrow|]. intros r [? ?]. by apply row_grow.
  - destruct (dict_roundtrip tele_cols (with_t_rel t_start <$> (tele_dict <$> tele))) as (s & Hw & Hr).
    + decide_now.
    + done.
    + rewrite <- list_fmap_compose. apply Forall_fmap, Forall_true. intros r. apply tele_keys.
    + split; [|rewrite <- list_fmap_compose; apply Forall_fmap; eapply Forall_impl; [exact Ht|]; apply tele_fits].
      eapply Forall_impl; [|apply fits_short]. decide_now.
    + eexists s, _. split; [exact Hw|]. split; [exact Hr|].
      apply mapM_Some. rewrite <- !list_fmap_compose. apply Forall2_fmap, Forall_Forall2_diag.
      eapply Forall_impl; [exact Ht|]. intros r Hr'. by apply tele_reads.
Qed.

Definition demo_tele_rows : list tele_row :=
  [mkTele (101 # 1) 0 (mkColl (Some 0%Z) (Some 60000%Z) (Some 8%Z) (Some "yellow"%string) None);
   mkTele (106 # 1) 0 (mkColl None (Some 60000%Z) None (Some "green, idle"%string) (Some "ok"%string))].

Lemma qdrant_files_roundtrip_witness :
  (exists s ds, q_samples_csv 100 demo_rows = Ok s /\ dict_read s = Ok ds /\
     mapM grow_of ds = Some (red_grow <$> (sample_out 100 <$> demo_rows))) /\
  (exists s ds, telemetry_csv 100 demo_tele_rows = Ok s /\ dict_read s = Ok ds /\
     mapM trow_of ds = Some (red_trow <$> (tele_out 100 <$> demo_tele_rows))).
Proof.
  apply (qdrant_files_roundtrip 100 demo_rows demo_tele_rows).
  - repeat constructor; try done; by vm_compute.
  - repeat constructor; try done; by vm_compute.
  - repeat constructor; try done; by vm_compute.
Defined.
