(* ===== verification/EventReaders.v ===== *)
(** * The readers of [events.json]

    [load_run] and [main] of [research/qdrant_kill_scheduler/derive_catchup_time.py], and the
    loop over the events in [analyze_run] of [research/qdrant_index_gate/analyze_gate.py], on
    the events that [qdrant_docker_harness.py] records and [qdrant_run_experiment.py] writes. *)

From stdpp Require Import base list strings pretty sorting.
From Stdlib Require Import QArith Qminmax Qabs Qround Lqa ZArith NArith Lia.
From S2P Require Import Prelude PyFloat Text PyText Json Metrics Aggregate QdrantHarness QdrantCluster QdrantRun.
From S2P Require Import KillStudies GatedAnalysis QdrantRecord QdrantFiles Dispersion.

Local Open Scope nat_scope.

(** ** An event in the file *)

(** The fields that are read: [{**e, "t_rel": round(e["t"] - t_start, 3)}]. *)
Record jevent := mkJEvent {
  je_target : string; je_t_rel : Q; je_down : option Q; je_failed : bool }.

Definition jevent_of (t_start : Q) (e : qevent) : jevent :=
  mkJEvent (qe_target e) (rel t_start (qe_t e)) (qe_down_for e) (bool_decide (is_Some (qe_failed e))).

(** ** [derive_catchup_time.py] *)

(** [re.search(r"node(\d+)", s)]: the leftmost match, as a number. *)
Fixpoint search_node (s : string) : option N :=
  let here := match strip_prefix "node" s with
              | Some rest => match span_digits rest with
                             | (EmptyString, _) => None
                             | (digits, _) => Some (int_of digits)
                             end
              | None => None
              end in
  match here with
  | Some n => Some n
  | None => match s with EmptyString => None | String _ s' => search_node s' end
  end.

(** [None.group(1)] *)
Definition kill_of (e : jevent) : result skill :=
  match search_node (je_target e) with
  | Some n => Ok (mkKill (N.to_nat n) (je_t_rel e))
  | None => Raise AttributeError
  end.

Definition catch_kills (events : list jevent) : result (list skill) :=
  ks ← rmapM kill_of events;
  Ok (sorted (fun a b => Qle_bool (sk_t_rel a) (sk_t_rel b)) ks).

(** A chaos run of the sweep: its events and its samples. *)
Record catch_run := mkCatchRun { cx_name : string; cx_events : list jevent; cx_samples : list (Q * bool * srep) }.

Record catch_line := mkCatchLine { cn_name : string; cn_kills : nat; cn_ok : list Q }.

Definition run_line_of (eps : Q) (r : catch_run) : result (catch_line * list Q) :=
  ks ← catch_kills (cx_events r);
  let cs := catchups ks (rounds_by_time (cx_samples r)) eps in
  Ok (mkCatchLine (cx_name r) (length ks) (fst <$> List.filter snd cs),
      fst <$> List.filter (fun c => negb c.2) cs).

(** [ok_s[max(0, int(round(0.9 * len(ok_s))) - 1)]] *)
Definition p90_index (n : nat) : nat := Z.to_nat (Z.max 0 (Qround_even ((9 # 10) * inject_Z (Z.of_nat n)) - 1)).

Record catch_report := mkCatchReport {
  cp_lines : list catch_line;
  cp_ok : list Q;
  cp_censored : list Q;
  cp_range : option (Q * Q * Q);       (* least, median, greatest *)
  cp_mean : option Q;
  cp_variance : option Q;              (* the square of the printed deviation *)
  cp_p90 : option Q;
  cp_censored_max : option Q;
}.

Definition when {A} (xs : list Q) (v : A) : option A := match xs with [] => None | _ => Some v end.

Definition catchup_main (eps : Q) (runs : list catch_run) : result catch_report :=
  ls ← rmapM (run_line_of eps) runs;
  let ok := concat (cn_ok <$> ls.*1) in
  let censored := concat ls.*2 in
  let ok_s := sorted Qle_bool ok in
  Ok (mkCatchReport ls.*1 ok censored
        (match ok_s with [] => None | x :: xs => Some (x, np_median ok_s, List.last xs x) end)
        (when ok_s (np_mean ok_s)) (when ok_s (pvariance ok_s)) (when ok_s (nth (p90_index (length ok_s)) ok_s 0%Q))
        (match censored with [] => None | x :: xs => Some (Qmax_list x xs) end)).

(** ** The events in [analyze_gate.analyze_run] *)

(** [s.rsplit("node", 1)[-1]]: what follows the last occurrence, else everything. *)
Fixpoint after_last (needle s : string) : option string :=
  match s with
  | EmptyString => if bool_decide (needle = EmptyString) then Some EmptyString else None
  | String _ s' =>
      match after_last needle s' with
      | Some r => Some r
      | None => strip_prefix needle s
      end
  end.

Definition gate_node (target : string) : option Z :=
  py_int (lit (default target (after_last "node" target))).

(** [float(e.get("down_for_s", 0))]: the key is always there, and may hold [None]. *)
Definition gate_event (e : jevent) : result (option gevent) :=
  match gate_node (je_target e) with
  | None => Ok None
  | Some n =>
      match je_down e with
      | Some d => Ok (Some (mkGEvent (Some n) (je_t_rel e) d))
      | None => Raise TypeError
      end
  end.

Definition gate_events (events : list jevent) : result (list gevent) :=
  match rmapM gate_event events with Ok es => Ok (omap id es) | Raise x => Raise x end.

(** * Properties *)

(** ** Targets *)

(** The names the harness kills by lead both readers back to the node. *)
Lemma target_roundtrip n :
  n < Q_REPLICAS_PER_SHARD ->
  search_node (container_name n) = Some (N.of_nat n) /\ gate_node (container_name n) = Some (Z.of_nat n).
Proof. unfold Q_REPLICAS_PER_SHARD. intros H. destruct n as [|[|[|n]]]; [by vm_compute..|lia]. Qed.

(** Events of the chaos loop: the target is one of the nodes, and the outage is missing exactly
    where the kill failed. *)
Definition loop_event (e : qevent) : Prop :=
  (exists n, n < Q_REPLICAS_PER_SHARD /\ qe_target e = container_name n) /\
  (qe_down_for e = None <-> is_Some (qe_failed e)).

Lemma build_containers_names ns name :
  name ∈ dkeys (build_containers container_name ns) -> exists n, n ∈ ns /\ name = container_name n.
Proof.
  unfold build_containers. induction ns as [|n ns IH] using rev_ind; [by intros ?%not_elem_of_nil|].
  rewrite foldl_app. cbn [foldl]. intros H.
  assert (name = container_name n \/ name ∈ dkeys (build_containers container_name ns)) as [->|(m & ? & ->)%IH].
  { rewrite dkeys_dset in H. case_decide; [by right|]. apply elem_of_app in H as [H|H%list_elem_of_singleton]; auto. }
  - exists n. split; [|done]. apply elem_of_app. right. by left.
  - exists m. split; [|done]. apply elem_of_app. by left.
Qed.

Lemma chaos_loop_events ins events events' :
  Forall loop_event events ->
  qchaos_loop (build_containers container_name (seq 0 Q_REPLICAS_PER_SHARD)) ins events = Ok events' ->
  Forall loop_event events'.
Proof.
  revert events. induction ins as [|i ins IH]; intros events He; cbn [qchaos_loop]; [by intros [= <-]|].
  destruct (qi_stop_head i); [by intros [= <-]|]. destruct (qi_stop_slept i); [by intros [= <-]|].
  destruct (dget (qi_target i) _) as [c|] eqn:Ed; [|done].
  assert (exists n, n < Q_REPLICAS_PER_SHARD /\ qi_target i = container_name n) as Ht.
  { apply dget_Some_elem in Ed. destruct (build_containers_names (seq 0 Q_REPLICAS_PER_SHARD) (qi_target i)) as (n & Hn & ->).
    - apply list_elem_of_fmap. by exists (qi_target i, c).
    - apply elem_of_seq in Hn. exists n. split; [lia|done]. }
  assert (forall t, loop_event (mkQE (qi_t0 i) (qi_target i) None None (c_restart_count c) (Some t))) as Hf.
  { intros t. split; [done|]. cbn. split; [by eexists|done]. }
  destruct (qi_kill i) as [t|[]]; [apply IH, Forall_app; by auto|].
  destruct (qi_start i) as [t|alive]; [apply IH, Forall_app; by auto|].
  destruct (qi_stop_down i); [by intros [= <-]|]. apply IH, Forall_app. split; [done|]. constructor; [|done].
  split; [done|]. cbn. split; [done|]. by intros [? [=]].
Qed.

Lemma catch_kills_total t_start events :
  Forall loop_event events ->
  exists ks, catch_kills (jevent_of t_start <$> events) = Ok ks /\ length ks = length events.
Proof.
  intros H. destruct (rmapM_total kill_of (jevent_of t_start <$> events)) as [ks Hks].
  { intros e (q & -> & Hq)%list_elem_of_fmap. rewrite Forall_forall in H. destruct (H q Hq) as [(n & Hn & Ht) _].
    unfold kill_of, jevent_of. cbn. rewrite Ht. destruct (target_roundtrip n Hn) as [-> _]. eauto. }
  unfold catch_kills. rewrite Hks. cbn [mbind result_bind]. eexists. split; [done|]. rewrite sorted_length.
  apply rmapM_Ok, Forall2_length in Hks. by rewrite <- Hks, length_fmap.
Qed.

Lemma gate_event_loop t_start e :
  loop_event e ->
  match qe_failed e with
  | Some _ => gate_event (jevent_of t_start e) = Raise TypeError
  | None => exists g, gate_event (jevent_of t_start e) = Ok (Some g)
  end.
Proof.
  intros [(n & Hn & Ht) Hd]. unfold gate_event, jevent_of. cbn. rewrite Ht. destruct (target_roundtrip n Hn) as [_ ->].
  destruct (qe_failed e).
  - destruct Hd as [_ Hd]. by rewrite Hd by eauto.
  - destruct (qe_down_for e); [eauto|]. destruct Hd as [Hd _]. by destruct (Hd eq_refl).
Qed.

(** C36. A kill that failed, in the files of a run. Whatever Docker did, the events of the random
    chaos loop can be read by [derive_catchup_time.py], which counts every attempt as a kill,
    the failed ones too; [analyze_gate.py] reads all events exactly when none failed, and
    otherwise raises [TypeError] on the missing outage of the failed one. *)
Theorem failed_kill_readers t_start ins events :
  qchaos_loop (build_containers container_name (seq 0 Q_REPLICAS_PER_SHARD)) ins [] = Ok events ->
  let m := kill_meta_of false events in
  let es := jevent_of t_start <$> events in
  (exists ks, catch_kills es = Ok ks /\ length ks = km_count m + km_failures m) /\
  match gate_events es with
  | Ok gs => km_failures m = 0 /\ length gs = km_count m
  | Raise x => x = TypeError /\ 0 < km_failures m
  end.
Proof.
  intros H m es. apply chaos_loop_events in H; [|constructor].
  destruct (kill_meta_counts false events) as [Hm _]. fold m in Hm. split; [rewrite Hm; by apply catch_kills_total|].
  unfold gate_events, es, m. clear Hm m es. induction H as [|e events He _ IH]; [done|].
  rewrite fmap_cons. cbn [rmapM]. pose proof (gate_event_loop t_start e He) as Hg.
  unfold kill_meta_of in *. cbn [List.filter km_failures km_count] in *. destruct (qe_failed e).
  - rewrite Hg. cbn [mbind result_bind length]. split; [done|lia].
  - destruct Hg as [g ->]. cbn [negb mbind result_bind length].
    destruct (rmapM gate_event _) as [gs|x]; cbn [mbind result_bind]; [|done]. csimpl. destruct IH as [-> ->]. done.
Qed.

(** One kill that Docker refused and one that it carried out. *)
Definition demo_chaos_ins : list qchaos_in :=
  [mkQI false false (container_name 1) 105 (DRaise true) 3 false (DOk true);
   mkQI false false (container_name 2) 112 (DOk tt) 3 false (DOk true)].

Lemma failed_kill_readers_witness :
  exists events, qchaos_loop (build_containers container_name (seq 0 Q_REPLICAS_PER_SHARD)) demo_chaos_ins [] = Ok events /\
    (exists ks, catch_kills (jevent_of 100 <$> events) = Ok ks /\ length ks = 2) /\
    gate_events (jevent_of 100 <$> events) = Raise TypeError.
Proof.
  destruct (qchaos_loop (build_containers container_name (seq 0 Q_REPLICAS_PER_SHARD)) demo_chaos_ins []) as [events|] eqn:E;
    [|by vm_compute in E].
  destruct (failed_kill_readers 100 demo_chaos_ins events E) as [(ks & Hk & Hl) Hg]. exists events. split; [done|].
  assert (km_count (kill_meta_of false events) = 1 /\ km_failures (kill_meta_of false events) = 1) as [H1 H2].
  { vm_compute in E. injection E as <-. by vm_compute. }
  rewrite H1, H2 in *. split; [by exists ks|]. destruct (gate_events _) as [gs|x]; [by destruct Hg|]. by destruct Hg as [-> _].
Defined.

(** ** The report *)

(** The 90th percentile is one of the catch-up times, whatever their number. *)
Lemma p90_index_lt n : 0 < n -> p90_index n < n.
Proof.
  intros Hn. unfold p90_index. set (q := ((9 # 10) * inject_Z (Z.of_nat n))%Q).
  pose proof (Qround_even_spec q) as [H _]. set (z := Qround_even q) in *.
  assert (z <= Z.of_nat n)%Z as Hz; [|lia]. assert (inject_Z z < inject_Z (Z.of_nat n + 1))%Q as Hlt.
  { rewrite inject_Z_plus. change (inject_Z 1) with 1%Q. assert (0 < inject_Z (Z.of_nat n))%Q by (rewrite <- (Zlt_Qlt 0); lia).
    unfold q in H. lra. }
  rewrite <- Zlt_Qlt in Hlt. lia.
Qed.

Lemma run_line_counts eps r l c :
  run_line_of eps r = Ok (l, c) -> cn_kills l = length (cx_events r) /\ length (cn_ok l) + length c = cn_kills l.
Proof.
  unfold run_line_of, catch_kills. destruct (rmapM kill_of (cx_events r)) as [ks|x] eqn:E; [|done]. cbn [mbind result_bind].
  intros [= <- <-]. cbn [cn_kills cn_ok]. apply rmapM_Ok, Forall2_length in E. rewrite sorted_length, !length_fmap.
  split; [done|]. set (ss := sorted _ ks). transitivity (length ss); [|unfold ss; by rewrite sorted_length].
  set (rounds := rounds_by_time _). clearbody ss rounds. clear.
  induction ss as [|k ss IH]; [done|]. cbn [catchups List.filter].
  destruct (catchup_for_kill _ _ _ _) as [d []]; cbn [snd negb length]; lia.
Qed.

(** Every event of every run is measured or censored, and counted once. *)
Lemma catchup_main_counts eps runs rep :
  catchup_main eps runs = Ok rep ->
  length (cp_ok rep) + length (cp_censored rep) = sum_list (length ∘ cx_events <$> runs) /\
  (forall q, cp_p90 rep = Some q -> q ∈ cp_ok rep).
Proof.
  unfold catchup_main. destruct (rmapM (run_line_of eps) runs) as [ls|x] eqn:E; [|done]. cbn [mbind result_bind].
  intros [= <-]. cbn [cp_ok cp_censored cp_p90]. split.
  - apply rmapM_Ok in E. induction E as [|r [l c] runs ls H _ IH]; [done|]. csimpl. rewrite !length_app.
    apply run_line_counts in H as [H1 H2]. cbn in *. unfold id in *. lia.
  - intros q. unfold when. destruct (sorted Qle_bool _) as [|x xs] eqn:Es; [done|]. intros [= <-].
    rewrite <- (sorted_perm Qle_bool (concat _)), Es. apply list_elem_of_In.
    exact (nth_In (x :: xs) 0%Q (p90_index_lt (length (x :: xs)) ltac:(cbn; lia))).
Qed.
