(* ===== verification/ThreadRng.v ===== *)
(** * One generator per writer thread

    [_rng] and the drawing part of [_make] in [research/replica_recall/run_experiment.py] and
    of [_make_batch] in [research/cross_system_replication/qdrant_run_experiment.py]: a thread
    takes its numbers, takes a stream index under the lock the first time it draws, keeps its
    generator in thread-local storage and draws one vector per number. [_make] is a batch of
    one. A vector is named by its stream and its place in it; what NumPy draws there is a
    function of the seed, the stream and the place. *)

From stdpp Require Import base list gmap.
From Stdlib Require Import Lia.
From S2P Require Import Prelude.

Local Open Scope nat_scope.

(** Where a thread is: before taking numbers, with the first of its numbers, with a stream
    index and no generator yet, and drawing the [i]-th vector of its batch. *)
Inductive gen_pc : Type :=
| RIdle
| RNum (start : nat)
| RIndex (start idx : nat)
| RDraw (start i : nat).

(** [_tls.rng]: the stream and how far it has been drawn. *)
Record rthread := mkRThread { rt_rng : option (nat * nat); rt_pc : gen_pc }.

Record rstate := mkRState {
  rs_next : nat;                       (* [_next] *)
  rs_counter : nat;                    (* [_thread_counter] *)
  rs_threads : list rthread;
  rs_made : list (nat * (nat * nat));  (* number, stream, place *)
}.

Definition rinit (writers : nat) : rstate := mkRState 0 0 (replicate writers (mkRThread None RIdle)) [].

(** One step of thread [j]; [batch] vectors are asked for at a time. *)
Definition rstep (batch : nat) (st : rstate) (j : nat) : rstate :=
  match rs_threads st !! j with
  | None => st
  | Some t =>
      let put t' := <[j := t']> (rs_threads st) in
      match rt_pc t with
      | RIdle =>
          mkRState (rs_next st + batch) (rs_counter st) (put (mkRThread (rt_rng t) (RNum (rs_next st)))) (rs_made st)
      | RNum s =>
          match rt_rng t with
          | Some _ => mkRState (rs_next st) (rs_counter st) (put (mkRThread (rt_rng t) (RDraw s 0))) (rs_made st)
          | None =>
              mkRState (rs_next st) (S (rs_counter st)) (put (mkRThread None (RIndex s (rs_counter st)))) (rs_made st)
          end
      | RIndex s idx =>
          mkRState (rs_next st) (rs_counter st) (put (mkRThread (Some (idx, 0)) (RDraw s 0))) (rs_made st)
      | RDraw s i =>
          match rt_rng t with
          | None => st
          | Some (idx, k) =>
              if i <? batch
              then mkRState (rs_next st) (rs_counter st) (put (mkRThread (Some (idx, S k)) (RDraw s (S i))))
                     (rs_made st ++ [(s + i, (idx, k))])
              else mkRState (rs_next st) (rs_counter st) (put (mkRThread (Some (idx, k)) RIdle)) (rs_made st)
          end
      end
  end.

Definition rrun (batch writers : nat) (sched : list nat) : rstate := foldl (rstep batch) (rinit writers) sched.

(** The corpus of a schedule: the vector of each number, from what NumPy draws. *)
Definition corpus_of {V} (draw : nat -> nat -> V) (st : rstate) : list (nat * V) :=
  (fun m => (m.1, draw m.2.1 m.2.2)) <$> rs_made st.

(** * Properties *)

(** The stream a thread has taken, stored or not. *)
Definition held (t : rthread) : option nat :=
  match rt_rng t, rt_pc t with
  | Some (idx, _), _ => Some idx
  | None, RIndex _ idx => Some idx
  | None, _ => None
  end.

(** The numbers a thread has still to draw for. *)
Definition pending (batch : nat) (t : rthread) (x : nat) : Prop :=
  match rt_pc t with
  | RIdle => False
  | RNum s | RIndex s _ => s <= x < s + batch
  | RDraw s i => s + i <= x < s + batch
  end.

(** The places drawn from a stream, in order. *)
Definition places (idx : nat) (made : list (nat * (nat * nat))) : list nat :=
  omap (fun m => if decide (m.2.1 = idx) then Some m.2.2 else None) made.

(** How far a stream has been drawn. *)
Definition drawn (threads : list rthread) (idx n : nat) : Prop :=
  (exists j t, threads !! j = Some t /\ rt_rng t = Some (idx, n)) \/
  ((forall j t k, threads !! j = Some t -> rt_rng t <> Some (idx, k)) /\ n = 0).

Record rinv (batch : nat) (st : rstate) : Prop := mkRInv {
  ri_below : forall j t idx, rs_threads st !! j = Some t -> held t = Some idx -> idx < rs_counter st;
  ri_inj : forall j j' t t' idx, rs_threads st !! j = Some t -> rs_threads st !! j' = Some t' ->
    held t = Some idx -> held t' = Some idx -> j = j';
  ri_stored : forall j t s i, rs_threads st !! j = Some t -> rt_pc t = RDraw s i -> is_Some (rt_rng t);
  ri_unstored : forall j t s i, rs_threads st !! j = Some t -> rt_pc t = RIndex s i -> rt_rng t = None;
  ri_places : forall idx n, drawn (rs_threads st) idx n -> places idx (rs_made st) = seq 0 n;
  ri_pending : forall j t x, rs_threads st !! j = Some t -> pending batch t x -> x < rs_next st;
  ri_apart : forall j j' t t' x, rs_threads st !! j = Some t -> rs_threads st !! j' = Some t' ->
    pending batch t x -> pending batch t' x -> j = j';
  ri_made : forall x, x ∈ (rs_made st).*1 -> x < rs_next st;
  ri_fresh : forall j t x, rs_threads st !! j = Some t -> pending batch t x -> x ∉ (rs_made st).*1;
  ri_once : NoDup (rs_made st).*1;
}.

Lemma put_lookup {A} (l : list A) i j x y :
  <[i := x]> l !! j = Some y -> (j = i /\ y = x) \/ (j <> i /\ l !! j = Some y).
Proof. intros H%list_lookup_insert_Some. naive_solver. Qed.

Lemma rinit_inv batch writers : rinv batch (rinit writers).
Proof.
  assert (forall j t, replicate writers (mkRThread None RIdle) !! j = Some t -> t = mkRThread None RIdle) as H.
  { intros j t Ht. by apply lookup_replicate in Ht as [-> _]. }
  split; cbn [rs_threads rs_next rs_counter rs_made rinit]; intros; repeat match goal with Hl : replicate _ _ !! _ = Some _ |- _ => apply H in Hl; subst end;
    cbn in *; try done; try lia.
  - destruct H0 as [(j & t & Ht & Hr)|[_ ->]]; [|done]. apply H in Ht. by subst.
  - by apply not_elem_of_nil in H0.
  - constructor.
Qed.

(** A step that draws nothing: the thread keeps its stream or takes the next one, keeps what
    it has to draw or takes fresh numbers, and stores its generator at most once. *)
Lemma put_inv batch st j t t' next counter :
  rinv batch st -> rs_threads st !! j = Some t ->
  rs_next st <= next -> rs_counter st <= counter ->
  (held t' = held t \/ held t = None /\ held t' = Some (rs_counter st) /\ rs_counter st < counter) ->
  (forall x, pending batch t' x -> pending batch t x \/ rs_next st <= x < next) ->
  (rt_rng t' = rt_rng t \/ exists idx, rt_rng t = None /\ held t = Some idx /\ rt_rng t' = Some (idx, 0)) ->
  (forall s i, rt_pc t' = RDraw s i -> is_Some (rt_rng t')) ->
  (forall s i, rt_pc t' = RIndex s i -> rt_rng t' = None) ->
  rinv batch (mkRState next counter (<[j := t']> (rs_threads st)) (rs_made st)).
Proof.
  intros [Hb Hi Hs Hu Hp Hq Ha Hm Hf Ho] Hj Hn Hc Hh Hpe Hr H1 H2.
  split; cbn [rs_threads rs_next rs_counter rs_made]; try done.
  - intros j1 t1 idx [[-> ->]|[? E]]%put_lookup Ht.
    + destruct Hh as [Hh|(_ & Hh & ?)]; rewrite Hh in Ht; [|by simplify_eq]. specialize (Hb j t idx Hj Ht). lia.
    + specialize (Hb _ _ _ E Ht). lia.
  - intros j1 j2 t1 t2 idx [[-> ->]|[? E1]]%put_lookup [[-> ->]|[? E2]]%put_lookup Ht1 Ht2; [done|..|by eapply Hi].
    + destruct Hh as [Hh|(_ & Hh & ?)]; rewrite Hh in Ht1; [by eapply Hi|]. simplify_eq. specialize (Hb _ _ _ E2 Ht2). lia.
    + destruct Hh as [Hh|(_ & Hh & ?)]; rewrite Hh in Ht2; [by eapply Hi|]. simplify_eq. specialize (Hb _ _ _ E1 Ht1). lia.
  - intros j1 t1 s i [[-> ->]|[? E]]%put_lookup; eauto.
  - intros j1 t1 s i [[-> ->]|[? E]]%put_lookup; eauto.
  - intros idx n Hd. apply Hp. destruct Hd as [(j1 & t1 & [[-> ->]|[? E]]%put_lookup & Ht)|[Hnone ->]].
    + destruct Hr as [Hr|(idx' & Ht0 & Hheld & Hr)]; rewrite Hr in Ht; [left; eauto|]. simplify_eq. right. split; [|done].
      intros j2 t2 k E2 Hk. assert (held t2 = Some idx) as Hh2 by (unfold held; by rewrite Hk).
      assert (j = j2) as <- by (by eapply Hi). by simplify_eq.
    + left. eauto.
    + right. split; [|done]. intros j1 t1 k E Hk. destruct (decide (j1 = j)) as [->|Hne].
      * simplify_eq. apply (Hnone j t' k); [by apply list_lookup_insert_eq; eapply lookup_lt_Some|].
        destruct Hr as [->|(? & ? & _)]; [done|by simplify_eq].
      * apply (Hnone j1 t1 k); [by rewrite list_lookup_insert_ne|done].
  - intros j1 t1 x [[-> ->]|[? E]]%put_lookup Hx; [destruct (Hpe x Hx) as [Hx'|?]; [|lia]|]; (eapply Nat.lt_le_trans; [by eapply Hq|done]).
  - intros j1 j2 t1 t2 x [[-> ->]|[? E1]]%put_lookup [[-> ->]|[? E2]]%put_lookup Hx1 Hx2; [done|..|by eapply Ha].
    + destruct (Hpe x Hx1) as [?|?]; [by eapply Ha|]. specialize (Hq _ _ _ E2 Hx2). lia.
    + destruct (Hpe x Hx2) as [?|?]; [by eapply Ha|]. specialize (Hq _ _ _ E1 Hx1). lia.
  - intros x Hx. specialize (Hm x Hx). lia.
  - intros j1 t1 x [[-> ->]|[? E]]%put_lookup Hx; [|by eapply Hf].
    destruct (Hpe x Hx) as [?|?]; [by eapply Hf|]. intros Hin%Hm. lia.
Qed.

Lemma places_snoc idx made m :
  places idx (made ++ [m]) = places idx made ++ (if decide (m.2.1 = idx) then [m.2.2] else []).
Proof. unfold places. rewrite omap_app. csimpl. by destruct (decide (m.2.1 = idx)). Qed.

(** Drawing the next vector of a batch. *)
Lemma draw_inv batch st j s i idx k :
  rinv batch st -> rs_threads st !! j = Some (mkRThread (Some (idx, k)) (RDraw s i)) -> i < batch ->
  rinv batch (mkRState (rs_next st) (rs_counter st) (<[j := mkRThread (Some (idx, S k)) (RDraw s (S i))]> (rs_threads st))
                (rs_made st ++ [(s + i, (idx, k))])).
Proof.
  intros [Hb Hi Hs Hu Hp Hq Ha Hm Hf Ho] Hj Hlt. set (t := mkRThread (Some (idx, k)) (RDraw s i)) in *.
  assert (pending batch t (s + i)) as Hpi by (cbn; lia).
  split; cbn [rs_threads rs_next rs_counter rs_made].
  - intros j1 t1 idx1 [[-> ->]|[? E]]%put_lookup Ht; [|by eapply Hb]. by apply (Hb j t).
  - intros j1 j2 t1 t2 idx1 [[-> ->]|[? E1]]%put_lookup [[-> ->]|[? E2]]%put_lookup Ht1 Ht2; [done|..|by eapply Hi].
    + by apply (Hi j j2 t t2 idx1).
    + by apply (Hi j1 j t1 t idx1).
  - intros j1 t1 s1 i1 [[-> ->]|[? E]]%put_lookup; [by eexists|by eapply Hs].
  - intros j1 t1 s1 i1 [[-> ->]|[? E]]%put_lookup; [done|by eapply Hu].
  - intros idx1 n Hd. rewrite places_snoc. cbn [fst snd]. case_decide as Hc.
    + subst idx1. rewrite (Hp idx k) by (left; eauto). enough (n = S k) as -> by (by rewrite seq_S).
      destruct Hd as [(j1 & t1 & [[-> ->]|[? E]]%put_lookup & Ht)|[Hnone _]].
      * by injection Ht as <-.
      * assert (held t1 = Some idx) as Hh by (unfold held; by rewrite Ht). by destruct (Hi j1 j t1 t idx).
      * exfalso. apply (Hnone j _ (S k) ltac:(by apply list_lookup_insert_eq; eapply lookup_lt_Some)). done.
    + rewrite app_nil_r. apply Hp. destruct Hd as [(j1 & t1 & [[-> ->]|[? E]]%put_lookup & Ht)|[Hnone ->]].
      * by injection Ht as ? _.
      * left. eauto.
      * right. split; [|done]. intros j1 t1 k1 E Hk. destruct (decide (j1 = j)) as [->|Hne]; [rewrite Hj in E; injection E as <-; by injection Hk as ? _|].
        apply (Hnone j1 t1 k1); [by rewrite list_lookup_insert_ne|done].
  - intros j1 t1 x [[-> ->]|[? E]]%put_lookup Hx; [|by eapply Hq]. apply (Hq j t); [done|]. cbn in Hx |- *. lia.
  - intros j1 j2 t1 t2 x [[-> ->]|[? E1]]%put_lookup [[-> ->]|[? E2]]%put_lookup Hx1 Hx2; [done|..|by eapply Ha].
    + apply (Ha j j2 t t2 x); try done. cbn in Hx1 |- *. lia.
    + apply (Ha j1 j t1 t x); try done. cbn in Hx2 |- *. lia.
  - intros x. rewrite fmap_app, elem_of_app. intros [Hx|Hx%list_elem_of_singleton]; [by apply Hm|].
    cbn in Hx. subst x. by eapply Hq.
  - intros j1 t1 x Hl Hx. rewrite fmap_app, not_elem_of_app.
    apply put_lookup in Hl as [[-> ->]|[? E]].
    + split; [apply (Hf j t); [done|]; cbn in Hx |- *; lia|]. intros He%list_elem_of_singleton. cbn in Hx, He. lia.
    + split; [by eapply Hf|]. intros ->%list_elem_of_singleton. by destruct (Ha j1 j t1 t (s + i)).
  - rewrite fmap_app. apply NoDup_app. split_and!; [done| |apply NoDup_singleton].
    intros x Hx ->%list_elem_of_singleton. by apply (Hf j t (s + i)).
Qed.

Lemma rstep_inv batch st j : rinv batch st -> rinv batch (rstep batch st j).
Proof.
  intros H. unfold rstep. destruct (rs_threads st !! j) as [[rng pc]|] eqn:Hj; [|done]. cbn [rt_pc rt_rng].
  pose proof (fun t' next counter => put_inv batch st j _ t' next counter H Hj) as put.
  destruct pc as [|s|s idx|s i].
  - apply put; cbn; try (done || lia || by left).
  - destruct rng as [[idx k]|].
    + apply put; cbn; try (done || lia || by left).
    + apply put; cbn; try (done || lia || by left). right. auto with lia.
  - pose proof (ri_unstored _ _ H j _ s idx Hj eq_refl) as Hr. cbn in Hr. subst rng.
    apply put; cbn; try (done || lia || by left). right. by exists idx.
  - destruct rng as [[idx k]|]; [|done]. destruct (Nat.ltb_spec i batch); [by apply draw_inv|].
    apply put; cbn; try (done || lia || by left).
Qed.

Lemma rrun_inv batch writers sched : rinv batch (rrun batch writers sched).
Proof.
  unfold rrun. generalize (rinit_inv batch writers). generalize (rinit writers).
  induction sched as [|j sched IH]; intros st H; [done|]. cbn [foldl]. by apply IH, rstep_inv.
Qed.

(** As many streams as threads have taken one. *)
Definition counted (writers : nat) (st : rstate) : Prop :=
  length (rs_threads st) = writers /\ rs_counter st = length (omap held (rs_threads st)).

Lemma put_counted writers st j t t' next counter made :
  counted writers st -> rs_threads st !! j = Some t ->
  (counter = rs_counter st /\ (held t' = held t) \/
   counter = S (rs_counter st) /\ held t = None /\ is_Some (held t')) ->
  counted writers (mkRState next counter (<[j := t']> (rs_threads st)) made).
Proof.
  intros [Hl Hc] Hj H. split; cbn [rs_threads rs_counter]; [by rewrite length_insert|].
  pose proof (lookup_lt_Some _ _ _ Hj) as Hlt. rewrite (insert_take_drop _ _ _ Hlt).
  rewrite <- (take_drop_middle _ _ _ Hj) in Hc. rewrite omap_app, length_app in *. csimpl in *.
  destruct H as [[-> ->]|(-> & Hn & [x Hx])]; [done|]. rewrite Hn in Hc. rewrite Hx. cbn. lia.
Qed.

Lemma rstep_counted batch writers st j : rinv batch st -> counted writers st -> counted writers (rstep batch st j).
Proof.
  intros Hi H. unfold rstep. destruct (rs_threads st !! j) as [[rng pc]|] eqn:Hj; [|done]. cbn [rt_pc rt_rng].
  destruct pc as [|s|s idx|s i]; [| | |destruct rng as [[idx k]|]; [destruct (i <? batch)|done]].
  - apply (put_counted _ _ _ _ _ _ _ _ H Hj). left. by destruct rng as [[]|].
  - destruct rng as [[idx k]|]; apply (put_counted _ _ _ _ _ _ _ _ H Hj); [by left|right]. split_and!; [done..|by eexists].
  - pose proof (ri_unstored _ _ Hi j _ s idx Hj eq_refl) as Hr. cbn in Hr. subst rng.
    apply (put_counted _ _ _ _ _ _ _ _ H Hj). by left.
  - apply (put_counted _ _ _ _ _ _ _ _ H Hj). by left.
  - apply (put_counted _ _ _ _ _ _ _ _ H Hj). by left.
Qed.

Lemma rrun_counted batch writers sched : counted writers (rrun batch writers sched).
Proof.
  unfold rrun. assert (counted writers (rinit writers)) as H0.
  { split; [apply length_replicate|]. cbn. induction writers as [|n IH]; [done|]. exact IH. }
  revert H0. generalize (rinit_inv batch writers). generalize (rinit writers).
  induction sched as [|j sched IH]; intros st Hi H; [done|]. cbn [foldl]. apply IH; [by apply rstep_inv|by apply rstep_counted].
Qed.

Lemma drawn_exists threads idx : exists n, drawn threads idx n.
Proof.
  destruct (decide (Exists (fun t => fst <$> rt_rng t = Some idx) threads)) as [H|H].
  - apply Exists_exists in H as (t & [j Hj]%list_elem_of_lookup & Ht). destruct (rt_rng t) as [[idx' n]|] eqn:E; [|done].
    injection Ht as ->. exists n. left. eauto.
  - exists 0. right. split; [|done]. intros j t k Hj Hk. apply H, Exists_exists. exists t.
    split; [by eapply list_elem_of_lookup_2|]. by rewrite Hk.
Qed.

Lemma places_NoDup made : (forall idx, NoDup (places idx made)) -> NoDup made.*2.
Proof.
  induction made as [|[x [idx k]] made IH]; intros H; csimpl; [constructor|]. constructor.
  - intros ([y [idx' k']] & [= <- <-] & Hin)%list_elem_of_fmap. specialize (H idx). unfold places in H. csimpl in H.
    rewrite decide_True in H by done. apply NoDup_cons in H as [H _]. apply H. apply list_elem_of_omap.
    exists (y, (idx, k)). cbn. by rewrite decide_True.
  - apply IH. intros idx'. specialize (H idx'). unfold places in *. csimpl in H. destruct (decide _); [|done].
    by apply NoDup_cons in H as [_ H].
Qed.

(** C18. The writer threads never share a vector. Whatever their interleaving and the size of
    their batches, no number is used twice and no vector is drawn for two numbers; every stream
    is drawn in order and without a gap; and there are no more streams than threads, with
    distinct indices, so the generators, which NumPy does not protect, are each used by one
    thread. *)
Theorem draws_once batch writers sched :
  let st := rrun batch writers sched in
  NoDup (rs_made st).*1 /\ NoDup (rs_made st).*2 /\
  (forall idx, exists n, places idx (rs_made st) = seq 0 n) /\
  rs_counter st <= writers /\
  (forall j j' t t' idx, rs_threads st !! j = Some t -> rs_threads st !! j' = Some t' ->
     held t = Some idx -> held t' = Some idx -> j = j').
Proof.
  intros st. pose proof (rrun_inv batch writers sched) as H. fold st in H.
  assert (forall idx, exists n, places idx (rs_made st) = seq 0 n) as Hp.
  { intros idx. destruct (drawn_exists (rs_threads st) idx) as [n Hn]. exists n. by apply (ri_places _ _ H). }
  split_and!; [by apply (ri_once _ _ H)| |done| |by apply (ri_inj _ _ H)].
  - apply places_NoDup. intros idx. destruct (Hp idx) as [n ->]. apply NoDup_seq.
  - destruct (rrun_counted batch writers sched) as [Hl Hc]. fold st in Hl, Hc. rewrite Hc, <- Hl. apply length_omap_le.
Qed.

(** The corpus is not a function of the seed and the number of writers: the scheduler decides
    which thread takes which stream and which number. Two writers, two vectors, the same seed:
    the vectors of numbers 0 and 1 change places, or come from one stream. *)
Example corpus_depends_on_schedule {V} (draw : nat -> nat -> V) :
  corpus_of draw (rrun 1 2 [0; 0; 0; 0; 1; 1; 1; 1]) = [(0, draw 0 0); (1, draw 1 0)] /\
  corpus_of draw (rrun 1 2 [0; 1; 1; 1; 1; 0; 0; 0]) = [(1, draw 0 0); (0, draw 1 0)] /\
  corpus_of draw (rrun 1 2 [0; 0; 0; 0; 0; 0; 0; 0]) = [(0, draw 0 0); (1, draw 0 1)].
Proof. by vm_compute. Qed.
