(* ===== verification/RepairDriver.v ===== *)
(** * The mains of the repair studies

    [main] of [research/weaviate_repair_window/characterize.py] and of
    [research/weaviate_repair_clock/repair_clock.py]: the arguments, the control, the runs in
    order with what each leaves on disk, and the decision. The cycles are those of
    [RepairWindow] and [RepairClock], the answers those of [WeaviateProbe]; clock readings,
    replies and the shuffled plans are inputs. [None] as an ending says that the readings ran
    out before a wait decided. *)

From stdpp Require Import base list gmap strings pretty sorting.
From Stdlib Require Import QArith Qminmax Qabs Lqa ZArith NArith Lia.
From S2P Require Import Prelude PyFloat Text PyText Csv Json Metrics Analyze Aggregate Detector.
From S2P Require Import Dissociation Dispersion WeaviateTopology WeaviateProbe RepairWindow RepairClock QdrantFiles.

Local Open Scope nat_scope.

(** ** Arguments *)

(** [[int(x) for x in a.sizes.split(",")]]; a negative size is [None]: it is accepted by the
    program, writes nothing and is then waited for until the deadline. *)
Definition sizes_of (s : text) : option (result (list nat)) :=
  match mapM py_int (pieces (N.eqb comma) s) with
  | None => Some (Raise ValueError)
  | Some zs => if forallb (Z.leb 0) zs then Some (Ok (Z.to_nat <$> zs)) else None
  end.

(** ["1" in {s.strip() for s in a.steps.split(",")}] *)
Definition wants (step : string) (steps : text) : bool :=
  bool_decide (lit step ∈ Text.strip <$> pieces (N.eqb comma) steps).

(** ** The control *)

Record wait_env := mkWait { we_deadline : Q; we_rounds : list (Q * Z) }.
Definition waited (w : wait_env) : option bool := wait_victim (we_deadline w) (we_rounds w).

Record control_env := mkControlEnv {
  ce_status : nat -> Z;
  ce_ready : wait_env;
  ce_reply : raw_outcome;
}.
Record control_rec := mkControl { cl_ok : bool; cl_complete : bool; cl_n : nat }.

(** [docker restart] *)
Definition restart (node : nat) : list cmd := [StopNode node; StartNode node].

Definition control (ids : list Z) (e : control_env) : list cmd * option (result control_rec) :=
  (WriteAll (mjoin (write_objects (ce_status e) ids 500).2) :: restart VICTIM,
   match waited (ce_ready e) with
   | None => None
   | Some _ =>
       Some (a ← objects_present_ids (ce_reply e) (uuid_str <$> ids);
             Ok (mkControl a.1 (a.1 && Nat.eqb (size a.2) (length ids)) (size a.2)))
   end).

(** ** [characterize.main] *)

Definition CTL_IDS : list Z := zrange 50 0.
Definition PROBE_SIZES : list nat := [10; 100; 1000; 100 * 100].
Definition PROBE_REPS : nat := 20.

Record char_env := mkCharEnv {
  ch_nodes : http_outcome;
  ch_probe_ms : nat -> nat -> Q;       (* milliseconds of a probe, by size and repetition *)
  ch_control : control_env;
  ch_cycle : nat -> cycle_env;
  ch_ready : nat -> wait_env;
}.

Record characterization := mkChar {
  cz_probe_cost : list (nat * (Q * Q * Q));
  cz_repairs : list repair_rec;
  cz_control : control_rec;
  cz_floor_ms : option Q;
  cz_smallest : option nat;
}.

(** The cycles in order, the victim awaited after each; whether it came up is not used. *)
Fixpoint char_loop (cycle : nat -> cycle_env) (ready : nat -> wait_env) (i : nat)
    (plan : list (nat * Z)) : list cmd * option (list repair_rec) :=
  match plan with
  | [] => ([], Some [])
  | (n, seed) :: rest =>
      let '(tr, r) := repair_once seed n (cycle i) in
      match r, waited (ready i) with
      | Some r, Some _ =>
          let '(tr', rs) := char_loop cycle ready (S i) rest in (tr ++ tr', cons r <$> rs)
      | _, _ => (tr, None)
      end
  end.

(** What is written to [characterization.json]. *)
Definition char_record (cost : list (nat * (Q * Q * Q))) (c : control_rec) (rs : list repair_rec)
    : characterization :=
  mkChar cost rs c (probe_floor cost) (smallest_resolved rs).

Definition char_main (sizes : list nat) (reps : nat) (e : char_env)
    : list cmd * option (result characterization) :=
  match shard_name (ch_nodes e) with
  | Raise x => ([], Some (Raise x))
  | Ok _ =>
      match probe_cost ((fun n => (n, ch_probe_ms e n <$> seq 0 PROBE_REPS)) <$> PROBE_SIZES) with
      | Raise x => ([], Some (Raise x))
      | Ok cost =>
          match control CTL_IDS (ch_control e) with
          | (tr, Some (Ok c)) =>
              let '(tr', rs) := char_loop (ch_cycle e) (ch_ready e) 0 (char_plan sizes reps) in
              (tr ++ tr', (fun rs => Ok (char_record cost c rs)) <$> rs)
          | (tr, Some (Raise x)) => (tr, Some (Raise x))
          | (tr, None) => (tr, None)
          end
      end
  end.

(** ** [repair_clock.main] *)

Definition CLOCK_CTL : list Z := zrange SIZE 990000.

Record clock_env := mkClockEnv {
  ck_status : nat -> Z;
  ck_wall : Q;
  ck_outage : outage;
  ck_t_poll : Q;
  ck_polls : list poll;
  ck_ready : wait_env;
}.

Definition clock_run_of (e : clock_env) (seed : Z) (p : planned) : list cmd * option clock_run :=
  clock_one_run (pl_label p) SIZE seed (ck_status e) (ck_wall e) (ck_outage e) (ck_t_poll e) (ck_polls e).

(** [record]: the row is kept and the whole file rewritten before the victim is awaited. The
    commands, the rows in [repair_clock.json] (no file before the first), the rows kept. *)
Fixpoint clock_loop (envs : nat -> clock_env) (i : nat) (rows : list clock_run)
    (file : option (list clock_run)) (plan : list (Z * planned))
    : list cmd * option (list clock_run) * option (list clock_run) :=
  match plan with
  | [] => ([], file, Some rows)
  | (seed, p) :: rest =>
      match clock_run_of (envs i) seed p with
      | (tr, None) => (tr, file, None)
      | (tr, Some r) =>
          let rows' := rows ++ [r] in
          match waited (ck_ready (envs i)) with
          | None => (tr, Some rows', None)
          | Some _ =>
              let '(tr', file', out) := clock_loop envs (S i) rows' (Some rows') rest in
              (tr ++ tr', file', out)
          end
      end
  end.

Record clock_out := mkClockOut {
  co_rows : list clock_run;
  co_decision : option anchor;
  co_short : list Q;                   (* the sorted repair times of the 6 s outages *)
}.

Definition short_values (rows : list clock_run) : list Q :=
  sorted Qle_bool
    (omap cr_repair (List.filter (fun r => bool_decide (cr_label r = "short6"%string) && cr_converged r) rows)).

(** The end of [main] from the rows in memory. *)
Definition clock_report_of (rows : list clock_run) : clock_out :=
  mkClockOut rows (clock_decision rows) (short_values rows).

(** [None] in place of the file: it was not written. *)
Definition clock_study (steps : text) (reps2 : nat) (p1 p1b : list planned) (nodes : http_outcome)
    (ce : control_env) (envs : nat -> clock_env)
    : list cmd * option (list clock_run) * option (result clock_out) :=
  match shard_name nodes with
  | Raise x => ([], None, Some (Raise x))
  | Ok _ =>
      match control CLOCK_CTL ce with
      | (tr, Some (Ok _)) =>
          let plan := clock_schedule (wants "1" steps) (wants "1b" steps) (wants "2" steps) p1 p1b reps2 in
          let '(tr', file, out) := clock_loop envs 0 [] None plan in
          (tr ++ tr', file, (fun rows => Ok (clock_report_of rows)) <$> out)
      | (tr, Some (Raise x)) => (tr, None, Some (Raise x))
      | (tr, None) => (tr, None, None)
      end
  end.

(** * Properties *)

(** ** The control *)

(** A set of requested identifiers is complete when it has their number. *)
Lemma complete_iff (found : Z -> bool) ids :
  Forall is_uuid ids -> NoDup ids ->
  size (list_to_set (mjoin ((fun x => if found x then [uuid_str x] else []) <$> ids)) : gset string)
    = length ids <-> forall x, x ∈ ids -> found x = true.
Proof.
  intros Hu Hnd.
  assert (mjoin ((fun x => if found x then [uuid_str x] else []) <$> ids) = uuid_str <$> List.filter found ids) as ->.
  { clear. induction ids as [|x ids IH]; [done|]. csimpl. destruct (found x); csimpl; by rewrite <- IH. }
  rewrite size_list_to_set.
  2: { assert (Forall is_uuid (List.filter found ids) /\ NoDup (List.filter found ids)) as [Hf Hn].
       { split; [|by apply NoDup_ListNoDup, List.NoDup_filter, NoDup_ListNoDup].
         apply Forall_forall. intros x Hx%list_elem_of_In%List.filter_In.
         rewrite Forall_forall in Hu. apply Hu, list_elem_of_In. tauto. }
       clear Hu Hnd. induction Hn as [|x l Hx Hn IH]; csimpl; [constructor|]. inversion_clear Hf as [|? ? Hxu Hl].
       constructor; [|by apply IH]. intros (y & E & Hy)%list_elem_of_fmap. apply Hx.
       rewrite Forall_forall in Hl. apply uuid_str_inj in E; auto. by subst. }
  rewrite length_fmap. clear. induction ids as [|x ids IH]; [split; [intros _ ? H; by apply not_elem_of_nil in H|done]|].
  cbn [List.filter]. setoid_rewrite elem_of_cons. pose proof (List.filter_length_le found ids) as Hle.
  destruct (found x) eqn:E; cbn [length].
  - split; [intros H y [->|Hy]; [done|apply IH; [lia|done]]|intros H; f_equal; apply IH; auto].
  - split; [lia|]. intros H. rewrite (H x) in E; [done|by left].
Qed.

(** The control answers for every reply, and counts as complete exactly when the victim
    served the request and the bytes of every identifier written are in its answer. *)
Lemma control_spec ids e :
  Forall is_uuid ids -> NoDup ids -> is_Some (waited (ce_ready e)) ->
  exists c, (control ids e).2 = Some (Ok c) /\ cl_ok c = Z.eqb (raw_get (ce_reply e)).1 200 /\
    (cl_complete c = true <->
     cl_ok c = true /\ forall x, x ∈ ids -> exists a b, (raw_get (ce_reply e)).2 = a ++ uuid_bytes x ++ b).
Proof.
  intros Hu Hnd [b Hw]. unfold control. cbn [snd]. rewrite Hw. unfold objects_present_ids.
  destruct (raw_get (ce_reply e)) as [st body]. cbn [fst snd].
  destruct (Z.eqb st 200); cbn [negb mbind result_bind fst snd].
  - rewrite (found_ids ids body Hu). cbn [mbind result_bind fst snd]. eexists. split; [done|].
    cbn [cl_ok cl_complete andb]. split; [done|].
    rewrite Nat.eqb_eq, (complete_iff (fun x => occurs (uuid_bytes x) body) ids Hu Hnd).
    setoid_rewrite <- occurs_spec. tauto.
  - eexists. split; [done|]. cbn. split; [done|]. split; [done|]. by intros [? _].
Qed.

Lemma control_trace ids e : down_after ∅ (control ids e).1 = ∅.
Proof. unfold control, restart, VICTIM. cbn [fst down_after]. by vm_compute. Qed.

(** The control of the characterization writes identifiers that no run writes, whatever the
    sizes; that of the clock study writes others still. *)
Lemma control_ids_apart sizes reps n seed x :
  (n, seed) ∈ char_plan sizes reps -> x ∈ corpus_ids seed n 0 -> x ∉ CTL_IDS /\ x ∉ CLOCK_CTL.
Proof.
  intros (l & Hl & (m & -> & _)%list_elem_of_fmap)%list_elem_of_join.
  apply list_elem_of_fmap in Hl as (rep & [= -> ->] & _). rewrite elem_of_corpus. intros Hx.
  unfold CTL_IDS, CLOCK_CTL, SIZE. rewrite !elem_of_zrange. lia.
Qed.

(** ** The characterization *)

Lemma repair_once_trace seed n e : exists sent, (repair_once seed n e).1 = [StopNode VICTIM; WriteOne sent; StartNode VICTIM].
Proof.
  unfold repair_once. destruct (write_objects _ _ _) as [ok sent]. destruct (negb ok); by eexists.
Qed.

Lemma cycle_restores sent : down_after ∅ [StopNode VICTIM; WriteOne sent; StartNode VICTIM] = ∅.
Proof. by vm_compute. Qed.

Lemma char_loop_restores cycle ready i plan : down_after ∅ (char_loop cycle ready i plan).1 = ∅.
Proof.
  revert i. induction plan as [|[n seed] plan IH]; intros i; [done|]. cbn [char_loop].
  destruct (repair_once_trace seed n (cycle i)) as [sent Ht]. destruct (repair_once _ _ _) as [tr r]. cbn in Ht. subst tr.
  destruct r as [r|], (waited (ready i)); try apply cycle_restores.
  specialize (IH (S i)). destruct (char_loop _ _ _ _) as [tr' rs]. cbn [fst] in *.
  by rewrite down_after_app, cycle_restores.
Qed.

(** The runs that a loop has recorded, each with the seed and the size of its turn. *)
Definition ran (cycle : nat -> cycle_env) (i : nat) (p : nat * Z) (r : repair_rec) : Prop :=
  (repair_once p.2 p.1 (cycle i)).2 = Some r.

Lemma char_loop_runs cycle ready i plan rs :
  (char_loop cycle ready i plan).2 = Some rs ->
  length rs = length plan /\
  forall k p r, plan !! k = Some p -> rs !! k = Some r -> ran cycle (i + k) p r.
Proof.
  revert i rs. induction plan as [|[n seed] plan IH]; intros i rs; cbn [char_loop]; [by intros [= <-]|].
  destruct (repair_once seed n (cycle i)) as [tr [r|]] eqn:E; [|done]. destruct (waited _); [|done].
  specialize (IH (S i)). destruct (char_loop _ _ _ _) as [tr' [rs'|]]; cbn [snd fmap option_fmap option_map]; [|done].
  intros [= <-]. destruct (IH rs' eq_refl) as [Hl Hr]. split; [cbn; by rewrite Hl|].
  intros [|k] p r0; cbn; [intros [= <-] [= <-]|intros Hp H0].
  - unfold ran. rewrite Nat.add_0_r. cbn. by rewrite E.
  - specialize (Hr k p r0 Hp H0). by rewrite Nat.add_succ_r.
Qed.

(** The loop ends once every watch and every wait does. *)
Lemma char_loop_total cycle ready i plan :
  (forall k, i <= k < i + length plan ->
     (exists p, p ∈ cy_polls (cycle k) /\ (cy_t_start (cycle k) + 900 <= po_check p)%Q) /\
     is_Some (waited (ready k))) ->
  is_Some (char_loop cycle ready i plan).2.
Proof.
  revert i. induction plan as [|[n seed] plan IH]; intros i H; [by eexists|]. cbn [char_loop].
  destruct (H i) as [(p & Hp & Hd) [b Hb]]; [cbn; lia|]. rewrite Hb.
  assert (is_Some (repair_once seed n (cycle i)).2) as [r Hr].
  { unfold repair_once. destruct (write_objects _ _ _) as [[] sent]; cbn [negb snd]; [|by eexists].
    apply fmap_is_Some. by eapply repair_loop_decides. }
  destruct (repair_once _ _ _) as [tr r']. cbn in Hr. subst r'.
  destruct (IH (S i)) as [rs Hrs]; [intros k Hk; apply H; cbn; lia|].
  destruct (char_loop _ _ _ _) as [tr' rs']. cbn in *. subst. by eexists.
Qed.

Lemma probe_cost_total (ms : nat -> nat -> Q) ns :
  exists cost, probe_cost ((fun n => (n, ms n <$> seq 0 PROBE_REPS)) <$> ns) = Ok cost /\ dkeys cost = ns.
Proof.
  unfold probe_cost. induction ns as [|n ns (cost & IH & Hk)]; [by exists []|]. rewrite fmap_cons. cbn [rmapM].
  unfold PROBE_REPS in *. cbn [seq fmap list_fmap cost_of snd fst mbind result_bind]. cbn [seq fmap list_fmap] in IH.
  rewrite IH. cbn [mbind result_bind]. eexists. split; [done|]. unfold dkeys in *. rewrite fmap_cons. by rewrite Hk.
Qed.

(** The environment with another control. *)
Definition with_control (ce : control_env) (e : char_env) : char_env :=
  mkCharEnv (ch_nodes e) (ch_probe_ms e) ce (ch_cycle e) (ch_ready e).

Lemma CTL_uuids : Forall is_uuid CTL_IDS.
Proof. apply zrange_uuids; lia. Qed.

(** What the characterization leaves. Once its waits end it writes its file, with one
    record per planned run in the order of the plan, the floor of a hundred identifiers and
    the decision on these records; it can raise only because the node list could not be read;
    whatever happens the victim is left up. The control is recorded and nothing more: with any
    other control the runs and the decision are the same. *)
Theorem char_main_spec sizes reps e :
  is_Some (waited (ce_ready (ch_control e))) ->
  (forall k, k < length (char_plan sizes reps) ->
     (exists p, p ∈ cy_polls (ch_cycle e k) /\ (cy_t_start (ch_cycle e k) + 900 <= po_check p)%Q) /\
     is_Some (waited (ch_ready e k))) ->
  down_after ∅ (char_main sizes reps e).1 = ∅ /\
  match shard_name (ch_nodes e) with
  | Raise x => char_main sizes reps e = ([], Some (Raise x))
  | Ok _ => exists z, (char_main sizes reps e).2 = Some (Ok z) /\
      length (cz_repairs z) = length (char_plan sizes reps) /\
      (forall k p r, char_plan sizes reps !! k = Some p -> cz_repairs z !! k = Some r -> ran (ch_cycle e) k p r) /\
      is_Some (cz_floor_ms z) /\ cz_smallest z = smallest_resolved (cz_repairs z) /\
      forall ce, is_Some (waited (ce_ready ce)) ->
        exists c, (char_main sizes reps (with_control ce e)).2 =
          Some (Ok (mkChar (cz_probe_cost z) (cz_repairs z) c (cz_floor_ms z) (cz_smallest z)))
  end.
Proof.
  intros Hc Hk. pose proof (char_loop_restores (ch_cycle e) (ch_ready e) 0 (char_plan sizes reps)) as Hdown.
  destruct (char_loop_total (ch_cycle e) (ch_ready e) 0 (char_plan sizes reps)) as [rs Hrs]; [intros k [_ ?]; by apply Hk|].
  destruct (char_loop_runs _ _ _ _ _ Hrs) as [Hl Hr].
  unfold char_main. destruct (shard_name (ch_nodes e)) as [j|x] eqn:Es; [|done].
  destruct (probe_cost_total (ch_probe_ms e) PROBE_SIZES) as (cost & Hcost & Hkeys). rewrite Hcost.
  assert (forall ce, is_Some (waited (ce_ready ce)) -> exists c, (control CTL_IDS ce).2 = Some (Ok c)) as Hall.
  { intros ce Hce. destruct (control_spec CTL_IDS ce CTL_uuids (zrange_NoDup 50 0) Hce) as (c & ? & _). eauto. }
  destruct (Hall _ Hc) as [c Hctl]. pose proof (control_trace CTL_IDS (ch_control e)) as Htr.
  destruct (control CTL_IDS (ch_control e)) as [tr cr]. cbn in Hctl, Htr. subst cr.
  destruct (char_loop (ch_cycle e) (ch_ready e) 0 (char_plan sizes reps)) as [tr' rs'] eqn:Eloop. cbn in Hrs, Hdown. subst rs'.
  split; [cbn; by rewrite down_after_app, Htr|]. eexists. split; [done|].
  cbn [cz_repairs cz_floor_ms cz_smallest cz_probe_cost char_record]. split; [done|]. split; [exact Hr|].
  split; [|split; [done|]].
  - unfold probe_floor. destruct (dget 100 cost) eqn:E; [by eexists|]. apply dget_None in E.
    rewrite Hkeys in E. exfalso. apply E. unfold PROBE_SIZES. rewrite !elem_of_cons. auto.
  - intros ce Hce. destruct (Hall _ Hce) as [c' Hc']. exists c'.
    cbn [with_control ch_nodes ch_probe_ms ch_control ch_cycle ch_ready]. rewrite Es, Hcost.
    destruct (control CTL_IDS ce) as [tr2 cr2]. cbn in Hc'. subst cr2. by rewrite Eloop.
Qed.

Definition demo_nodes : http_outcome :=
  HAnswer 200 (RawJson (JDict [("nodes", JList [JDict [("shards", JList [JDict [("name", JStr "s0")]])]])]%string)).
Definition demo_wait : wait_env := mkWait 180 [(1%Q, 0%Z); (2%Q, 200%Z)].
Definition demo_control : control_env := mkControlEnv (fun _ => 200%Z) demo_wait (NoServer []).
Definition demo_char : char_env :=
  mkCharEnv demo_nodes (fun n r => inject_Z (Z.of_nat (n + r)))%Q demo_control
    (fun _ => mkCycle (fun _ => 200%Z) 1 (Some 2) 0
       [mkPoll 1 None 1 1; mkPoll 2 (Some 0) (5 # 2) (5 # 2); mkPoll 4 (Some 2) 4 4; mkPoll 900 None 900 900])
    (fun _ => demo_wait).

Lemma char_main_spec_witness :
  exists z, (char_main [2] 1 demo_char).2 = Some (Ok z) /\ length (cz_repairs z) = 1 /\ cl_ok (cz_control z) = false.
Proof.
  destruct (char_main_spec [2] 1 demo_char) as [_ H].
  - by eexists.
  - intros k Hk. split; [|by eexists]. exists (mkPoll 900 None 900 900). split; [do 3 right; by left|cbn; lra].
  - destruct (shard_name (ch_nodes demo_char)) eqn:E; [|by vm_compute in E].
    destruct H as (z & Hz & Hl & _). exists z. split; [done|]. split; [by rewrite Hl|].
    vm_compute in Hz. by injection Hz as <-.
Defined.

(** The seeds of the plan are distinct, and the runs write different objects, when the sizes
    are at least [reps] apart and below the ten million identifiers of a seed. *)
Definition spaced (reps : nat) (sizes : list nat) : Prop :=
  forall i j a b, sizes !! i = Some a -> sizes !! j = Some b -> i < j -> a + reps <= b \/ b + reps <= a.

Lemma char_seeds_distinct sizes reps : spaced reps sizes -> NoDup (char_plan sizes reps).*2.
Proof.
  unfold char_plan. induction sizes as [|a sizes IH]; intros Hs; csimpl; [constructor|].
  rewrite fmap_app, <- list_fmap_compose. apply NoDup_app. split_and!.
  - apply NoDup_fmap_2_strong; [|apply NoDup_seq]. intros x y _ _; cbn. lia.
  - intros s (r & -> & Hr)%list_elem_of_fmap ([b s'] & E & Hb)%list_elem_of_fmap. cbn in E.
    apply list_elem_of_join in Hb as (l & Hl & (m & -> & Hm)%list_elem_of_fmap).
    apply list_elem_of_fmap in Hl as (r' & [= -> ->] & Hr'). apply elem_of_seq in Hr, Hr'.
    apply list_elem_of_lookup in Hm as [k Hk]. destruct (Hs 0 (S k) a m) as [?|?]; cbn; auto; lia.
  - apply IH. intros i j x y Hi Hj Hij. apply (Hs (S i) (S j)); auto; lia.
Qed.

(** With sizes that are closer a run finds objects of an earlier run on the victim. *)
Example close_sizes_share :
  (50, 51%Z) ∈ char_plan [50; 51] 3 /\ (51, 51%Z) ∈ char_plan [50; 51] 3 /\
  Forall (fun x => x ∈ corpus_ids 51 51 0) (corpus_ids 51 50 0).
Proof. split_and!; decide_now. Qed.

(** ** The clock study *)

(** The fields of a converged record are all there; its label is that of the plan. *)
Definition clock_wf (r : clock_run) : Prop :=
  cr_converged r = true -> exists c, crow_of r = Ok c /\
    cw_label c = cr_label r /\ cr_repair r = Some (cw_repair c) /\ cr_since_write r = Some (cw_since c).

Lemma clock_run_wf e seed p r : (clock_run_of e seed p).2 = Some r -> clock_wf r /\ cr_label r = pl_label p.
Proof.
  unfold clock_run_of, clock_one_run. destruct (write_objects _ _ _) as [[] sent]; cbn [negb snd]; [|by intros [= <-]].
  destruct (last_loop _ _ _ _ _ _) as [[[first lst] n]|]; [|done]. intros [= <-]. split; [|done].
  intros H. cbn in H |- *. unfold crow_of. cbn. rewrite H. destruct lst as [[d m]|]; [|done].
  eexists. split; [done|]. done.
Qed.

Lemma clock_run_trace e seed p : exists sent, (clock_run_of e seed p).1 = [StopNode VICTIM; WriteOne sent; StartNode VICTIM].
Proof. unfold clock_run_of, clock_one_run. destruct (write_objects _ _ _) as [ok sent]. destruct (negb ok); by eexists. Qed.

(** What the loop has recorded by its end or when it is cut off: the finished runs in order. *)
Definition recorded (envs : nat -> clock_env) (i : nat) (plan : list (Z * planned)) (rs : list clock_run) : Prop :=
  length rs <= length plan /\
  forall k r, rs !! k = Some r -> exists sp, plan !! k = Some sp /\ (clock_run_of (envs (i + k)) sp.1 sp.2).2 = Some r.

(** The file as [record] leaves it: nothing before the first run, then every row. *)
Definition file_of (rows : list clock_run) : option (list clock_run) :=
  match rows with [] => None | _ => Some rows end.

Lemma file_of_snoc rows r : Some (rows ++ [r]) = file_of (rows ++ [r]).
Proof. by destruct rows. Qed.

Lemma recorded_cons envs i seed p plan r rs :
  (clock_run_of (envs i) seed p).2 = Some r -> recorded envs (S i) plan rs ->
  recorded envs i ((seed, p) :: plan) (r :: rs).
Proof.
  intros Hr [Hl H]. split; [cbn; lia|]. intros [|k] r0; cbn; [intros [= <-]; rewrite Nat.add_0_r; eauto|].
  intros Hk. destruct (H k r0 Hk) as (sp & ? & ?). exists sp. by rewrite Nat.add_succ_r.
Qed.

Lemma clock_loop_inv envs i rows plan :
  let '(tr, file, out) := clock_loop envs i rows (file_of rows) plan in
  down_after ∅ tr = ∅ /\
  exists rs, file = file_of (rows ++ rs) /\ recorded envs i plan rs /\
    (forall rows', out = Some rows' -> rows' = rows ++ rs /\ length rs = length plan).
Proof.
  revert i rows. induction plan as [|[seed p] plan IH]; intros i rows; cbn [clock_loop].
  { split; [done|]. exists []. rewrite app_nil_r. split; [done|]. split; [|by intros ? [= <-]].
    split; [done|]. intros k r. by rewrite lookup_nil. }
  assert (recorded envs i ((seed, p) :: plan) []) as Hnil by (split; [cbn; lia|intros k r; by rewrite lookup_nil]).
  destruct (clock_run_trace (envs i) seed p) as [sent Ht].
  destruct (clock_run_of (envs i) seed p) as [tr [r|]] eqn:E; cbn in Ht; subst tr.
  2: { split; [apply cycle_restores|]. exists []. by rewrite app_nil_r. }
  assert ((clock_run_of (envs i) seed p).2 = Some r) as Hr by by rewrite E.
  rewrite file_of_snoc. destruct (waited _).
  2: { split; [apply cycle_restores|]. exists [r]. split; [done|]. split; [|done].
       apply recorded_cons; [done|]. split; [cbn; lia|intros k r0; by rewrite lookup_nil]. }
  specialize (IH (S i) (rows ++ [r])).
  destruct (clock_loop envs (S i) (rows ++ [r]) (file_of (rows ++ [r])) plan) as [[tr' file'] out].
  destruct IH as (Hd & rs & -> & Hrec & Hout). split; [by rewrite down_after_app, cycle_restores|].
  exists (r :: rs). rewrite <- app_assoc in *. cbn [app] in *. split; [done|]. split; [by apply recorded_cons|].
  intros rows' Ho. destruct (Hout rows' Ho) as [-> Hl]. split; [done|]. cbn. by rewrite Hl.
Qed.

(** The record of the clock study survives. Whatever the cluster answers, the file holds
    the runs that have finished, in the order of the schedule and nothing else, also when a
    later run never ends; a study that returns has recorded its whole schedule and decided on
    exactly what is in the file; it raises only when the node list cannot be read; and the
    victim is up whenever a run is over. *)
Theorem clock_study_records steps reps2 p1 p1b nodes ce envs :
  let plan := clock_schedule (wants "1" steps) (wants "1b" steps) (wants "2" steps) p1 p1b reps2 in
  let '(tr, file, out) := clock_study steps reps2 p1 p1b nodes ce envs in
  down_after ∅ tr = ∅ /\
  exists rs, file = file_of rs /\ recorded envs 0 plan rs /\
    (forall o, out = Some (Ok o) -> o = clock_report_of rs /\ length rs = length plan) /\
    (forall x, out = Some (Raise x) -> shard_name nodes = Raise x).
Proof.
  intros plan. unfold clock_study. fold plan.
  assert (recorded envs 0 plan []) as Hnil by (split; [cbn; lia|intros k r; by rewrite lookup_nil]).
  destruct (shard_name nodes) as [j|x] eqn:Es.
  2: { split; [done|]. exists []. split_and!; [done..| |]; by intros ? [= ->]. }
  pose proof (control_trace CLOCK_CTL ce) as Htr.
  assert (forall x, (control CLOCK_CTL ce).2 <> Some (Raise x)) as Hne.
  { intros x Hx. destruct (waited (ce_ready ce)) eqn:Ew; [|unfold control in Hx; by rewrite Ew in Hx].
    destruct (control_spec CLOCK_CTL ce) as (c & Hc & _); [by apply zrange_uuids|apply zrange_NoDup|by eexists|].
    by rewrite Hc in Hx. }
  destruct (control CLOCK_CTL ce) as [tr [[c|x]|]]; cbn in Htr, Hne.
  - pose proof (clock_loop_inv envs 0 [] plan) as H. cbn [file_of] in H.
    destruct (clock_loop envs 0 [] None plan) as [[tr' file] out]. destruct H as (Hd & rs & -> & Hrec & Hout).
    split; [by rewrite down_after_app, Htr|]. exists rs. split; [done|]. split; [done|].
    split; intros o; destruct out as [rows|]; cbn; intros [= <-]. by destruct (Hout rows eq_refl) as [-> ?].
  - by destruct (Hne x).
  - split; [done|]. by exists [].
Qed.

(** ** The study and its analysis *)

Definition is_age (r : clock_run) : bool := starts "age" (cr_label r).

(** The records the analysis reads are the converged rows, with the values the study has. *)
Lemma clock_rows_read rows :
  Forall clock_wf rows ->
  exists cs, rmapM crow_of (List.filter cr_converged rows) = Ok cs /\
    let s1b := List.filter (fun c => starts "age" (cw_label c)) cs in
    let b := List.filter cr_converged (List.filter is_age rows) in
    length s1b = length b /\ cw_repair <$> s1b = omap cr_repair b /\ cw_since <$> s1b = omap cr_since_write b.
Proof.
  induction 1 as [|r rows Hr _ (cs & IH & Hl & H1 & H2)]; [by exists []|]. cbn [List.filter]. cbv zeta in *.
  unfold is_age at 1 4 7. destruct (cr_converged r) eqn:Ec; cbn [rmapM].
  - destruct (Hr Ec) as (c & Hc & Hlab & Hrep & Hsin). rewrite Hc. cbn [mbind result_bind]. rewrite IH. cbn [mbind result_bind].
    exists (c :: cs). split; [done|]. cbn [List.filter]. rewrite Hlab.
    destruct (starts "age" (cr_label r)); cbn [List.filter]; [|done]. rewrite Ec. csimpl.
    rewrite Hrep, Hsin. csimpl. by rewrite Hl, H1, H2.
  - exists cs. split; [done|]. destruct (starts "age" (cr_label r)); cbn [List.filter]; [rewrite Ec|]; done.
Qed.

(** The two verdicts are one test; the analysis prints a ratio beside it, by which it divides. *)
Definition verdict_of (cr cs : float) : option anchor :=
  if is_nan cr || is_nan cs then None
  else if flt cs cr then Some AnchorWrite
  else if flt cr cs then Some AnchorRestart
  else Some Indistinct.

Lemma clock_verdict_cases rep sw :
  match clock_verdict rep sw with
  | Ok v => v = default Insufficient (verdict_of (cv rep) (cv sw))
  | Raise x => x = ZeroDivisionError /\
      (verdict_of (cv rep) (cv sw) = Some AnchorWrite \/ verdict_of (cv rep) (cv sw) = Some AnchorRestart)
  end.
Proof.
  unfold clock_verdict, verdict_of. destruct (is_nan _ || is_nan _); [done|].
  destruct (flt (cv sw) (cv rep)); [destruct (feq _ _); auto|].
  destruct (flt (cv rep) (cv sw)); [destruct (feq _ _); auto|done].
Qed.

Lemma join_concat {A} (ls : list (list A)) : mjoin ls = concat ls.
Proof. induction ls as [|l ls IH]; [done|]. cbn. by rewrite <- IH. Qed.

(** The decision is the test on all converged rows of the step, in any order. *)
Lemma clock_decision_flat rows :
  let b := List.filter cr_converged (List.filter is_age rows) in
  clock_decision rows = match b with
                        | [] => None
                        | _ => verdict_of (cv (omap cr_repair b)) (cv (omap cr_since_write b))
                        end.
Proof.
  cbv zeta. unfold clock_decision, summarize. fold is_age. set (b := List.filter cr_converged (List.filter is_age rows)).
  pose proof (group_by_concat cr_label id b) as Hp. rewrite list_fmap_id in Hp.
  destruct (group_by cr_label id b) as [|g gs] eqn:E.
  { cbn in Hp. by apply Permutation_nil in Hp as ->. }
  assert (b <> []) as Hne by (intros ->; done).
  rewrite join_concat.
  change (verdict_of (cv (omap cr_repair (concat (dvalues (g :: gs)))))
            (cv (omap cr_since_write (concat (dvalues (g :: gs))))) =
          match b with [] => None | _ => verdict_of (cv (omap cr_repair b)) (cv (omap cr_since_write b)) end).
  destruct b as [|r b']; [done|].
  f_equal; apply cv_perm; by rewrite Hp.
Qed.

Lemma existsb_filter2 {A} (p q : A -> bool) l :
  existsb (fun x => p x && q x) l = match List.filter q (List.filter p l) with [] => false | _ => true end.
Proof.
  induction l as [|x l IH]; [done|]. cbn [existsb List.filter]. rewrite IH.
  destruct (p x); cbn [andb List.filter]; [destruct (q x)|]; done.
Qed.

Lemma recorded_wf envs i plan rs : recorded envs i plan rs -> Forall clock_wf rs.
Proof.
  intros [_ H]. apply Forall_lookup. intros k r Hk. destruct (H k r Hk) as (sp & _ & Hr). by apply clock_run_wf in Hr as [? _].
Qed.

(** What the analysis says beside a decision: without one, "insufficient" if the deciding step
    has a run. *)
Definition said (any : bool) (d : option anchor) : option anchor :=
  match d with Some a => Some a | None => if any then Some Insufficient else None end.

(** C32. The study and its analysis decide alike. Every file that the clock study leaves can be
    read back by [analyze_clock.py]: it drops the runs that did not converge, and its verdict is
    the one the study printed, although the study pools the runs cell by cell and the analysis
    in the order of the file; where the study says nothing the analysis says "insufficient", or
    has no run of the deciding step. The one way for the analysis to raise is the division
    beside a verdict, so only when the study named an anchor. *)
Theorem studies_agree steps reps2 p1 p1b nodes ce envs tr rs o :
  clock_study steps reps2 p1 p1b nodes ce envs = (tr, Some rs, Some (Ok o)) ->
  match clock_main rs with
  | Ok rep =>
      ck_dropped rep = length (List.filter (fun r => negb (cr_converged r)) rs) /\
      ck_verdict rep = said (existsb (fun r => is_age r && cr_converged r) rs) (co_decision o)
  | Raise x => x = ZeroDivisionError /\ (co_decision o = Some AnchorWrite \/ co_decision o = Some AnchorRestart)
  end.
Proof.
  intros H. pose proof (clock_study_records steps reps2 p1 p1b nodes ce envs) as Hs. cbv zeta in Hs. rewrite H in Hs.
  destruct Hs as (_ & rs' & Ef & Hrec & Ho & _). destruct (Ho o eq_refl) as [-> _].
  assert (rs' = rs) as -> by (destruct rs'; by simplify_eq/=). cbn [co_decision clock_report_of].
  destruct (clock_rows_read rs (recorded_wf _ _ _ _ Hrec)) as (cs & Hcs & Hl & H1 & H2).
  unfold clock_main. rewrite Hcs. cbn [mbind result_bind].
  assert (length rs - length cs = length (List.filter (fun r => negb (cr_converged r)) rs)) as Hdrop.
  { apply rmapM_Ok, Forall2_length in Hcs. rewrite <- Hcs. pose proof (List.filter_length cr_converged rs). lia. }
  rewrite clock_decision_flat. rewrite existsb_filter2. set (b := List.filter cr_converged (List.filter is_age rs)) in *.
  set (s1b := List.filter _ cs) in *. pose proof (clock_verdict_cases (cw_repair <$> s1b) (cw_since <$> s1b)) as Hv.
  rewrite H1, H2 in Hv. destruct s1b as [|c s1b], b as [|r b]; try done.
  rewrite H1, H2. destruct (clock_verdict _ _) as [v|x]; cbn [mbind result_bind ck_verdict ck_dropped]; [|done].
  split; [done|]. rewrite Hv. by destruct (verdict_of _ _).
Qed.

(** Two runs of the deciding step, repaired about forty seconds after the write. *)
Definition demo_clock_env (age repair : Q) : clock_env :=
  mkClockEnv (fun _ => 200%Z) 1000 (mkOutage 0 1 (40 - age) (40 - age) 40) 40
    [mkPoll 41 (Some 0) 41 41; mkPoll 42 (Some SIZE) (41 + repair) (41 + repair)] demo_wait.

Lemma studies_agree_witness :
  exists tr rs o rep,
    clock_study (lit " 1b") 10 [] [mkPlanned "age2" 40 2 0; mkPlanned "age38" 40 38 0] demo_nodes demo_control
      (fun i => match i with 0 => demo_clock_env 2 37 | _ => demo_clock_env 38 2 end) = (tr, Some rs, Some (Ok o)) /\
    clock_main rs = Ok rep /\ ck_verdict rep = Some AnchorWrite.
Proof.
  destruct (clock_study _ _ _ _ _ _ _) as [[tr [rs|]] [[o|]|]] eqn:E; try by vm_compute in E.
  pose proof (studies_agree _ _ _ _ _ _ _ _ _ _ E) as H.
  exists tr, rs, o.
  assert (co_decision o = Some AnchorWrite /\ exists rep, clock_main rs = Ok rep) as [Hd [rep Hr]].
  { vm_compute in E. injection E as _ <- <-. split; [done|]. eexists. vm_compute. reflexivity. }
  rewrite Hr, Hd in H. exists rep. split; [done|]. split; [done|]. exact (proj2 H).
Defined.
