(* ===== verification/GatedReport.v ===== *)
(** * The reports of the gated studies

    [main] of [research/qdrant_gated_index_recall/analyze_gated.py]: the directories of a
    sweep, read as text, the statistics of every run and the decision, and what run 0 says.
    [analyze_run] and [main] of [research/qdrant_index_gate/analyze_gate.py]: a cell whose gate
    never closed, and the summary by threshold. A directory listing is an argument. *)

From stdpp Require Import base list gmap strings pretty sorting.
From Stdlib Require Import QArith Qminmax Qabs Lqa ZArith NArith Lia.
From S2P Require Import Prelude PyFloat Text PyText Csv Metrics Analyze Aggregate Sampler IndexGate QdrantCluster QdrantRun.
From S2P Require Import SweepDriver GatedAnalysis QdrantSweep QdrantRecord SampleFile QdrantFiles.

Local Open Scope nat_scope.

(** ** [analyze_gated.main]: one directory *)

(** What is read of [run_meta.json]. *)
Record gated_meta := mkGatedMeta {
  dm_times : gmeta;
  dm_closed : option bool;
  dm_gate_s : option Q;
  dm_written : option nat;
}.

(** The files of a run, those that exist. *)
Record run_dir := mkRunDir { rd_meta : option gated_meta; rd_tele : option text; rd_samples : option text }.

Record gated_entry := mkGatedEntry {
  gn_stats : gstats;
  gn_strict : nat;
  gn_con : nat;
  gn_closed : option bool;
  gn_gate_s : option Q;
  gn_written : option nat;
}.

Definition gated_entry_of (m : gated_meta) (r : rounds) : gated_entry :=
  mkGatedEntry (stats_of r) (length (ro_strict r)) (length (ro_con r))
    (dm_closed m) (dm_gate_s m) (dm_written m).

(** The rows of a file; [None]: a number this model does not have. *)
Definition read_rows {A} (row : dict_row -> option A) (s : text) : option (result (list A)) :=
  match dict_read s with
  | Raise x => Some (Raise x)
  | Ok ds => Ok <$> mapM row ds
  end.

Definition FileNotFoundError : exn := OtherError "FileNotFoundError".

(** A run without telemetry is joined with none; without samples it cannot be read. [Ok None]:
    there is no record of the run. *)
Definition gated_run (join : join_mode) (bar : Q) (c : condition) (d : run_dir)
    : option (result (option gated_entry)) :=
  match rd_meta d with
  | None => Some (Ok None)
  | Some m =>
      match (match rd_tele d with
             | Some s => read_rows trow_of s
             | None => Some (Ok [])
             end) with
      | None => None
      | Some (Raise x) => Some (Raise x)
      | Some (Ok tele) =>
          match rd_samples d with
          | None => Some (Raise FileNotFoundError)
          | Some s =>
              match read_rows grow_of s with
              | None => None
              | Some (Raise x) => Some (Raise x)
              | Some (Ok rows) =>
                  Some (r ← per_round join (load_telemetry tele) bar (Some (window_for (dm_times m) c)) rows;
                        Ok (Some (gated_entry_of m r)))
              end
          end
      end
  end.

(** ** The sweep *)

(** [per]: condition, then seed. *)
Definition gated_per : Type := list (condition * list (N * gated_entry)).

(** [per.setdefault(cond, {})[seed] = e] *)
Definition per_set (c : condition) (s : N) (e : gated_entry) (per : gated_per) : gated_per :=
  dset c (dset s e (default [] (dget c per))) per.
(** [per.get(cond, {})] *)
Definition per_arm (c : condition) (per : gated_per) : list (N * gated_entry) := default [] (dget c per).

Fixpoint gated_collect (join : join_mode) (bar : Q) (per : gated_per) (dirs : list (string * run_dir))
    : option (result gated_per) :=
  match dirs with
  | [] => Some (Ok per)
  | (name, d) :: rest =>
      match run_re name with
      | None => gated_collect join bar per rest
      | Some (digits, c) =>
          match gated_run join bar c d with
          | None => None
          | Some (Raise x) => Some (Raise x)
          | Some (Ok None) => gated_collect join bar per rest
          | Some (Ok (Some e)) => gated_collect join bar (per_set c (int_of digits) e per) rest
          end
      end
  end.

Definition dirs_by_name {A} (dirs : list (string * A)) : list (string * A) := sorted (fun a b => str_leb a.1 b.1) dirs.

(** The lines of the table and the decision below it. *)
Record gated_out := mkGatedOut {
  gx_lines : list (condition * N * gated_entry);
  gx_decision : option gdecision;
}.

Definition gated_lines (per : gated_per) : list (condition * N * gated_entry) :=
  mjoin ((fun c => (fun se => (c, se.1, se.2)) <$> sorted (fun a b => N.leb a.1 b.1) (per_arm c per))
           <$> [Baseline; Chaos; Quiesce]).

Definition gated_report (normal_tail : Q -> nat -> nat -> float) (per : gated_per) : gated_out :=
  mkGatedOut (gated_lines per)
    (gated_decision normal_tail (gn_stats <$> dvalues (per_arm Baseline per)) (gn_stats <$> dvalues (per_arm Chaos per))).

Definition analyze_gated_main (normal_tail : Q -> nat -> nat -> float) (join : join_mode) (bar : Q)
    (listing : list (string * run_dir)) : option (result gated_out) :=
  match gated_collect join bar [] (dirs_by_name listing) with
  | None => None
  | Some r => Some (per ← r; Ok (gated_report normal_tail per))
  end.

(** ** Run 0 *)

(** [deltas and max(deltas) < 0] over the differences that are numbers. *)
Definition prediction_holds (deltas : list (option Q)) : bool :=
  match omap id deltas with [] => false | ds => Qltb (max1 ds) 0 end.

(** [next((x for x in after if x["name"] == r["name"]), {}).get("index_recall")] *)
Definition after_of {A} (name : string) (after : list (string * option A)) : option A :=
  match List.find (fun x => bool_decide (x.1 = name)) after with Some x => x.2 | None => None end.

(** ** [analyze_gate.py] *)

(** The threshold a failed cell was asked for, from its name: absent for the default one and
    for a name that holds no number. *)
Definition gate_thr (name : text) : option Z :=
  if starts_with (lit "thr") name && negb (starts_with (lit "thrdefault") name)
  then py_int (drop 3 (partition_at (lit "_") name).1)
  else None.
Definition name_has_chaos (name : text) : bool := infixb (lit "chaos") name.

(** A row of the table. *)
Record gate_line := mkGateLine {
  gl_run : text;
  gl_thr : option Z;
  gl_gated : bool;
  gl_closed : bool;                    (* [None] counts as not closed *)
  gl_close_s : option Q;
  gl_fail : option fail_mode;
  gl_chaos : bool;
  gl_base : option Q;
  gl_chaos_frac : option Q;
}.

(** [index_gate_failed.json]: the least fraction at the end. *)
Definition failed_line (name : text) (min_fraction_at_end : option Q) : gate_line :=
  mkGateLine name (gate_thr name) true false None (Some (gate_fail_mode min_fraction_at_end))
    (name_has_chaos name) None None.

(** [index_gate] of a run's record. *)
Record gate_info := mkGateInfo { gi_closed : bool; gi_elapsed : option Q }.

(** A run with its record; the row is missing without telemetry. *)
Definition run_line (name : text) (thr : option Z) (chaos : bool) (gate : option gate_info) (row : option gate_row)
    : gate_line :=
  mkGateLine name thr (bool_decide (is_Some gate)) (from_option gi_closed false gate) (gate ≫= gi_elapsed) None chaos
    (row ≫= fun r => (gt_base r).1) (row ≫= fun r => (gt_chaos r).1).

(** What a directory gives: the record of the run, else that of the failed gate, else nothing. *)
Inductive gate_dir : Type :=
| DirRun (name : text) (thr : option Z) (chaos : bool) (gate : option gate_info) (row : option gate_row)
| DirFailed (name : text) (min_fraction_at_end : option Q)
| DirEmpty (name : text).

Definition dir_line (d : gate_dir) : option gate_line :=
  match d with
  | DirRun name thr chaos gate row => Some (run_line name thr chaos gate row)
  | DirFailed name mf => Some (failed_line name mf)
  | DirEmpty _ => None
  end.

(** [f"plateau@{mf:.4f}"] *)
Definition mode_text (m : fail_mode) : text :=
  match m with NeverIndexed => lit "never-indexed" | Plateau q => lit "plateau@" ++ format_f 4 q end.

(** The summary of one threshold: closed and all gated runs, the ways the others failed, and
    the values over which ranges are printed. *)
Record thr_summary := mkThr {
  ts_thr : option Z;
  ts_closed : nat;
  ts_runs : nat;
  ts_close_s : list (option Q);
  ts_modes : list text;                (* sorted, each once *)
  ts_base : list Q;
  ts_chaos : list Q;
}.

Definition same_thr (t : option Z) (r : gate_line) : bool := bool_decide (gl_thr r = t).

Definition summary_of (gated : list gate_line) (t : option Z) : thr_summary :=
  let rs := List.filter (same_thr t) gated in
  let closed := List.filter gl_closed rs in
  mkThr t (length closed) (length rs) (gl_close_s <$> closed)
    (sorted text_leb (remove_dups (omap (fun r => mode_text <$> gl_fail r) (List.filter (fun r => negb (gl_closed r)) rs))))
    (omap gl_base rs) (omap gl_chaos_frac rs).

(** [key=lambda x: (x is None, x)] *)
Definition thr_leb (a b : option Z) : bool :=
  match a, b with
  | Some x, Some y => Z.leb x y
  | Some _, None => true
  | None, Some _ => false
  | None, None => true
  end.

Definition gate_summaries (gated : list gate_line) : list thr_summary :=
  summary_of gated <$> sorted thr_leb (remove_dups (gl_thr <$> gated)).

(** [main]: the exit status, the rows and the summaries. *)
Definition gate_report (dirs : list gate_dir) : Z * list gate_line * list thr_summary :=
  match omap dir_line dirs with
  | [] => (1%Z, [], [])
  | runs => (0%Z, runs, gate_summaries (List.filter gl_gated runs))
  end.

(** * Properties *)

(** ** What the sweep left and what is read *)

Definition per_get (c : condition) (s : N) (per : gated_per) : option gated_entry := dget s (per_arm c per).

Lemma per_get_set c s e per c' s' :
  per_get c' s' (per_set c s e per) = if decide (c' = c /\ s' = s) then Some e else per_get c' s' per.
Proof.
  unfold per_get, per_arm, per_set. rewrite dget_dset. destruct (decide (c' = c)) as [->|Hc]; cbn [from_option id].
  - rewrite dget_dset. repeat case_decide; naive_solver.
  - case_decide; naive_solver.
Qed.

(** The entry that a directory contributes under a key. *)
Definition entry_at (join : join_mode) (bar : Q) (c : condition) (s : N) (nd : string * run_dir) : option gated_entry :=
  match run_re nd.1 with
  | Some (digits, c') =>
      if decide (c' = c /\ int_of digits = s)
      then match gated_run join bar c nd.2 with Some (Ok (Some e)) => Some e | _ => None end
      else None
  | None => None
  end.

(** Under each key is the last directory that has one: other names, and runs without a record,
    leave no trace. *)
Lemma gated_collect_get join bar dirs per per' c s :
  gated_collect join bar per dirs = Some (Ok per') ->
  per_get c s per' = match last (omap (entry_at join bar c s) dirs) with
                     | Some e => Some e
                     | None => per_get c s per
                     end.
Proof.
  revert per. induction dirs as [|[name d] dirs IH]; intros per; cbn [gated_collect]; [by intros [= ->]|].
  csimpl. unfold entry_at at 1. cbn [fst snd]. destruct (run_re name) as [[digits c']|]; [|apply IH].
  destruct (gated_run join bar c' d) as [[[e|]|x]|] eqn:E; try done.
  - intros H%IH. rewrite H, per_get_set. case_decide as Hd.
    + destruct Hd as [-> ->]. rewrite E. rewrite decide_True by done.
      destruct (omap _ dirs) as [|e' es]; [done|]. rewrite last_cons_cons. by destruct (last (e' :: es)) eqn:El; [|apply last_None in El].
    + rewrite decide_False by naive_solver. done.
  - intros H%IH. rewrite H. case_decide as Hd; [|done]. destruct Hd as [-> _]. by rewrite E.
Qed.

(** The statistics are taken for every directory of a run that can be read. *)
Lemma gated_collect_total join bar dirs per :
  Forall (fun nd => forall digits c, run_re nd.1 = Some (digits, c) -> exists e, gated_run join bar c nd.2 = Some (Ok e)) dirs ->
  exists per', gated_collect join bar per dirs = Some (Ok per').
Proof.
  intros H. revert per. induction H as [|[name d] dirs Hd _ IH]; intros per; cbn [gated_collect]; [eauto|].
  destruct (run_re name) as [[digits c]|] eqn:E; [|apply IH]. cbn [fst snd] in Hd. destruct (Hd digits c E) as [[e|] ->]; apply IH.
Qed.

(** What a finished run of a sweep leaves, with the rows it sampled. *)
Record left_run := mkLeft {
  lr_start : Q; lr_rows : list Sampler.row; lr_tele : list tele_row; lr_meta : gated_meta }.

Definition left_ok (l : left_run) : Prop :=
  Forall row_ok (lr_rows l) /\ Forall (row_bounds (lr_start l)) (lr_rows l) /\
  Forall (tele_bounds (lr_start l)) (lr_tele l).

(** Its directory, named by the sweep and filled by the run. *)
Definition left_dir (rl : run_id * left_run) : result (string * run_dir) :=
  s ← q_samples_csv (lr_start rl.2) (lr_rows rl.2);
  t ← telemetry_csv (lr_start rl.2) (lr_tele rl.2);
  Ok (run_name rl.1, mkRunDir (Some (lr_meta rl.2)) (Some t) (Some s)).

(** The statistics of the rows themselves. *)
Definition rounds_of (join : join_mode) (bar : Q) (c : condition) (l : left_run) : result rounds :=
  per_round join (load_telemetry (red_trow <$> (tele_out (lr_start l) <$> lr_tele l))) bar
    (Some (window_for (dm_times (lr_meta l)) c)) (red_grow <$> (sample_out (lr_start l) <$> lr_rows l)).

(** Rows of a run name their replica, so they are always scored. *)
Lemma rounds_of_total join bar c l : exists r, rounds_of join bar c l = Ok r.
Proof.
  unfold rounds_of, per_round. set (tele := load_telemetry _). set (w := Some _).
  assert (exists js, rmapM (joined join tele w) (red_grow <$> (sample_out (lr_start l) <$> lr_rows l)) = Ok js) as [js ->].
  { apply rmapM_total. rewrite <- list_fmap_compose. intros g (r & -> & _)%list_elem_of_fmap. unfold joined.
    destruct (scored w _) as [[t v]|]; [|eauto]. cbn [gr_replica red_grow sample_out int_cell mbind result_bind]. eauto. }
  cbn [mbind result_bind]. eauto.
Qed.

Lemma left_dir_read join bar rl :
  left_ok rl.2 ->
  exists d r, left_dir rl = Ok (run_name rl.1, d) /\ rounds_of join bar rl.1.2 rl.2 = Ok r /\
    gated_run join bar rl.1.2 d = Some (Ok (Some (gated_entry_of (lr_meta rl.2) r))).
Proof.
  intros (H1 & H2 & H3). destruct (rounds_of_total join bar rl.1.2 rl.2) as [r Hr].
  destruct (qdrant_files_roundtrip _ _ _ H1 H2 H3) as [(s & ds & Hs & Hds & Hg) (t & dt & Ht & Hdt & Htr)].
  unfold left_dir. rewrite Hs, Ht. cbn [mbind result_bind]. do 2 eexists. split; [done|]. split; [exact Hr|].
  unfold gated_run, read_rows. cbn [rd_meta rd_tele rd_samples]. rewrite Hdt, Htr, Hds, Hg. cbn [fmap option_fmap option_map].
  unfold rounds_of in Hr. by rewrite Hr.
Qed.

Lemma entry_at_left join bar c s r d :
  entry_at join bar c s (run_name r, d) =
    if decide (r = (s, c)) then match gated_run join bar c d with Some (Ok (Some e)) => Some e | _ => None end else None.
Proof.
  destruct r as [n c']. unfold entry_at. cbn [fst snd]. rewrite run_name_roundtrip. cbn [fst snd]. rewrite int_of_pretty.
  repeat case_decide; naive_solver.
Qed.

Lemma omap_unique {A B} (f : A -> option B) l x y :
  x ∈ l -> f x = Some y -> (forall z, z ∈ l -> is_Some (f z) -> z = x) -> NoDup l -> omap f l = [y].
Proof.
  intros Hx Hf Hu Hnd. induction Hnd as [|z l Hz Hnd IH]; [by apply not_elem_of_nil in Hx|]. csimpl.
  apply elem_of_cons in Hx as [->|Hx].
  - rewrite Hf. f_equal. apply omap_nil. intros w Hw. apply eq_None_not_Some. intros Hs.
    apply Hz. rewrite <- (Hu w); [done|by right|done].
  - destruct (f z) eqn:E; [|apply IH; [done|intros w Hw; apply Hu; by right]].
    exfalso. apply Hz. rewrite (Hu z); [done|by left|by eexists].
Qed.

Lemma run_name_inj r r' : run_name r = run_name r' -> r = r'.
Proof.
  intros E. pose proof (run_name_roundtrip r) as H. rewrite E, run_name_roundtrip in H.
  destruct r as [n c], r' as [n' c']. cbn in H. injection H as Hn ->. f_equal.
  by rewrite <- (int_of_pretty n), <- (int_of_pretty n'), Hn.
Qed.

(** The directories carry the names of their runs, so each name once. *)
Lemma left_dirs runs dirs :
  rmapM left_dir runs = Ok dirs -> dirs.*1 = run_name <$> runs.*1 /\
  (forall rl nd, rl ∈ runs -> left_dir rl = Ok nd -> nd ∈ dirs) /\
  (forall nd, nd ∈ dirs -> exists rl, rl ∈ runs /\ left_dir rl = Ok nd).
Proof.
  intros H%rmapM_Ok. split_and!.
  - induction H as [|rl nd runs dirs E _ IH]; [done|]. csimpl. rewrite IH. f_equal. unfold left_dir in E.
    destruct (q_samples_csv _ _); [|done]. destruct (telemetry_csv _ _); [|done]. by injection E as <-.
  - intros rl nd [i Hi]%list_elem_of_lookup E. destruct (Forall2_lookup_l _ _ _ _ _ H Hi) as (nd' & Hn & E').
    rewrite E in E'. injection E' as ->. by eapply list_elem_of_lookup_2.
  - intros nd [i Hi]%list_elem_of_lookup. destruct (Forall2_lookup_r _ _ _ _ _ H Hi) as (rl & Hr & E).
    exists rl. split; [by eapply list_elem_of_lookup_2|done].
Qed.

Lemma left_dirs_NoDup runs dirs : rmapM left_dir runs = Ok dirs -> NoDup runs.*1 -> NoDup dirs.*1.
Proof.
  intros H Hnd. destruct (left_dirs _ _ H) as [-> _]. apply NoDup_fmap_2_strong; [|done].
  intros r r' _ _. apply run_name_inj.
Qed.

(** C38. From the runs of a gated sweep to its report, through the files. Every run of distinct
    seed and condition leaves a directory; the analysis of these directories, in whatever order
    they are listed, raises nothing and has under each seed and condition the statistics of
    exactly the rows that the run sampled, joined with its own telemetry, and nothing under any
    other. *)
Theorem gated_report_of_runs join bar (runs : list (run_id * left_run)) :
  NoDup runs.*1 -> Forall (fun rl => left_ok rl.2) runs ->
  exists dirs, rmapM left_dir runs = Ok dirs /\
    forall listing, listing ≡ₚ dirs ->
    exists per, gated_collect join bar [] (dirs_by_name listing) = Some (Ok per) /\
      (forall r l, (r, l) ∈ runs -> exists ro, rounds_of join bar r.2 l = Ok ro /\
         per_get r.2 r.1 per = Some (gated_entry_of (lr_meta l) ro)) /\
      (forall c s, (s, c) ∉ runs.*1 -> per_get c s per = None).
Proof.
  intros Hnd Hok. rewrite Forall_forall in Hok.
  destruct (rmapM_total left_dir runs) as [dirs Hdirs].
  { intros rl Hrl. destruct (left_dir_read join bar rl (Hok rl Hrl)) as (d & r & -> & _). eauto. }
  destruct (left_dirs _ _ Hdirs) as (Hnames & Hin & Hback). pose proof (left_dirs_NoDup _ _ Hdirs Hnd) as Hnd'.
  exists dirs. split; [done|]. intros listing Hp.
  assert (dirs_by_name listing ≡ₚ dirs) as Hl by (rewrite <- Hp; apply sorted_perm).
  assert (forall nd, nd ∈ dirs_by_name listing -> exists rl d r, rl ∈ runs /\ nd = (run_name rl.1, d) /\
    rounds_of join bar rl.1.2 rl.2 = Ok r /\
    gated_run join bar rl.1.2 d = Some (Ok (Some (gated_entry_of (lr_meta rl.2) r)))) as Hread.
  { intros nd H. rewrite Hl in H. destruct (Hback nd H) as (rl & Hrl & E).
    destruct (left_dir_read join bar rl (Hok rl Hrl)) as (d & r & E' & ? & ?). rewrite E in E'. injection E' as ->.
    by exists rl, d, r. }
  destruct (gated_collect_total join bar (dirs_by_name listing) []) as [per Hper].
  { apply Forall_forall. intros nd H digits c Hre. destruct (Hread nd H) as (rl & d & r & _ & -> & _ & Hg).
    cbn [fst snd] in *. rewrite run_name_roundtrip in Hre. injection Hre as _ <-. eauto. }
  exists per. split; [done|]. split.
  - intros r l Hrl. destruct (left_dir_read join bar (r, l) (Hok _ Hrl)) as (d & ro & E & Hro & Hg). cbn [fst snd] in *.
    exists ro. split; [done|]. rewrite (gated_collect_get _ _ _ _ _ r.2 r.1 Hper).
    pose proof (Hin _ _ Hrl E) as Hd.
    rewrite (omap_unique _ _ (run_name r, d) (gated_entry_of (lr_meta l) ro)); [done|by rewrite Hl| | |].
    + rewrite entry_at_left, decide_True by (by destruct r). by rewrite Hg.
    + intros nd H [e He]. destruct (Hread nd H) as (rl & d' & _ & _ & -> & _). rewrite entry_at_left in He.
      case_decide as Hc; [|done]. assert (rl.1 = r) as Er by (rewrite Hc; by destruct r). rewrite Hl, Er in H. rewrite Er.
      pose proof (dget_elem _ _ _ Hnd' H) as H1. rewrite (dget_elem _ _ _ Hnd' Hd) in H1. by injection H1 as ->.
    + rewrite Hl. by eapply NoDup_fmap_1.
  - intros c s Hcs. rewrite (gated_collect_get _ _ _ _ _ c s Hper).
    replace (omap _ (dirs_by_name listing)) with (@nil gated_entry); [done|]. symmetry. apply omap_nil. intros nd H.
    destruct (Hread nd H) as (rl & d & _ & Hrl & -> & _). rewrite entry_at_left, decide_False; [done|].
    intros E. apply Hcs. rewrite <- E. apply list_elem_of_fmap. eauto.
Qed.

Definition demo_left : left_run :=
  mkLeft 100 demo_rows demo_tele_rows
    (mkGatedMeta (mkGMeta (Some (1 # 2)) (Some 40%Q) None None) (Some true) (Some 31%Q) (Some 2)).

Lemma gated_report_of_runs_witness :
  exists dirs per ro, rmapM left_dir [((7, Baseline)%N, demo_left); ((7, Chaos)%N, demo_left)] = Ok dirs /\
    gated_collect Nearest (95 # 100) [] (dirs_by_name (rev dirs)) = Some (Ok per) /\
    rounds_of Nearest (95 # 100) Chaos demo_left = Ok ro /\
    per_get Chaos 7 per = Some (gated_entry_of (lr_meta demo_left) ro) /\ per_get Quiesce 7 per = None.
Proof.
  destruct (gated_report_of_runs Nearest (95 # 100) [((7, Baseline)%N, demo_left); ((7, Chaos)%N, demo_left)])
    as (dirs & Hd & H).
  - decide_now.
  - assert (left_ok demo_left) as Hok by (repeat constructor; try done; by vm_compute).
    apply Forall_cons_2; [exact Hok|]. apply Forall_cons_2; [exact Hok|]. apply Forall_nil_2.
  - destruct (H (rev dirs)) as (per & Hp & H1 & H2); [symmetry; apply Permutation_rev|].
    destruct (H1 (7, Chaos)%N demo_left) as (ro & Hr & Hg); [right; by left|].
    exists dirs, per, ro. refine (conj Hd (conj Hp (conj Hr (conj Hg _)))). apply H2. decide_now.
Defined.

(** ** Run 0 *)

Lemma Qmax_list_lt hi d l : (Qmax_list d l < hi)%Q <-> forall q, q ∈ d :: l -> (q < hi)%Q.
Proof.
  unfold Qmax_list. revert d. induction l as [|x l IH]; intros d; cbn [foldl].
  - split; [intros H q ->%list_elem_of_singleton; done|intros H; apply H; by left].
  - rewrite IH. setoid_rewrite elem_of_cons. setoid_rewrite elem_of_cons. split.
    + intros H q Hq. assert (Qmax d x < hi)%Q as Hm by (apply H; by left).
      destruct Hq as [->|[->|Hq]]; [|..|apply H; by right]; eapply Qle_lt_trans; [|exact Hm| |exact Hm]; [apply Q.le_max_l|apply Q.le_max_r].
    + intros H q [->|Hq]; [|apply H; auto]. destruct (Q.max_spec d x) as [[_ E]|[_ E]]; rewrite E; apply H; auto.
Qed.

Lemma prediction_holds_iff deltas :
  prediction_holds deltas = true <-> (exists q, Some q ∈ deltas) /\ forall q, Some q ∈ deltas -> (q < 0)%Q.
Proof.
  assert (forall q, q ∈ omap id deltas <-> Some q ∈ deltas) as Hin.
  { intros q. rewrite list_elem_of_omap. split; [intros (x & Hx & E); unfold id in E; by subst|]. intros H. by exists (Some q). }
  unfold prediction_holds. destruct (omap id deltas) as [|d ds] eqn:E.
  { split; [done|]. intros [[q Hq] _]. apply Hin in Hq. by apply not_elem_of_nil in Hq. }
  rewrite Qltb_lt. cbn [max1]. rewrite Qmax_list_lt. split.
  - intros H. split; [exists d; apply Hin; by left|]. intros q Hq%Hin. by apply H.
  - intros [_ H] q Hq. by apply H, Hin.
Qed.

(** ** The gate pilot *)

(** A cell of the gate pilot whose gate never closed is put under the threshold it was run
    with, which its directory's name says; but every such cell is reported as a chaos run, the
    ones without chaos too, because "nochaos" contains "chaos". *)
Theorem failed_cells_placed mf :
  Forall (fun c => gl_thr (failed_line (lit (cl_name c)) mf) = Z.of_N <$> cl_thr c /\
                   gl_chaos (failed_line (lit (cl_name c)) mf) = true) cells /\
  exists c, c ∈ cells /\ "--no-chaos"%string ∈ cl_extra c.
Proof.
  split.
  - change (Forall (fun c => gate_thr (lit (cl_name c)) = Z.of_N <$> cl_thr c /\
                             name_has_chaos (lit (cl_name c)) = true) cells). decide_now.
  - exists (mkCell (cell_name None 100000 SEED0 "nochaos") None 100000 SEED0 ["--no-chaos"%string]).
    split; [|decide_now]. vm_compute. apply list_elem_of_here.
Qed.

Lemma sum_counts (p : gate_line -> bool) (ts : list (option Z)) gated :
  NoDup ts -> (forall r, r ∈ gated -> gl_thr r ∈ ts) ->
  sum_list ((fun t => length (List.filter p (List.filter (same_thr t) gated))) <$> ts) = length (List.filter p gated).
Proof.
  intros Hnd Hin. induction gated as [|r gated IH].
  { cbn. clear. induction ts as [|t ts IH]; csimpl; lia. }
  specialize (IH (fun r' H => Hin r' (list_elem_of_further _ _ _ H))).
  assert (gl_thr r ∈ ts) as Hr by (apply Hin; by left). clear Hin.
  assert (sum_list ((fun t => length (List.filter p (List.filter (same_thr t) (r :: gated)))) <$> ts) =
          (if p r then 1 else 0) + sum_list ((fun t => length (List.filter p (List.filter (same_thr t) gated))) <$> ts)) as ->.
  { clear IH. apply list_elem_of_split in Hr as (t1 & t2 & ->).
    apply NoDup_app in Hnd as (_ & Hn1 & Hn2). apply NoDup_cons in Hn2 as [Hn2 _].
    assert (forall ts' : list (option Z), gl_thr r ∉ ts' ->
      (fun t => length (List.filter p (List.filter (same_thr t) (r :: gated)))) <$> ts' =
      (fun t => length (List.filter p (List.filter (same_thr t) gated))) <$> ts') as Hother.
    { intros ts' H. apply list_fmap_ext. intros i t Ht. cbn [List.filter]. unfold same_thr at 1.
      rewrite bool_decide_false; [done|]. intros E. apply H. rewrite E. by eapply list_elem_of_lookup_2. }
    rewrite !fmap_app, !fmap_cons, !sum_list_with_app. cbn [sum_list_with].
    rewrite (Hother t1), (Hother t2); [|done|intros H; by apply (Hn1 _ H); left].
    cbn [List.filter]. unfold same_thr at 2. rewrite bool_decide_true by done. cbn [List.filter]. destruct (p r); cbn [length]; unfold id; lia. }
  rewrite IH. cbn [List.filter]. destruct (p r); done.
Qed.

(** The summary of the gate pilot loses no run: the thresholds are listed once each, the runs
    of its lines add up to the gated runs, and those said to have closed to the gates that did;
    the exit status is 1 exactly when there is nothing to report. *)
Theorem gate_report_complete dirs :
  let '(code, runs, ts) := gate_report dirs in
  let gated := List.filter gl_gated runs in
  (code = 1%Z <-> omap dir_line dirs = []) /\ runs = omap dir_line dirs /\
  NoDup (ts_thr <$> ts) /\ (forall t, t ∈ ts_thr <$> ts <-> t ∈ gl_thr <$> gated) /\
  sum_list (ts_runs <$> ts) = length gated /\
  sum_list (ts_closed <$> ts) = length (List.filter gl_closed gated).
Proof.
  unfold gate_report. destruct (omap dir_line dirs) as [|r runs]; [by split_and!; constructor|].
  set (rs := r :: runs). set (gated := List.filter gl_gated rs).
  unfold gate_summaries. set (ts := sorted thr_leb (remove_dups (gl_thr <$> gated))).
  assert (NoDup ts) as Hnd by (apply sorted_NoDup, NoDup_remove_dups).
  assert (forall t, t ∈ ts <-> t ∈ gl_thr <$> gated) as Hts by (intros t; unfold ts; by rewrite sorted_perm, elem_of_remove_dups).
  assert (forall x, x ∈ gated -> gl_thr x ∈ ts) as Hin by (intros x Hx; apply Hts, list_elem_of_fmap; eauto).
  rewrite <- !list_fmap_compose. unfold compose. cbn [summary_of ts_thr ts_runs ts_closed]. rewrite list_fmap_id.
  split_and!; [done|done|done|done| |by apply sum_counts].
  pose proof (sum_counts (fun _ => true) ts gated Hnd Hin) as H.
  assert (forall l : list gate_line, List.filter (fun _ => true) l = l) as E by (induction l as [|x l IH]; csimpl; congruence).
  rewrite E in H. rewrite <- H. f_equal. apply list_fmap_ext. intros i t _. by rewrite E.
Qed.
